(* ===== verification/_CoqProject ===== *)
-Q . S2P
Prelude.v
Text.v
Lossy.v
Primitives.v
Duration.v
Identifier.v
States.v
Recurrence.v
Calendar.v
Execution.v
JobAgg.v
RunAgg.v
Heap.v
Sqlite.v
JobStore.v
RunStore.v
Reconcile.v
Retention.v
Progress.v
JobProgress.v
Recovery.v
Loop.v
Capture.v
Config.v
Process.v
Management.v
Services.v
Terminal.v
Clock.v
Spawn.v
Native.v
MacProcess.v
History.v
Monitor.v
Frame.v
Daemon.v
Submit.v
Views.v
Commands.v
Args.v
ServiceFile.v
Systemd.v
Launchd.v
Paths.v
Children.v
Ipc.v
Doctor.v
Cli.v
Launch.v
Manual.v
Sbom.v
Tasks.v
Lock.v
Database.v
Cancel.v
System.v
Session.v
Completion.v
Cycle.v
Execute.v
