(* ===== verification/Prelude.v ===== *)
(** * ATX: a verification library for the local command scheduler

    ATX ([src/src/], Rust) runs commands later.  A command line process builds a
    job and commits it to a SQLite database; a supervisor process keeps the
    deadlines of the jobs and, when one is due, claims a run in the database
    and starts a monitor process; the monitor executes the command, captures
    its output and records the outcome.  The processes share the database and
    talk over a Unix socket; after a crash the supervisor repairs what it
    finds.  File names below are relative to [src/src/].

    ** The files

    This file: results and their monad, machine integers with their checked
    operations, byte strings, and list lemmas.  [Text] and [Lossy]: what the
    source uses of Rust's texts, of its lossy decoding and of its paths.

    The domain ([domain/]), pure values with their invariants:
    - [Primitives], [Duration], [Identifier]: texts, counters, timestamps,
      durations and identifiers;
    - [States]: the two state machines ([state.rs], [transition.rs]);
    - [Recurrence], [Calendar]: schedules, the fixed-rate grid, calendar times;
    - [Execution]: the specification of a command; [JobAgg] and [RunAgg]: the
      aggregates [job.rs] and [run.rs].

    The database ([infrastructure/sqlite/]): [Sqlite] is the schema and the
    monad of the stores, in which other processes may write before every
    statement outside a transaction and any statement may fail.  [JobStore],
    [RunStore], [Management], [Retention] and [Recovery] (with [Reconcile], the
    plan of [application/reconcile.rs]) are its operations, whole; [Progress]
    (runs) and [JobProgress] (jobs and claims) show what they achieve when
    nothing interferes; [Database] is the opening of the file and its
    migrations.

    The services ([application/]): [Services] has one class per port, the
    laws that a service needs of it, and the services themselves; the SQLite
    stores, the socket client and the service managers are instances.
    [History] reads the output of a run.

    The supervisor ([supervisor/]): [Heap] and [Loop] are the deadlines and
    the event loop, [Daemon] the execution of due jobs, [Children] the reaping
    of monitors, [Frame] and [Ipc] the wake protocol, [Lock] the guard that keeps
    a second supervisor away.  The monitor ([run_monitor/]): [Monitor],
    [Capture], and [Terminal] for the echo on the submitter's terminal.
    Processes ([infrastructure/process/]): [Process], [Spawn] and [MacProcess];
    [Native] is the Linux inspector as recovery and spawn use it.

    The commands ([cli/]): [Args] is the command line ([args.rs]), [Submit] goes
    from the parsed arguments to the submitted job, [Cancel] cancels a job,
    [Commands] is every other command of [dispatch.rs], [Doctor] its diagnosis,
    [Views] what is shown ([view.rs], [human.rs], [json.rs]), [Cli] the whole
    command, from the arguments of the process to its output and exit code, and
    [Launch] the copies of itself that the program starts.

    The platform ([infrastructure/]): [Config] is [config/], [Paths] is [paths/]
    with the files of [runtime/], [Clock] is [time/], [ServiceFile] what the two
    service managers share, [Systemd] and [Launchd] the managers themselves.

    Outside the program ([src/xtask/], [src/fuzz/]): [Sbom] is the check of a
    bill of materials against what cargo resolves ([sbom.rs]), [Tasks] the build
    tasks around it ([main.rs]), [Manual] the manual pages and the completion
    scripts that [dispatch.rs] exports; the fuzz target that asserts something
    is at the end of [Execution].

    The compositions: [System] puts recovery, execution and the monitor on one
    database; [Session] is the life of a supervisor, its three threads over
    their channel in every interleaving of their turns; [Execute] is the
    execution of a run on Linux over its log files, the inspector, the spawn, the
    capture and the echo; [Completion] is a due job from its deadline to its
    end, the supervisor and then the monitor on one database that nobody else
    writes, and [Cycle] a recurring job, one such execution after the other,
    for any number of rounds.  A turn is atomic in [Session]: the interleavings
    inside a database operation are those of [Sqlite], and a wait that an event
    ends is a turn after the event.

    ** How state and operations correspond to the code

    A method that takes [&mut self] or [self] is a function that returns the new
    value; a handler is one definition with the guards and the early returns of
    the source, in its order.  An error is a value of an inductive type with the
    source's constructors; where the source keeps the text of an error, the
    model often keeps the error.  Integers are [Z] with their ranges written
    out, [usize] indices are [nat].  A file, a socket, a clock, a child process
    or a command that the source asks something of is an argument: either the
    list of its next answers, failures included, or a function on a state of
    its own.  Theorems quantify over those answers.  What the program uses of
    [jiff], [serde_json], [toml] and SQLite is a class or a parameter with its
    documented laws ([Jiff], [Civil], [ExecutionJson], [Serde], [MessageJson]),
    each with a concrete instance for the witnesses.

    ** What the theorems show

    - One execution: a run is claimed at most once for one occurrence of a job
      ([RunStore.claim_run_spec]), a monitor is started at most once for it
      ([Session.session_serves], [Daemon.spawned_at_most_once]), a job that has
      ended stays so ([States.job_at_most_once]), the monitor brings its run to
      the right end ([Monitor.monitor_ends_run]), on Linux with its logs, its
      command and its echo ([Execute.run_executed]), and its command is the leader
      of its own group or is reaped ([Spawn.spawn_owns_child]).  Without
      interference a due job is executed to its end, and a recurring one waits
      for its next occurrence, which the supervisor then schedules
      ([Completion.due_job_completes]); round after round it runs each of its
      occurrences once and in order ([Cycle.recurring_job_repeats]).
    - The stores implement abstract updates under every interleaving and
      failure ([JobStore], [RunStore], [Management], [Retention],
      [Recovery.apply_recovery_spec]), and startup leaves no run without an
      owner ([Recovery.startup_leaves_no_orphan]), on Linux a monitor that [/proc]
      lists ([Native.linux_startup], [Native.linux_verdict]).
    - The loop behaves as one over the set of pending deadlines
      ([Loop.supervisor_loop_spec], over [Heap.heap_refines_map]); in a whole
      session no scheduled job is forgotten and each is reached in boundedly
      many turns ([Session.session_serves]).
    - Cancellation commits before it signals and never signals a process that
      it has not just validated ([Cancel], [Process]).
    - A submission is supervised exactly when the supervisor has loaded it
      ([Ipc.submission_supervised]); the submitted job is the one that the
      arguments describe ([Submit.schedule_spec]); the configuration is well
      formed ([Config.load_config_spec]).
    - The command line keeps its contract with scripts
      ([Cli.run_contract], [Commands.management_channels]): the order of its
      arguments ([Args.normalize_order]), its channels, documented exit codes,
      JSON documents on one line, the policy of its output
      ([Cli.output_policy_spec]) and its diagnosis ([Doctor.doctor_verdict]); the
      copies it starts parse exactly what they are told ([Launch.child_handoff]).
    - What the program creates is its own and private
      ([Paths.run_artifacts_private], [Database.open_database_spec],
      [Systemd.service_unit_safe], [Launchd.agent_file_safe]), what it shows is
      confined ([History.read_run_output_confined]), without the values of the
      environment ([Views.views_hide_environment]) and without control
      sequences on a terminal ([Terminal.echo_safe]), and at most one supervisor
      holds the lock it has created ([Lock.lock_exclusive]).
    - The release gate accepts exactly the bills of materials that its rules
      describe ([Tasks.check_spec]); the manual pages are written by the program
      just built ([Tasks.dist_man_runs_built]) and normalized
      ([Manual.export_man_pages_spec]).
    - Round trips of every stored or sent form, grammars of the parsed texts,
      and bounds of the arithmetic.
    - Some theorems state behaviour that the source does not mean to have:
      [System.run_latest_stalls], [Cancel.cancel_race],
      [Systemd.stopped_service_removed], and the examples and lemmas
      [Lock.lock_race], [Daemon.retries_never_exhaust],
      [Recovery.recovery_clock], [Database.open_raced_ex],
      [MacProcess.zombie_same_identity], [Session.idle_race_ex],
      [Native.unreadable_name], [Tasks.disconnected_ex],
      [Execution.fuzz_assertions_exact].

    ** Bounds and fuel

    Recursion that is not structural takes fuel, and a theorem shows that the
    fuel given is enough: the sifts of the heap take its length, parsers the
    length of their text (each step consumes a byte), the reaping of children
    the number of children (each turn removes one).  The bounds of the source
    stay bounds of the model: three attempts to load a woken job, ten to set up
    a schema, eight requests of a cancellation.  A text in which an occurrence
    is replaced by less gets shorter, so its length is fuel for the repetition.
    A loop that ends by the clock takes the list of its clock readings, and the
    end of the list is the deadline.

    ** Not modelled, and why

    - The parser that clap derives from [cli/args.rs], its help texts, the
      completion scripts and the pages that it renders: generated; what they
      return is an argument.
    - The text of a JSON document and of a local time: [serde_json] and [jiff];
      the values printed are modelled.
    - System calls themselves: fork and exec, signals and their handlers, the
      start of threads, the system calls of the clocks and of the terminal;
      their answers are arguments.
    - The fuzz targets without assertions, which call a total function of the
      model and drop its result; tests.
    - Accessors, trait declarations, the [Display] texts of errors that the
      model keeps as values, and code that exists in test builds only. *)

From Stdlib Require Export ZArith Lia.
From Stdlib Require Import Ascii String.
From stdpp Require Export base decidable option list gmap sorting.
Export StringSyntax.

(** ** Results

    Rust's [Result<A, E>], with the error type first so that [result E] is a
    monad; stdpp's [x ← m; k] is the [?] operator. *)

Inductive result (E A : Type) : Type :=
| Ok (a : A)
| Err (e : E).
Arguments Ok {E A} a.
Arguments Err {E A} e.

#[export] Instance result_eq_dec `{EqDecision E} `{EqDecision A} : EqDecision (result E A).
Proof. solve_decision. Defined.

#[export] Instance result_ret E : MRet (result E) := fun A a => Ok a.
#[export] Instance result_bind E : MBind (result E) := fun A B f m =>
  match m with Ok a => f a | Err e => Err e end.
#[export] Instance result_fmap E : FMap (result E) := fun A B f m =>
  match m with Ok a => Ok (f a) | Err e => Err e end.

Definition map_err {E F A} (f : E -> F) (m : result E A) : result F A :=
  match m with Ok a => Ok a | Err e => Err (f e) end.

Definition ok_or {E A} (o : option A) (e : E) : result E A :=
  match o with Some a => Ok a | None => Err e end.

Definition is_ok {E A} (m : result E A) : bool :=
  match m with Ok _ => true | Err _ => false end.

(** [Option::is_some], [Option::is_some_and] *)
Definition is_some {A} (o : option A) : bool := match o with Some _ => true | None => false end.
Definition is_some_and {A} (o : option A) (p : A -> bool) : bool :=
  match o with Some a => p a | None => false end.

Lemma ok_inj {E A} (a b : A) : @Ok E A a = Ok b -> a = b.
Proof. by intros [=]. Qed.

Lemma bind_ok {E A B} (m : result E A) (f : A -> result E B) b :
  m ≫= f = Ok b <-> exists a, m = Ok a /\ f a = Ok b.
Proof. destruct m; simpl; naive_solver. Qed.

Lemma bind_err {E A B} (m : result E A) (f : A -> result E B) e :
  m ≫= f = Err e <-> m = Err e \/ exists a, m = Ok a /\ f a = Err e.
Proof. destruct m; simpl; naive_solver. Qed.

Lemma map_err_ok {E F A} (f : E -> F) (m : result E A) a :
  map_err f m = Ok a <-> m = Ok a.
Proof. destruct m; simpl; naive_solver. Qed.

Lemma map_err_err {E F A} (f : E -> F) (m : result E A) e :
  map_err f m = Err e <-> exists e', m = Err e' /\ e = f e'.
Proof. destruct m; simpl; naive_solver. Qed.

Lemma ok_or_ok {E A} (o : option A) (e : E) a : ok_or o e = Ok a <-> o = Some a.
Proof. destruct o; simpl; naive_solver. Qed.

Lemma ok_or_err {E A} (o : option A) (e e' : E) : ok_or o e = Err e' <-> o = None /\ e = e'.
Proof. destruct o; simpl; naive_solver. Qed.

Lemma fmap_ok {E A B} (f : A -> B) (m : result E A) b :
  f <$> m = Ok b <-> exists a, m = Ok a /\ b = f a.
Proof. destruct m; simpl; naive_solver. Qed.

(** Traversal of a list with a fallible function, in order, stopping at the
    first error: [iter.map(f).collect::<Result<Vec<_>, _>>()]. *)
Fixpoint map_result {E A B} (f : A -> result E B) (l : list A) : result E (list B) :=
  match l with
  | [] => Ok []
  | x :: xs => y ← f x; ys ← map_result f xs; Ok (y :: ys)
  end.

Lemma map_result_ok {E A B} (f : A -> result E B) l l' :
  map_result f l = Ok l' <-> Forall2 (fun x y => f x = Ok y) l l'.
Proof.
  revert l'; induction l as [|x l IH]; intros l'; simpl.
  - split; [intros [= <-]; constructor | by inversion 1].
  - rewrite bind_ok. split.
    + intros (y & Hy & (ys & Hys & [= <-])%bind_ok). constructor; [done | by apply IH].
    + inversion 1 as [|? y ? ys Hy Hys]; subst. exists y. split; [done|].
      apply bind_ok. exists ys. split; [by apply IH | done].
Qed.

(** ** Machine integers

    Integers are [Z] (ids, counters, nanoseconds) and [nat] (indices and
    lengths); the checked operations of Rust go through [checked lo hi]. *)
Open Scope Z_scope.

Definition u16_max : Z := 2 ^ 16 - 1.
Definition u32_max : Z := 2 ^ 32 - 1.
Definition u64_max : Z := 2 ^ 64 - 1.
Definition u128_max : Z := 2 ^ 128 - 1.
Definition i8_max : Z := 2 ^ 7 - 1.
Definition i16_max : Z := 2 ^ 15 - 1.
Definition i64_max : Z := 2 ^ 63 - 1.
Definition i128_max : Z := 2 ^ 127 - 1.
Definition i128_min : Z := - 2 ^ 127.

Definition in_range (lo hi z : Z) : bool := (lo <=? z) && (z <=? hi).

Definition checked (lo hi z : Z) : option Z := if in_range lo hi z then Some z else None.

Abbreviation checked_u64 := (checked 0 u64_max).
Abbreviation checked_u128 := (checked 0 u128_max).
Abbreviation checked_i128 := (checked i128_min i128_max).

Lemma in_range_spec lo hi z : in_range lo hi z = true <-> lo <= z <= hi.
Proof. unfold in_range. rewrite andb_true_iff, !Z.leb_le. done. Qed.

Lemma in_range_false lo hi z : in_range lo hi z = false <-> z < lo \/ hi < z.
Proof.
  unfold in_range. rewrite andb_false_iff, !Z.leb_gt. done.
Qed.

Lemma checked_Some lo hi z z' : checked lo hi z = Some z' <-> z' = z /\ lo <= z <= hi.
Proof.
  unfold checked. destruct (in_range lo hi z) eqn:E.
  - apply in_range_spec in E. naive_solver.
  - apply in_range_false in E. split; [done | lia].
Qed.

Lemma checked_in lo hi z : lo <= z <= hi -> checked lo hi z = Some z.
Proof. intros. by apply checked_Some. Qed.

Lemma checked_None lo hi z : checked lo hi z = None <-> z < lo \/ hi < z.
Proof. unfold checked. rewrite <- in_range_false. by destruct in_range. Qed.

(** ** Byte strings

    A Rust [String] or [&str] is its UTF-8 byte sequence; a byte is a [Z] in
    [0..255].  [lit] gives the bytes of an ASCII literal. *)
Abbreviation str := (list Z).
Abbreviation len s := (Z.of_nat (length s)).

Fixpoint lit (s : string) : str :=
  match s with
  | EmptyString => []
  | String c s => Z.of_nat (nat_of_ascii c) :: lit s
  end.

Arguments lit s%_string_scope.

Definition contains_byte (b : Z) (s : str) : bool := existsb (Z.eqb b) s.
Lemma contains_byte_app c s t : contains_byte c (s ++ t) = contains_byte c s || contains_byte c t.
Proof. apply existsb_app. Qed.
Abbreviation contains_nul := (contains_byte 0).

Definition is_empty {A} (s : list A) : bool := match s with [] => true | _ => false end.

Definition is_ascii_digit (b : Z) : bool := in_range 48 57 b.
Definition is_ascii_lower (b : Z) : bool := in_range 97 122 b.
Definition is_ascii_upper (b : Z) : bool := in_range 65 90 b.
Definition is_ascii_alphabetic (b : Z) : bool := is_ascii_lower b || is_ascii_upper b.
Definition is_ascii_alphanumeric (b : Z) : bool := is_ascii_alphabetic b || is_ascii_digit b.
Definition to_ascii_lowercase (b : Z) : Z := if is_ascii_upper b then b + 32 else b.

(** [u8::is_ascii_whitespace]: space, tab, line feed, form feed, return. *)
Definition is_ascii_whitespace (b : Z) : bool :=
  (b =? 32) || (b =? 9) || (b =? 10) || (b =? 12) || (b =? 13).

(** [str::chars().count()]: the bytes that start a scalar value, i.e. all but
    the UTF-8 continuation bytes [0x80..0xBF]. *)
Definition chars_count (s : str) : nat :=
  length (List.filter (fun b => negb (in_range 128 191 b)) s).

(** [iter().take_while(p)]: the longest prefix and the rest. *)
Fixpoint span (p : Z -> bool) (s : str) : str * str :=
  match s with
  | [] => ([], [])
  | b :: s' => if p b then let '(l, r) := span p s' in (b :: l, r) else ([], s)
  end.

Lemma span_app p s : (span p s).1 ++ (span p s).2 = s.
Proof.
  induction s as [|b s IH]; [done|]. simpl. destruct (p b); [|done].
  destruct (span p s); simpl in *. by rewrite IH.
Qed.

Lemma span_forall p s : Forall (fun b => p b = true) (span p s).1.
Proof.
  induction s as [|b s IH]; [constructor|]. simpl. destruct (p b) eqn:E; [|constructor].
  destruct (span p s); simpl in *. by constructor.
Qed.

Lemma span_head p s b r : (span p s).2 = b :: r -> p b = false.
Proof.
  induction s as [|c s IH]; [done|]. simpl. destruct (p c) eqn:E.
  - destruct (span p s); simpl in *. done.
  - simpl. naive_solver.
Qed.

(** A prefix that satisfies [p] followed by something that does not. *)
Lemma span_prefix p l r :
  Forall (fun b => p b = true) l ->
  (forall b r', r = b :: r' -> p b = false) -> span p (l ++ r) = (l, r).
Proof.
  intros Hl Hr. induction Hl as [|b l Hb Hl IH]; simpl.
  - destruct r as [|b r']; [done|]. simpl. by rewrite (Hr b r').
  - by rewrite Hb, IH.
Qed.

(** Lexicographic comparison of byte strings, Rust's [Ord] for [str] and
    SQLite's BINARY collation. *)
Fixpoint str_compare (a b : str) : comparison :=
  match a, b with
  | [], [] => Eq
  | [], _ => Lt
  | _, [] => Gt
  | x :: a', y :: b' => match x ?= y with Eq => str_compare a' b' | c => c end
  end.
Definition str_ltb (a b : str) : bool :=
  match str_compare a b with Lt => true | _ => false end.

Lemma forallb_Forall {A} (f : A -> bool) l : forallb f l = true <-> Forall (fun x => f x = true) l.
Proof.
  induction l as [|x l IH]; simpl; [by split|].
  rewrite andb_true_iff, IH, Forall_cons. done.
Qed.

(** ** Lists of rows *)

(** A filter that keeps one element keeps the one we know. *)
Lemma filter_one {A} (p : A -> bool) l1 x l2 :
  p x = true -> length (List.filter p (l1 ++ x :: l2)) = 1%nat ->
  Forall (fun y => p y = false) l1 /\ Forall (fun y => p y = false) l2.
Proof.
  intros Hx. rewrite List.filter_app, length_app. simpl. rewrite Hx. simpl. intros Hlen.
  assert (forall l, length (List.filter p l) = 0%nat -> Forall (fun y => p y = false) l) as Hnone.
  { induction l as [|y l IH]; simpl; [constructor|]. destruct (p y) eqn:E; simpl; [done|].
    intros. constructor; auto. }
  split; apply Hnone; lia.
Qed.

Lemma map_if_none {A} (p : A -> bool) (f : A -> A) l :
  Forall (fun y => p y = false) l -> map (fun y => if p y then f y else y) l = l.
Proof. induction 1 as [|y l Hy Hl IH]; simpl; [done|]. by rewrite Hy, IH. Qed.

Lemma list_find_split {A} (P : A -> Prop) `{forall x, Decision (P x)} l i x :
  list_find P l = Some (i, x) ->
  exists l1 l2, l = l1 ++ x :: l2 /\ P x /\ Forall (fun y => ~ P y) l1.
Proof.
  intros (Hl & HP & Hmin)%list_find_Some. exists (take i l), (drop (S i) l).
  split; [by rewrite take_drop_middle|]. split; [done|].
  apply Forall_lookup. intros k y [Hk Hlt]%lookup_take_Some. by eapply Hmin.
Qed.

Lemma list_find_app_r {A} (P : A -> Prop) `{forall x, Decision (P x)} l1 x l2 :
  Forall (fun y => ~ P y) l1 -> P x -> list_find P (l1 ++ x :: l2) = Some (length l1, x).
Proof.
  intros Hl Hx. apply list_find_Some. split; [by apply list_lookup_middle|]. split; [done|].
  intros j y Hj Hlt. rewrite lookup_app_l in Hj by done.
  rewrite Forall_lookup in Hl. by eapply Hl.
Qed.

Lemma filter_single {A} (p : A -> bool) l :
  length (List.filter p l) = 1%nat ->
  exists l1 x l2, l = l1 ++ x :: l2 /\ p x = true /\
    Forall (fun y => p y = false) l1 /\ Forall (fun y => p y = false) l2.
Proof.
  induction l as [|y l IH]; [done|]. simpl. destruct (p y) eqn:E.
  - intros Hlen. exists [], y, l. split; [done|]. split; [done|].
    apply (filter_one p [] y l E). simpl. by rewrite E.
  - intros Hlen. destruct (IH Hlen) as (l1 & x & l2 & -> & Hx & H1 & H2).
    exists (y :: l1), x, l2. split_and!; try done. by constructor.
Qed.
