(* ===== verification/Text.v ===== *)
(** Text operations of the Rust standard library that the program uses:
    [str::trim], decimal formatting of unsigned integers and [str::parse] for
    unsigned integers, with the round trip of the last two. *)

From S2P Require Import Prelude.

(** ** [str::trim]

    The length in bytes of the Unicode [White_Space] scalar at the head of a
    UTF-8 string, 0 when there is none. *)
Definition ws_len (s : str) : nat :=
  match s with
  | b :: r =>
    if in_range 9 13 b || (b =? 32) then 1%nat else
    match b, r with
    | 194, 133 :: _ | 194, 160 :: _ => 2%nat
    | 225, 154 :: 128 :: _ => 3%nat
    | 226, 128 :: c :: _ => if in_range 128 138 c || (c =? 168) || (c =? 169) || (c =? 175) then 3%nat else O
    | 226, 129 :: 159 :: _ => 3%nat
    | 227, 128 :: 128 :: _ => 3%nat
    | _, _ => O
    end
  | [] => O
  end.

(** The same at the end of a string given reversed. *)
Definition ws_len_rev (s : str) : nat :=
  match s with
  | b :: r =>
    if in_range 9 13 b || (b =? 32) then 1%nat else
    match b, r with
    | 133, 194 :: _ | 160, 194 :: _ => 2%nat
    | 128, 154 :: 225 :: _ => 3%nat
    | 159, 129 :: 226 :: _ => 3%nat
    | 128, 128 :: 227 :: _ => 3%nat
    | c, 128 :: 226 :: _ => if in_range 128 138 c || (c =? 168) || (c =? 169) || (c =? 175) then 3%nat else O
    | _, _ => O
    end
  | [] => O
  end.

(** [fuel] is the length: every step drops at least one byte. *)
Fixpoint strip (ws : str -> nat) (fuel : nat) (s : str) : str :=
  match fuel with
  | O => s
  | S fuel => match ws s with O => s | n => strip ws fuel (drop n s) end
  end.

Definition trim_start (s : str) : str := strip ws_len (length s) s.
Definition trim_end (s : str) : str := reverse (strip ws_len_rev (length s) (reverse s)).
Definition trim (s : str) : str := trim_end (trim_start s).

Lemma strip_id ws fuel s : ws s = O -> strip ws fuel s = s.
Proof. intros H. destruct fuel; simpl; [done | by rewrite H]. Qed.

(** Text that starts and ends with non-blank ASCII is its own trimming. *)
Definition ascii_graphic (b : Z) : bool := in_range 33 126 b.

Lemma ws_len_graphic b s : ascii_graphic b = true -> ws_len (b :: s) = O.
Proof.
  unfold ascii_graphic. intros H%in_range_spec. unfold ws_len.
  replace (in_range 9 13 b || (b =? 32)) with false.
  2:{ symmetry. apply orb_false_iff. rewrite in_range_false, Z.eqb_neq. lia. }
  repeat (case_match; try lia; try done).
Qed.

Lemma ws_len_rev_graphic b s : ascii_graphic b = true -> ws_len_rev (b :: s) = O.
Proof.
  unfold ascii_graphic. intros H%in_range_spec. unfold ws_len_rev.
  replace (in_range 9 13 b || (b =? 32)) with false.
  2:{ symmetry. apply orb_false_iff. rewrite in_range_false, Z.eqb_neq. lia. }
  assert (in_range 128 138 b = false) as E1 by (apply in_range_false; lia).
  assert ((b =? 168) = false) as E2 by (apply Z.eqb_neq; lia).
  assert ((b =? 169) = false) as E3 by (apply Z.eqb_neq; lia).
  assert ((b =? 175) = false) as E4 by (apply Z.eqb_neq; lia).
  rewrite E1, E2, E3, E4. simpl.
  repeat (case_match; try lia; try done).
Qed.

Lemma trim_graphic s b c :
  head s = Some b -> last s = Some c ->
  ascii_graphic b = true -> ascii_graphic c = true -> trim s = s.
Proof.
  intros Hh Hl Hb Hc. unfold trim, trim_start. rewrite strip_id.
  2:{ destruct s as [|b' s]; simplify_eq/=. by apply ws_len_graphic. }
  unfold trim_end. rewrite strip_id; [apply reverse_involutive|].
  apply last_Some in Hl as [l ->]. rewrite reverse_app. simpl.
  by apply ws_len_rev_graphic.
Qed.

(** ** Decimal *)

(** The digits of [n], most significant first; 40 digits are enough for a
    [u128]. *)
Fixpoint dec_digits (fuel : nat) (n : Z) (acc : str) : str :=
  match fuel with
  | O => acc
  | S fuel =>
    let acc' := (48 + n mod 10) :: acc in
    if n / 10 =? 0 then acc' else dec_digits fuel (n / 10) acc'
  end.
Definition show_dec (n : Z) : str := dec_digits 40 n [].

Definition dec_step (acc b : Z) : Z := acc * 10 + (b - 48).
Definition dec_value (s : str) : Z := fold_left dec_step s 0.

(** [str::parse::<uN>()]: an optional [+], then at least one digit, and a
    value that fits. *)
Definition parse_uint (hi : Z) (s : str) : option Z :=
  let ds := match s with 43 :: r => r | _ => s end in
  if is_empty ds || negb (forallb is_ascii_digit ds) then None
  else checked 0 hi (dec_value ds).

Lemma digit_mod n : is_ascii_digit (48 + n mod 10) = true.
Proof. apply in_range_spec. pose proof (Z.mod_pos_bound n 10). lia. Qed.

Lemma dec_digits_forall fuel n acc :
  Forall (fun b => is_ascii_digit b = true) acc ->
  Forall (fun b => is_ascii_digit b = true) (dec_digits fuel n acc).
Proof.
  revert n acc; induction fuel as [|fuel IH]; intros n acc H; simpl; [done|].
  pose proof (digit_mod n). destruct (n / 10 =? 0); [by constructor|].
  apply IH. by constructor.
Qed.

Lemma dec_digits_nonempty fuel n acc : fuel <> O -> dec_digits fuel n acc <> [].
Proof.
  assert (forall fuel n acc, acc <> [] -> dec_digits fuel n acc <> []) as H.
  { clear. induction fuel; intros n acc H; simpl; [done|]. destruct (n / 10 =? 0); [done|].
    by apply IHfuel. }
  destruct fuel; [done|]. intros _. simpl. destruct (n / 10 =? 0); [done|]. by apply H.
Qed.

Lemma dec_digits_value fuel n acc start :
  0 <= n < 10 ^ Z.of_nat fuel ->
  exists k, 0 <= k /\
    fold_left dec_step (dec_digits fuel n acc) start
    = fold_left dec_step acc (start * 10 ^ k + n).
Proof.
  revert n acc; induction fuel as [|fuel IH]; intros n acc Hn.
  { exists 0. simpl in *. replace n with 0 by lia. split; [lia|]. f_equal. lia. }
  simpl. pose proof (Z.div_mod n 10 ltac:(lia)) as Hdm.
  pose proof (Z.mod_pos_bound n 10 ltac:(lia)) as Hm.
  rewrite Nat2Z.inj_succ, Z.pow_succ_r in Hn by lia.
  destruct (n / 10 =? 0) eqn:E.
  - apply Z.eqb_eq in E. exists 1. split; [lia|]. simpl. f_equal. unfold dec_step. lia.
  - destruct (IH (n / 10) ((48 + n mod 10) :: acc)) as (k & Hk & ->).
    { split; [apply Z.div_pos; lia | apply Z.div_lt_upper_bound; lia]. }
    exists (k + 1). split; [lia|]. simpl. f_equal. unfold dec_step.
    rewrite Z.pow_add_r by lia. lia.
Qed.

Lemma show_dec_digits n : Forall (fun b => is_ascii_digit b = true) (show_dec n).
Proof. apply dec_digits_forall. constructor. Qed.

Lemma show_dec_nonempty n : show_dec n <> [].
Proof. by apply dec_digits_nonempty. Qed.

Lemma show_dec_value n : 0 <= n <= u128_max -> dec_value (show_dec n) = n.
Proof.
  intros Hn. unfold dec_value, show_dec.
  destruct (dec_digits_value 40 n [] 0) as (k & Hk & ->); [|simpl; lia].
  assert (u128_max < 10 ^ Z.of_nat 40) by (vm_compute; done). lia.
Qed.

(** Formatting and parsing of unsigned integers round trip. *)
Lemma parse_show_dec hi n : hi <= u128_max -> 0 <= n <= hi -> parse_uint hi (show_dec n) = Some n.
Proof.
  intros Hhi Hn. unfold parse_uint.
  pose proof (show_dec_digits n) as Hd. pose proof (show_dec_nonempty n) as Hne.
  pose proof (show_dec_value n ltac:(lia)) as Hv.
  assert (match show_dec n with 43 :: r => r | _ => show_dec n end = show_dec n) as ->.
  { destruct (show_dec n) as [|b r]; [done|]. inversion Hd as [|? ? H1 ?]; subst.
    apply in_range_spec in H1. repeat (case_match; try lia; try done). }
  replace (is_empty (show_dec n)) with false by (by destruct (show_dec n)).
  replace (forallb is_ascii_digit (show_dec n)) with true.
  - simpl. rewrite Hv. by apply checked_in.
  - symmetry. by apply forallb_Forall.
Qed.

(** [{}] of a signed integer. *)
Definition show_int (n : Z) : str := if n <? 0 then 45 :: show_dec (- n) else show_dec n.

Lemma show_dec_no_nul n : contains_nul (show_dec n) = false.
Proof.
  pose proof (show_dec_digits n) as H. induction H as [|b s Hb Hs IH]; [done|]. apply in_range_spec in Hb.
  unfold contains_byte in *. cbn [existsb]. rewrite IH, orb_false_r. apply Z.eqb_neq. lia.
Qed.

Lemma show_int_no_nul n : contains_nul (show_int n) = false.
Proof.
  unfold show_int. destruct (n <? 0); [|apply show_dec_no_nul].
  change (45 :: show_dec (- n)) with ([45] ++ show_dec (- n)). by rewrite contains_byte_app, show_dec_no_nul.
Qed.

(** ** UTF-8

    The sequences accepted by [str::from_utf8]: no overlong forms, surrogates
    or values past U+10FFFF. *)
Definition utf8_cont (b : Z) : bool := in_range 128 191 b.
Definition utf8_scalar (s : str) : option str :=
  match s with
  | a :: r =>
    if in_range 0 127 a then Some r else
    match r with
    | b :: r1 =>
      if in_range 194 223 a && utf8_cont b then Some r1 else
      match r1 with
      | c :: r2 =>
        if ((a =? 224) && in_range 160 191 b || in_range 225 236 a && utf8_cont b
            || (a =? 237) && in_range 128 159 b || in_range 238 239 a && utf8_cont b)
           && utf8_cont c then Some r2 else
        match r2 with
        | d :: r3 =>
          if ((a =? 240) && in_range 144 191 b || in_range 241 243 a && utf8_cont b
              || (a =? 244) && in_range 128 143 b)
             && utf8_cont c && utf8_cont d then Some r3 else None
        | [] => None
        end
      | [] => None
      end
    | [] => None
    end
  | [] => None
  end.

(** [fuel] is the length: a scalar takes at least one byte. *)
Fixpoint utf8_loop (fuel : nat) (s : str) : bool :=
  match fuel, s with
  | _, [] => true
  | O, _ => false
  | S fuel, _ => match utf8_scalar s with Some r => utf8_loop fuel r | None => false end
  end.
Definition valid_utf8 (s : str) : bool := utf8_loop (length s) s.

Example valid_utf8_ex :
  map valid_utf8 [lit "/tmp"; [195; 169]; [226; 130; 172]; [240; 159; 146; 150]; [192; 128]; [237; 160; 128]; [255]]
  = [true; true; true; true; false; false; false].
Proof. reflexivity. Qed.

(** [Path::is_absolute] on Unix. *)
Definition is_absolute (path : str) : bool := match path with 47 :: _ => true | _ => false end.

(** [Path::join] on Unix. *)
Definition path_join (directory path : str) : str :=
  if is_absolute path then path else
  match last directory with
  | Some 47 | None => directory ++ path
  | _ => directory ++ 47 :: path
  end.

(** The separator that [join] adds. *)
Definition separator (directory : str) : str := match last directory with Some 47 | None => [] | _ => [47] end.
Lemma path_join_eq directory path :
  path_join directory path = if is_absolute path then path else directory ++ separator directory ++ path.
Proof. unfold path_join, separator. by repeat case_match. Qed.

Lemma path_join_relative a b : is_absolute a = false -> a <> [] -> is_absolute b = false -> is_absolute (path_join a b) = false.
Proof. intros Ha Hne Hb. rewrite path_join_eq, Hb. by destruct a as [|c a]. Qed.

Lemma separator_app a b : b <> [] -> separator (a ++ b) = separator b.
Proof.
  intros Hb. unfold separator. rewrite last_app. destruct (last b) eqn:E; [done|]. by apply last_None in E.
Qed.

Lemma path_join_assoc a b c :
  is_absolute b = false -> b <> [] -> is_absolute c = false ->
  path_join (path_join a b) c = path_join a (path_join b c).
Proof.
  intros Hb Hne Hc. rewrite !(path_join_eq _ (path_join b c)), path_join_relative by done.
  rewrite !path_join_eq, Hb, Hc. rewrite (app_assoc a), separator_app by done. by rewrite <- !app_assoc.
Qed.

(** [str::split]: the parts between the separators. *)
Fixpoint split_on (sep : Z) (s : str) : list str :=
  match s with
  | [] => [[]]
  | b :: r =>
    if b =? sep then [] :: split_on sep r
    else match split_on sep r with [] => [[b]] | w :: ws => (b :: w) :: ws end
  end.

Lemma split_on_app sep l r : contains_byte sep l = false -> split_on sep (l ++ sep :: r) = l :: split_on sep r.
Proof.
  induction l as [|b l IH]; [cbn; by rewrite Z.eqb_refl|]. change (b :: l) with ([b] ++ l). rewrite contains_byte_app.
  intros [Hb Hl]%orb_false_iff. cbn [app split_on]. unfold contains_byte in Hb. cbn [existsb] in Hb. rewrite orb_false_r in Hb.
  rewrite Z.eqb_sym in Hb. rewrite Hb, IH by done. done.
Qed.

Lemma split_on_single sep l : contains_byte sep l = false -> split_on sep l = [l].
Proof.
  induction l as [|b l IH]; [done|]. change (b :: l) with ([b] ++ l). rewrite contains_byte_app.
  intros [Hb Hl]%orb_false_iff. cbn [app split_on]. unfold contains_byte in Hb. cbn [existsb] in Hb. rewrite orb_false_r in Hb.
  rewrite Z.eqb_sym in Hb. by rewrite Hb, IH.
Qed.

(** [str::lines]: a line ends with a line feed, and with the carriage return
    before it; a text that ends with one has no empty last line. *)
Definition chomp (line : str) : str :=
  match reverse line with 13 :: r => reverse r | _ => line end.
Definition lines (s : str) : list str :=
  let parts := split_on 10 s in
  let last := List.last parts [] in
  map chomp (removelast parts) ++ (if is_empty last then [] else [last]).

(** [Path::components] on Unix: empty components and interior [.] are skipped,
    a leading [.] and every [..] are kept. *)
Inductive Component := CompRootDir | CompCurDir | CompParentDir | CompNormal (s : str).

Definition inner_component (w : str) : option Component :=
  match w with
  | [] | [46] => None
  | [46; 46] => Some CompParentDir
  | _ => Some (CompNormal w)
  end.

Definition components (path : str) : list Component :=
  let parts := split_on 47 path in
  (if is_absolute path then [CompRootDir]
   else match parts with [46] :: _ => [CompCurDir] | _ => [] end)
  ++ omap inner_component parts.

Definition is_normal (c : Component) : bool := match c with CompNormal _ => true | _ => false end.
