(* ===== verification/Lossy.v ===== *)
(** [String::from_utf8_lossy], the characters of a UTF-8 string and
    [str::is_char_boundary]: what [run_monitor/tty.rs] and [cli/view.rs] do to
    the bytes a command wrote. *)

From S2P Require Import Prelude Text.

(** How many bytes of an ill-formed sequence one replacement character
    stands for: the longest prefix of a well-formed sequence, at least 1
    ([core::str::lossy::Utf8Chunks]). *)
Definition second_byte (a b : Z) : bool :=
  (a =? 224) && in_range 160 191 b || in_range 225 236 a && utf8_cont b
  || (a =? 237) && in_range 128 159 b || in_range 238 239 a && utf8_cont b
  || (a =? 240) && in_range 144 191 b || in_range 241 243 a && utf8_cont b
  || (a =? 244) && in_range 128 143 b.
Definition ill_formed_len (s : str) : nat :=
  match s with
  | a :: b :: r =>
    if second_byte a b then
      match r with c :: _ => if in_range 240 244 a && utf8_cont c then 3%nat else 2%nat | [] => 2%nat end
    else 1%nat
  | _ => 1%nat
  end.

(** U+FFFD *)
Definition REPLACEMENT : str := [239; 191; 189].

(** The bytes of the first character. *)
Definition first_char (s rest : str) : str := take (length s - length rest) s.

(** [str::chars], each character as its bytes, of the longest valid prefix;
    [fuel] is the length. *)
Fixpoint chars_loop (fuel : nat) (s : str) : list str :=
  match fuel with
  | O => []
  | S fuel => match utf8_scalar s with Some r => first_char s r :: chars_loop fuel r | None => [] end
  end.
Definition chars (s : str) : list str := chars_loop (length s) s.

(** The characters of the decoded text; [fuel] is the length: a step consumes
    a byte. *)
Fixpoint lossy_loop (fuel : nat) (s : str) : list str :=
  match fuel, s with
  | O, _ | _, [] => []
  | S fuel, _ =>
    match utf8_scalar s with
    | Some r => first_char s r :: lossy_loop fuel r
    | None => REPLACEMENT :: lossy_loop fuel (drop (ill_formed_len s) s)
    end
  end.
Definition from_utf8_lossy (s : str) : str := concat (lossy_loop (length s) s).

Example from_utf8_lossy_ex :
  map from_utf8_lossy [lit "ok"; [195; 169]; [255; 65]; [226; 130; 65]; [240; 159; 146]; [237; 160; 128]]
  = [lit "ok"; [195; 169]; REPLACEMENT ++ [65]; REPLACEMENT ++ [65]; REPLACEMENT; REPLACEMENT ++ REPLACEMENT ++ REPLACEMENT].
Proof. reflexivity. Qed.

(** [str::is_char_boundary] *)
Definition is_char_boundary (s : str) (i : nat) : bool :=
  if (i =? 0)%nat then true else
  match s !! i with Some b => negb (utf8_cont b) | None => (i =? length s)%nat end.

(** [char::is_control]: U+0000 to U+001F and U+007F to U+009F. *)
Definition is_control (c : str) : bool :=
  match c with
  | [b] => in_range 0 31 b || (b =? 127)
  | [b; c] => (b =? 194) && in_range 128 159 c
  | _ => false
  end.

(** ** Characters

    A character: bytes that decode to one scalar value, with nothing left. *)
Definition is_char (c : str) : Prop := utf8_scalar c = Some [].

(** The shapes of a character: an ASCII byte, or a first byte, that is no
    continuation, and up to three that are. *)
Definition char_shape (c : str) : Prop :=
  exists a k, c = a :: k /\ Forall (fun b => utf8_cont b = true) k /\ (k = [] /\ 0 <= a <= 127 \/ k <> [] /\ 194 <= a <= 244).

Lemma utf8_scalar_inv s r :
  utf8_scalar s = Some r -> exists c, s = c ++ r /\ is_char c /\ (1 <= length c <= 4)%nat /\ char_shape c.
Proof.
  unfold is_char. destruct s as [|a s]; [done|]. simpl. intros H.
  assert (forall lo hi x, in_range lo hi x = true -> (128 <= lo)%Z -> (hi <= 191)%Z -> utf8_cont x = true) as Hc.
  { intros lo hi x Hx%in_range_spec ??. apply in_range_spec. lia. }
  destruct (in_range 0 127 a) eqn:Ea.
  { injection H as <-. exists [a]. simpl. rewrite Ea. split_and!; [done|done|lia|lia|]. exists a, [].
    split_and!; [done|done|left]. by apply in_range_spec in Ea. }
  destruct s as [|b s]; [done|]. destruct (in_range 194 223 a && utf8_cont b) eqn:Eb.
  { injection H as <-. exists [a; b]. simpl. rewrite Ea, Eb. split_and!; [done|done|lia|lia|]. exists a, [b].
    apply andb_true_iff in Eb as [E%in_range_spec ?]. split_and!; [done|by repeat constructor|right; split; [done|lia]]. }
  destruct s as [|c s]; [done|].
  match type of H with (if ?x then _ else _) = _ => destruct x eqn:Ec end.
  { injection H as <-. exists [a; b; c]. simpl. rewrite Ea, Eb, Ec. split_and!; [done|done|lia|lia|]. exists a, [b; c].
    apply andb_true_iff in Ec as [E Ec].
    rewrite !orb_true_iff, !andb_true_iff, !Z.eqb_eq, !in_range_spec in E.
    split_and!; [done| |right; split; [done|lia]]. repeat constructor; [|done].
    destruct E as [[[[? ?]|[? ?]]|[? ?]]|[? ?]]; try done; apply in_range_spec; lia. }
  destruct s as [|d s]; [done|].
  match type of H with (if ?x then _ else _) = _ => destruct x eqn:Ed end; [|done].
  injection H as <-. exists [a; b; c; d]. simpl. rewrite Ea, Eb, Ec, Ed. split_and!; [done|done|lia|lia|]. exists a, [b; c; d].
  apply andb_true_iff in Ed as [[E Ed]%andb_true_iff Ed'].
  rewrite !orb_true_iff, !andb_true_iff, !Z.eqb_eq, !in_range_spec in E.
  split_and!; [done| |right; split; [done|lia]]. repeat constructor; [|done..].
  destruct E as [[[? ?]|[? ?]]|[? ?]]; try done; apply in_range_spec; lia.
Qed.

Lemma is_char_app c r : is_char c -> utf8_scalar (c ++ r) = Some r.
Proof.
  unfold is_char. destruct c as [|a c]; [done|]. simpl.
  destruct (in_range 0 127 a); [by intros [= ->]|]. destruct c as [|b c]; [done|]. simpl.
  destruct (in_range 194 223 a && utf8_cont b); [by intros [= ->]|]. destruct c as [|d c]; [done|]. simpl.
  match goal with |- (if ?x then _ else _) = _ -> _ => destruct x end; [by intros [= ->]|].
  destruct c as [|e c]; [done|]. simpl.
  match goal with |- (if ?x then _ else _) = _ -> _ => destruct x end; by intros [= ->].
Qed.

Lemma is_char_inv c :
  is_char c -> (1 <= length c <= 4)%nat /\ char_shape c.
Proof.
  intros (c' & E & _ & ? & ?)%utf8_scalar_inv. rewrite app_nil_r in E. by subst.
Qed.

Lemma first_char_app c r : first_char (c ++ r) r = c.
Proof. unfold first_char. rewrite length_app, Nat.add_sub. by rewrite take_app_length. Qed.

Lemma replacement_char : is_char REPLACEMENT.
Proof. reflexivity. Qed.

Lemma char_step s r : utf8_scalar s = Some r -> is_char (first_char s r) /\ s = first_char s r ++ r /\ (length r < length s)%nat.
Proof.
  intros (c & -> & Hc & ? & _)%utf8_scalar_inv. rewrite first_char_app. split_and!; [done..|]. rewrite length_app. lia.
Qed.

(** ** Texts as lists of characters *)

Lemma chars_concat cs : Forall is_char cs -> chars (concat cs) = cs.
Proof.
  intros H. unfold chars. generalize (Nat.le_refl (length (concat cs))).
  generalize (length (concat cs)) at 2 3. intros fuel. revert fuel.
  induction H as [|c cs Hc Hcs IH]; intros fuel Hf; [by destruct fuel|].
  cbn [concat] in *. rewrite length_app in Hf. pose proof (is_char_inv c Hc) as [? _].
  destruct fuel as [|fuel]; [lia|]. cbn [chars_loop]. rewrite is_char_app by done.
  rewrite first_char_app, IH by lia. done.
Qed.

Lemma valid_concat cs : Forall is_char cs -> valid_utf8 (concat cs) = true.
Proof.
  intros H. unfold valid_utf8. generalize (Nat.le_refl (length (concat cs))).
  generalize (length (concat cs)) at 2 3. intros fuel. revert fuel.
  induction H as [|c cs Hc Hcs IH]; intros fuel Hf; [by destruct fuel|].
  cbn [concat] in *. rewrite length_app in Hf. pose proof (is_char_inv c Hc) as [? (a & k & -> & _)].
  destruct fuel as [|fuel]; [lia|]. cbn [utf8_loop app]. rewrite app_comm_cons, is_char_app by done. apply IH. lia.
Qed.

Lemma lossy_chars fuel s : Forall is_char (lossy_loop fuel s).
Proof.
  revert s. induction fuel as [|fuel IH]; intros s; [constructor|]. cbn [lossy_loop].
  destruct s as [|a s]; [constructor|]. destruct (utf8_scalar (a :: s)) as [r|] eqn:E.
  - apply char_step in E as [? _]. by constructor.
  - constructor; [apply replacement_char | done].
Qed.

Lemma from_utf8_lossy_valid s : valid_utf8 (from_utf8_lossy s) = true.
Proof. apply valid_concat, lossy_chars. Qed.

(** Text that is UTF-8 already is left as it is. *)
Lemma from_utf8_lossy_id s : valid_utf8 s = true -> from_utf8_lossy s = s.
Proof.
  unfold valid_utf8, from_utf8_lossy. generalize (length s). intros fuel. revert s.
  induction fuel as [|fuel IH]; intros s; [by destruct s|].
  destruct s as [|a s]; [done|]. cbn [utf8_loop lossy_loop]. destruct (utf8_scalar (a :: s)) as [r|] eqn:E; [|done].
  intros Hr. cbn [concat]. rewrite IH by done. by apply char_step in E as (_ & <- & _).
Qed.

(** ** Dropping to a character boundary *)

(** A boundary of a text is the end of some of its characters. *)
Lemma boundary_drop cs i :
  Forall is_char cs -> is_char_boundary (concat cs) i = true -> (i <= length (concat cs))%nat ->
  exists n, drop i (concat cs) = concat (drop n cs).
Proof.
  intros H. revert i. induction H as [|c cs Hc Hcs IH]; intros i Hb Hi.
  { exists O. simpl in *. by rewrite drop_nil. }
  cbn [concat] in *. rewrite length_app in Hi. destruct (decide (i = O)) as [->|Hne]; [by exists O|].
  destruct (decide (length c <= i)%nat) as [Hle|Hlt].
  - destruct (IH (i - length c)%nat) as [n Hn].
    + unfold is_char_boundary in *. destruct ((i - length c) =? 0)%nat eqn:E0; [done|].
      rewrite (proj2 (Nat.eqb_neq i 0)) in Hb by done. rewrite lookup_app_r in Hb by lia.
      destruct (concat cs !! (i - length c)%nat); [done|]. rewrite length_app in Hb.
      apply Nat.eqb_eq in Hb. apply Nat.eqb_eq. lia.
    + lia.
    + exists (S n). rewrite drop_app_ge by lia. done.
  - exfalso. unfold is_char_boundary in Hb. rewrite (proj2 (Nat.eqb_neq i 0)) in Hb by done.
    apply is_char_inv in Hc as [? (a & k & -> & Hk & _)]. rewrite lookup_app_l in Hb by lia.
    destruct i as [|i]; [done|]. cbn in Hb. destruct (k !! i) as [b|] eqn:Eb.
    + rewrite Forall_lookup in Hk. by rewrite (Hk i b Eb) in Hb.
    + apply lookup_ge_None in Eb. simpl in *. lia.
Qed.

(** ** Parts of a valid text *)

Lemma valid_chars s : valid_utf8 s = true -> exists cs, Forall is_char cs /\ s = concat cs.
Proof.
  intros Hs. exists (lossy_loop (length s) s). split; [apply lossy_chars|].
  symmetry. exact (from_utf8_lossy_id s Hs).
Qed.

(** What follows an ASCII byte, and what precedes one, is valid. *)
Lemma valid_ascii_head a s : in_range 0 127 a = true -> valid_utf8 (a :: s) = valid_utf8 s.
Proof. intros Ha. unfold valid_utf8. cbn [length utf8_loop utf8_scalar]. by rewrite Ha. Qed.

Lemma valid_ascii_app p s : Forall (fun b => in_range 0 127 b = true) p -> valid_utf8 (p ++ s) = valid_utf8 s.
Proof. induction 1 as [|a p Ha _ IH]; [done|]. cbn [app]. by rewrite valid_ascii_head. Qed.

Lemma valid_before_ascii s a t : in_range 0 127 a = true -> valid_utf8 (s ++ a :: t) = true -> valid_utf8 s = true.
Proof.
  intros Ha (cs & Hcs & E)%valid_chars.
  destruct (boundary_drop cs (length s) Hcs) as [n Hn]; rewrite <- ?E.
  - unfold is_char_boundary. destruct (_ =? 0)%nat; [done|]. rewrite lookup_app_r, Nat.sub_diag by done. simpl.
    apply negb_true_iff. unfold utf8_cont, in_range in *. apply andb_true_iff in Ha as [_ Ha%Z.leb_le].
    apply andb_false_iff. left. apply Z.leb_gt. lia.
  - rewrite length_app. lia.
  - rewrite <- E, drop_app_length in Hn. rewrite Hn in E.
    assert (s ++ concat (drop n cs) = concat (take n cs) ++ concat (drop n cs)) as E'
      by (rewrite <- concat_app, take_drop; by symmetry). clear E. rename E' into E.
    apply app_inv_tail in E. rewrite E. apply valid_concat. by apply Forall_take.
Qed.
