(* ===== verification/Primitives.v ===== *)
(** [src/domain/primitives.rs]: small validated values shared by jobs and runs,
    and the interface [Jiff] to the timestamp library. *)

From S2P Require Import Prelude Text.

Inductive PrimitiveError :=
| PE_ContainsNul (field : str)
| PE_TooLong (field : str) (maximum : nat)
| PE_Zero (field : str)
| PE_Overflow (field : str)
| PE_TimestampRange.
#[export] Instance PrimitiveError_eq_dec : EqDecision PrimitiveError.
Proof. solve_decision. Defined.

Definition validate_text (value field : str) (maximum : nat) : result PrimitiveError str :=
  if contains_nul value then Err (PE_ContainsNul field)
  else if (maximum <? chars_count value)%nat then Err (PE_TooLong field maximum)
  else Ok value.

(** The [validated_text!] newtypes; [maximum] counts Unicode scalar values. *)
Record Name := mk_name { name_str : str }.
Record Description := mk_description { description_str : str }.
#[export] Instance Name_eq_dec : EqDecision Name. Proof. solve_decision. Defined.
#[export] Instance Description_eq_dec : EqDecision Description. Proof. solve_decision. Defined.

Definition name_new (value : str) : result PrimitiveError Name :=
  mk_name <$> validate_text value (lit "name") 256.
Definition description_new (value : str) : result PrimitiveError Description :=
  mk_description <$> validate_text value (lit "description") 4096.

Definition text_ok (maximum : nat) (s : str) : Prop :=
  contains_nul s = false /\ (chars_count s <= maximum)%nat.

Lemma validate_text_ok value field maximum s :
  validate_text value field maximum = Ok s <-> s = value /\ text_ok maximum value.
Proof.
  unfold validate_text, text_ok. destruct (contains_nul value); [naive_solver|].
  destruct (Nat.ltb_spec maximum (chars_count value)); split; try done; [lia | |].
  - by intros [= ->].
  - by intros [-> _].
Qed.

Lemma name_new_ok value n : name_new value = Ok n <-> n = mk_name value /\ text_ok 256 value.
Proof.
  unfold name_new. rewrite fmap_ok. setoid_rewrite validate_text_ok. naive_solver.
Qed.

Lemma description_new_ok value n :
  description_new value = Ok n <-> n = mk_description value /\ text_ok 4096 value.
Proof.
  unfold description_new. rewrite fmap_ok. setoid_rewrite validate_text_ok. naive_solver.
Qed.

(** The [nonzero_counter!] newtypes over [NonZeroU64]. *)
Definition counter_new (field : str) (value : Z) : result PrimitiveError Z :=
  if value =? 0 then Err (PE_Zero field) else Ok value.
Abbreviation Revision := Z.
Abbreviation Sequence := Z.
Definition revision_new (value : Z) : result PrimitiveError Revision :=
  counter_new (lit "revision") value.
Definition sequence_new (value : Z) : result PrimitiveError Sequence :=
  counter_new (lit "sequence") value.

Definition counter_ok (v : Z) : Prop := 1 <= v <= u64_max.

(** [Revision::next] *)
Definition revision_next (r : Revision) : result PrimitiveError Revision :=
  ok_or (checked_u64 (r + 1)) (PE_Overflow (lit "revision")) ≫= revision_new.

Lemma counter_new_ok field v r : counter_new field v = Ok r <-> r = v /\ v <> 0.
Proof. unfold counter_new. destruct (Z.eqb_spec v 0); naive_solver. Qed.

Lemma revision_next_spec r : counter_ok r ->
  revision_next r = if r =? u64_max then Err (PE_Overflow (lit "revision")) else Ok (r + 1).
Proof.
  unfold counter_ok, revision_next. intros Hr. destruct (Z.eqb_spec r u64_max) as [->|Hne].
  - rewrite (proj2 (checked_None _ _ _)); [done | lia].
  - rewrite checked_in by lia. simpl. apply counter_new_ok. lia.
Qed.

Lemma revision_next_ok r r' : counter_ok r -> revision_next r = Ok r' -> r' = r + 1 /\ counter_ok r'.
Proof.
  intros Hr. rewrite revision_next_spec by done. unfold counter_ok in *.
  destruct (Z.eqb_spec r u64_max); [done|]. intros [= <-]. lia.
Qed.

(** ** Timestamps

    A [UtcTimestamp] is its number of nanoseconds since the Unix epoch (the
    total, signed value of [jiff::Timestamp]), an [ElapsedInstant] a [u128]
    number of nanoseconds.  What the program uses of [jiff] is the class
    [Jiff]: the range of a timestamp, exact nanosecond arithmetic inside it,
    and the RFC 3339 text, which parses back.  *)
Abbreviation UtcTimestamp := Z.

Class Jiff := {
  ts_min : Z;
  ts_max : Z;
  ts_show : Z -> str;
  ts_parse : str -> option Z;
  ts_span : - 10 ^ 21 <= ts_min /\ ts_min <= 0 /\ 0 <= ts_max /\ ts_max <= 10 ^ 21;
  ts_parse_show : forall t, ts_min <= t <= ts_max -> ts_parse (ts_show t) = Some t;
  ts_parse_range : forall s t, ts_parse s = Some t -> ts_min <= t <= ts_max
}.

Definition ts_ok `{Jiff} (t : UtcTimestamp) : Prop := ts_min <= t <= ts_max.

Section Timestamps.
Context `{Jiff}.

(** [Timestamp::checked_add], [checked_sub] and [from_nanosecond]. *)
Definition ts_checked (nanos : Z) : option UtcTimestamp := checked ts_min ts_max nanos.
Definition ts_checked_add (t nanos : Z) : option UtcTimestamp := ts_checked (t + nanos).
Definition ts_checked_sub (t nanos : Z) : option UtcTimestamp := ts_checked (t - nanos).

(** [impl FromStr for UtcTimestamp] *)
Definition utc_from_str (value : str) : result PrimitiveError UtcTimestamp :=
  ok_or (ts_parse value) PE_TimestampRange.

Lemma utc_from_str_show t : ts_ok t -> utc_from_str (ts_show t) = Ok t.
Proof. intros Ht. unfold utc_from_str. by rewrite ts_parse_show. Qed.

Lemma utc_from_str_ok s t : utc_from_str s = Ok t -> ts_ok t.
Proof. unfold utc_from_str. intros Hs%ok_or_ok. by eapply ts_parse_range. Qed.
End Timestamps.

(** A concrete instance, used by the witnesses: the documented range of
    [jiff::Timestamp] and a text that is the number itself. *)
Module JiffModel.
Definition jiff_min : Z := - 377705023201 * 10 ^ 9.
Definition jiff_max : Z := 253402207200 * 10 ^ 9 + 999999999.
Definition jiff_show (t : Z) : str := [t].
Definition jiff_parse (s : str) : option Z :=
  match s with [t] => checked jiff_min jiff_max t | _ => None end.
#[export] Program Instance jiff : Jiff := {|
  ts_min := jiff_min; ts_max := jiff_max; ts_show := jiff_show; ts_parse := jiff_parse
|}.
Next Obligation. by vm_compute. Qed.
Next Obligation. intros t Ht. by apply checked_in. Qed.
Next Obligation.
  intros s t. unfold jiff_parse. destruct s as [|? [|]]; try done. by intros [-> ?]%checked_Some.
Qed.
End JiffModel.

(** ** Properties *)

(** Revisions are non-zero 64-bit counters: [next] adds one,
    stays in range, and fails only on the largest value, with the overflow
    error. *)
Theorem revision_next_bounds r :
  counter_ok r ->
  match revision_next r with
  | Ok r' => r' = r + 1 /\ counter_ok r' /\ r < u64_max
  | Err e => r = u64_max /\ e = PE_Overflow (lit "revision")
  end.
Proof.
  intros Hr. rewrite revision_next_spec by done. unfold counter_ok in *.
  destruct (Z.eqb_spec r u64_max); [done|]. lia.
Qed.

Lemma revision_next_bounds_witness :
  counter_ok u64_max /\
  match revision_next u64_max with
  | Ok r' => r' = u64_max + 1 /\ counter_ok r' /\ u64_max < u64_max
  | Err e => u64_max = u64_max /\ e = PE_Overflow (lit "revision")
  end.
Proof. split; [by vm_compute | apply (revision_next_bounds u64_max); by vm_compute]. Defined.
