(* ===== verification/Duration.v ===== *)
(** [src/domain/duration.rs]: checked duration parsing and canonical
    formatting, with the grammar the parser accepts and the round trip. *)

From S2P Require Import Prelude Text.

Definition MAX_DURATION_SECONDS : Z := 365 * 24 * 60 * 60.

Inductive DurationError :=
| DE_Empty | DE_ExpectedNumber | DE_ExpectedUnit | DE_UnitOrder | DE_ZeroHours
| DE_Overflow | DE_OutOfRange.
#[export] Instance DurationError_eq_dec : EqDecision DurationError.
Proof. solve_decision. Defined.

(** The newtype [DurationSeconds(u64)]; its invariant is [duration_ok]. *)
Record DurationSeconds := mk_duration { duration_get : Z }.
#[export] Instance DurationSeconds_eq_dec : EqDecision DurationSeconds.
Proof. solve_decision. Defined.

Definition duration_ok (d : DurationSeconds) : Prop := 1 <= duration_get d <= MAX_DURATION_SECONDS.

(** [DurationSeconds::new] *)
Definition duration_new (seconds : Z) : result DurationError DurationSeconds :=
  if negb (in_range 1 MAX_DURATION_SECONDS seconds) then Err DE_OutOfRange
  else Ok (mk_duration seconds).

(** The unit byte: rank and multiplier, with the zero-hours check. *)
Definition unit_of (unit number : Z) : result DurationError (Z * Z) :=
  match unit with
  | 104 => if number =? 0 then Err DE_ZeroHours else Ok (3, 60 * 60)
  | 109 => Ok (2, 60)
  | 115 => Ok (1, 1)
  | _ => Err DE_ExpectedUnit
  end.

(** The [while index < bytes.len()] loop of [from_str].  [rest] is
    [bytes[index..]]; every iteration consumes at least two bytes, so a fuel
    of [length rest] never runs out ([parse_loop_fuel]).  The [checked_add]s
    on [index] cannot fail, an index being at most the length of the input. *)
Fixpoint parse_loop (fuel : nat) (rest : str) (previous_rank total : Z)
  : result DurationError DurationSeconds :=
  match fuel, rest with
  | _, [] | O, _ => duration_new total
  | S fuel, _ =>
    let '(digits, after) := span is_ascii_digit rest in
    if is_empty digits then Err DE_ExpectedNumber else
    number ← ok_or (parse_uint u64_max digits) DE_Overflow;
    match after with
    | [] => Err DE_ExpectedUnit
    | unit :: after =>
      '(rank, multiplier) ← unit_of unit number;
      if previous_rank <=? rank then Err DE_UnitOrder else
      component ← ok_or (checked_u64 (number * multiplier)) DE_Overflow;
      total ← ok_or (checked_u64 (total + component)) DE_Overflow;
      match after with
      | b :: _ =>
        if is_ascii_whitespace b then
          let after := (span is_ascii_whitespace after).2 in
          if is_empty after then Err DE_ExpectedNumber
          else parse_loop fuel after rank total
        else parse_loop fuel after rank total
      | [] => parse_loop fuel after rank total
      end
    end
  end.

(** [impl FromStr for DurationSeconds] *)
Definition duration_from_str (input : str) : result DurationError DurationSeconds :=
  let input := trim input in
  if is_empty input then Err DE_Empty
  else parse_loop (length input) input 4 0.

(** [impl Display for DurationSeconds] *)
Definition duration_to_string (d : DurationSeconds) : str :=
  let hours := duration_get d / 3600 in
  let minutes := (duration_get d mod 3600) / 60 in
  let seconds := duration_get d mod 60 in
  (if 0 <? hours then show_dec hours ++ lit "h" else [])
  ++ (if 0 <? minutes then show_dec minutes ++ lit "m" else [])
  ++ (if 0 <? seconds then show_dec seconds ++ lit "s" else []).

(** ** The accepted grammar

    [duration_text r s n]: [s] is a possibly empty sequence of components with
    strictly decreasing ranks below [r], optionally separated by blanks and
    without trailing blanks, that adds up to [n] seconds. *)
Inductive component : Z -> str -> Z -> Prop :=
| component_intro digits unit number rank multiplier :
    digits <> [] -> Forall (fun b => is_ascii_digit b = true) digits ->
    parse_uint u64_max digits = Some number ->
    unit_of unit number = Ok (rank, multiplier) ->
    component rank (digits ++ [unit]) (number * multiplier).

Inductive duration_text : Z -> str -> Z -> Prop :=
| text_nil r : duration_text r [] 0
| text_last r rank c n : rank < r -> component rank c n -> duration_text r c n
| text_cons r rank c n blanks s m :
    rank < r -> component rank c n ->
    Forall (fun b => is_ascii_whitespace b = true) blanks ->
    s <> [] -> duration_text rank s m ->
    duration_text r (c ++ blanks ++ s) (n + m).

(** ** Lemmas *)

Lemma duration_new_ok s d : duration_new s = Ok d <-> d = mk_duration s /\ duration_ok d.
Proof.
  unfold duration_new, duration_ok. destruct (in_range 1 MAX_DURATION_SECONDS s) eqn:E; simpl.
  - apply in_range_spec in E. naive_solver.
  - apply in_range_false in E. split; [done|]. intros [-> H]. simpl in H. lia.
Qed.

Lemma unit_of_ok unit number rank mult :
  unit_of unit number = Ok (rank, mult) ->
  0 < rank < 4 /\ 0 < mult /\ is_ascii_digit unit = false /\ ascii_graphic unit = true.
Proof. unfold unit_of. repeat case_match; intros; simplify_eq; repeat split; lia || done. Qed.

Lemma whitespace_not_digit b : is_ascii_whitespace b = true -> is_ascii_digit b = false.
Proof.
  unfold is_ascii_whitespace. rewrite !orb_true_iff, !Z.eqb_eq.
  intros H. apply in_range_false. lia.
Qed.

Lemma length_span_2 p s : (length (span p s).2 <= length s)%nat.
Proof. rewrite <- (span_app p s) at 2. rewrite length_app. lia. Qed.

(** One iteration of the loop, inverted: the input is a component followed by
    blanks and the rest. *)
Lemma parse_loop_step fuel rest r t d :
  rest <> [] ->
  parse_loop (S fuel) rest r t = Ok d <->
  exists digits unit number rank mult blanks s,
    rest = digits ++ unit :: blanks ++ s /\ digits <> [] /\
    Forall (fun b => is_ascii_digit b = true) digits /\
    parse_uint u64_max digits = Some number /\
    unit_of unit number = Ok (rank, mult) /\ rank < r /\
    0 <= number * mult <= u64_max /\ 0 <= t + number * mult <= u64_max /\
    Forall (fun b => is_ascii_whitespace b = true) blanks /\
    (forall b s', s = b :: s' -> is_ascii_whitespace b = false) /\
    (blanks <> [] -> s <> []) /\
    parse_loop fuel s rank (t + number * mult) = Ok d.
Proof.
  intros Hne. split.
  - destruct rest as [|b0 rest]; [done|]. cbn [parse_loop].
    pose proof (span_app is_ascii_digit (b0 :: rest)) as Happ.
    pose proof (span_forall is_ascii_digit (b0 :: rest)) as Hall.
    destruct (span is_ascii_digit (b0 :: rest)) as [digits after]. cbn [fst snd] in *.
    destruct (is_empty digits) eqn:Hd; [done|].
    intros (number & Hnum%ok_or_ok & H)%bind_ok.
    destruct after as [|unit after]; [done|].
    apply bind_ok in H as ([rank mult] & Hu & H).
    destruct (r <=? rank) eqn:Hr; [done|]. apply Z.leb_gt in Hr.
    apply bind_ok in H as (c & [-> Hc]%ok_or_ok%checked_Some & H).
    apply bind_ok in H as (t' & [-> Ht]%ok_or_ok%checked_Some & H).
    assert (digits <> []) as Hd' by (by destruct digits).
    pose proof (span_app is_ascii_whitespace after) as Happ2.
    pose proof (span_forall is_ascii_whitespace after) as Hall2.
    pose proof (span_head is_ascii_whitespace after) as Hhd.
    exists digits, unit, number, rank, mult.
    destruct after as [|b after].
    { exists [], []. split_and!; try (done || lia). }
    destruct (is_ascii_whitespace b) eqn:Hb.
    + exists (span is_ascii_whitespace (b :: after)).1, (span is_ascii_whitespace (b :: after)).2.
      destruct (is_empty (span is_ascii_whitespace (b :: after)).2) eqn:He; [done|].
      split_and!; try (done || lia); [by rewrite Happ2 |].
      intros _ E. by rewrite E in He.
    + exists [], (b :: after). split_and!; try (done || lia). by intros ? ? [= <- <-].
  - intros (digits & unit & number & rank & mult & blanks & s & -> & Hd & Hall & Hnum & Hu & Hr
      & Hc & Ht & Hbl & Hs & Hbs & H).
    destruct (unit_of_ok _ _ _ _ Hu) as (_ & _ & Hnd & _).
    cbn [parse_loop].
    rewrite (span_prefix is_ascii_digit digits (unit :: blanks ++ s)); [|done|by intros ? ? [= <- <-]].
    destruct digits as [|d0 digits]; [done|]. cbn [app is_empty].
    rewrite Hnum. cbn [ok_or mbind result_bind]. rewrite Hu. cbn [mbind result_bind].
    apply Z.leb_gt in Hr. rewrite Hr, (checked_in _ _ _ Hc). cbn [ok_or mbind result_bind].
    rewrite (checked_in _ _ _ Ht). cbn [ok_or mbind result_bind].
    destruct blanks as [|b blanks]; cbn [app].
    + destruct s as [|b s]; [done|]. by rewrite (Hs b s).
    + inversion Hbl as [|? ? Hb Hbl']; subst. rewrite Hb.
      change (b :: blanks ++ s) with ((b :: blanks) ++ s).
      rewrite span_prefix by done. cbn [snd].
      destruct s; [by destruct Hbs | done].
Qed.

Lemma component_head r c n s :
  component r c n -> exists b c', c ++ s = b :: c' /\ is_ascii_digit b = true.
Proof.
  intros [digits unit number rank mult Hd Hall]. destruct digits as [|b digits]; [done|].
  inversion Hall; subst. simpl. eauto.
Qed.

Lemma duration_text_head r s n b s' : duration_text r s n -> s = b :: s' -> is_ascii_digit b = true.
Proof.
  destruct 1 as [|? ? c ? ? Hc|? ? c n' bl s0 m ? Hc]; intros E; [done| |];
    [destruct (component_head _ _ _ [] Hc) as (b' & c' & Heq & ?); rewrite app_nil_r in Heq
    |destruct (component_head _ _ _ (bl ++ s0) Hc) as (b' & c' & Heq & ?)]; congruence.
Qed.

Lemma component_nonneg r c n : component r c n -> 0 <= n /\ r < 4.
Proof.
  intros [digits unit number rank mult Hd Hall Hn Hu].
  destruct (unit_of_ok _ _ _ _ Hu) as ([? ?] & ? & _).
  assert (0 <= number); [|split; [apply Z.mul_nonneg_nonneg; lia|lia]].
  revert Hn. unfold parse_uint. repeat case_match; try done; intros [-> ?]%checked_Some; lia.
Qed.

Lemma duration_text_nonneg r s n : duration_text r s n -> 0 <= n.
Proof. induction 1; try lia; apply component_nonneg in H0; lia. Qed.

Lemma duration_text_nil r s n : duration_text r s n -> s = [] -> n = 0.
Proof.
  destruct 1 as [|? ? c ? ? Hc|? ? c n' bl s0 m ? Hc]; intros E; [done| |];
    [destruct (component_head _ _ _ [] Hc) as (b' & c' & Heq & ?); rewrite app_nil_r in Heq
    |destruct (component_head _ _ _ (bl ++ s0) Hc) as (b' & c' & Heq & ?)]; congruence.
Qed.

(** The loop accepts exactly the grammar and sums it up. *)
Lemma parse_loop_spec fuel s r t d :
  (length s <= fuel)%nat -> 0 <= t <= u64_max ->
  parse_loop fuel s r t = Ok d <->
  exists n, duration_text r s n /\ d = mk_duration (t + n) /\ duration_ok d.
Proof.
  intros Hlen Ht. split.
  - revert s r t Hlen Ht. induction fuel as [|fuel IH]; intros s r t Hlen Ht.
    { destruct s; simpl in *; [|lia]. intros [-> ?]%duration_new_ok.
      exists 0. rewrite Z.add_0_r. split; [constructor | done]. }
    destruct s as [|b0 s0].
    { simpl. intros [-> ?]%duration_new_ok. exists 0. rewrite Z.add_0_r. split; [constructor|done]. }
    intros (digits & unit & number & rank & mult & blanks & s & Heq & Hd & Hall & Hnum & Hu & Hr
      & Hc & Ht' & Hbl & Hs & Hbs & H)%parse_loop_step; [|done].
    rewrite Heq in *. rewrite length_app in Hlen. simpl in Hlen. rewrite length_app in Hlen.
    assert (component rank (digits ++ [unit]) (number * mult)) as Hcomp by (by econstructor).
    apply IH in H as (m & Hm & -> & Hok); [|lia|lia].
    exists (number * mult + m). split; [|by rewrite Z.add_assoc].
    replace (digits ++ unit :: blanks ++ s) with ((digits ++ [unit]) ++ blanks ++ s)
      by (by rewrite <- app_assoc).
    destruct s as [|b s].
    + destruct blanks; [|by destruct Hbs]. rewrite (duration_text_nil _ _ _ Hm eq_refl).
      rewrite !app_nil_r, Z.add_0_r. by econstructor.
    + by econstructor.
  - intros (n & Hn & -> & Hok). revert t fuel Hlen Ht Hok.
    induction Hn as [r|r rank c n Hr Hcomp|r rank c n blanks s m Hr Hcomp Hbl Hs Hm IH];
      intros t fuel Hlen Ht Hok.
    + rewrite Z.add_0_r in *. destruct fuel; simpl; by apply duration_new_ok.
    + pose proof (component_nonneg _ _ _ Hcomp) as [Hn0 _]. destruct Hok as [Ho1 Ho2]. simpl in Ho1, Ho2.
      destruct Hcomp as [digits unit number rank mult Hd Hall Hnum Hu].
      destruct fuel as [|fuel]; [rewrite length_app in Hlen; simpl in Hlen; lia|].
      assert (u64_max > MAX_DURATION_SECONDS) by done.
      apply parse_loop_step; [by destruct digits|].
      exists digits, unit, number, rank, mult, [], []. split_and!; try done; try lia.
      destruct fuel; simpl; by apply duration_new_ok.
    + pose proof (component_nonneg _ _ _ Hcomp) as [Hn0 _]. pose proof (duration_text_nonneg _ _ _ Hm).
      destruct Hcomp as [digits unit number rank mult Hd Hall Hnum Hu].
      rewrite !length_app in Hlen. simpl in Hlen.
      destruct fuel as [|fuel]; [lia|].
      assert (u64_max > MAX_DURATION_SECONDS) by done.
      assert (t + (number * mult + m) <= MAX_DURATION_SECONDS) by apply Hok.
      apply parse_loop_step; [by destruct digits|].
      exists digits, unit, number, rank, mult, blanks, s. split_and!; try done; try lia.
      * by rewrite <- app_assoc.
      * intros b s' E. pose proof (duration_text_head _ _ _ _ _ Hm E) as Hdig.
        destruct (is_ascii_whitespace b) eqn:E'; [|done]. by rewrite whitespace_not_digit in Hdig.
      * rewrite Z.add_assoc. apply IH; [lia|lia|]. by rewrite <- Z.add_assoc.
Qed.

(** More fuel than the length of the input changes nothing. *)
Lemma parse_loop_fuel f1 f2 s r t :
  (length s <= f1)%nat -> (length s <= f2)%nat -> parse_loop f1 s r t = parse_loop f2 s r t.
Proof.
  revert f2 s r t. induction f1 as [|f1 IH]; intros f2 s r t H1 H2.
  { destruct s; simpl in H1; [|lia]. by destruct f2. }
  destruct s as [|b0 s]; [by destruct f2|].
  destruct f2 as [|f2]; [simpl in H2; lia|]. cbn [parse_loop].
  pose proof (span_app is_ascii_digit (b0 :: s)) as Happ.
  destruct (span is_ascii_digit (b0 :: s)) as [digits after]. cbn [fst snd] in Happ.
  destruct digits as [|d0 digits]; [done|]. cbn [is_empty].
  destruct (parse_uint _ _); [|done]. cbn [ok_or mbind result_bind].
  destruct after as [|unit after]; [done|].
  destruct (unit_of unit z) as [[rank mult]|]; [|done]. cbn [mbind result_bind].
  destruct (r <=? rank); [done|].
  destruct (checked_u64 (z * mult)); [|done]. cbn [ok_or mbind result_bind].
  destruct (checked_u64 (t + z0)); [|done]. cbn [ok_or mbind result_bind].
  rewrite <- Happ in H1, H2. simpl in H1, H2. rewrite length_app in H1, H2. simpl in H1, H2.
  destruct after as [|b after]; [by apply IH; simpl; lia|].
  pose proof (length_span_2 is_ascii_whitespace (b :: after)).
  destruct (is_ascii_whitespace b); [|apply IH; lia].
  destruct (is_empty _); [done|]. apply IH; lia.
Qed.

Lemma duration_text_weaken r r' s n : r <= r' -> duration_text r s n -> duration_text r' s n.
Proof.
  intros Hr. destruct 1; [constructor | eapply text_last; [|done]; lia | eapply text_cons; try done; lia].
Qed.

Lemma component_last r c n : component r c n -> exists c' u, c = c' ++ [u] /\ ascii_graphic u = true.
Proof.
  intros [digits unit number rank mult Hd Hall Hnum Hu]. exists digits, unit. split; [done|].
  by destruct (unit_of_ok _ _ _ _ Hu) as (_ & _ & _ & ?).
Qed.

Lemma duration_text_last r s n :
  duration_text r s n -> s <> [] -> exists s' u, s = s' ++ [u] /\ ascii_graphic u = true.
Proof.
  induction 1 as [|? ? c ? ? Hc|? ? c ? bl s m ? Hc ? Hs Ht IH]; intros Hne; [done| |].
  - by eapply component_last.
  - destruct (IH Hs) as (s' & u & -> & Hu). exists (c ++ bl ++ s'), u. by rewrite <- !app_assoc.
Qed.

(** Accepted text carries no surrounding blanks. *)
Lemma duration_text_trim r s n : duration_text r s n -> s <> [] -> trim s = s.
Proof.
  intros Ht Hne. destruct (duration_text_last _ _ _ Ht Hne) as (s' & u & Heq & Hu).
  destruct s as [|b s]; [done|]. pose proof (duration_text_head _ _ _ _ _ Ht eq_refl) as Hb.
  apply (trim_graphic _ b u); [done | by rewrite Heq, last_snoc | | done].
  apply in_range_spec in Hb. apply in_range_spec. lia.
Qed.

Lemma show_component unit mult rank x :
  0 < x <= u64_max -> unit_of unit x = Ok (rank, mult) ->
  component rank (show_dec x ++ [unit]) (x * mult).
Proof.
  intros Hx Hu. apply component_intro with (number := x); try done.
  - apply show_dec_nonempty.
  - apply show_dec_digits.
  - apply parse_show_dec; [done | lia].
Qed.

(** One printed field in front of the smaller ones. *)
Lemma field_text r rank unit mult x s m :
  rank < r -> 0 <= x <= u64_max -> (0 < x -> unit_of unit x = Ok (rank, mult)) ->
  duration_text rank s m ->
  duration_text r ((if 0 <? x then show_dec x ++ [unit] else []) ++ s) (x * mult + m).
Proof.
  intros Hr Hx Hu Hs. destruct (0 <? x) eqn:E.
  - apply Z.ltb_lt in E. specialize (Hu E).
    pose proof (show_component unit mult rank x ltac:(lia) Hu) as Hc.
    destruct s as [|b s].
    + rewrite (duration_text_nil _ _ _ Hs eq_refl), app_nil_r, Z.add_0_r. by eapply text_last.
    + by apply text_cons with (rank := rank) (blanks := []).
  - apply Z.ltb_ge in E. replace x with 0 by lia. simpl. eapply duration_text_weaken; [|done]. lia.
Qed.

Lemma duration_to_string_text d :
  duration_ok d -> duration_text 4 (duration_to_string d) (duration_get d).
Proof.
  unfold duration_ok, duration_to_string. destruct d as [n]. cbn [duration_get].
  intros Hn. assert (MAX_DURATION_SECONDS <= u64_max) by done.
  pose proof (Z.div_mod n 3600 ltac:(lia)). pose proof (Z.mod_pos_bound n 3600 ltac:(lia)).
  pose proof (Z.div_mod (n mod 3600) 60 ltac:(lia)).
  pose proof (Z.mod_pos_bound (n mod 3600) 60 ltac:(lia)).
  pose proof (Z.mod_pos_bound n 60 ltac:(lia)).
  assert (n mod 60 = (n mod 3600) mod 60) as Hmod.
  { rewrite (Z.div_mod n 3600) at 1 by lia.
    replace (3600 * (n / 3600) + n mod 3600) with (n mod 3600 + (60 * (n / 3600)) * 60) by lia.
    by rewrite Z.mod_add by lia. }
  assert (0 <= n / 3600) by (apply Z.div_pos; lia).
  assert (0 <= n mod 3600 / 60) by (apply Z.div_pos; lia).
  replace n with (n / 3600 * (60 * 60) + (n mod 3600 / 60 * 60 + (n mod 60 * 1 + 0))) at 7 by lia.
  apply (field_text _ 3 104 (60 * 60)); [lia | lia | |].
  { intros Hp. simpl. destruct (n / 3600 =? 0) eqn:E; [|done]. apply Z.eqb_eq in E. lia. }
  apply (field_text _ 2 109 60); [lia | lia | done |].
  rewrite <- (app_nil_r (if 0 <? n mod 60 then _ else _)).
  apply (field_text _ 1 115 1); [lia | lia | done | constructor].
Qed.

(** ** Properties *)

(** The parser accepts a text exactly when, after trimming,
    it is a non-empty sequence of [h], [m], [s] components in that order, each
    at most once, whose sum is between one second and 365 days; it then
    returns that sum. *)
Theorem duration_from_str_spec input d :
  duration_from_str input = Ok d <->
  trim input <> [] /\ exists n, duration_text 4 (trim input) n /\ d = mk_duration n /\ duration_ok d.
Proof.
  unfold duration_from_str. destruct (is_empty (trim input)) eqn:E.
  - destruct (trim input); [|done]. split; [done | by intros [? _]].
  - rewrite parse_loop_spec by (done || lia). setoid_rewrite Z.add_0_l.
    split; [|by intros [_ ?]]. intros H. split; [|done]. by destruct (trim input).
Qed.

(** The canonical text of a valid duration parses back to
    that duration. *)
Theorem duration_roundtrip d :
  duration_ok d -> duration_from_str (duration_to_string d) = Ok d.
Proof.
  intros Hd. pose proof (duration_to_string_text d Hd) as Ht.
  assert (duration_to_string d <> []) as Hne.
  { intros E. pose proof (duration_text_nil _ _ _ Ht E). unfold duration_ok in Hd. lia. }
  unfold duration_from_str. rewrite (duration_text_trim _ _ _ Ht Hne).
  replace (is_empty (duration_to_string d)) with false by (by destruct (duration_to_string d)).
  apply parse_loop_spec; [lia | done|]. exists (duration_get d). by destruct d.
Qed.

Lemma duration_roundtrip_witness :
  duration_ok (mk_duration 5415) /\
  duration_from_str (duration_to_string (mk_duration 5415)) = Ok (mk_duration 5415).
Proof. split; [by vm_compute | apply (duration_roundtrip (mk_duration 5415)); by vm_compute]. Defined.

Example duration_ex : duration_from_str (lit " 1h 30m 15s") = Ok (mk_duration 5415).
Proof. reflexivity. Qed.
Example duration_ex2 : duration_to_string (mk_duration 5415) = lit "1h30m15s".
Proof. reflexivity. Qed.
Example duration_ex3 :
  map duration_from_str
    [lit "30s1m"; lit "0h1m"; lit "1 h"; lit "8761h"; lit "18446744073709551616s"; lit "1m "; []]
  = [Err DE_UnitOrder; Err DE_ZeroHours; Err DE_ExpectedUnit; Err DE_OutOfRange; Err DE_Overflow;
     Ok (mk_duration 60); Err DE_Empty].
Proof. reflexivity. Qed.
