(* ===== verification/Identifier.v ===== *)
(** [src/domain/id.rs]: 128-bit identifiers in 26 Crockford Base32 characters.

    [JobId] and [RunId] wrap a [Uuid], modelled by its 128-bit value; the
    generation of a fresh UUID is an argument of the operations that need
    one.  Encoding and decoding are inverse, the text is canonical, and the
    order of texts is the order of identifiers (the store sorts by text). *)

From S2P Require Import Prelude Text.

Definition ENCODED_LEN : nat := 26.

Inductive IdentifierError := identifier_error.
#[export] Instance IdentifierError_eq_dec : EqDecision IdentifierError.
Proof. solve_decision. Defined.

Definition digit_byte (digit : Z) : option Z :=
  match digit with
  | 0 => Some 48 | 1 => Some 49 | 2 => Some 50 | 3 => Some 51 | 4 => Some 52
  | 5 => Some 53 | 6 => Some 54 | 7 => Some 55 | 8 => Some 56 | 9 => Some 57
  | 10 => Some 97 | 11 => Some 98 | 12 => Some 99 | 13 => Some 100
  | 14 => Some 101 | 15 => Some 102 | 16 => Some 103 | 17 => Some 104
  | 18 => Some 106 | 19 => Some 107 | 20 => Some 109 | 21 => Some 110
  | 22 => Some 112 | 23 => Some 113 | 24 => Some 114 | 25 => Some 115
  | 26 => Some 116 | 27 => Some 118 | 28 => Some 119 | 29 => Some 120
  | 30 => Some 121 | 31 => Some 122
  | _ => None
  end.

(** The loop over the output bytes from the last to the first. *)
Fixpoint encode_loop (n : nat) (remaining : Z) (acc : str) : result IdentifierError str :=
  match n with
  | O => Ok acc
  | S n =>
    b ← ok_or (digit_byte (Z.land remaining 31)) identifier_error;
    encode_loop n (Z.shiftr remaining 5) (b :: acc)
  end.

Definition encode (value : Z) : result IdentifierError str := encode_loop ENCODED_LEN value [].

(** The digit of one byte: [match byte.to_ascii_lowercase() { .. }]. *)
Definition digit_of (byte : Z) : option Z :=
  let low := to_ascii_lowercase byte in
  if in_range 48 57 low then Some (byte - 48) else
  match low with
  | 97 => Some 10 | 98 => Some 11 | 99 => Some 12 | 100 => Some 13
  | 101 => Some 14 | 102 => Some 15 | 103 => Some 16 | 104 => Some 17
  | 106 => Some 18 | 107 => Some 19 | 109 => Some 20 | 110 => Some 21
  | 112 => Some 22 | 113 => Some 23 | 114 => Some 24 | 115 => Some 25
  | 116 => Some 26 | 118 => Some 27 | 119 => Some 28 | 120 => Some 29
  | 121 => Some 30 | 122 => Some 31
  | _ => None
  end.

(** [try_fold] with the checked [u128] arithmetic. *)
Fixpoint decode_fold (bytes : str) (decoded : Z) : result IdentifierError Z :=
  match bytes with
  | [] => Ok decoded
  | byte :: bytes =>
    digit ← ok_or (digit_of byte) identifier_error;
    decoded ← ok_or (checked_u128 (decoded * 32) ≫= fun current => checked_u128 (current + digit))
              identifier_error;
    decode_fold bytes decoded
  end.

Definition decode (value : str) : result IdentifierError Z :=
  if negb (length value =? ENCODED_LEN)%nat then Err identifier_error
  else decode_fold value 0.

(** The [identifier!] macro: two newtypes over a UUID, with [Display] through
    [encode] and [FromStr] through [decode]. *)
Record JobId := mk_job_id { job_uuid : Z }.
Record RunId := mk_run_id { run_uuid : Z }.
#[export] Instance JobId_eq_dec : EqDecision JobId. Proof. solve_decision. Defined.
#[export] Instance RunId_eq_dec : EqDecision RunId. Proof. solve_decision. Defined.
#[export] Program Instance JobId_countable : Countable JobId :=
  inj_countable' job_uuid mk_job_id _.
Next Obligation. by intros []. Qed.
#[export] Program Instance RunId_countable : Countable RunId :=
  inj_countable' run_uuid mk_run_id _.
Next Obligation. by intros []. Qed.

Definition uuid_ok (v : Z) : Prop := 0 <= v <= u128_max.

(** [to_string()]: [Display] fails only when [encode] does, which it never
    does on a 128-bit value ([encode_total]). *)
Definition id_text (v : Z) : str := match encode v with Ok s => s | Err _ => [] end.
Definition job_id_to_string (i : JobId) : str := id_text (job_uuid i).
Definition run_id_to_string (i : RunId) : str := id_text (run_uuid i).
Definition job_id_from_str (s : str) : result IdentifierError JobId := mk_job_id <$> decode s.
Definition run_id_from_str (s : str) : result IdentifierError RunId := mk_run_id <$> decode s.

(** ** Lemmas *)

Definition digit_checks (d : Z) : bool :=
  match digit_byte d with
  | Some b => bool_decide (digit_of b = Some d) && (to_ascii_lowercase b =? b)
  | None => false
  end.

Lemma digit_byte_spec d : 0 <= d < 32 ->
  exists b, digit_byte d = Some b /\ digit_of b = Some d /\ to_ascii_lowercase b = b.
Proof.
  intros Hd. assert (forallb digit_checks (seqZ 0 32) = true) as H by (vm_compute; done).
  rewrite forallb_Forall, Forall_forall in H.
  specialize (H d ltac:(apply elem_of_seqZ; lia)). unfold digit_checks in H.
  destruct (digit_byte d) as [b|]; [|done]. exists b.
  apply andb_true_iff in H as [H1%bool_decide_eq_true H2%Z.eqb_eq]. done.
Qed.

Lemma digit_of_spec b d : digit_of b = Some d ->
  0 <= d < 32 /\ digit_byte d = Some (to_ascii_lowercase b).
Proof.
  unfold digit_of. destruct (in_range 48 57 (to_ascii_lowercase b)) eqn:E.
  - intros [= <-]. apply in_range_spec in E. revert E. unfold to_ascii_lowercase.
    destruct (is_ascii_upper b) eqn:Eu; [apply in_range_spec in Eu; lia|]. intros E.
    assert (b = 48 \/ b = 49 \/ b = 50 \/ b = 51 \/ b = 52 \/ b = 53 \/ b = 54 \/ b = 55
      \/ b = 56 \/ b = 57) as Hb by lia.
    split; [lia|]. by destruct_or!; subst.
  - intros H. repeat case_match; simplify_eq; (split; [lia | done]).
Qed.

Lemma encode_loop_spec n r acc :
  0 <= r -> exists s, encode_loop n r acc = Ok (s ++ acc) /\ length s = n /\
    forall start rest, 0 <= start -> start * 32 ^ Z.of_nat n + r mod 32 ^ Z.of_nat n <= u128_max ->
      decode_fold (s ++ rest) start = decode_fold rest (start * 32 ^ Z.of_nat n + r mod 32 ^ Z.of_nat n).
Proof.
  revert r acc. induction n as [|n IH]; intros r acc Hr.
  { exists []. split_and!; [done..|]. intros. simpl. f_equal. rewrite Z.mod_1_r. lia. }
  simpl encode_loop. change 31 with (Z.ones 5). rewrite Z.land_ones, Z.shiftr_div_pow2 by lia.
  change (2 ^ 5) with 32.
  destruct (digit_byte_spec (r mod 32)) as (b & Hb & Hd & _); [by apply Z.mod_pos_bound|].
  rewrite Hb. simpl.
  destruct (IH (r / 32) (b :: acc)) as (s & Hs & Hlen & Hdec); [by apply Z.div_pos; lia|].
  exists (s ++ [b]). split_and!; [by rewrite Hs, <- app_assoc | rewrite length_app; simpl; lia |].
  intros start rest Hst Hle. rewrite Nat2Z.inj_succ, Z.pow_succ_r in * by lia.
  rewrite Z.rem_mul_r in * by (lia || (apply Z.pow_pos_nonneg; lia)).
  pose proof (Z.mod_pos_bound r 32 ltac:(lia)).
  assert (0 < 32 ^ Z.of_nat n) by (apply Z.pow_pos_nonneg; lia).
  pose proof (Z.mod_pos_bound (r / 32) (32 ^ Z.of_nat n) ltac:(lia)).
  rewrite <- app_assoc, Hdec by nia.
  simpl. rewrite Hd. simpl. rewrite !checked_in by nia. simpl. rewrite checked_in by nia. simpl.
  f_equal. lia.
Qed.

Lemma encode_total v : uuid_ok v -> exists s, encode v = Ok s /\ length s = ENCODED_LEN.
Proof.
  intros Hv. destruct (encode_loop_spec ENCODED_LEN v []) as (s & Hs & Hlen & _); [by apply Hv|].
  exists s. unfold encode. by rewrite Hs, app_nil_r.
Qed.

Lemma decode_fold_app s t a :
  decode_fold (s ++ t) a = decode_fold s a ≫= fun a' => decode_fold t a'.
Proof.
  revert a. induction s as [|b s IH]; intros a; [done|]. simpl.
  destruct (digit_of b) as [d|]; [|done]. simpl.
  destruct (checked_u128 (a * 32)) as [c|]; [|done]. simpl.
  destruct (checked_u128 (c + d)); simpl; [apply IH | done].
Qed.

Lemma decode_fold_cons b s a v :
  decode_fold (b :: s) a = Ok v <-> exists d, digit_of b = Some d /\
    0 <= a * 32 <= u128_max /\ 0 <= a * 32 + d <= u128_max /\ decode_fold s (a * 32 + d) = Ok v.
Proof.
  simpl. rewrite bind_ok. split.
  - intros (d & Hd%ok_or_ok & (w & Hw%ok_or_ok & H)%bind_ok). exists d.
    apply bind_Some in Hw as (c & [-> Hc]%checked_Some & [-> Hw]%checked_Some). done.
  - intros (d & Hd & H1 & H2 & H). exists d. rewrite Hd. split; [done|].
    rewrite (checked_in _ _ _ H1). simpl. by rewrite (checked_in _ _ _ H2).
Qed.

Lemma decode_fold_range s a v : uuid_ok a -> decode_fold s a = Ok v -> uuid_ok v.
Proof.
  revert a. induction s as [|b s IH]; intros a Ha; [by intros [= <-]|].
  intros (d & _ & _ & H2 & H)%decode_fold_cons. by eapply IH.
Qed.

Lemma decode_fold_encode s v acc :
  decode_fold s 0 = Ok v -> encode_loop (length s) v acc = Ok (map to_ascii_lowercase s ++ acc).
Proof.
  revert v acc. induction s as [|b s IH] using rev_ind; intros v acc; [done|].
  rewrite decode_fold_app. intros (w & Hw & (d & Hd & _ & _ & [= <-])%decode_fold_cons)%bind_ok.
  destruct (digit_of_spec _ _ Hd) as [Hd32 Hb].
  rewrite length_app, Nat.add_comm, map_app, <- app_assoc. simpl.
  change 31 with (Z.ones 5). rewrite Z.land_ones, Z.shiftr_div_pow2 by lia. change (2 ^ 5) with 32.
  replace ((w * 32 + d) mod 32) with d by (rewrite Z.add_comm, Z.mod_add by lia; by rewrite Z.mod_small).
  replace ((w * 32 + d) / 32) with w by (rewrite Z.add_comm, Z.div_add by lia; rewrite Z.div_small; lia).
  rewrite Hb. simpl. by rewrite IH.
Qed.

Lemma encode_decode v :
  uuid_ok v -> exists s, encode v = Ok s /\ length s = ENCODED_LEN /\ decode s = Ok v.
Proof.
  intros Hv. destruct (encode_loop_spec ENCODED_LEN v []) as (s & Hs & Hlen & Hdec); [by destruct Hv|].
  exists s. unfold encode, decode. rewrite Hs, app_nil_r, Hlen, Nat.eqb_refl. split_and!; [done..|].
  cbn [negb]. specialize (Hdec 0 [] ltac:(lia)). rewrite app_nil_r in Hdec.
  assert (u128_max < 32 ^ Z.of_nat ENCODED_LEN) by done. unfold uuid_ok in Hv.
  rewrite Z.mod_small in Hdec by lia. rewrite Hdec by lia. done.
Qed.

Lemma decode_canonical s v :
  decode s = Ok v ->
  length s = ENCODED_LEN /\ uuid_ok v /\ encode v = Ok (map to_ascii_lowercase s).
Proof.
  unfold decode, encode. destruct (length s =? ENCODED_LEN)%nat eqn:E; [|done]. cbn [negb].
  apply Nat.eqb_eq in E. intros H. split_and!; [done | | ].
  - by apply decode_fold_range in H.
  - by rewrite <- E, (decode_fold_encode _ _ _ H), app_nil_r.
Qed.

Lemma decode_fold_mono s t a b v w :
  length s = length t -> a < b -> decode_fold s a = Ok v -> decode_fold t b = Ok w -> v < w.
Proof.
  revert t a b. induction s as [|x s IH]; intros [|y t] a b Hlen Hab; try done.
  { by intros [= <-] [= <-]. }
  intros (d & Hd & _ & _ & H1)%decode_fold_cons (e & He & _ & _ & H2)%decode_fold_cons.
  apply digit_of_spec in Hd as [Hd _]. apply digit_of_spec in He as [He _].
  eapply (IH t); [by simplify_eq/= | | done | done]. lia.
Qed.

Definition digit_order_checks (d e : Z) : bool :=
  match digit_byte d, digit_byte e with
  | Some b, Some c => bool_decide ((b ?= c) = (d ?= e))
  | _, _ => false
  end.

Lemma digit_byte_order d e b c :
  0 <= d < 32 -> 0 <= e < 32 -> digit_byte d = Some b -> digit_byte e = Some c -> (b ?= c) = (d ?= e).
Proof.
  intros Hd He Hb Hc.
  assert (forallb (fun d => forallb (digit_order_checks d) (seqZ 0 32)) (seqZ 0 32) = true) as H
    by (vm_compute; done).
  rewrite forallb_Forall, Forall_forall in H. specialize (H d ltac:(apply elem_of_seqZ; lia)).
  rewrite forallb_Forall, Forall_forall in H. specialize (H e ltac:(apply elem_of_seqZ; lia)).
  unfold digit_order_checks in H. rewrite Hb, Hc in H. by apply bool_decide_eq_true in H.
Qed.

Lemma decode_fold_order s t a v w :
  length s = length t ->
  Forall (fun b => to_ascii_lowercase b = b) s -> Forall (fun b => to_ascii_lowercase b = b) t ->
  decode_fold s a = Ok v -> decode_fold t a = Ok w -> str_compare s t = (v ?= w).
Proof.
  revert t a. induction s as [|x s IH]; intros [|y t] a Hlen Hs Ht; try done.
  { intros [= <-] [= <-]. by rewrite Z.compare_refl. }
  intros (d & Hd & _ & _ & H1)%decode_fold_cons (e & He & _ & _ & H2)%decode_fold_cons.
  apply Forall_cons in Hs as [Hx Hs]. apply Forall_cons in Ht as [Hy Ht].
  apply digit_of_spec in Hd as [Hd Hdb]. apply digit_of_spec in He as [He Heb].
  rewrite Hx in Hdb. rewrite Hy in Heb. simpl.
  rewrite (digit_byte_order d e x y Hd He Hdb Heb). simplify_eq/=.
  destruct (Z.compare_spec d e) as [->|Hlt|Hlt]; symmetry.
  - symmetry. by eapply IH.
  - apply Z.compare_lt_iff. eapply (decode_fold_mono s t); [done| |done|done]. lia.
  - apply Z.compare_gt_iff. eapply (decode_fold_mono t s); [done| |done|done]. lia.
Qed.

Lemma lowercase_idemp b : to_ascii_lowercase (to_ascii_lowercase b) = to_ascii_lowercase b.
Proof.
  unfold to_ascii_lowercase. destruct (is_ascii_upper b) eqn:E; [|by rewrite E].
  apply in_range_spec in E. replace (is_ascii_upper (b + 32)) with false; [done|].
  symmetry. apply in_range_false. lia.
Qed.

(** ** Properties *)

(** Every 128-bit identifier encodes to 26 characters that
    decode back to it. *)
Theorem id_roundtrip v :
  uuid_ok v -> exists s, encode v = Ok s /\ length s = ENCODED_LEN /\ decode s = Ok v.
Proof. apply encode_decode. Qed.

Lemma id_roundtrip_witness :
  uuid_ok u128_max /\
  exists s, encode u128_max = Ok s /\ length s = ENCODED_LEN /\ decode s = Ok u128_max.
Proof. split; [by vm_compute | apply (id_roundtrip u128_max); by vm_compute]. Defined.

(** Decoding accepts only 26-character texts, its result
    fits 128 bits, and re-encoding gives the same text in lower case: two
    texts of one identifier differ in letter case only. *)
Theorem id_canonical s v :
  decode s = Ok v ->
  length s = ENCODED_LEN /\ uuid_ok v /\ encode v = Ok (map to_ascii_lowercase s).
Proof. apply decode_canonical. Qed.

Lemma id_canonical_witness :
  let s := lit "7ZZZzzzzzzzzzzzzzzzzzzzzzz" in
  decode s = Ok u128_max /\
  (length s = ENCODED_LEN /\ uuid_ok u128_max /\ encode u128_max = Ok (map to_ascii_lowercase s)).
Proof. split; [by vm_compute | apply id_canonical; by vm_compute]. Defined.

(** The lexicographic order of the texts is the order of
    the identifiers: the store's [ORDER BY id] and its [id > ?] cursor work
    on the 128-bit values. *)
Theorem id_order v w s t :
  uuid_ok v -> uuid_ok w -> encode v = Ok s -> encode w = Ok t -> str_compare s t = (v ?= w).
Proof.
  intros Hv Hw Hs Ht.
  destruct (encode_decode v Hv) as (s' & Hs' & Hls & Hds).
  destruct (encode_decode w Hw) as (t' & Ht' & Hlt & Hdt).
  rewrite Hs in Hs'. rewrite Ht in Ht'. injection Hs' as <-. injection Ht' as <-.
  destruct (decode_canonical _ _ Hds) as (_ & _ & Hcs). destruct (decode_canonical _ _ Hdt) as (_ & _ & Hct).
  rewrite Hs in Hcs. rewrite Ht in Hct. injection Hcs as Hcs. injection Hct as Hct.
  unfold decode in Hds, Hdt. rewrite Hls in Hds. rewrite Hlt in Hdt. cbn in Hds, Hdt.
  apply (decode_fold_order s t 0); [congruence | | | done | done];
    [rewrite Hcs | rewrite Hct];
    apply Forall_forall; intros b (c & -> & _)%list_elem_of_fmap; apply lowercase_idemp.
Qed.

Lemma id_order_witness :
  (uuid_ok 1 /\ uuid_ok 31) /\ str_compare (id_text 1) (id_text 31) = (1 ?= 31).
Proof. split; [by vm_compute | by apply (id_order 1 31); vm_compute]. Defined.
