(* ===== verification/States.v ===== *)
(** [src/domain/state.rs] and [src/domain/transition.rs]: the job and run state
    machines, their legal transitions and the completion of a run. *)

From S2P Require Import Prelude.

(** ** [state.rs] *)

Inductive JobState :=
| JS_Scheduled | JS_Waiting | JS_Starting | JS_Running | JS_CancelRequested
| JS_Succeeded | JS_Failed | JS_Cancelled | JS_Interrupted | JS_Missed.
#[export] Instance JobState_eq_dec : EqDecision JobState. Proof. solve_decision. Defined.

Definition job_is_terminal (s : JobState) : bool :=
  match s with
  | JS_Succeeded | JS_Failed | JS_Cancelled | JS_Interrupted | JS_Missed => true
  | _ => false
  end.

Inductive RunState :=
| RS_Starting | RS_Running | RS_CancelRequested
| RS_Succeeded | RS_Failed | RS_Cancelled | RS_Interrupted.
#[export] Instance RunState_eq_dec : EqDecision RunState. Proof. solve_decision. Defined.

Definition run_is_terminal (s : RunState) : bool :=
  match s with
  | RS_Succeeded | RS_Failed | RS_Cancelled | RS_Interrupted => true
  | _ => false
  end.

(** ** [transition.rs] *)

Inductive TransitionActor := TA_Cli | TA_Supervisor | TA_Monitor.
#[export] Instance TransitionActor_eq_dec : EqDecision TransitionActor. Proof. solve_decision. Defined.

Record Transition (S : Type) := mk_transition {
  tr_from : S;
  tr_to : S;
  tr_actor : TransitionActor;
  tr_reason : str
}.
Arguments mk_transition {S}. Arguments tr_from {S}. Arguments tr_to {S}.
Arguments tr_actor {S}. Arguments tr_reason {S}.

Inductive TransitionError := TE_Illegal | TE_InvalidReason | TE_CancellationNotCommitted.
#[export] Instance TransitionError_eq_dec : EqDecision TransitionError. Proof. solve_decision. Defined.

Definition transition {S} (from to : S) (actor : TransitionActor) (reason : str) (legal : bool)
  : result TransitionError (Transition S) :=
  if negb legal then Err TE_Illegal
  else if is_empty reason || contains_nul reason then Err TE_InvalidReason
  else Ok (mk_transition from to actor reason).

Definition job_one_shot_legal (from to : JobState) : bool :=
  match from, to with
  | JS_Scheduled, (JS_Waiting | JS_CancelRequested | JS_Missed)
  | JS_Waiting, (JS_Starting | JS_CancelRequested | JS_Missed)
  | JS_Starting, (JS_Running | JS_Failed | JS_CancelRequested | JS_Interrupted)
  | JS_Running, (JS_Succeeded | JS_Failed | JS_CancelRequested | JS_Interrupted)
  | JS_CancelRequested, (JS_Cancelled | JS_Succeeded | JS_Failed | JS_Interrupted) => true
  | _, _ => false
  end.

Definition job_recurring_legal (from to : JobState) : bool :=
  match from, to with
  | (JS_Starting | JS_Running | JS_Succeeded | JS_Failed | JS_Interrupted | JS_Missed), JS_Waiting => true
  | _, _ => false
  end.

Definition job_transition (from to : JobState) (recurring : bool) (actor : TransitionActor)
  (reason : str) : result TransitionError (Transition JobState) :=
  let one_shot_legal := job_one_shot_legal from to in
  let recurring_legal := recurring && job_recurring_legal from to in
  transition from to actor reason (one_shot_legal || recurring_legal).

Definition run_legal (from to : RunState) : bool :=
  match from, to with
  | RS_Starting, (RS_Running | RS_Failed | RS_CancelRequested | RS_Interrupted)
  | RS_Running, (RS_Succeeded | RS_Failed | RS_CancelRequested | RS_Interrupted)
  | RS_CancelRequested, (RS_Cancelled | RS_Succeeded | RS_Failed | RS_Interrupted) => true
  | _, _ => false
  end.

Definition run_transition (from to : RunState) (actor : TransitionActor) (reason : str)
  : result TransitionError (Transition RunState) :=
  transition from to actor reason (run_legal from to).

Inductive Completion :=
| C_Exit (code : Z) | C_Signal (signal : Z) | C_Failure | C_Interrupted | C_TerminatedByCancellation.

Definition complete_run (current : RunState) (completion : Completion)
  : result TransitionError RunState :=
  target ←
    match completion with
    | C_Exit code => if code =? 0 then Ok RS_Succeeded else Ok RS_Failed
    | C_Signal _ | C_Failure => Ok RS_Failed
    | C_Interrupted => Ok RS_Interrupted
    | C_TerminatedByCancellation =>
      if bool_decide (current <> RS_CancelRequested) then Err TE_CancellationNotCommitted
      else Ok RS_Cancelled
    end;
  tr_to <$> run_transition current target TA_Monitor (lit "command completion").

(** ** The state machines as step relations

    A step is a transition the code accepts, whoever asks for it and why. *)
Definition job_step (recurring : bool) (a b : JobState) : Prop :=
  exists actor reason t, job_transition a b recurring actor reason = Ok t.
Definition run_step (a b : RunState) : Prop :=
  exists actor reason t, run_transition a b actor reason = Ok t.

Definition reason_ok (reason : str) : bool := negb (is_empty reason || contains_nul reason).

Lemma transition_ok {S} (from to : S) actor reason legal t :
  transition from to actor reason legal = Ok t <->
  legal = true /\ reason_ok reason = true /\ t = mk_transition from to actor reason.
Proof.
  unfold transition, reason_ok. destruct legal; simpl; [|naive_solver].
  destruct (is_empty reason || contains_nul reason); naive_solver.
Qed.

Lemma job_step_legal recurring a b :
  job_step recurring a b <-> job_one_shot_legal a b || (recurring && job_recurring_legal a b) = true.
Proof.
  unfold job_step, job_transition. split.
  - intros (? & ? & ? & [H _]%transition_ok). done.
  - intros Hl. exists TA_Cli, (lit "x"). rewrite Hl. eexists. reflexivity.
Qed.

Lemma run_step_legal a b : run_step a b <-> run_legal a b = true.
Proof.
  unfold run_step, run_transition. split.
  - intros (? & ? & ? & [H _]%transition_ok). done.
  - intros Hl. exists TA_Cli, (lit "x"). rewrite Hl. eexists. reflexivity.
Qed.

(** Progress measures: every one-shot step and every run step goes up. *)
Definition job_rank (s : JobState) : nat :=
  match s with
  | JS_Scheduled => 0 | JS_Waiting => 1 | JS_Starting => 2 | JS_Running => 3
  | JS_CancelRequested => 4 | _ => 5
  end.
Definition run_rank (s : RunState) : nat :=
  match s with RS_Starting => 0 | RS_Running => 1 | RS_CancelRequested => 2 | _ => 3 end.

Lemma job_rank_step a b : job_step false a b -> (job_rank a < job_rank b)%nat.
Proof. rewrite job_step_legal. destruct a, b; simpl; (lia || done). Qed.

Lemma run_rank_step a b : run_step a b -> (run_rank a < run_rank b)%nat.
Proof. rewrite run_step_legal. destruct a, b; simpl; (lia || done). Qed.

(** A history: the states visited by consecutive accepted transitions. *)
Inductive history {S} (step : S -> S -> Prop) : S -> list S -> S -> Prop :=
| history_nil s : history step s [] s
| history_cons a b l c : step a b -> history step b l c -> history step a (b :: l) c.

(** Along a relation that increases a rank, a history is strictly sorted. *)
Lemma history_ranked {S} (step : S -> S -> Prop) (rank : S -> nat) a l c :
  (forall x y, step x y -> (rank x < rank y)%nat) ->
  history step a l c ->
  (rank a + length l <= rank c)%nat /\ Forall (fun x => (rank a < rank x <= rank c)%nat) l /\ NoDup l.
Proof.
  intros Hstep. induction 1 as [s|a b l c Hab H (IH1 & IH2 & IH3)]; simpl.
  - split; [lia|]. split; constructor.
  - apply Hstep in Hab. split; [lia|]. split.
    + constructor; [lia|]. eapply Forall_impl; [done|]. simpl. lia.
    + constructor; [|done]. intros Hin. rewrite Forall_forall in IH2. specialize (IH2 _ Hin). lia.
Qed.

(** ** Properties *)

(** A job transition is accepted exactly when it is legal
    for the kind of job and its reason is non-empty and NUL-free; legality is
    checked before the reason, and the record returned is the request. *)
Theorem job_transition_spec from to recurring actor reason :
  job_transition from to recurring actor reason =
  if job_one_shot_legal from to || (recurring && job_recurring_legal from to) then
    if reason_ok reason then Ok (mk_transition from to actor reason) else Err TE_InvalidReason
  else Err TE_Illegal.
Proof.
  unfold job_transition, transition, reason_ok.
  destruct (job_one_shot_legal from to || _); simpl; [|done].
  by destruct (is_empty reason || contains_nul reason).
Qed.

(** A one-shot job moves at most five times and never visits a
    state twice, so it starts at most once; a terminal state is final.  A job
    of either kind enters [Starting] only from [Waiting], and [Cancelled] only
    from [CancelRequested]. *)
Theorem job_at_most_once :
  (forall l c, history (job_step false) JS_Scheduled l c -> (length l <= 5)%nat /\ NoDup l) /\
  (forall a b, job_is_terminal a = true -> ~ job_step false a b) /\
  (forall recurring a, job_step recurring a JS_Starting -> a = JS_Waiting) /\
  (forall recurring a, job_step recurring a JS_Cancelled -> a = JS_CancelRequested) /\
  (forall recurring b, ~ job_step recurring JS_Cancelled b).
Proof.
  split_and!.
  - intros l c Hl. destruct (history_ranked _ _ _ _ _ job_rank_step Hl) as (H1 & _ & H3).
    split; [|done]. destruct c; simpl in H1; lia.
  - intros a b Ha Hs%job_step_legal. by destruct a, b.
  - intros r a Hs%job_step_legal. by destruct r, a.
  - intros r a Hs%job_step_legal. by destruct r, a.
  - intros r b Hs%job_step_legal. by destruct r, b.
Qed.

(** Completion of a run, on every branch: a terminal run
    takes no completion, a run that never reached [Running] cannot succeed,
    and a run becomes [Cancelled] exactly when the cancellation had been
    committed before the termination. *)
Theorem complete_run_spec current completion :
  complete_run current completion =
  match completion with
  | C_TerminatedByCancellation =>
    if bool_decide (current = RS_CancelRequested) then Ok RS_Cancelled
    else Err TE_CancellationNotCommitted
  | _ =>
    if run_is_terminal current then Err TE_Illegal else
    match completion with
    | C_Exit 0 => if bool_decide (current = RS_Starting) then Err TE_Illegal else Ok RS_Succeeded
    | C_Interrupted => Ok RS_Interrupted
    | _ => Ok RS_Failed
    end
  end.
Proof. destruct completion as [[]| | | |]; destruct current; reflexivity. Qed.

(** C36 (termination).  A run moves at most three times, never repeats a state,
    and no terminal run moves again. *)
Theorem run_terminates :
  (forall l c, history run_step RS_Starting l c -> (length l <= 3)%nat /\ NoDup l) /\
  (forall a b, run_is_terminal a = true -> ~ run_step a b) /\
  (forall a, run_is_terminal a = false -> exists b, run_step a b /\ run_is_terminal b = true).
Proof.
  split_and!.
  - intros l c Hl. destruct (history_ranked _ _ _ _ _ run_rank_step Hl) as (H1 & _ & H3).
    split; [|done]. destruct c; simpl in H1; lia.
  - intros a b Ha Hs%run_step_legal. by destruct a, b.
  - intros a Ha. exists RS_Interrupted. rewrite run_step_legal. by destruct a.
Qed.
