(* ===== verification/Recurrence.v ===== *)
(** [src/domain/schedule.rs] and [src/domain/recurrence.rs]: scheduling value
    types, relative deadlines and the fixed-rate grid of recurring jobs. *)

From S2P Require Import Prelude Text Primitives Duration.

(** ** [schedule.rs] *)

Inductive RuntimeTier := RT_Session | RT_Durable.
Inductive MissedPolicy := MP_Hold | MP_RunLatest | MP_Skip.
Inductive DstResolution := DST_Reject | DST_Earlier | DST_Later.
#[export] Instance RuntimeTier_eq_dec : EqDecision RuntimeTier. Proof. solve_decision. Defined.
#[export] Instance MissedPolicy_eq_dec : EqDecision MissedPolicy. Proof. solve_decision. Defined.
#[export] Instance DstResolution_eq_dec : EqDecision DstResolution. Proof. solve_decision. Defined.

Inductive Schedule :=
| OneShotRelative (duration : DurationSeconds) (persisted_due_utc : UtcTimestamp)
| OneShotAbsolute (original_input timezone timezone_database_version : str)
    (resolved_due_utc : UtcTimestamp) (dst_resolution : DstResolution)
| RecurringInterval (interval : DurationSeconds) (persisted_anchor_utc : UtcTimestamp).
#[export] Instance Schedule_eq_dec : EqDecision Schedule. Proof. solve_decision. Defined.

Definition schedule_one_shot_relative (duration : DurationSeconds) (due : UtcTimestamp) : Schedule :=
  OneShotRelative duration due.

Definition schedule_one_shot_absolute (original_input timezone version : str)
  (due : UtcTimestamp) (dst : DstResolution) : Schedule :=
  OneShotAbsolute original_input timezone version due dst.

(** [Schedule::next_due_utc] *)
Definition schedule_next_due_utc (s : Schedule) : UtcTimestamp :=
  match s with
  | OneShotRelative _ due => due
  | OneShotAbsolute _ _ _ due _ => due
  | RecurringInterval _ anchor => anchor
  end.

(** [Schedule::timezone_database_version] *)
Definition schedule_tzdb_version (s : Schedule) : str :=
  match s with
  | OneShotAbsolute _ _ version _ _ => version
  | OneShotRelative _ _ | RecurringInterval _ _ => lit "not-applicable"
  end.

Definition is_recurring (s : Schedule) : bool :=
  match s with RecurringInterval _ _ => true | _ => false end.

Inductive ScheduleError := SE_DeadlineNotFuture.
#[export] Instance ScheduleError_eq_dec : EqDecision ScheduleError. Proof. solve_decision. Defined.

(** ** [recurrence.rs] *)

Definition NANOS_PER_SECOND : Z := 1000000000.

(** [ElapsedInstant(u128)], nanoseconds of the suspend-aware clock. *)
Abbreviation ElapsedInstant := Z.
Definition elapsed_ok (e : ElapsedInstant) : Prop := 0 <= e <= u128_max.

Inductive DeadlineError := DLE_Overflow.
#[export] Instance DeadlineError_eq_dec : EqDecision DeadlineError. Proof. solve_decision. Defined.

(** [ElapsedInstant::checked_add_seconds] *)
Definition elapsed_checked_add_seconds (e : ElapsedInstant) (duration : DurationSeconds)
  : result DeadlineError ElapsedInstant :=
  nanoseconds ← ok_or (checked_u128 (duration_get duration * NANOS_PER_SECOND)) DLE_Overflow;
  ok_or (checked_u128 (e + nanoseconds)) DLE_Overflow.

Record RelativeDeadline := mk_relative_deadline {
  elapsed_due : ElapsedInstant;
  persisted_due_utc : UtcTimestamp
}.

Section Recurrence.
Context `{Jiff}.

Definition relative_deadline (wall_now : UtcTimestamp) (elapsed_now : ElapsedInstant)
  (duration : DurationSeconds) : result DeadlineError RelativeDeadline :=
  seconds ← ok_or (checked (- 2 ^ 63) i64_max (duration_get duration)) DLE_Overflow;
  persisted ← ok_or (ts_checked_add wall_now (seconds * NANOS_PER_SECOND)) DLE_Overflow;
  elapsed ← elapsed_checked_add_seconds elapsed_now duration;
  Ok (mk_relative_deadline elapsed persisted).

(** [i128] arithmetic; [checked_div] truncates towards zero. *)
Definition next_fixed_rate_utc (anchor now : UtcTimestamp) (interval : DurationSeconds)
  : result DeadlineError UtcTimestamp :=
  if now <? anchor then Ok anchor else
  interval_nanos ← ok_or (checked_i128 (duration_get interval * 1000000000)) DLE_Overflow;
  elapsed ← ok_or (checked_i128 (now - anchor)) DLE_Overflow;
  periods ← ok_or ((if interval_nanos =? 0 then None else checked_i128 (Z.quot elapsed interval_nanos))
                     ≫= fun value => checked_i128 (value + 1)) DLE_Overflow;
  offset ← ok_or (checked_i128 (periods * interval_nanos)) DLE_Overflow;
  next ← ok_or (checked_i128 (anchor + offset)) DLE_Overflow;
  ok_or (ts_checked next) DLE_Overflow.

(** ** Specification: the first grid point strictly after [now] *)

Definition interval_ns (interval : DurationSeconds) : Z := duration_get interval * NANOS_PER_SECOND.

Definition on_grid (anchor : UtcTimestamp) (interval : DurationSeconds) (t : UtcTimestamp) : Prop :=
  exists k, 0 <= k /\ t = anchor + k * interval_ns interval.

Definition next_grid (anchor now : UtcTimestamp) (interval : DurationSeconds) : Z :=
  if now <? anchor then anchor
  else anchor + ((now - anchor) / interval_ns interval + 1) * interval_ns interval.

Lemma interval_ns_pos i : duration_ok i -> 0 < interval_ns i <= 31536000 * NANOS_PER_SECOND.
Proof.
  unfold duration_ok, interval_ns, NANOS_PER_SECOND. change MAX_DURATION_SECONDS with 31536000. lia.
Qed.

Lemma next_grid_bounds anchor now interval :
  duration_ok interval -> anchor <= now ->
  now < next_grid anchor now interval <= now + interval_ns interval.
Proof.
  intros Hi%interval_ns_pos Hle. unfold next_grid. destruct (Z.ltb_spec now anchor); [lia|].
  pose proof (Z.div_mod (now - anchor) (interval_ns interval) ltac:(lia)).
  pose proof (Z.mod_pos_bound (now - anchor) (interval_ns interval) ltac:(lia)). lia.
Qed.

Lemma next_grid_least anchor now interval t :
  duration_ok interval -> on_grid anchor interval t -> now < t -> next_grid anchor now interval <= t.
Proof.
  intros Hi%interval_ns_pos (k & Hk & ->) Hlt. unfold next_grid.
  destruct (Z.ltb_spec now anchor).
  - assert (0 <= k * interval_ns interval) by (apply Z.mul_nonneg_nonneg; lia). lia.
  - assert ((now - anchor) / interval_ns interval < k).
    { apply Z.div_lt_upper_bound; lia. }
    assert (((now - anchor) / interval_ns interval + 1) * interval_ns interval
            <= k * interval_ns interval) by (apply Z.mul_le_mono_nonneg_r; lia).
    lia.
Qed.

Lemma next_grid_on anchor now interval :
  duration_ok interval -> on_grid anchor interval (next_grid anchor now interval).
Proof.
  intros Hi%interval_ns_pos. unfold next_grid, on_grid. destruct (Z.ltb_spec now anchor).
  - exists 0. lia.
  - exists ((now - anchor) / interval_ns interval + 1). split; [|done].
    assert (0 <= (now - anchor) / interval_ns interval) by (apply Z.div_pos; lia). lia.
Qed.

(** The checked [i128] chain never overflows on timestamps: only the range
    of the timestamp type matters. *)
Lemma next_fixed_rate_utc_eq anchor now interval :
  ts_ok anchor -> ts_ok now -> duration_ok interval ->
  next_fixed_rate_utc anchor now interval
  = ok_or (ts_checked (next_grid anchor now interval)) DLE_Overflow.
Proof.
  intros Ha Hn Hi. pose proof (interval_ns_pos _ Hi) as Hp.
  pose proof (next_grid_bounds anchor now interval Hi) as Hb.
  unfold ts_ok in *. destruct ts_span as (Hs1 & Hs2 & Hs3 & Hs4).
  change (10 ^ 21) with 1000000000000000000000 in *.
  assert (i128_min < -10 ^ 30 /\ 10 ^ 30 < i128_max) as [Hlo Hhi] by done.
  change (10 ^ 30) with 1000000000000000000000000000000 in *.
  unfold next_fixed_rate_utc. destruct (Z.ltb_spec now anchor) as [Hlt|Hge].
  { unfold next_grid. rewrite (proj2 (Z.ltb_lt _ _) Hlt). unfold ts_checked.
    by rewrite checked_in by lia. }
  specialize (Hb Hge). unfold next_grid in Hb |- *. rewrite (proj2 (Z.ltb_ge _ _) Hge) in Hb |- *.
  unfold interval_ns, NANOS_PER_SECOND in *.
  rewrite checked_in by lia. cbn [ok_or mbind result_bind].
  rewrite checked_in by lia. cbn [ok_or mbind result_bind].
  rewrite (proj2 (Z.eqb_neq _ _)) by lia. rewrite Z.quot_div_nonneg by lia.
  set (i := duration_get interval * 1000000000) in *.
  assert (0 <= (now - anchor) / i) by (apply Z.div_pos; lia).
  assert ((now - anchor) / i <= now - anchor).
  { apply Z.div_le_upper_bound; [lia|]. nia. }
  rewrite checked_in by lia. cbn [option_bind mbind].
  rewrite checked_in by lia. cbn [ok_or mbind result_bind].
  rewrite checked_in by lia. cbn [ok_or mbind result_bind].
  rewrite checked_in by lia. done.
Qed.
End Recurrence.

(** ** Properties *)

(** C32 (functional).  For timestamps and an interval in range the next
    occurrence of a recurring job is the least point of the grid
    [anchor + k * interval] ([k >= 0]) strictly after [now], however many
    occurrences were missed; the only failure is a point past the range of
    timestamps. *)
Theorem next_fixed_rate_utc_spec `{Jiff} anchor now interval :
  ts_ok anchor -> ts_ok now -> duration_ok interval ->
  match next_fixed_rate_utc anchor now interval with
  | Ok next =>
      on_grid anchor interval next /\ now < next /\ ts_ok next /\
      forall t, on_grid anchor interval t -> now < t -> next <= t
  | Err e => forall t, on_grid anchor interval t -> now < t -> ts_max < t
  end.
Proof.
  intros Ha Hn Hi. rewrite next_fixed_rate_utc_eq by done.
  pose proof (next_grid_on anchor now interval Hi) as Hon.
  pose proof (next_grid_least anchor now interval) as Hleast.
  pose proof (next_grid_bounds anchor now interval Hi) as Hb.
  unfold ts_checked. destruct (checked _ _ _) as [next|] eqn:E; simpl.
  - apply checked_Some in E as [-> Hr]. split_and!; [done | | done | by eauto].
    unfold next_grid in *. destruct (Z.ltb_spec now anchor); [done|]. lia.
  - apply checked_None in E. intros t Ht Hlt. specialize (Hleast t Hi Ht Hlt).
    unfold ts_ok, next_grid in *. destruct (Z.ltb_spec now anchor); lia.
Qed.

Lemma next_fixed_rate_utc_spec_witness :
  let _ := JiffModel.jiff in
  (ts_ok (1000 * 10 ^ 9) /\ ts_ok (1021 * 10 ^ 9) /\ duration_ok (mk_duration 5)) /\
  match next_fixed_rate_utc (1000 * 10 ^ 9) (1021 * 10 ^ 9) (mk_duration 5) with
  | Ok next =>
      on_grid (1000 * 10 ^ 9) (mk_duration 5) next /\ 1021 * 10 ^ 9 < next /\ ts_ok next /\
      forall t, on_grid (1000 * 10 ^ 9) (mk_duration 5) t -> 1021 * 10 ^ 9 < t -> next <= t
  | Err e => forall t, on_grid (1000 * 10 ^ 9) (mk_duration 5) t -> 1021 * 10 ^ 9 < t -> ts_max < t
  end.
Proof.
  intros J. split; [by vm_compute|].
  apply (@next_fixed_rate_utc_spec J (1000 * 10 ^ 9) (1021 * 10 ^ 9) (mk_duration 5)); by vm_compute.
Defined.

(** A relative deadline is [duration] seconds after both clocks;
    it fails only when one of them would leave its range. *)
Theorem relative_deadline_spec `{Jiff} wall elapsed duration :
  ts_ok wall -> elapsed_ok elapsed -> duration_ok duration ->
  match relative_deadline wall elapsed duration with
  | Ok d => persisted_due_utc d = wall + interval_ns duration /\ ts_ok (persisted_due_utc d) /\
            elapsed_due d = elapsed + interval_ns duration /\ elapsed_ok (elapsed_due d)
  | Err _ => ts_max < wall + interval_ns duration \/ u128_max < elapsed + interval_ns duration
  end.
Proof.
  intros Hw He Hd. pose proof (interval_ns_pos _ Hd) as Hi. unfold relative_deadline.
  assert (MAX_DURATION_SECONDS <= i64_max /\ 31536000 * NANOS_PER_SECOND <= u128_max) as [? ?] by done.
  unfold elapsed_checked_add_seconds, ts_checked_add, ts_checked, ts_ok, elapsed_ok, duration_ok,
    interval_ns in *.
  rewrite (checked_in (- 2 ^ 63) i64_max) by lia. cbn [ok_or mbind result_bind].
  destruct (checked ts_min ts_max _) eqn:E1; cbn [ok_or mbind result_bind].
  - apply checked_Some in E1 as [-> ?].
    rewrite (checked_in 0 u128_max (duration_get duration * _)) by lia. cbn [ok_or mbind result_bind].
    destruct (checked_u128 (elapsed + _)) eqn:E2; cbn [ok_or mbind result_bind].
    + apply checked_Some in E2 as [-> ?]. done.
    + apply checked_None in E2. lia.
  - apply checked_None in E1. lia.
Qed.

Lemma relative_deadline_spec_witness :
  let _ := JiffModel.jiff in
  (ts_ok (10 ^ 12) /\ elapsed_ok 50 /\ duration_ok (mk_duration 30)) /\
  match relative_deadline (10 ^ 12) 50 (mk_duration 30) with
  | Ok d => persisted_due_utc d = 10 ^ 12 + interval_ns (mk_duration 30) /\ ts_ok (persisted_due_utc d) /\
            elapsed_due d = 50 + interval_ns (mk_duration 30) /\ elapsed_ok (elapsed_due d)
  | Err _ => ts_max < 10 ^ 12 + interval_ns (mk_duration 30) \/ u128_max < 50 + interval_ns (mk_duration 30)
  end.
Proof.
  intros J. split; [by vm_compute|].
  apply (@relative_deadline_spec J (10 ^ 12) 50 (mk_duration 30)); by vm_compute.
Defined.
