(* ===== verification/Calendar.v ===== *)
(** [src/domain/calendar_syntax.rs] and [src/domain/calendar.rs]: the strict
    calendar grammar and the resolution of a local time to an instant.

    Civil dates, time zones and the zone database are [jiff]'s and
    [jiff_tzdb]'s: the class [Civil] holds the functions the program calls and
    the documented meaning of an ambiguous local time. *)

From S2P Require Import Prelude Text Primitives Recurrence.

(** ** What the program uses of [jiff::civil], [jiff::tz] and [jiff_tzdb] *)

Inductive AmbiguousOffset := AO_Gap | AO_Fold | AO_Unambiguous.

Class Civil `{Jiff} := {
  Date : Type;
  Time : Type;
  TimeZone : Type;
  date_new : Z -> Z -> Z -> option Date;
  time_new : Z -> Z -> Z -> Z -> option Time;
  midnight : Time;
  tomorrow : Date -> option Date;
  try_system : option TimeZone;
  iana_name : TimeZone -> option str;
  tzdb_version : option str;
  tzdb_get : str -> option (str * str);
  tzif : str -> str -> option TimeZone;
  civil_of : TimeZone -> UtcTimestamp -> Date * Time;
  ambiguous_offset : TimeZone -> Date * Time -> AmbiguousOffset;
  earlier : TimeZone -> Date * Time -> option UtcTimestamp;
  later : TimeZone -> Date * Time -> option UtcTimestamp;
  unambiguous : TimeZone -> Date * Time -> option UtcTimestamp;
  unambiguous_law : forall tz dt t, ambiguous_offset tz dt = AO_Unambiguous ->
    unambiguous tz dt = Some t ->
    ts_ok t /\ forall t', ts_ok t' -> civil_of tz t' = dt <-> t' = t;
  earlier_law : forall tz dt t, ambiguous_offset tz dt = AO_Fold -> earlier tz dt = Some t ->
    ts_ok t /\ civil_of tz t = dt /\ forall t', ts_ok t' -> civil_of tz t' = dt -> t <= t';
  later_law : forall tz dt t, ambiguous_offset tz dt = AO_Fold -> later tz dt = Some t ->
    ts_ok t /\ civil_of tz t = dt /\ forall t', ts_ok t' -> civil_of tz t' = dt -> t' <= t;
  gap_law : forall tz dt t, ambiguous_offset tz dt = AO_Gap -> ts_ok t -> civil_of tz t <> dt
}.

(** ** [calendar_syntax.rs] *)

Inductive CalendarSyntaxError :=
| CSE_Empty | CSE_InvalidNumber | CSE_InvalidDate | CSE_InvalidTime | CSE_InvalidDateTime.
#[export] Instance CalendarSyntaxError_eq_dec : EqDecision CalendarSyntaxError.
Proof. solve_decision. Defined.

(** [&input[lo..hi]].  Every slice of the parser starts and ends at an end of
    the text or next to an ASCII separator, so it is on a character boundary. *)
Definition slice (lo hi : nat) (s : str) : str := take (hi - lo) (drop lo s).

(** [parse_i8] and [parse_i16], for the largest value of the type. *)
Definition parse_decimal (hi : Z) (input : str) : result CalendarSyntaxError Z :=
  if negb (forallb is_ascii_digit input) then Err CSE_InvalidNumber
  else ok_or (parse_uint hi input) CSE_InvalidNumber.
Definition parse_i8 : str -> result CalendarSyntaxError Z := parse_decimal i8_max.
Definition parse_i16 : str -> result CalendarSyntaxError Z := parse_decimal i16_max.

Section Syntax.
Context `{Civil}.

Inductive CalendarSyntax :=
| CS_Time (time : Time)
| CS_Date (date : Date)
| CS_DateTime (date_time : Date * Time).

Definition parse_date (input : str) : result CalendarSyntaxError Date :=
  if negb (length input =? 10)%nat || negb (bool_decide (input !! 4%nat = Some 45))
     || negb (bool_decide (input !! 7%nat = Some 45))
  then Err CSE_InvalidDate else
  year ← parse_i16 (slice 0 4 input);
  month ← parse_i8 (slice 5 7 input);
  day ← parse_i8 (slice 8 10 input);
  ok_or (date_new year month day) CSE_InvalidDate.

Definition parse_time (input : str) : result CalendarSyntaxError Time :=
  match input with
  | [_; _; 58; _; _] | [_; _; 58; _; _; 58; _; _] =>
    hour ← parse_i8 (slice 0 2 input);
    minute ← parse_i8 (slice 3 5 input);
    second ← if (length input =? 8)%nat then parse_i8 (slice 6 8 input) else Ok 0;
    ok_or (time_new hour minute second 0) CSE_InvalidTime
  | _ => Err CSE_InvalidTime
  end.

Definition parse_datetime (input : str) : result CalendarSyntaxError (Date * Time) :=
  if negb ((length input =? 16)%nat || (length input =? 19)%nat)
     || negb (bool_decide (input !! 10%nat = Some 84) || bool_decide (input !! 10%nat = Some 32))
  then Err CSE_InvalidDateTime else
  date ← parse_date (take 10 input);
  time ← parse_time (drop 11 input);
  Ok (date, time).

Definition parse_calendar (input : str) : result CalendarSyntaxError CalendarSyntax :=
  let input := trim input in
  if is_empty input then Err CSE_Empty else
  if contains_byte 58 input && negb (contains_byte 45 input) then CS_Time <$> parse_time input else
  if contains_byte 45 input && negb (contains_byte 58 input) then CS_Date <$> parse_date input else
  CS_DateTime <$> parse_datetime input.
End Syntax.

(** ** [calendar.rs] *)

Definition MAX_TIMEZONE_BYTES : nat := 255.

Inductive TimeZoneSelection := TZ_Local | TZ_Utc | TZ_Named (name : str).

Record CalendarResolution := mk_resolution {
  cr_original_input : str;
  cr_timezone : str;
  cr_tzdb_version : str;
  cr_resolved_utc : UtcTimestamp;
  cr_dst_resolution : DstResolution
}.

Inductive CalendarError :=
| CE_Syntax (e : CalendarSyntaxError)
| CE_InvalidTimeZone | CE_TimeZoneNotFound | CE_LocalTimeZoneUnknown
| CE_NonexistentLocalTime | CE_AmbiguousLocalTime | CE_ResolutionOutOfRange
| CE_NotFuture | CE_RolloverDisabled.
#[export] Instance CalendarError_eq_dec : EqDecision CalendarError.
Proof. solve_decision. Defined.

Definition is_ascii (s : str) : bool := forallb (fun b => b <? 128) s.

Section Resolution.
Context `{Civil}.

Definition bundled_tzdb_version : str := default (lit "unknown") tzdb_version.

Definition resolve_datetime (date_time : Date * Time) (tz : TimeZone) (dst : DstResolution)
  : result CalendarError UtcTimestamp :=
  zoned ←
    match ambiguous_offset tz date_time with
    | AO_Gap => Err CE_NonexistentLocalTime
    | AO_Fold =>
      match dst with
      | DST_Reject => Err CE_AmbiguousLocalTime
      | DST_Earlier => Ok (earlier tz date_time)
      | DST_Later => Ok (later tz date_time)
      end
    | AO_Unambiguous => Ok (unambiguous tz date_time)
    end;
  ok_or zoned CE_ResolutionOutOfRange.

Definition require_future (candidate now : UtcTimestamp) : result CalendarError UtcTimestamp :=
  if candidate <=? now then Err CE_NotFuture else Ok candidate.

Definition resolve_time_only (time : Time) (tz : TimeZone) (dst : DstResolution)
  (no_rollover : bool) (now : UtcTimestamp) : result CalendarError UtcTimestamp :=
  let today := (civil_of tz now).1 in
  candidate ← resolve_datetime (today, time) tz dst;
  if now <? candidate then Ok candidate else
  if no_rollover then Err CE_RolloverDisabled else
  tomorrow ← ok_or (tomorrow today) CE_ResolutionOutOfRange;
  resolve_datetime (tomorrow, time) tz dst.

Definition resolve_time_zone (selection : TimeZoneSelection)
  : result CalendarError (TimeZone * str) :=
  requested ←
    match selection with
    | TZ_Utc => Ok (lit "UTC")
    | TZ_Named name =>
      if (MAX_TIMEZONE_BYTES <? length name)%nat || negb (is_ascii name) || contains_nul name
         || is_empty name
      then Err CE_InvalidTimeZone else Ok name
    | TZ_Local =>
      system ← ok_or try_system CE_LocalTimeZoneUnknown;
      ok_or (iana_name system) CE_LocalTimeZoneUnknown
    end;
  '(canonical, data) ← ok_or (tzdb_get requested) CE_TimeZoneNotFound;
  time_zone ← ok_or (tzif canonical data) CE_TimeZoneNotFound;
  Ok (time_zone, canonical).

Definition resolve_calendar (input : str) (selection : TimeZoneSelection) (dst : DstResolution)
  (no_rollover : bool) (now : UtcTimestamp) : result CalendarError CalendarResolution :=
  parsed ← map_err CE_Syntax (parse_calendar input);
  '(tz, zone_name) ← resolve_time_zone selection;
  resolved_utc ←
    match parsed with
    | CS_Time time => resolve_time_only time tz dst no_rollover now
    | CS_Date date =>
      candidate ← resolve_datetime (date, midnight) tz dst;
      require_future candidate now
    | CS_DateTime date_time =>
      candidate ← resolve_datetime date_time tz dst;
      require_future candidate now
    end;
  Ok (mk_resolution input zone_name bundled_tzdb_version resolved_utc dst).
End Resolution.

(** ** The accepted grammar *)

(** Two and four decimal digits. *)
Definition two (n : Z) : str := [48 + n / 10; 48 + n mod 10].
Definition four (n : Z) : str := two (n / 100) ++ two (n mod 100).

Lemma parse_decimal_ok hi s v :
  parse_decimal hi s = Ok v <->
  s <> [] /\ Forall (fun b => is_ascii_digit b = true) s /\ v = dec_value s /\ 0 <= v <= hi.
Proof.
  unfold parse_decimal. destruct (forallb is_ascii_digit s) eqn:E.
  - pose proof E as E'. rewrite forallb_Forall in E'. cbn [negb]. rewrite ok_or_ok. unfold parse_uint.
    destruct s as [|b s]; [naive_solver|].
    assert (b <> 43). { intros ->. by apply Forall_cons in E' as [? _]. }
    replace (match b :: s with 43 :: r => r | _ => b :: s end) with (b :: s)
      by (repeat (case_match; try done)).
    rewrite E. cbn [is_empty negb orb]. rewrite checked_Some. naive_solver.
  - split; [done|]. intros (_ & H & _). apply forallb_Forall in H. congruence.
Qed.

Lemma two_spec a b :
  is_ascii_digit a = true -> is_ascii_digit b = true ->
  0 <= dec_value [a; b] <= 99 /\ [a; b] = two (dec_value [a; b]).
Proof.
  intros Ha%in_range_spec Hb%in_range_spec.
  assert (dec_value [a; b] = (b - 48) + (a - 48) * 10) as -> by (unfold dec_value, dec_step; simpl; lia).
  unfold two. rewrite Z.div_add, Z.mod_add, Z.div_small, Z.mod_small by lia.
  split; [lia|]. f_equal; [lia|]. f_equal. lia.
Qed.

Lemma two_digits n : 0 <= n <= 99 ->
  Forall (fun b => is_ascii_digit b = true) (two n) /\ dec_value (two n) = n.
Proof.
  intros Hn. pose proof (Z.div_mod n 10 ltac:(lia)). pose proof (Z.mod_pos_bound n 10 ltac:(lia)).
  unfold two, dec_value, dec_step. simpl. split; [|lia].
  repeat constructor; apply in_range_spec; lia.
Qed.

(** A two-digit component. *)
Lemma parse_two s v :
  length s = 2%nat -> parse_i8 s = Ok v <-> 0 <= v <= 99 /\ s = two v.
Proof.
  destruct s as [|a [|b []]]; try done. intros _. unfold parse_i8. rewrite parse_decimal_ok. split.
  - intros (_ & Hd & -> & _). apply Forall_cons in Hd as [Ha Hd]. apply Forall_cons in Hd as [Hb _].
    by apply two_spec.
  - intros [Hv Heq]. destruct (two_digits v Hv) as [Hd Hval]. rewrite Heq.
    split_and!; try done; [lia|]. change i8_max with 127. lia.
Qed.

Lemma parse_four s v :
  length s = 4%nat -> parse_i16 s = Ok v <-> 0 <= v <= 9999 /\ s = four v.
Proof.
  destruct s as [|a [|b [|c [|d []]]]]; try done. intros _. unfold parse_i16.
  rewrite parse_decimal_ok. split.
  - intros (_ & Hd & -> & _). do 4 (apply Forall_cons in Hd as [? Hd]).
    destruct (two_spec a b) as [Hr1 He1]; [done..|]. destruct (two_spec c d) as [Hr2 He2]; [done..|].
    replace (dec_value [a; b; c; d]) with (dec_value [a; b] * 100 + dec_value [c; d])
      by (unfold dec_value, dec_step; simpl; lia).
    split; [lia|]. unfold four.
    replace (dec_value [a; b] * 100 + dec_value [c; d]) with (dec_value [c; d] + dec_value [a; b] * 100) by lia.
    rewrite Z.div_add, Z.mod_add, Z.div_small, Z.mod_small by lia. rewrite Z.add_0_l.
    rewrite <- He1, <- He2. done.
  - intros [Hv Heq]. pose proof (Z.div_mod v 100 ltac:(lia)). pose proof (Z.mod_pos_bound v 100 ltac:(lia)).
    assert (0 <= v / 100 <= 99). { split; [apply Z.div_pos; lia | apply Z.lt_succ_r, Z.div_lt_upper_bound; lia]. }
    destruct (two_digits (v / 100)) as [Hd1 Hv1]; [lia|].
    destruct (two_digits (v mod 100)) as [Hd2 Hv2]; [lia|].
    rewrite Heq. unfold four. split_and!; try done; [by apply Forall_app | | lia |].
    + revert Hv1 Hv2. unfold two, dec_value, dec_step. cbn [fold_left app].
      generalize (v / 100 / 10) (v / 100 mod 10) (v mod 100 / 10) (v mod 100 mod 10). lia.
    + change i16_max with 32767. lia.
Qed.

Lemma parse_two_show n : 0 <= n <= 99 -> parse_i8 (two n) = Ok n.
Proof. intros Hn. by apply parse_two. Qed.
Lemma parse_four_show n : 0 <= n <= 9999 -> parse_i16 (four n) = Ok n.
Proof. intros Hn. by apply parse_four. Qed.

Section Grammar.
Context `{Civil}.

Definition date_text (s : str) (d : Date) : Prop :=
  exists y m dd, 0 <= y <= 9999 /\ 0 <= m <= 99 /\ 0 <= dd <= 99 /\
    s = four y ++ [45] ++ two m ++ [45] ++ two dd /\ date_new y m dd = Some d.

Definition time_text (s : str) (t : Time) : Prop :=
  exists h m, 0 <= h <= 99 /\ 0 <= m <= 99 /\
    ((s = two h ++ [58] ++ two m /\ time_new h m 0 0 = Some t) \/
     (exists sec, 0 <= sec <= 99 /\ s = two h ++ [58] ++ two m ++ [58] ++ two sec /\
        time_new h m sec 0 = Some t)).

Definition calendar_text (s : str) (v : CalendarSyntax) : Prop :=
  match v with
  | CS_Time t => time_text s t
  | CS_Date d => date_text s d
  | CS_DateTime (d, t) => exists sd sep st,
      (sep = 84 \/ sep = 32) /\ s = sd ++ [sep] ++ st /\ date_text sd d /\ time_text st t
  end.

Lemma parse_date_ok s d : parse_date s = Ok d <-> date_text s d.
Proof.
  unfold parse_date. split.
  - destruct (length s =? 10)%nat eqn:El; [|done]. apply Nat.eqb_eq in El.
    destruct s as [|a [|b [|c [|e [|f [|g [|h [|i [|j [|k []]]]]]]]]]]; try done.
    cbn [lookup list_lookup negb orb].
    destruct (bool_decide (Some f = Some 45)) eqn:E4; [|done].
    destruct (bool_decide (Some i = Some 45)) eqn:E7; [|done].
    apply bool_decide_eq_true in E4, E7. simplify_eq. cbn [negb orb].
    intros (y & [Hy Ey]%parse_four & (m & [Hm Em]%parse_two & (dd & [Hd Ed]%parse_two & Hn%ok_or_ok)%bind_ok)%bind_ok)%bind_ok;
      [|done..].
    exists y, m, dd. split_and!; try (done || lia). unfold slice in *. cbn [drop take Nat.sub] in Ey, Em, Ed.
    by rewrite <- Ey, <- Em, <- Ed.
  - intros (y & m & dd & Hy & Hm & Hd & -> & Hn).
    set (s := four y ++ _). replace (_ || _ || _) with false by reflexivity.
    change (slice 0 4 s) with (four y). change (slice 5 7 s) with (two m).
    change (slice 8 10 s) with (two dd).
    by rewrite parse_four_show, !parse_two_show; cbn [mbind result_bind]; rewrite ?Hn.
Qed.

Lemma parse_time_shape s t : parse_time s = Ok t ->
  (exists a b d e, s = [a; b; 58; d; e]) \/ (exists a b d e g h, s = [a; b; 58; d; e; 58; g; h]).
Proof.
  unfold parse_time. intros Hs.
  destruct s as [|a [|b [|c [|d [|e [|f [|g [|h [|i s]]]]]]]]]; revert Hs;
    try done; repeat (case_match; try done); intros _; subst; [left | right]; eauto 10.
Qed.

Lemma parse_time_ok s t : parse_time s = Ok t <-> time_text s t.
Proof.
  split.
  - intros Hs. destruct (parse_time_shape _ _ Hs) as [(a & b & d & e & ->)|(a & b & d & e & g & h & ->)];
      revert Hs; cbn [parse_time].
    + intros (hh & [Hh Eh]%parse_two & (mm & [Hm Em]%parse_two & Ht)%bind_ok)%bind_ok; [|done..].
      apply ok_or_ok in Ht. unfold slice in *. cbn [drop take Nat.sub] in Eh, Em.
      exists hh, mm. split_and!; try (done || lia). left. by rewrite <- Eh, <- Em.
    + intros (hh & [Hh Eh]%parse_two & (mm & [Hm Em]%parse_two & Ht)%bind_ok)%bind_ok; [|done..].
      cbn [length Nat.eqb] in Ht. apply bind_ok in Ht as (sec & [Hsec Es]%parse_two & Ht); [|done].
      apply ok_or_ok in Ht. unfold slice in *. cbn [drop take Nat.sub] in Eh, Em, Es.
      exists hh, mm. split_and!; try (done || lia). right. exists sec. by rewrite <- Eh, <- Em, <- Es.
  - intros (h & m & Hh & Hm & [[-> Ht]|(sec & Hsec & -> & Ht)]).
    + set (s := two h ++ _). change (parse_time s) with
        (hour ← parse_i8 (two h); minute ← parse_i8 (two m);
         second ← Ok 0; ok_or (time_new hour minute second 0) CSE_InvalidTime).
      by rewrite !parse_two_show; cbn [mbind result_bind]; rewrite ?Ht.
    + set (s := two h ++ _). change (parse_time s) with
        (hour ← parse_i8 (two h); minute ← parse_i8 (two m);
         second ← parse_i8 (two sec); ok_or (time_new hour minute second 0) CSE_InvalidTime).
      by rewrite !parse_two_show; cbn [mbind result_bind]; rewrite ?Ht.
Qed.

Lemma contains_byte_two c n :
  is_ascii_digit c = false -> 0 <= n <= 99 -> contains_byte c (two n) = false.
Proof.
  intros Hc Hn. destruct (two_digits n Hn) as [Hd _].
  apply Forall_cons in Hd as [H1 Hd]. apply Forall_cons in Hd as [H2 _].
  unfold contains_byte, two. cbn [existsb]. rewrite !orb_false_iff.
  split_and!; [..|done]; apply Z.eqb_neq; intros ->; congruence.
Qed.

(** Dates and times are told apart by their separators. *)
Lemma date_text_bytes s d : date_text s d -> length s = 10%nat /\ contains_byte 45 s = true /\ contains_byte 58 s = false.
Proof.
  intros (y & m & dd & Hy & Hm & Hd & -> & _).
  assert (0 <= y / 100 <= 99 /\ 0 <= y mod 100 <= 99) as [? ?].
  { pose proof (Z.mod_pos_bound y 100 ltac:(lia)).
    split; [split; [apply Z.div_pos | apply Z.lt_succ_r, Z.div_lt_upper_bound]|]; lia. }
  unfold four. rewrite !contains_byte_app, !contains_byte_two by done. done.
Qed.

Lemma time_text_bytes s t : time_text s t ->
  (length s = 5%nat \/ length s = 8%nat) /\ contains_byte 58 s = true /\ contains_byte 45 s = false.
Proof.
  intros (h & m & Hh & Hm & [[-> _]|(sec & Hsec & -> & _)]);
    rewrite !contains_byte_app, !contains_byte_two by done; split_and!; auto.
Qed.

Lemma parse_datetime_ok s d t :
  parse_datetime s = Ok (d, t) <-> calendar_text s (CS_DateTime (d, t)).
Proof.
  unfold parse_datetime. split.
  - destruct (negb _ || negb _) eqn:E; [done|]. apply orb_false_iff in E as [El Es].
    apply negb_false_iff, orb_true_iff in El, Es. rewrite !bool_decide_eq_true in Es.
    intros (d' & Hd%parse_date_ok & (t' & Ht%parse_time_ok & [= -> ->])%bind_ok)%bind_ok.
    exists (take 10 s). assert (exists sep, s !! 10%nat = Some sep /\ (sep = 84 \/ sep = 32)) as (sep & Hs & Hsep)
      by naive_solver.
    exists sep, (drop 11 s). split_and!; [done| |done|done].
    rewrite <- (take_drop 10 s) at 1. f_equal. by rewrite (drop_S s sep 10 Hs).
  - intros (sd & sep & st & Hsep & -> & Hd & Ht).
    pose proof (date_text_bytes _ _ Hd) as (Hld & _). pose proof (time_text_bytes _ _ Ht) as (Hlt & _).
    assert ((sd ++ [sep] ++ st) !! 10%nat = Some sep) as Hl by (by rewrite lookup_app_r, Hld by lia).
    destruct (negb _ || negb _) eqn:E.
    { exfalso. apply orb_true_iff in E. rewrite !negb_true_iff, !orb_false_iff, !Nat.eqb_neq, !bool_decide_eq_false in E.
      rewrite length_app, Hld, Hl in E. simpl in E. naive_solver lia. }
    rewrite take_app_length' by done.
    replace (drop 11 _) with st by (by rewrite drop_app_ge, Hld by lia).
    by rewrite (proj2 (parse_date_ok _ _) Hd), (proj2 (parse_time_ok _ _) Ht).
Qed.
End Grammar.

Section ResolutionSpec.
Context `{Civil}.

(** What a resolved instant means: it shows the requested civil time in the
    zone, and when the civil time happens twice it is the one asked for. *)
Definition resolves (tz : TimeZone) (dst : DstResolution) (dt : Date * Time) (t : UtcTimestamp) : Prop :=
  ts_ok t /\ civil_of tz t = dt /\
  match dst with
  | DST_Reject => forall t', ts_ok t' -> civil_of tz t' = dt -> t' = t
  | DST_Earlier => forall t', ts_ok t' -> civil_of tz t' = dt -> t <= t'
  | DST_Later => forall t', ts_ok t' -> civil_of tz t' = dt -> t' <= t
  end.

Lemma resolve_datetime_ok tz dst dt t : resolve_datetime dt tz dst = Ok t -> resolves tz dst dt t.
Proof.
  unfold resolve_datetime, resolves.
  destruct (ambiguous_offset tz dt) eqn:E; [done| |]; cbn [mbind result_bind].
  - destruct dst; cbn [mbind result_bind]; [done|..]; intros Ht%ok_or_ok.
    + by destruct (earlier_law _ _ _ E Ht) as (? & ? & ?).
    + by destruct (later_law _ _ _ E Ht) as (? & ? & ?).
  - intros Ht%ok_or_ok. destruct (unambiguous_law _ _ _ E Ht) as [Hok Hu].
    split_and!; [apply Hok..|by apply Hu|].
    destruct dst; intros t' Ht' Hc; apply Hu in Hc; (done || lia).
Qed.

(** The civil time a parsed input asks for at [now]: a bare time is today's,
    or tomorrow's when today's has passed and rollover is allowed. *)
Definition requested (tz : TimeZone) (dst : DstResolution) (no_rollover : bool) (now : UtcTimestamp)
  (v : CalendarSyntax) (t : UtcTimestamp) : Prop :=
  match v with
  | CS_Date d => resolves tz dst (d, midnight) t /\ now < t
  | CS_DateTime dt => resolves tz dst dt t /\ now < t
  | CS_Time tm =>
      let today := (civil_of tz now).1 in
      (resolves tz dst (today, tm) t /\ now < t) \/
      (no_rollover = false /\
       (exists passed, resolves tz dst (today, tm) passed /\ passed <= now) /\
       exists next_day, tomorrow today = Some next_day /\ resolves tz dst (next_day, tm) t)
  end.

Lemma resolve_time_only_ok tm tz dst no_rollover now t :
  resolve_time_only tm tz dst no_rollover now = Ok t ->
  requested tz dst no_rollover now (CS_Time tm) t.
Proof.
  unfold resolve_time_only. intros (c & Hc%resolve_datetime_ok & H')%bind_ok.
  destruct (Z.ltb_spec now c); [left; by simplify_eq|]. right.
  destruct no_rollover; [done|]. apply bind_ok in H' as (d & Hd%ok_or_ok & Ht%resolve_datetime_ok).
  split_and!; eauto.
Qed.

Lemma require_future_ok c now t : require_future c now = Ok t <-> t = c /\ now < c.
Proof. unfold require_future. destruct (Z.leb_spec c now); naive_solver lia. Qed.

Lemma resolve_time_zone_utc tz name :
  resolve_time_zone TZ_Utc = Ok (tz, name) ->
  exists data, tzdb_get (lit "UTC") = Some (name, data) /\ tzif name data = Some tz.
Proof.
  unfold resolve_time_zone. cbn [mbind result_bind].
  intros ([c data] & Hg%ok_or_ok & (z & Hz%ok_or_ok & [= <- <-])%bind_ok)%bind_ok. eauto.
Qed.

(** The parts of a resolution. *)
Lemma resolve_calendar_inv input selection dst no_rollover now r :
  resolve_calendar input selection dst no_rollover now = Ok r ->
  exists v tz data,
    parse_calendar input = Ok v /\ resolve_time_zone selection = Ok (tz, cr_timezone r) /\
    tzif (cr_timezone r) data = Some tz /\ cr_original_input r = input /\
    cr_tzdb_version r = bundled_tzdb_version /\ cr_dst_resolution r = dst /\
    requested tz dst no_rollover now v (cr_resolved_utc r).
Proof.
  unfold resolve_calendar. intros (v & Hv%map_err_ok & ([tz name] & Htz & (t & Ht & [= <-])%bind_ok)%bind_ok)%bind_ok.
  pose proof Htz as (req & _ & ([c data] & _ & (z & Hz%ok_or_ok & [= -> ->])%bind_ok)%bind_ok)%bind_ok.
  exists v, tz, data. split_and!; [done..|]. cbn [cr_resolved_utc]. destruct v as [tm|d|dt].
  - by apply resolve_time_only_ok.
  - apply bind_ok in Ht as (c & Hc%resolve_datetime_ok & [-> ?]%require_future_ok). done.
  - apply bind_ok in Ht as (c & Hc%resolve_datetime_ok & [-> ?]%require_future_ok). done.
Qed.

Lemma requested_ts_ok tz dst no_rollover now v t : requested tz dst no_rollover now v t -> ts_ok t.
Proof. destruct v; cbn; [intros [[[? _] _] | (_ & _ & d & _ & ? & _)] | intros [[? _] _] | intros [[? _] _]]; done. Qed.
End ResolutionSpec.

(** ** A model of the class: one zone at UTC with days of equal length *)
Module CivilModel.
#[local] Existing Instance JiffModel.jiff.
Definition day_ns : Z := 86400 * 10 ^ 9.
Definition utc_instant (dt : Z * Z) : option Z :=
  if in_range 0 (day_ns - 1) dt.2 then ts_checked (dt.1 * day_ns + dt.2) else None.
Definition utc_offset (dt : Z * Z) : AmbiguousOffset :=
  if in_range 0 (day_ns - 1) dt.2 then AO_Unambiguous else AO_Gap.
#[export] Program Instance civil : Civil := {|
  Date := Z; Time := Z; TimeZone := unit;
  date_new y m d := if in_range 1 12 m && in_range 1 31 d then Some ((y - 1970) * 365 + (m - 1) * 30 + d) else None;
  time_new h m s n :=
    if in_range 0 23 h && in_range 0 59 m && in_range 0 59 s
    then Some (((h * 60 + m) * 60 + s) * 10 ^ 9 + n) else None;
  midnight := 0;
  tomorrow d := Some (d + 1);
  try_system := Some tt; iana_name _ := Some (lit "UTC");
  tzdb_version := Some (lit "2026a");
  tzdb_get s := if bool_decide (s = lit "UTC") then Some (s, []) else None;
  tzif _ _ := Some tt;
  civil_of _ t := (t / day_ns, t mod day_ns);
  ambiguous_offset _ := utc_offset;
  earlier _ := utc_instant; later _ := utc_instant; unambiguous _ := utc_instant
|}.
Next Obligation.
  intros _ [d t] i _. unfold utc_instant. cbn [fst snd].
  destruct (in_range 0 (day_ns - 1) t) eqn:E; [|done]. apply in_range_spec in E.
  intros [-> Hi]%checked_Some. split; [done|]. intros t' _. split.
  - intros [= <- <-]. pose proof (Z.div_mod t' day_ns). unfold day_ns in *. lia.
  - intros ->. rewrite (Z.add_comm (d * day_ns)), Z.div_add, Z.mod_add by done.
    rewrite Z.div_small, Z.mod_small by lia. f_equal; lia.
Qed.
Next Obligation. intros tz dt t. unfold utc_offset. by destruct in_range. Qed.
Next Obligation. intros tz dt t. unfold utc_offset. by destruct in_range. Qed.
Next Obligation.
  intros tz dt t. unfold utc_offset. destruct (in_range 0 (day_ns - 1) dt.2) eqn:E; [done|].
  intros _ _ <-. cbn [snd] in E. apply in_range_false in E.
  pose proof (Z.mod_pos_bound t day_ns ltac:(done)). lia.
Qed.
End CivilModel.

(** ** Properties *)

(** The accepted calendar texts, after trimming, are exactly
    [YYYY-MM-DD], [HH:MM], [HH:MM:SS] and a date and a time joined by [T] or a
    space, every component with its full width, for dates and times that
    exist. *)
Theorem parse_calendar_spec `{Civil} input v :
  parse_calendar input = Ok v <-> calendar_text (trim input) v.
Proof.
  unfold parse_calendar. set (s := trim input). destruct (is_empty s) eqn:Ee.
  - split; [done|]. destruct s; [|done]. destruct v as [t|d|[d t]]; intros Hv; exfalso.
    + apply time_text_bytes in Hv. naive_solver.
    + apply date_text_bytes in Hv. naive_solver.
    + destruct Hv as ([|] & ? & ? & _ & ? & _); done.
  - destruct (contains_byte 58 s && _) eqn:E1; [|destruct (contains_byte 45 s && _) eqn:E2];
      rewrite fmap_ok; destruct v as [t|d|[d t]]; (split; [intros (x & Hx & Heq); simplify_eq|]); try done.
    all: try (by apply parse_time_ok). all: try (by apply parse_date_ok).
    all: try (by apply parse_datetime_ok). all: intros Hv.
    + exists t. by split; [apply parse_time_ok|].
    + apply date_text_bytes in Hv as (_ & H1 & H2). rewrite H2 in E1. done.
    + destruct Hv as (sd & sep & st & _ & Hs & Hd%date_text_bytes & Ht%time_text_bytes).
      destruct Hd as (_ & H1 & H2). rewrite Hs, !contains_byte_app, H1 in E1. by rewrite andb_false_r in E1.
    + apply time_text_bytes in Hv as (_ & H1 & H2). by rewrite H1, H2 in E1.
    + exists d. by split; [apply parse_date_ok|].
    + destruct Hv as (sd & sep & st & _ & Hs & Hd%date_text_bytes & Ht%time_text_bytes).
      destruct Ht as (_ & H1 & H2). rewrite Hs, !contains_byte_app, H1, !orb_true_r, andb_false_r in E2. done.
    + apply time_text_bytes in Hv as (_ & H1 & H2). by rewrite H1, H2 in E1.
    + apply date_text_bytes in Hv as (_ & H1 & H2). by rewrite H1, H2 in E2.
    + exists (d, t). by split; [apply parse_datetime_ok|].
Qed.


