(* ===== verification/Execution.v ===== *)
(** [src/domain/execution.rs]: the validated specification of a command and
    its stored form.

    The JSON text is [serde_json]'s: the class [ExecutionJson].  A [PathBuf]
    is its bytes; a [BTreeMap<String, _>] is a [gmap] whose iteration is in
    the order of the keys. *)

From S2P Require Import Prelude Text.

Definition MAX_ARGUMENT_BYTES : Z := 128 * 1024.
Definition MAX_SERIALIZED_BYTES : Z := 1024 * 1024.

Inductive ExecutionMode := EM_Direct | EM_Shell.
#[export] Instance ExecutionMode_eq_dec : EqDecision ExecutionMode. Proof. solve_decision. Defined.
Inductive StdinPolicy := SP_Null.
#[export] Instance StdinPolicy_eq_dec : EqDecision StdinPolicy. Proof. solve_decision. Defined.
Inductive OutputPolicy := OP_BoundedFile.
#[export] Instance OutputPolicy_eq_dec : EqDecision OutputPolicy. Proof. solve_decision. Defined.

Inductive ExecutionError :=
| EE_EmptyArguments | EE_ShellArgumentCount | EE_ContainsNul (what : str) | EE_ArgumentTooLarge
| EE_SerializedSizeExceeded | EE_WorkingDirectoryNotAbsolute | EE_InvalidShellPath
| EE_InvalidEnvironmentKey | EE_InvalidNotifyTty.
#[export] Instance ExecutionError_eq_dec : EqDecision ExecutionError. Proof. solve_decision. Defined.

Inductive ExecutionStorageError :=
| ESE_Json (message : str) | ESE_Invalid (e : ExecutionError) | ESE_InvalidPolicy | ESE_InvalidShell
| ESE_InvalidNotifyTty | ESE_InvalidWorkingDirectoryEncoding.
#[export] Instance ExecutionStorageError_eq_dec : EqDecision ExecutionStorageError.
Proof. solve_decision. Defined.

(** ** [SecretString] and [Environment] *)

Record SecretString := mk_secret { expose : str }.
#[export] Instance SecretString_eq_dec : EqDecision SecretString. Proof. solve_decision. Defined.

Definition secret_new (value : str) : result ExecutionError SecretString :=
  if contains_nul value then Err (EE_ContainsNul (lit "environment value")) else Ok (mk_secret value).

(** [Debug], [Display] and [Serialize] print the same marker. *)
Definition secret_fmt (s : SecretString) : str := lit "[REDACTED]".

(** Iteration of a [BTreeMap<String, A>]: ascending keys. *)
Definition key_le {A} (x y : str * A) : Prop := str_compare x.1 y.1 <> Gt.
#[export] Instance key_le_dec {A} (x y : str * A) : Decision (key_le x y).
Proof. unfold key_le. solve_decision. Defined.
Definition btree_iter {A} (m : gmap str A) : list (str * A) := merge_sort key_le (map_to_list m).

Abbreviation Environment := (gmap str SecretString).

Definition validate_environment_key (key : str) : result ExecutionError unit :=
  match key with
  | [] => Err EE_InvalidEnvironmentKey
  | first :: bytes =>
    if negb ((first =? 95) || is_ascii_alphabetic first)
       || negb (forallb (fun byte => (byte =? 95) || is_ascii_alphanumeric byte) bytes)
    then Err EE_InvalidEnvironmentKey else Ok tt
  end.

(** The loop of [Environment::from_pairs]. *)
Fixpoint from_pairs_loop (pairs : list (str * str)) (values : Environment)
  : result ExecutionError Environment :=
  match pairs with
  | [] => Ok values
  | (key, value) :: pairs =>
    _ ← validate_environment_key key;
    secret ← secret_new value;
    from_pairs_loop pairs (<[key := secret]> values)
  end.
Definition from_pairs (pairs : list (str * str)) : result ExecutionError Environment :=
  from_pairs_loop pairs ∅.

Definition sum_len (l : list Z) : Z := foldr Z.add 0 l.

Definition env_serialized_size (env : Environment) : Z :=
  sum_len ((fun '(key, value) => len key + len (expose value) + 2) <$> btree_iter env).

(** ** [ExecutionSpec] *)

Record ExecutionSpec := mk_execution {
  mode : ExecutionMode;
  argv : list str;
  working_directory : str;
  environment : Environment;
  stdin : StdinPolicy;
  stdout : OutputPolicy;
  stderr : OutputPolicy;
  shell_path : option str;
  notify_tty : option str
}.
#[export] Instance ExecutionSpec_eq_dec : EqDecision ExecutionSpec. Proof. solve_decision. Defined.

(** The [for argument in &argv] loop. *)
Fixpoint check_arguments (argv : list str) : result ExecutionError unit :=
  match argv with
  | [] => Ok tt
  | argument :: argv =>
    if contains_nul argument then Err (EE_ContainsNul (lit "argument")) else
    if MAX_ARGUMENT_BYTES <? len argument then Err EE_ArgumentTooLarge else
    check_arguments argv
  end.

Definition serialized_size (argv : list str) (env : Environment) (wd : str) : Z :=
  sum_len ((fun a => len a) <$> argv) + env_serialized_size env + len wd.

Definition execution_new (mode : ExecutionMode) (argv : list str) (wd : str) (env : Environment)
  : result ExecutionError ExecutionSpec :=
  if is_empty argv then Err EE_EmptyArguments else
  if bool_decide (mode = EM_Shell) && negb (length argv =? 1)%nat then Err EE_ShellArgumentCount else
  _ ← check_arguments argv;
  if negb (is_absolute wd) then Err EE_WorkingDirectoryNotAbsolute else
  if MAX_SERIALIZED_BYTES <? serialized_size argv env wd then Err EE_SerializedSizeExceeded else
  Ok {| mode := mode; argv := argv; working_directory := wd; environment := env;
        stdin := SP_Null; stdout := OP_BoundedFile; stderr := OP_BoundedFile;
        shell_path := if bool_decide (mode = EM_Shell) then Some (lit "/bin/sh") else None;
        notify_tty := None |}.

Definition with_notify_tty (e : ExecutionSpec) (tty : option str) : ExecutionSpec :=
  mk_execution (mode e) (argv e) (working_directory e) (environment e) (stdin e) (stdout e)
    (stderr e) (shell_path e) tty.
Definition with_shell_path (e : ExecutionSpec) (path : option str) : ExecutionSpec :=
  mk_execution (mode e) (argv e) (working_directory e) (environment e) (stdin e) (stdout e)
    (stderr e) path (notify_tty e).

Definition set_notify_tty (e : ExecutionSpec) (tty : str) : result ExecutionError ExecutionSpec :=
  if is_empty tty || contains_nul tty then Err EE_InvalidNotifyTty else
  if MAX_SERIALIZED_BYTES <?
     serialized_size (argv e) (environment e) (working_directory e) + len tty
  then Err EE_SerializedSizeExceeded else
  Ok (with_notify_tty e (Some tty)).

Definition set_shell_path (e : ExecutionSpec) (path : str) : result ExecutionError ExecutionSpec :=
  if bool_decide (mode e <> EM_Shell) || negb (is_absolute path) then Err EE_InvalidShellPath else
  Ok (with_shell_path e (Some path)).

(** ** The stored form *)

Record PersistedExecutionSpec := mk_persisted {
  p_mode : ExecutionMode;
  p_argv : list str;
  p_working_directory : str;
  p_environment : gmap str str;
  p_stdin : StdinPolicy;
  p_stdout : OutputPolicy;
  p_stderr : OutputPolicy;
  p_shell_path : option str;
  p_notify_tty : option str
}.

(** [serde] serialises a path only when it is UTF-8. *)
Definition paths_utf8 (p : PersistedExecutionSpec) : Prop :=
  valid_utf8 (p_working_directory p) = true /\
  (forall s, p_shell_path p = Some s -> valid_utf8 s = true) /\
  (forall s, p_notify_tty p = Some s -> valid_utf8 s = true).

Class ExecutionJson := {
  persisted_to_json : PersistedExecutionSpec -> result str str;
  persisted_from_json : str -> result str PersistedExecutionSpec;
  persisted_to_json_ok : forall p, paths_utf8 p <-> exists s, persisted_to_json p = Ok s;
  persisted_json_roundtrip : forall p s, persisted_to_json p = Ok s -> persisted_from_json s = Ok p
}.

Section Storage.
Context `{ExecutionJson}.

Definition to_persisted (e : ExecutionSpec) : PersistedExecutionSpec := {|
  p_mode := mode e; p_argv := argv e; p_working_directory := working_directory e;
  p_environment := expose <$> environment e;
  p_stdin := stdin e; p_stdout := stdout e; p_stderr := stderr e;
  p_shell_path := shell_path e; p_notify_tty := notify_tty e |}.

Definition to_persistence_json (e : ExecutionSpec) : result ExecutionStorageError str :=
  map_err ESE_Json (persisted_to_json (to_persisted e)).

Definition from_persistence_json (input : str) : result ExecutionStorageError ExecutionSpec :=
  stored ← map_err ESE_Json (persisted_from_json input);
  if bool_decide (p_stdin stored <> SP_Null) || bool_decide (p_stdout stored <> OP_BoundedFile)
     || bool_decide (p_stderr stored <> OP_BoundedFile) then Err ESE_InvalidPolicy else
  environment ← map_err ESE_Invalid (from_pairs (btree_iter (p_environment stored)));
  if negb (valid_utf8 (p_working_directory stored)) then Err ESE_InvalidWorkingDirectoryEncoding else
  execution ← map_err ESE_Invalid
    (execution_new (p_mode stored) (p_argv stored) (p_working_directory stored) environment);
  execution ←
    match p_mode stored, p_shell_path stored with
    | EM_Direct, None => Ok execution
    | EM_Shell, Some path =>
      if is_absolute path then Ok (with_shell_path execution (Some path)) else Err ESE_InvalidShell
    | _, _ => Err ESE_InvalidShell
    end;
  match p_notify_tty stored with
  | Some tty => map_err (fun _ => ESE_InvalidNotifyTty) (set_notify_tty execution tty)
  | None => Ok execution
  end.
End Storage.

(** ** The invariant of a specification *)

Definition env_key_ok (key : str) : bool :=
  match key with
  | first :: bytes =>
    ((first =? 95) || is_ascii_alphabetic first)
    && forallb (fun byte => (byte =? 95) || is_ascii_alphanumeric byte) bytes
  | [] => false
  end.

Definition env_ok (env : Environment) : Prop :=
  map_Forall (fun key secret => env_key_ok key = true /\ contains_nul (expose secret) = false) env.

Definition argument_ok (a : str) : Prop :=
  contains_nul a = false /\ len a <= MAX_ARGUMENT_BYTES.

Record execution_ok (e : ExecutionSpec) : Prop := {
  ok_argv : argv e <> [] /\ Forall argument_ok (argv e);
  ok_shell_argv : mode e = EM_Shell -> length (argv e) = 1%nat;
  ok_shell : match mode e, shell_path e with
             | EM_Direct, None => True
             | EM_Shell, Some p => is_absolute p = true
             | _, _ => False
             end;
  ok_wd : is_absolute (working_directory e) = true;
  ok_env : env_ok (environment e);
  ok_tty : forall t, notify_tty e = Some t -> t <> [] /\ contains_nul t = false;
  ok_size : serialized_size (argv e) (environment e) (working_directory e)
            + match notify_tty e with Some t => len t | None => 0 end <= MAX_SERIALIZED_BYTES
}.

(** ** Lemmas *)

Lemma validate_environment_key_ok key u :
  validate_environment_key key = Ok u <-> env_key_ok key = true.
Proof.
  destruct u. unfold validate_environment_key, env_key_ok. destruct key as [|f r]; [done|].
  destruct ((f =? 95) || is_ascii_alphabetic f), (forallb _ r); simpl; naive_solver.
Qed.

Lemma secret_new_ok v s : secret_new v = Ok s <-> s = mk_secret v /\ contains_nul v = false.
Proof. unfold secret_new. destruct (contains_nul v); naive_solver. Qed.

Definition pair_ok (p : str * str) : Prop := env_key_ok p.1 = true /\ contains_nul p.2 = false.

Lemma from_pairs_loop_ok pairs values env :
  from_pairs_loop pairs values = Ok env <->
  Forall pair_ok pairs /\
  env = foldl (fun m p => <[p.1 := mk_secret p.2]> m) values pairs.
Proof.
  revert values. induction pairs as [|[k v] pairs IH]; intros values; cbn [from_pairs_loop foldl].
  { split; [intros [= <-]; by split | naive_solver]. }
  rewrite bind_ok, Forall_cons. setoid_rewrite validate_environment_key_ok.
  setoid_rewrite bind_ok. setoid_rewrite secret_new_ok. setoid_rewrite IH. unfold pair_ok. simpl.
  naive_solver.
Qed.

(** Inserting pairs one by one builds the map of the reversed list. *)
Lemma foldl_insert_lookup {A B} (f : A -> B) (pairs : list (str * A)) (m : gmap str B) :
  NoDup pairs.*1 ->
  foldl (fun m p => <[p.1 := f p.2]> m) m pairs = (f <$> (list_to_map pairs : gmap str A)) ∪ m.
Proof.
  revert m. induction pairs as [|[k v] pairs IH]; intros m; simpl.
  { intros _. by rewrite fmap_empty, (left_id_L ∅ (∪)). }
  rewrite NoDup_cons. intros [Hk Hnd]. rewrite IH, fmap_insert, <- insert_union_l by done.
  rewrite insert_union_r; [done|]. rewrite lookup_fmap, fmap_None. by apply not_elem_of_list_to_map.
Qed.

Lemma btree_iter_perm {A} (m : gmap str A) : btree_iter m ≡ₚ map_to_list m.
Proof. apply merge_sort_Permutation. Qed.

Lemma btree_iter_nodup {A} (m : gmap str A) : NoDup (btree_iter m).*1.
Proof. rewrite btree_iter_perm. apply NoDup_fst_map_to_list. Qed.

Lemma btree_iter_map {A} (m : gmap str A) : list_to_map (btree_iter m) = m.
Proof.
  rewrite (list_to_map_proper _ _ (btree_iter_nodup m) (btree_iter_perm m)). apply list_to_map_to_list.
Qed.

Lemma btree_iter_Forall {A} (P : str -> A -> Prop) (m : gmap str A) :
  Forall (fun p => P p.1 p.2) (btree_iter m) <-> map_Forall P m.
Proof. rewrite btree_iter_perm, map_Forall_to_list. apply Forall_iff. by intros []. Qed.

(** Rebuilding an environment from its stored pairs. *)
Lemma from_pairs_btree (m : gmap str str) env :
  from_pairs (btree_iter m) = Ok env <->
  env = mk_secret <$> m /\ map_Forall (fun k v => env_key_ok k = true /\ contains_nul v = false) m.
Proof.
  unfold from_pairs. rewrite from_pairs_loop_ok.
  rewrite (foldl_insert_lookup mk_secret) by apply btree_iter_nodup.
  rewrite btree_iter_map, (right_id_L ∅ (∪)). unfold pair_ok.
  rewrite (btree_iter_Forall (fun k v => env_key_ok k = true /\ contains_nul v = false)). naive_solver.
Qed.

Lemma check_arguments_ok argv u : check_arguments argv = Ok u <-> Forall argument_ok argv.
Proof.
  destruct u. induction argv as [|a argv IH]; simpl; [by split|].
  rewrite Forall_cons, <- IH. unfold argument_ok. destruct (contains_nul a); [naive_solver|].
  destruct (Z.ltb_spec MAX_ARGUMENT_BYTES (len a)); split; try done; try lia; naive_solver.
Qed.

Lemma execution_new_inv m args wd env e :
  execution_new m args wd env = Ok e <->
  (args <> [] /\ (m = EM_Shell -> length args = 1%nat) /\ Forall argument_ok args /\
   is_absolute wd = true /\ serialized_size args env wd <= MAX_SERIALIZED_BYTES) /\
  e = mk_execution m args wd env SP_Null OP_BoundedFile OP_BoundedFile
        (if bool_decide (m = EM_Shell) then Some (lit "/bin/sh") else None) None.
Proof.
  unfold execution_new. destruct args as [|a args]; [naive_solver|]. cbn [is_empty].
  destruct (bool_decide (m = EM_Shell) && _) eqn:E1.
  { apply andb_true_iff in E1 as [E1%bool_decide_eq_true E2]. apply negb_true_iff, Nat.eqb_neq in E2.
    naive_solver. }
  assert (m = EM_Shell -> length (a :: args) = 1%nat) as Hm.
  { intros ->. rewrite bool_decide_true in E1 by done. apply andb_false_iff in E1 as [|E1]; [done|].
    by apply negb_false_iff, Nat.eqb_eq in E1. }
  rewrite bind_ok. setoid_rewrite check_arguments_ok.
  destruct (is_absolute wd); cbn [negb]; [|naive_solver].
  destruct (Z.ltb_spec MAX_SERIALIZED_BYTES (serialized_size (a :: args) env wd)).
  - split; [naive_solver | lia].
  - split; [|naive_solver]. intros (_ & Hargs & [= <-]). naive_solver.
Qed.

Lemma set_notify_tty_ok e t e' :
  set_notify_tty e t = Ok e' <->
  e' = with_notify_tty e (Some t) /\ t <> [] /\ contains_nul t = false /\
  serialized_size (argv e) (environment e) (working_directory e) + len t <= MAX_SERIALIZED_BYTES.
Proof.
  unfold set_notify_tty. destruct t as [|b t]; [naive_solver|]. cbn [is_empty orb].
  destruct (contains_nul (b :: t)); [naive_solver|].
  destruct (Z.ltb_spec MAX_SERIALIZED_BYTES
    (serialized_size (argv e) (environment e) (working_directory e) + len (b :: t))).
  - split; [done | lia].
  - naive_solver.
Qed.

Lemma set_shell_path_ok e p e' :
  set_shell_path e p = Ok e' <->
  e' = with_shell_path e (Some p) /\ mode e = EM_Shell /\ is_absolute p = true.
Proof.
  unfold set_shell_path. case_bool_decide as Hm; simpl; [naive_solver|].
  destruct (is_absolute p); naive_solver.
Qed.

Lemma execution_new_ok m args wd env e :
  env_ok env -> execution_new m args wd env = Ok e -> execution_ok e.
Proof.
  intros Henv [(Hne & Hm & Hargs & Hwd & Hsz) ->]%execution_new_inv.
  split; simpl; try done; [by destruct m | lia].
Qed.

Lemma set_notify_tty_preserves e t e' : execution_ok e -> set_notify_tty e t = Ok e' -> execution_ok e'.
Proof.
  intros [] (-> & Ht & Hn & Hsz)%set_notify_tty_ok. split; simpl; try done. by intros ? [= <-].
Qed.

Lemma set_shell_path_preserves e p e' : execution_ok e -> set_shell_path e p = Ok e' -> execution_ok e'.
Proof. intros [] (-> & Hm & Hp)%set_shell_path_ok. split; simpl; try done. by rewrite Hm. Qed.

Lemma from_pairs_env_ok pairs env : from_pairs pairs = Ok env -> env_ok env.
Proof.
  unfold from_pairs. rewrite from_pairs_loop_ok. intros [Hp ->].
  assert (env_ok ∅) as Hm by apply map_Forall_empty. revert Hm. generalize (∅ : Environment) as m.
  induction Hp as [|[k v] pairs [Hk Hv] Hp IH]; intros m Hm; simpl; [done|].
  apply IH, map_Forall_insert_2; [|done]. by split.
Qed.

Section StorageLemmas.
Context `{ExecutionJson}.

Lemma from_persistence_json_inv s e :
  from_persistence_json s = Ok e <->
  exists p, persisted_from_json s = Ok p /\ to_persisted e = p /\ execution_ok e /\
            valid_utf8 (p_working_directory p) = true.
Proof.
  unfold from_persistence_json. rewrite bind_ok. setoid_rewrite map_err_ok.
  split; intros (p & Hp & H'); exists p; (split; [done|]).
  - destruct p as [m args wd env [] [] [] sh tty]. revert H'. cbn [p_stdin p_stdout p_stderr p_environment
      p_working_directory p_mode p_argv p_shell_path p_notify_tty].
    rewrite !bool_decide_false by naive_solver. cbn [orb].
    intros (env' & Henv%map_err_ok & H')%bind_ok. pose proof (from_pairs_env_ok _ _ Henv) as Hok.
    apply from_pairs_btree in Henv as [-> _].
    destruct (valid_utf8 wd); [|done]. cbn [negb] in H'.
    apply bind_ok in H' as (e0 & He0%map_err_ok & H').
    pose proof (execution_new_ok _ _ _ _ _ Hok He0) as Hoke. apply execution_new_inv in He0 as [_ ->].
    assert (expose <$> (mk_secret <$> env) = env) as Hexp.
    { rewrite <- map_fmap_compose. apply map_fmap_id. }
    apply bind_ok in H' as (e1 & He1 & H').
    assert (e1 = mk_execution m args wd (mk_secret <$> env) SP_Null OP_BoundedFile OP_BoundedFile sh None
            /\ execution_ok e1) as [-> Hok1].
    { destruct m, sh as [sh|]; simplify_eq/=; [done|]. destruct (is_absolute sh) eqn:Ea; simplify_eq/=.
      split; [done|]. destruct Hoke. by split. }
    destruct tty as [t|].
    + apply map_err_ok in H'. pose proof (set_notify_tty_preserves _ _ _ Hok1 H').
      apply set_notify_tty_ok in H' as (-> & _). split_and!; [|done|done].
      unfold to_persisted, with_notify_tty. simpl. by rewrite Hexp.
    + simplify_eq. split_and!; [|done|done]. unfold to_persisted. simpl. by rewrite Hexp.
  - destruct H' as (<- & [[Hne Hargs] Hsa Hsh Hwd Henv Htty Hsz] & Hutf).
    destruct e as [m args wd env [] [] [] sh tty]. unfold to_persisted in *. simpl in *.
    cbn [orb].
    assert (mk_secret <$> (expose <$> env) = env) as Hexp.
    { rewrite <- map_fmap_compose. rewrite <- (map_fmap_id env) at 2. apply map_fmap_ext. by intros ? [] ?. }
    rewrite (proj2 (from_pairs_btree (expose <$> env) env)).
    2:{ split; [done|]. intros k v (s' & <- & Hs)%lookup_fmap_Some. by apply Henv in Hs. }
    cbn [map_err mbind result_bind]. rewrite Hutf. cbn [negb].
    rewrite (proj2 (execution_new_inv m args wd env (mk_execution m args wd env SP_Null OP_BoundedFile
      OP_BoundedFile (if bool_decide (m = EM_Shell) then Some (lit "/bin/sh") else None) None)))
      by (split_and!; try done; destruct tty; simpl in *; lia).
    assert (forall e, with_notify_tty e None = e ->
      (argv e, environment e, working_directory e) = (args, env, wd) ->
      match tty with
      | Some t => map_err (fun _ => ESE_InvalidNotifyTty) (set_notify_tty e t)
      | None => Ok e
      end = Ok (with_notify_tty e tty)) as Hlast.
    { intros e He ?. simplify_eq/=. destruct tty as [t|]; [|by rewrite He].
      destruct (Htty t eq_refl). by rewrite (proj2 (set_notify_tty_ok e t (with_notify_tty e (Some t)))). }
    destruct m, sh as [sh|]; try done; [|cbn [map_err mbind result_bind]; rewrite Hsh];
      cbn [map_err mbind result_bind]; by rewrite Hlast.
Qed.

Lemma persistence_roundtrip e s :
  execution_ok e -> to_persistence_json e = Ok s -> from_persistence_json s = Ok e.
Proof.
  intros Hok Hs%map_err_ok. apply from_persistence_json_inv. exists (to_persisted e).
  split_and!; [by apply persisted_json_roundtrip | done | done |].
  assert (paths_utf8 (to_persisted e)) as [? _] by (apply persisted_to_json_ok; eauto). done.
Qed.
End StorageLemmas.

(** ** Properties *)

(** Every way of building a specification establishes its
    invariant: the constructor from validated pairs, the two setters, and
    decoding a stored text. *)
Theorem execution_invariant `{ExecutionJson} :
  (forall m args wd pairs env e,
     from_pairs pairs = Ok env -> execution_new m args wd env = Ok e -> execution_ok e) /\
  (forall e t e', execution_ok e -> set_notify_tty e t = Ok e' -> execution_ok e') /\
  (forall e p e', execution_ok e -> set_shell_path e p = Ok e' -> execution_ok e') /\
  (forall s e, from_persistence_json s = Ok e -> execution_ok e).
Proof.
  split_and!.
  - intros m args wd pairs env e Henv%from_pairs_env_ok. by apply execution_new_ok.
  - intros e t e'. apply set_notify_tty_preserves.
  - intros e p e'. apply set_shell_path_preserves.
  - intros s e (p & _ & _ & Hok & _)%from_persistence_json_inv. done.
Qed.

(** A specification that satisfies its invariant and can be
    stored is read back unchanged, secrets included. *)
Theorem execution_roundtrip `{ExecutionJson} e s :
  execution_ok e -> to_persistence_json e = Ok s -> from_persistence_json s = Ok e.
Proof. apply persistence_roundtrip. Qed.

(** A model of the class: the stored value encoded as one number. *)
Module ExecutionJsonModel.
Definition persisted_tuple (p : PersistedExecutionSpec) :=
  (bool_decide (p_mode p = EM_Shell), p_argv p, p_working_directory p, p_environment p,
   p_shell_path p, p_notify_tty p).
Definition tuple_persisted (t : bool * list str * str * gmap str str * option str * option str) :=
  let '(m, args, wd, env, sh, tty) := t in
  mk_persisted (if m : bool then EM_Shell else EM_Direct) args wd env SP_Null OP_BoundedFile OP_BoundedFile sh tty.
Definition persisted_encode (p : PersistedExecutionSpec) : str := [Z.pos (encode (persisted_tuple p))].
Definition persisted_decode (s : str) : result str PersistedExecutionSpec :=
  match s with
  | [Z.pos n] => ok_or (tuple_persisted <$> decode n) (lit "invalid")
  | _ => Err (lit "invalid")
  end.
#[export] Instance paths_utf8_dec p : Decision (paths_utf8 p).
Proof.
  unfold paths_utf8. apply and_dec; [solve_decision|]. apply and_dec.
  - destruct (p_shell_path p) as [s|]; [|left; done].
    destruct (valid_utf8 s) eqn:E; [left; by intros ? [= <-] | right; intros H; specialize (H s eq_refl); congruence].
  - destruct (p_notify_tty p) as [s|]; [|left; done].
    destruct (valid_utf8 s) eqn:E; [left; by intros ? [= <-] | right; intros H; specialize (H s eq_refl); congruence].
Defined.
Definition persisted_print (p : PersistedExecutionSpec) : result str str :=
  if decide (paths_utf8 p) then Ok (persisted_encode p) else Err (lit "path is not UTF-8").
#[export] Program Instance execution_json : ExecutionJson := {|
  persisted_to_json := persisted_print; persisted_from_json := persisted_decode
|}.
Next Obligation. intros p. unfold persisted_print. destruct (decide (paths_utf8 p)); naive_solver. Qed.
Next Obligation.
  intros p s. unfold persisted_print. destruct (decide (paths_utf8 p)); [|done]. intros [= <-].
  unfold persisted_decode, persisted_encode. rewrite decode_encode. simpl. f_equal.
  unfold persisted_tuple. destruct p as [[] ? ? ? [] [] [] ? ?]; done.
Qed.
End ExecutionJsonModel.

Definition example_execution : ExecutionSpec :=
  mk_execution EM_Shell [lit "ls"] (lit "/") {[ lit "K" := mk_secret (lit "v") ]}
    SP_Null OP_BoundedFile OP_BoundedFile (Some (lit "/b")) None.

Lemma example_execution_ok : execution_ok example_execution.
Proof.
  split; [| | | | | |by vm_compute].
  - split; [done|]. by apply Forall_singleton.
  - done.
  - done.
  - done.
  - by apply map_Forall_singleton.
  - done.
Qed.

Lemma execution_roundtrip_witness :
  let J := ExecutionJsonModel.execution_json in
  let s := ExecutionJsonModel.persisted_encode (to_persisted example_execution) in
  (execution_ok example_execution /\ to_persistence_json example_execution = Ok s) /\
  from_persistence_json s = Ok example_execution.
Proof.
  intros J s.
  assert (execution_ok example_execution /\ to_persistence_json example_execution = Ok s) as [H1 H2].
  { split; [apply example_execution_ok | done]. }
  split; [exact (conj H1 H2) | exact (@execution_roundtrip J _ _ H1 H2)].
Defined.

Lemma execution_invariant_witness :
  let J := ExecutionJsonModel.execution_json in
  set_notify_tty example_execution (lit "/dev/pts/3")
  = Ok (with_notify_tty example_execution (Some (lit "/dev/pts/3"))) /\
  execution_ok (with_notify_tty example_execution (Some (lit "/dev/pts/3"))).
Proof.
  intros J. assert (set_notify_tty example_execution (lit "/dev/pts/3")
    = Ok (with_notify_tty example_execution (Some (lit "/dev/pts/3")))) as H by (by vm_compute).
  split; [done|]. destruct (@execution_invariant J) as (_ & Htty & _).
  by apply (Htty example_execution (lit "/dev/pts/3")); [apply example_execution_ok|].
Defined.

Example env_order_ex :
  (fst <$> btree_iter (default ∅ (match from_pairs [(lit "Z", []); (lit "A", lit "1"); (lit "A", lit "2")] with
                                  | Ok e => Some e | Err _ => None end))) = [lit "A"; lit "Z"].
Proof. vm_compute. reflexivity. Qed.

(** ** The fuzz target [fuzz/fuzz_targets/execution_persistence.rs] *)

(** Whether its two assertions hold of an input. *)
Definition fuzz_execution_persistence `{ExecutionJson} (input : str) : bool :=
  match from_persistence_json input with
  | Ok execution => bool_decide (mode execution = EM_Direct) && negb (is_empty (argv execution))
  | Err _ => true
  end.

(** They fail exactly on the stored form of a command for the shell, which the
    program writes itself. *)
Lemma fuzz_assertions_exact `{ExecutionJson} input :
  fuzz_execution_persistence input = false <-> exists e, from_persistence_json input = Ok e /\ mode e = EM_Shell.
Proof.
  unfold fuzz_execution_persistence. destruct (from_persistence_json input) as [e|] eqn:E.
  2:{ split; [done|]. by intros (? & ? & _). }
  apply from_persistence_json_inv in E as (p & _ & _ & [[Hne _] _ _ _ _ _ _] & _).
  assert (negb (is_empty (argv e)) = true) as -> by (by destruct (argv e)). rewrite andb_true_r, bool_decide_eq_false. split.
  - intros Hm. exists e. split; [done|]. by destruct (mode e).
  - by intros (? & [= <-] & ->).
Qed.

Example fuzz_assertion_fails_ex :
  let J := ExecutionJsonModel.execution_json in
  let s := ExecutionJsonModel.persisted_encode (to_persisted example_execution) in
  to_persistence_json example_execution = Ok s /\ fuzz_execution_persistence s = false.
Proof. vm_compute. done. Qed.
