(* ===== verification/JobAgg.v ===== *)
(** [src/domain/job.rs]: the job aggregate, its updates and its snapshot.

    Methods that take [&mut self] return the updated job; on an error the
    source leaves the job as it was.  The identifier generated by
    [JobId::new()] is an argument of [job_new]. *)

From S2P Require Import Prelude Text Primitives Duration Identifier States Recurrence Execution.

Inductive JobError :=
| JE_Primitive (e : PrimitiveError)
| JE_Schedule (e : ScheduleError)
| JE_Transition (e : TransitionError)
| JE_Deadline (e : DeadlineError)
| JE_NotRecurring | JE_CorruptSnapshot | JE_TimeMovedBackward.
#[export] Instance JobError_eq_dec : EqDecision JobError. Proof. solve_decision. Defined.

Record Job := mk_job {
  job_id : JobId;
  job_revision : Revision;
  job_name : option Name;
  job_description : option Description;
  job_created_at : UtcTimestamp;
  job_updated_at : UtcTimestamp;
  job_state : JobState;
  job_runtime_tier : RuntimeTier;
  job_schedule : Schedule;
  job_missed_policy : MissedPolicy;
  job_execution : ExecutionSpec;
  job_next_due : UtcTimestamp;
  job_tzdb_version : str;
  job_owner_uid : Z
}.
#[export] Instance Job_eq_dec : EqDecision Job. Proof. solve_decision. Defined.

Record JobSnapshot := mk_job_snapshot {
  js_id : JobId;
  js_revision : Revision;
  js_name : option Name;
  js_description : option Description;
  js_created_at : UtcTimestamp;
  js_updated_at : UtcTimestamp;
  js_state : JobState;
  js_runtime_tier : RuntimeTier;
  js_schedule : Schedule;
  js_missed_policy : MissedPolicy;
  js_execution : ExecutionSpec;
  js_next_due : UtcTimestamp;
  js_tzdb_version : str;
  js_owner_uid : Z
}.

Definition job_new (fresh : JobId) (now : UtcTimestamp) (schedule : Schedule) (policy : MissedPolicy)
  (tier : RuntimeTier) (execution : ExecutionSpec) (owner_uid : Z) : result JobError Job :=
  let next_due := schedule_next_due_utc schedule in
  if next_due <=? now then Err (JE_Schedule SE_DeadlineNotFuture) else
  revision ← map_err JE_Primitive (revision_new 1);
  Ok {| job_id := fresh; job_revision := revision; job_name := None; job_description := None;
        job_created_at := now; job_updated_at := now; job_state := JS_Scheduled;
        job_runtime_tier := tier; job_schedule := schedule; job_missed_policy := policy;
        job_execution := execution; job_next_due := next_due;
        job_tzdb_version := schedule_tzdb_version schedule; job_owner_uid := owner_uid |}.

Definition job_set_metadata (j : Job) (name : option Name) (description : option Description) : Job :=
  mk_job (job_id j) (job_revision j) name description (job_created_at j) (job_updated_at j)
    (job_state j) (job_runtime_tier j) (job_schedule j) (job_missed_policy j) (job_execution j)
    (job_next_due j) (job_tzdb_version j) (job_owner_uid j).

(** The three assignments of [Job::transition]. *)
Definition job_set_state (j : Job) (revision : Revision) (to : JobState) (now : UtcTimestamp) : Job :=
  mk_job (job_id j) revision (job_name j) (job_description j) (job_created_at j) now
    to (job_runtime_tier j) (job_schedule j) (job_missed_policy j) (job_execution j)
    (job_next_due j) (job_tzdb_version j) (job_owner_uid j).

Definition job_set_next_due (j : Job) (next_due : UtcTimestamp) : Job :=
  mk_job (job_id j) (job_revision j) (job_name j) (job_description j) (job_created_at j)
    (job_updated_at j) (job_state j) (job_runtime_tier j) (job_schedule j) (job_missed_policy j)
    (job_execution j) next_due (job_tzdb_version j) (job_owner_uid j).

Definition job_snapshot (j : Job) : JobSnapshot :=
  mk_job_snapshot (job_id j) (job_revision j) (job_name j) (job_description j) (job_created_at j)
    (job_updated_at j) (job_state j) (job_runtime_tier j) (job_schedule j) (job_missed_policy j)
    (job_execution j) (job_next_due j) (job_tzdb_version j) (job_owner_uid j).

Definition job_rehydrate (s : JobSnapshot) : result JobError Job :=
  if (js_updated_at s <? js_created_at s) || is_empty (js_tzdb_version s)
     || contains_nul (js_tzdb_version s)
  then Err JE_CorruptSnapshot
  else Ok (mk_job (js_id s) (js_revision s) (js_name s) (js_description s) (js_created_at s)
    (js_updated_at s) (js_state s) (js_runtime_tier s) (js_schedule s) (js_missed_policy s)
    (js_execution s) (js_next_due s) (js_tzdb_version s) (js_owner_uid s)).

(** [Job::transition] *)
Definition job_do_transition (j : Job) (to : JobState) (recurring : bool) (actor : TransitionActor)
  (reason : str) (now : UtcTimestamp) : result JobError (Job * Transition JobState) :=
  if now <? job_updated_at j then Err JE_TimeMovedBackward else
  transition ← map_err JE_Transition (job_transition (job_state j) to recurring actor reason);
  revision ← map_err JE_Primitive (revision_next (job_revision j));
  Ok (job_set_state j revision to now, transition).

Definition job_advance_recurring `{Jiff} (j : Job) (actor : TransitionActor) (reason : str)
  (now : UtcTimestamp) : result JobError (Job * Transition JobState) :=
  match job_schedule j with
  | RecurringInterval interval anchor =>
    next_due ← map_err JE_Deadline (next_fixed_rate_utc anchor now interval);
    '(j', transition) ← job_do_transition j JS_Waiting true actor reason now;
    Ok (job_set_next_due j' next_due, transition)
  | _ => Err JE_NotRecurring
  end.

(** ** The invariant of a job *)

Definition schedule_ok `{Jiff} (s : Schedule) : Prop :=
  match s with
  | OneShotRelative duration due => duration_ok duration /\ ts_ok due
  | OneShotAbsolute _ _ version due _ => ts_ok due /\ version <> [] /\ contains_nul version = false
  | RecurringInterval interval anchor => duration_ok interval /\ ts_ok anchor
  end.

Record job_ok `{Jiff} (j : Job) : Prop := {
  ok_revision : counter_ok (job_revision j);
  ok_created : ts_ok (job_created_at j);
  ok_updated : ts_ok (job_updated_at j);
  ok_order : job_created_at j <= job_updated_at j;
  ok_schedule : schedule_ok (job_schedule j);
  ok_execution : execution_ok (job_execution j);
  ok_next_due : ts_ok (job_next_due j);
  ok_due : match job_schedule j with
           | RecurringInterval interval anchor => on_grid anchor interval (job_next_due j)
           | s => job_next_due j = schedule_next_due_utc s
           end;
  ok_tzdb : job_tzdb_version j <> [] /\ contains_nul (job_tzdb_version j) = false
}.

(** The updates a job goes through: [recurring] is what the caller passes. *)
Inductive job_update `{Jiff} : Job -> Job -> Prop :=
| update_transition j to recurring actor reason now j' t :
    ts_ok now -> job_do_transition j to recurring actor reason now = Ok (j', t) -> job_update j j'
| update_advance j actor reason now j' t :
    ts_ok now -> job_advance_recurring j actor reason now = Ok (j', t) -> job_update j j'.

(** ** Lemmas *)

Lemma job_new_ok fresh now schedule policy tier execution uid j :
  job_new fresh now schedule policy tier execution uid = Ok j <->
  now < schedule_next_due_utc schedule /\
  j = mk_job fresh 1 None None now now JS_Scheduled tier schedule policy execution
        (schedule_next_due_utc schedule) (schedule_tzdb_version schedule) uid.
Proof.
  unfold job_new. destruct (Z.leb_spec (schedule_next_due_utc schedule) now); [split; [done|]; intros [? _]; lia|].
  cbn. naive_solver.
Qed.

Lemma job_do_transition_ok j to recurring actor reason now j' t :
  job_do_transition j to recurring actor reason now = Ok (j', t) <->
  job_updated_at j <= now /\
  job_transition (job_state j) to recurring actor reason = Ok t /\
  exists r, revision_next (job_revision j) = Ok r /\ j' = job_set_state j r to now.
Proof.
  unfold job_do_transition. destruct (Z.ltb_spec now (job_updated_at j)); [split; [done|]; intros [? _]; lia|].
  split.
  - intros (t0 & Ht%map_err_ok & (r & Hr%map_err_ok & [= <- <-])%bind_ok)%bind_ok. eauto.
  - intros (_ & Ht & r & Hr & ->). by rewrite Ht, Hr.
Qed.

Lemma job_advance_recurring_ok `{Jiff} j actor reason now j' t :
  job_advance_recurring j actor reason now = Ok (j', t) <->
  exists interval anchor next_due j0,
    job_schedule j = RecurringInterval interval anchor /\
    next_fixed_rate_utc anchor now interval = Ok next_due /\
    job_do_transition j JS_Waiting true actor reason now = Ok (j0, t) /\
    j' = job_set_next_due j0 next_due.
Proof.
  unfold job_advance_recurring.
  destruct (job_schedule j) as [| |i a]; [(split; [done | naive_solver])..|].
  split.
  - intros (n & Hn%map_err_ok & ([j0 t0] & Ht & [= <- <-])%bind_ok)%bind_ok. eauto 10.
  - intros (i' & a' & n & j0 & [= <- <-] & Hn & Ht & ->). by rewrite Hn; cbn; rewrite Ht.
Qed.

Lemma job_set_metadata_ok `{Jiff} j n d : job_ok j -> job_ok (job_set_metadata j n d).
Proof. intros []. by split. Qed.

Section Preservation.
Context `{Jiff}.

Lemma job_new_invariant fresh now schedule policy tier execution uid j :
  ts_ok now -> schedule_ok schedule -> execution_ok execution ->
  job_new fresh now schedule policy tier execution uid = Ok j -> job_ok j.
Proof.
  intros Hn Hs He [Hlt ->]%job_new_ok.
  split; cbn [job_revision job_created_at job_updated_at job_schedule job_execution job_next_due
              job_tzdb_version]; try done.
  - destruct schedule; simpl in *; naive_solver.
  - destruct schedule; [done..|]. exists 0. simpl. lia.
  - destruct schedule; simpl in *; naive_solver.
Qed.

Lemma job_do_transition_preserves j to recurring actor reason now j' t :
  job_ok j -> ts_ok now -> job_do_transition j to recurring actor reason now = Ok (j', t) -> job_ok j'.
Proof.
  intros [] Hn (Hle & _ & r & [-> Hr]%revision_next_ok & ->)%job_do_transition_ok; [|done].
  split; cbn; try done; lia.
Qed.

Lemma next_fixed_rate_utc_ok anchor now interval next :
  ts_ok anchor -> ts_ok now -> duration_ok interval ->
  next_fixed_rate_utc anchor now interval = Ok next ->
  next = next_grid anchor now interval /\ ts_ok next /\ now < next /\ on_grid anchor interval next.
Proof.
  intros Ha Hn Hi. rewrite next_fixed_rate_utc_eq by done. intros [-> Hr]%ok_or_ok%checked_Some.
  split_and!; [done | apply Hr.. | | by apply next_grid_on].
  destruct (Z.ltb_spec now anchor) as [Hlt|Hge].
  - unfold next_grid. by rewrite (proj2 (Z.ltb_lt _ _) Hlt).
  - by destruct (next_grid_bounds anchor now interval Hi Hge).
Qed.

Lemma job_advance_preserves j actor reason now j' t :
  job_ok j -> ts_ok now -> job_advance_recurring j actor reason now = Ok (j', t) -> job_ok j'.
Proof.
  intros Hok Hn (i & a & n & j0 & Hs & Hnext & Ht & ->)%job_advance_recurring_ok.
  pose proof (job_do_transition_preserves _ _ _ _ _ _ _ _ Hok Hn Ht) as [].
  apply job_do_transition_ok in Ht as (_ & _ & r & _ & ->).
  destruct Hok as [_ _ _ _ Hsok _ _ _ _]. rewrite Hs in Hsok. destruct Hsok as [Hi Ha].
  destruct (next_fixed_rate_utc_ok _ _ _ _ Ha Hn Hi Hnext) as (_ & ? & _ & ?).
  split; cbn in *; try done. by rewrite Hs.
Qed.

Lemma job_update_preserves j j' : job_ok j -> job_update j j' -> job_ok j'.
Proof.
  intros Hok Hu. destruct Hu.
  - by eapply job_do_transition_preserves.
  - by eapply job_advance_preserves.
Qed.

(** What an update may change, and how. *)
Lemma job_update_facts j j' :
  job_ok j -> job_update j j' ->
  job_revision j' = job_revision j + 1 /\ job_updated_at j <= job_updated_at j' /\
  (exists recurring, job_step recurring (job_state j) (job_state j')) /\
  job_id j' = job_id j /\ job_created_at j' = job_created_at j /\
  job_schedule j' = job_schedule j /\ job_execution j' = job_execution j /\
  (job_next_due j' <> job_next_due j -> is_recurring (job_schedule j) = true /\ job_state j' = JS_Waiting).
Proof.
  intros Hok Hu. destruct Hu as [j to recurring actor reason now j' t Hn Ht|j actor reason now j' t Hn Ht].
  - apply job_do_transition_ok in Ht as (Hle & Ht & r & [-> _]%revision_next_ok & ->); [|apply Hok].
    cbn. split_and!; try done. exists recurring. by exists actor, reason, t.
  - apply job_advance_recurring_ok in Ht as (i & a & n & j0 & Hs & _ & Ht & ->).
    apply job_do_transition_ok in Ht as (Hle & Ht & r & [-> _]%revision_next_ok & ->); [|apply Hok].
    cbn. rewrite Hs. split_and!; try done. exists true. by exists actor, reason, t.
Qed.
End Preservation.

Lemma job_rehydrate_ok s j :
  job_rehydrate s = Ok j <->
  job_snapshot j = s /\ job_created_at j <= job_updated_at j /\
  job_tzdb_version j <> [] /\ contains_nul (job_tzdb_version j) = false.
Proof.
  unfold job_rehydrate. split.
  - destruct (Z.ltb_spec (js_updated_at s) (js_created_at s)) as [|Hle]; [done|]. cbn [orb].
    destruct (is_empty (js_tzdb_version s)) eqn:Ee; [done|]. cbn [orb].
    destruct (contains_nul (js_tzdb_version s)) eqn:En; [done|]. intros [= <-].
    split_and!; cbn; try done; [by destruct s | by destruct (js_tzdb_version s)].
  - intros (<- & Hle & Hne & Hn). unfold job_snapshot.
    cbn [js_id js_revision js_name js_description js_created_at js_updated_at js_state js_runtime_tier
         js_schedule js_missed_policy js_execution js_next_due js_tzdb_version js_owner_uid].
    rewrite (proj2 (Z.ltb_ge _ _) Hle), Hn.
    replace (is_empty (job_tzdb_version j)) with false by (by destruct (job_tzdb_version j)).
    by destruct j.
Qed.

(** ** Properties *)

(** C19 (invariant).  A new job in range satisfies the job invariant, and along
    any sequence of accepted updates it still does; the revision grows by one
    with every update, the update time never moves backward, the states form a
    history of legal transitions, and the identity, the creation time, the
    schedule and the command never change. *)
Theorem job_lifecycle `{Jiff} fresh now schedule policy tier execution uid j0 j :
  ts_ok now -> schedule_ok schedule -> execution_ok execution ->
  job_new fresh now schedule policy tier execution uid = Ok j0 ->
  rtc job_update j0 j ->
  job_ok j /\ job_ok j0 /\
  (exists l, history (fun a b => exists recurring, job_step recurring a b) JS_Scheduled l (job_state j) /\
  job_revision j = 1 + len l) /\
  now <= job_updated_at j /\ job_id j = fresh /\ job_created_at j = now /\
  job_schedule j = schedule /\ job_execution j = execution /\
  (is_recurring schedule = false -> job_next_due j = schedule_next_due_utc schedule).
Proof.
  intros Hn Hs He Hnew Hu. pose proof (job_new_invariant _ _ _ _ _ _ _ _ Hn Hs He Hnew) as Hok.
  apply job_new_ok in Hnew as [_ Heq].
  assert (job_ok j /\
    (exists l, history (fun a b => exists recurring, job_step recurring a b) (job_state j0) l (job_state j) /\
               job_revision j = job_revision j0 + len l) /\
    job_updated_at j0 <= job_updated_at j /\ job_id j = job_id j0 /\
    job_created_at j = job_created_at j0 /\ job_schedule j = job_schedule j0 /\
    job_execution j = job_execution j0 /\
    (is_recurring (job_schedule j0) = false -> job_next_due j = job_next_due j0)) as Hinv.
  2:{ destruct Hinv as (? & Hh & Hrest). rewrite Heq in Hh, Hrest. cbn in Hh, Hrest. naive_solver. }
  clear Heq Hs He. induction Hu as [j|j0 j1 j Hj Hu IH].
  { split_and!; try done. exists []. split; [constructor | simpl; lia]. }
  pose proof (job_update_preserves _ _ Hok Hj) as Hok1.
  apply job_update_facts in Hj as (Hr & Hup & Hst & Hid & Hc & Hsc & Hex & Hd); [|done].
  destruct (IH Hok1) as (Hokj & (l & Hl & Hrev) & Hup' & Hid' & Hc' & Hsc' & Hex' & Hd').
  rewrite Hid, Hc, Hsc, Hex in *. split_and!; try (done || lia).
  - exists (job_state j1 :: l). split; [by econstructor | simpl; lia].
  - intros Hrec. rewrite (Hd' Hrec). destruct (decide (job_next_due j1 = job_next_due j0)) as [|Hne]; [done|].
    destruct (Hd Hne) as [Hrec' _]. congruence.
Qed.

(** Advancing a recurring job, from a valid job at a time in
    range: it ends [Waiting] one revision later and due at the first point of
    its grid after [now]; it is refused for a one-shot job, when time moved
    backward or when the state cannot go back to [Waiting]. *)
Theorem job_advance_recurring_spec `{Jiff} j actor reason now :
  job_ok j -> ts_ok now ->
  match job_advance_recurring j actor reason now with
  | Ok (j', t) =>
      exists interval anchor, job_schedule j = RecurringInterval interval anchor /\
  job_state j' = JS_Waiting /\ job_revision j' = job_revision j + 1 /\ job_updated_at j' = now /\
  job_next_due j' = next_grid anchor now interval /\ now < job_next_due j' /\
  t = mk_transition (job_state j) JS_Waiting actor reason
  | Err e =>
      is_recurring (job_schedule j) = false \/ now < job_updated_at j \/
      (exists te, job_transition (job_state j) JS_Waiting true actor reason = Err te) \/
      job_revision j = u64_max \/
      (exists interval anchor, job_schedule j = RecurringInterval interval anchor /\
  ts_max < next_grid anchor now interval)
  end.
Proof.
  intros Hok Hn. destruct (job_advance_recurring j actor reason now) as [[j' t]|e] eqn:E.
  - apply job_advance_recurring_ok in E as (i & a & n & j0 & Hs & Hnext & Ht & ->).
    apply job_do_transition_ok in Ht as (Hle & Htr & r & Hr & ->).
    apply revision_next_ok in Hr as [-> _]; [|apply Hok].
    exists i, a. pose proof (ok_schedule _ Hok) as Hsok. rewrite Hs in Hsok. destruct Hsok as [Hi Ha].
    destruct (next_fixed_rate_utc_ok _ _ _ _ Ha Hn Hi Hnext) as (-> & _ & ? & _).
    cbn. apply transition_ok in Htr as (_ & _ & ->). done.
  - unfold job_advance_recurring in E. pose proof (ok_schedule _ Hok) as Hsok.
    destruct (job_schedule j) as [| |i a] eqn:Hs; [by left..|]. destruct Hsok as [Hi Ha]. right.
    rewrite next_fixed_rate_utc_eq in E by done. unfold ts_checked in E.
    destruct (checked ts_min ts_max _) as [n|] eqn:Ec.
    2:{ right. right. right. exists i, a. split; [done|]. apply checked_None in Ec.
        destruct Ec as [Ec|]; [|done]. exfalso. unfold ts_ok in *.
        destruct (Z.ltb_spec now a) as [Hlt|Hge].
        - unfold next_grid in Ec. rewrite (proj2 (Z.ltb_lt _ _) Hlt) in Ec. lia.
        - destruct (next_grid_bounds a now i Hi Hge). lia. }
    cbn [ok_or map_err mbind result_bind] in E. unfold job_do_transition in E.
    destruct (Z.ltb_spec now (job_updated_at j)); [by left|]. right.
    destruct (job_transition _ _ _ _ _) as [t|te] eqn:Et; [|left; eauto]. right. left.
    cbn [map_err mbind result_bind] in E. rewrite revision_next_spec in E by apply Hok.
    destruct (Z.eqb_spec (job_revision j) u64_max); [done|]. by cbn in E.
Qed.

(** A snapshot of a valid job rehydrates to the same job, and
    a job rehydrated from any snapshot has that snapshot. *)
Theorem job_snapshot_roundtrip `{Jiff} :
  (forall j, job_ok j -> job_rehydrate (job_snapshot j) = Ok j) /\
  (forall s j, job_rehydrate s = Ok j -> job_snapshot j = s /\ job_created_at j <= job_updated_at j).
Proof.
  split.
  - intros j []. by apply job_rehydrate_ok.
  - intros s j (? & ? & _)%job_rehydrate_ok. done.
Qed.

(** ** Witnesses *)

Definition example_direct : ExecutionSpec :=
  mk_execution EM_Direct [lit "ls"] (lit "/") ∅ SP_Null OP_BoundedFile OP_BoundedFile None None.

Lemma example_direct_ok : execution_ok example_direct.
Proof.
  split; [| | | | | |by vm_compute]; try done.
  split; [done|]. by apply Forall_singleton.
Qed.

Definition example_schedule : Schedule := RecurringInterval (mk_duration 60) (100 * 10 ^ 9).
Definition example_job (r : Z) (updated : Z) (s : JobState) (due : Z) : Job :=
  mk_job (mk_job_id 7) r None None (40 * 10 ^ 9) updated s RT_Session example_schedule MP_RunLatest
    example_direct due (lit "not-applicable") 1000.

Lemma example_job_ok :
  let J := JiffModel.jiff in job_ok (example_job 1 (40 * 10 ^ 9) JS_Scheduled (100 * 10 ^ 9)).
Proof.
  intros J. split; [by vm_compute | by vm_compute | by vm_compute | by vm_compute
    | split; by vm_compute | apply example_direct_ok | by vm_compute | | done].
  exists 0. by vm_compute.
Qed.

Lemma job_lifecycle_witness :
  let J := JiffModel.jiff in
  let j0 := example_job 1 (40 * 10 ^ 9) JS_Scheduled (100 * 10 ^ 9) in
  let j := example_job 2 (170 * 10 ^ 9) JS_Waiting (220 * 10 ^ 9) in
  (job_new (mk_job_id 7) (40 * 10 ^ 9) example_schedule MP_RunLatest RT_Session example_direct 1000 = Ok j0 /\
   rtc job_update j0 j) /\
  job_ok j /\ job_ok j0 /\
  (exists l, history (fun a b => exists recurring, job_step recurring a b) JS_Scheduled l (job_state j) /\
             job_revision j = 1 + len l) /\
  40 * 10 ^ 9 <= job_updated_at j /\ job_id j = mk_job_id 7 /\ job_created_at j = 40 * 10 ^ 9 /\
  job_schedule j = example_schedule /\ job_execution j = example_direct /\
  (is_recurring example_schedule = false -> job_next_due j = schedule_next_due_utc example_schedule).
Proof.
  intros J j0 j.
  assert (job_new (mk_job_id 7) (40 * 10 ^ 9) example_schedule MP_RunLatest RT_Session example_direct 1000
    = Ok j0) as Hn by reflexivity.
  assert (rtc job_update j0 j) as Hu.
  { apply rtc_once. apply (update_advance j0 TA_Supervisor (lit "due") (170 * 10 ^ 9) j
      (mk_transition JS_Scheduled JS_Waiting TA_Supervisor (lit "due"))); [by vm_compute | reflexivity]. }
  assert (ts_ok (40 * 10 ^ 9)) as Ht by (by vm_compute).
  assert (schedule_ok example_schedule) as Hs by (split; by vm_compute).
  split; [exact (conj Hn Hu)|].
  exact (@job_lifecycle J _ _ _ _ _ _ _ j0 j Ht Hs example_direct_ok Hn Hu).
Defined.

Lemma job_advance_recurring_spec_witness :
  let J := JiffModel.jiff in
  let j := example_job 1 (40 * 10 ^ 9) JS_Scheduled (100 * 10 ^ 9) in
  (job_ok j /\ ts_ok (170 * 10 ^ 9)) /\
  match job_advance_recurring j TA_Supervisor (lit "due") (170 * 10 ^ 9) with
  | Ok (j', t) =>
      exists interval anchor, job_schedule j = RecurringInterval interval anchor /\
      job_state j' = JS_Waiting /\ job_revision j' = job_revision j + 1 /\ job_updated_at j' = 170 * 10 ^ 9 /\
      job_next_due j' = next_grid anchor (170 * 10 ^ 9) interval /\ 170 * 10 ^ 9 < job_next_due j' /\
      t = mk_transition (job_state j) JS_Waiting TA_Supervisor (lit "due")
  | Err e =>
      is_recurring (job_schedule j) = false \/ 170 * 10 ^ 9 < job_updated_at j \/
      (exists te, job_transition (job_state j) JS_Waiting true TA_Supervisor (lit "due") = Err te) \/
      job_revision j = u64_max \/
      (exists interval anchor, job_schedule j = RecurringInterval interval anchor /\
         ts_max < next_grid anchor (170 * 10 ^ 9) interval)
  end.
Proof.
  intros J j. assert (ts_ok (170 * 10 ^ 9)) as Hn by (by vm_compute).
  split; [exact (conj example_job_ok Hn)|].
  exact (@job_advance_recurring_spec J j TA_Supervisor (lit "due") _ example_job_ok Hn).
Defined.

Lemma job_snapshot_roundtrip_witness :
  let J := JiffModel.jiff in
  let j := example_job 1 (40 * 10 ^ 9) JS_Scheduled (100 * 10 ^ 9) in
  job_ok j /\ job_rehydrate (job_snapshot j) = Ok j.
Proof.
  intros J j. split; [exact example_job_ok|].
  exact (proj1 (@job_snapshot_roundtrip J) j example_job_ok).
Defined.
