(* ===== verification/RunAgg.v ===== *)
(** [src/domain/run.rs]: the run aggregate, from its claim to its outcome, and
    its snapshot.

    Methods that consume [self] return the new run.  The identifier generated
    by [RunId::new()] is an argument of [run_new]. *)

From S2P Require Import Prelude Text Primitives Identifier States.

Record ClaimToken := mk_claim_token { token_bytes : list Z }.
#[export] Instance ClaimToken_eq_dec : EqDecision ClaimToken. Proof. solve_decision. Defined.

Inductive RunOutcome :=
| RO_Exit (code : Z) | RO_Signal (signal : Z) | RO_Failure (message : str)
| RO_Interrupted (message : str) | RO_Cancelled (message : str).
#[export] Instance RunOutcome_eq_dec : EqDecision RunOutcome. Proof. solve_decision. Defined.

Record ProcessIdentitySnapshot := mk_process_identity {
  boot_identity : str;
  pid : Z;
  start_token : Z;
  process_group_id : Z
}.
#[export] Instance ProcessIdentity_eq_dec : EqDecision ProcessIdentitySnapshot.
Proof. solve_decision. Defined.

Inductive RunError :=
| RE_OutcomeAlreadyRecorded | RE_FinishBeforeCreation | RE_StartBeforeCreation | RE_InvalidState
| RE_InvalidIdentity | RE_InvalidLogPath | RE_InvalidTimeline | RE_InvalidOutcome.
#[export] Instance RunError_eq_dec : EqDecision RunError. Proof. solve_decision. Defined.

Record Run := mk_run {
  run_id : RunId;
  run_job_id : JobId;
  run_sequence : Sequence;
  run_scheduled_for : UtcTimestamp;
  run_created_at : UtcTimestamp;
  run_started_at : option UtcTimestamp;
  run_finished_at : option UtcTimestamp;
  run_state : RunState;
  run_claim_token : ClaimToken;
  run_monitor_identity : option ProcessIdentitySnapshot;
  run_command_identity : option ProcessIdentitySnapshot;
  run_outcome : option RunOutcome;
  run_stdout_path : option str;
  run_stderr_path : option str
}.
#[export] Instance Run_eq_dec : EqDecision Run. Proof. solve_decision. Defined.

Record RunSnapshot := mk_run_snapshot {
  rs_id : RunId;
  rs_job_id : JobId;
  rs_sequence : Sequence;
  rs_scheduled_for : UtcTimestamp;
  rs_created_at : UtcTimestamp;
  rs_started_at : option UtcTimestamp;
  rs_finished_at : option UtcTimestamp;
  rs_state : RunState;
  rs_claim_token : ClaimToken;
  rs_monitor_identity : option ProcessIdentitySnapshot;
  rs_command_identity : option ProcessIdentitySnapshot;
  rs_outcome : option RunOutcome;
  rs_stdout_path : option str;
  rs_stderr_path : option str
}.

Definition run_new (fresh : RunId) (job : JobId) (sequence : Sequence)
  (scheduled_for created_at : UtcTimestamp) (token : ClaimToken) : Run :=
  mk_run fresh job sequence scheduled_for created_at None None RS_Starting token None None None None None.

Definition validate_identity (i : ProcessIdentitySnapshot) : result RunError unit :=
  if is_empty (boot_identity i) || contains_nul (boot_identity i) || (pid i =? 0)
     || (start_token i =? 0) || (process_group_id i <=? 0)
  then Err RE_InvalidIdentity else Ok tt.

Definition validate_log_path (path : str) : result RunError unit :=
  if is_absolute path || existsb (fun c => negb (is_normal c)) (components path)
  then Err RE_InvalidLogPath else Ok tt.

Definition outcome_state (o : RunOutcome) : RunState :=
  match o with
  | RO_Exit 0 => RS_Succeeded
  | RO_Exit _ | RO_Signal _ | RO_Failure _ => RS_Failed
  | RO_Interrupted _ => RS_Interrupted
  | RO_Cancelled _ => RS_Cancelled
  end.

Definition completion (o : RunOutcome) : Completion :=
  match o with
  | RO_Exit code => C_Exit code
  | RO_Signal signal => C_Signal signal
  | RO_Failure _ => C_Failure
  | RO_Interrupted _ => C_Interrupted
  | RO_Cancelled _ => C_TerminatedByCancellation
  end.

Definition run_set_state (r : Run) (s : RunState) : Run :=
  mk_run (run_id r) (run_job_id r) (run_sequence r) (run_scheduled_for r) (run_created_at r)
    (run_started_at r) (run_finished_at r) s (run_claim_token r) (run_monitor_identity r)
    (run_command_identity r) (run_outcome r) (run_stdout_path r) (run_stderr_path r).

Definition request_cancellation (r : Run) : result RunError Run :=
  if bool_decide (run_state r = RS_CancelRequested) then Ok r else
  t ← map_err (fun _ => RE_InvalidState)
        (run_transition (run_state r) RS_CancelRequested TA_Cli (lit "cancellation requested"));
  Ok (run_set_state r (tr_to t)).

Definition mark_running (r : Run) (started_at : UtcTimestamp)
  (monitor command : ProcessIdentitySnapshot) (stdout_path stderr_path : str) : result RunError Run :=
  if started_at <? run_created_at r then Err RE_StartBeforeCreation else
  _ ← validate_identity monitor;
  _ ← validate_identity command;
  _ ← validate_log_path stdout_path;
  _ ← validate_log_path stderr_path;
  t ← map_err (fun _ => RE_InvalidState)
        (run_transition (run_state r) RS_Running TA_Monitor (lit "command started"));
  Ok (mk_run (run_id r) (run_job_id r) (run_sequence r) (run_scheduled_for r) (run_created_at r)
    (Some started_at) (run_finished_at r) (tr_to t) (run_claim_token r) (Some monitor)
    (Some command) (run_outcome r) (Some stdout_path) (Some stderr_path)).

Definition with_outcome (r : Run) (finished_at : UtcTimestamp) (outcome : RunOutcome) : result RunError Run :=
  match run_outcome r with
  | Some _ => Err RE_OutcomeAlreadyRecorded
  | None =>
    if finished_at <? run_created_at r then Err RE_FinishBeforeCreation else
    s ← map_err (fun _ => RE_InvalidState) (complete_run (run_state r) (completion outcome));
    Ok (mk_run (run_id r) (run_job_id r) (run_sequence r) (run_scheduled_for r) (run_created_at r)
      (run_started_at r) (Some finished_at) s (run_claim_token r) (run_monitor_identity r)
      (run_command_identity r) (Some outcome) (run_stdout_path r) (run_stderr_path r))
  end.

Definition run_snapshot (r : Run) : RunSnapshot :=
  mk_run_snapshot (run_id r) (run_job_id r) (run_sequence r) (run_scheduled_for r) (run_created_at r)
    (run_started_at r) (run_finished_at r) (run_state r) (run_claim_token r) (run_monitor_identity r)
    (run_command_identity r) (run_outcome r) (run_stdout_path r) (run_stderr_path r).

(** [if let Some(x) = &field { validate(x)?; }] *)
Definition validate_opt {A} (f : A -> result RunError unit) (o : option A) : result RunError unit :=
  match o with Some a => f a | None => Ok tt end.

Definition run_rehydrate (s : RunSnapshot) : result RunError Run :=
  if is_some_and (rs_started_at s) (fun started => started <? rs_created_at s)
     || is_some_and (rs_finished_at s) (fun finished => finished <? rs_created_at s)
     || match rs_started_at s, rs_finished_at s with
        | Some started, Some finished => finished <? started
        | _, _ => false
        end
  then Err RE_InvalidTimeline else
  let terminal := run_is_terminal (rs_state s) in
  if negb (Bool.eqb terminal (is_some (rs_outcome s)))
     || negb (Bool.eqb terminal (is_some (rs_finished_at s)))
     || is_some_and (rs_outcome s) (fun o => bool_decide (outcome_state o <> rs_state s))
  then Err RE_InvalidOutcome else
  _ ← validate_opt validate_identity (rs_monitor_identity s);
  _ ← validate_opt validate_identity (rs_command_identity s);
  _ ← validate_opt validate_log_path (rs_stdout_path s);
  _ ← validate_opt validate_log_path (rs_stderr_path s);
  Ok (mk_run (rs_id s) (rs_job_id s) (rs_sequence s) (rs_scheduled_for s) (rs_created_at s)
    (rs_started_at s) (rs_finished_at s) (rs_state s) (rs_claim_token s) (rs_monitor_identity s)
    (rs_command_identity s) (rs_outcome s) (rs_stdout_path s) (rs_stderr_path s)).

(** ** The invariant of a run *)

Definition identity_ok (i : ProcessIdentitySnapshot) : Prop := validate_identity i = Ok tt.
Definition log_path_ok (p : str) : Prop := validate_log_path p = Ok tt.

Definition opt_Forall {A} (P : A -> Prop) (o : option A) : Prop :=
  match o with Some a => P a | None => True end.

Record run_shape (r : Run) : Prop := {
  shape_started : opt_Forall (fun t => run_created_at r <= t) (run_started_at r);
  shape_finished : opt_Forall (fun t => run_created_at r <= t) (run_finished_at r);
  shape_outcome : run_is_terminal (run_state r) = is_some (run_outcome r);
  shape_terminal : run_is_terminal (run_state r) = is_some (run_finished_at r);
  shape_state : opt_Forall (fun o => outcome_state o = run_state r) (run_outcome r);
  shape_monitor : opt_Forall identity_ok (run_monitor_identity r);
  shape_command : opt_Forall identity_ok (run_command_identity r);
  shape_stdout : opt_Forall log_path_ok (run_stdout_path r);
  shape_stderr : opt_Forall log_path_ok (run_stderr_path r)
}.

(** What [rehydrate] demands on top: the run does not finish before it starts. *)
Definition run_clock (r : Run) : Prop :=
  match run_started_at r, run_finished_at r with
  | Some started, Some finished => started <= finished
  | _, _ => True
  end.

Inductive run_update : Run -> Run -> Prop :=
| update_cancel r r' : request_cancellation r = Ok r' -> run_update r r'
| update_running r t m c out err r' : mark_running r t m c out err = Ok r' -> run_update r r'
| update_outcome r t o r' : with_outcome r t o = Ok r' -> run_update r r'.

(** ** Lemmas *)

Lemma validate_opt_ok {A} (f : A -> result RunError unit) o u :
  validate_opt f o = Ok u <-> opt_Forall (fun a => f a = Ok tt) o.
Proof. destruct u, o; simpl; naive_solver. Qed.

Lemma is_some_and_false {A} (o : option A) p :
  is_some_and o p = false <-> opt_Forall (fun a => p a = false) o.
Proof. destruct o; simpl; naive_solver. Qed.

Lemma opt_Forall_iff {A} (P Q : A -> Prop) o :
  (forall a, P a <-> Q a) -> opt_Forall P o <-> opt_Forall Q o.
Proof. intros HPQ. destruct o; simpl; naive_solver. Qed.

(** The two guards of [rehydrate]. *)
Lemma timeline_guard r :
  is_some_and (run_started_at r) (fun t => t <? run_created_at r)
  || is_some_and (run_finished_at r) (fun t => t <? run_created_at r)
  || match run_started_at r, run_finished_at r with
     | Some started, Some finished => finished <? started
     | _, _ => false
     end = false <->
  opt_Forall (fun t => run_created_at r <= t) (run_started_at r) /\
  opt_Forall (fun t => run_created_at r <= t) (run_finished_at r) /\ run_clock r.
Proof.
  rewrite !orb_false_iff, !is_some_and_false.
  rewrite !(opt_Forall_iff (fun t => (t <? run_created_at r) = false) (fun t => run_created_at r <= t))
    by (intros; apply Z.ltb_ge).
  unfold run_clock. destruct (run_started_at r), (run_finished_at r); rewrite ?Z.ltb_ge; naive_solver.
Qed.

Lemma outcome_guard r :
  negb (Bool.eqb (run_is_terminal (run_state r)) (is_some (run_outcome r)))
  || negb (Bool.eqb (run_is_terminal (run_state r)) (is_some (run_finished_at r)))
  || is_some_and (run_outcome r) (fun o => bool_decide (outcome_state o <> run_state r)) = false <->
  run_is_terminal (run_state r) = is_some (run_outcome r) /\
  run_is_terminal (run_state r) = is_some (run_finished_at r) /\
  opt_Forall (fun o => outcome_state o = run_state r) (run_outcome r).
Proof.
  rewrite !orb_false_iff, !negb_false_iff, !Bool.eqb_true_iff, is_some_and_false.
  rewrite (opt_Forall_iff (fun o => bool_decide (outcome_state o <> run_state r) = false)
    (fun o => outcome_state o = run_state r)).
  - tauto.
  - intros o. rewrite bool_decide_eq_false. split; [apply dec_stable | tauto].
Qed.

(** Stepping through the guards of [rehydrate] on the snapshot of a run. *)
Lemma run_rehydrate_eq r :
  run_rehydrate (run_snapshot r) =
  if is_some_and (run_started_at r) (fun t => t <? run_created_at r)
     || is_some_and (run_finished_at r) (fun t => t <? run_created_at r)
     || match run_started_at r, run_finished_at r with
        | Some started, Some finished => finished <? started
        | _, _ => false
        end
  then Err RE_InvalidTimeline else
  if negb (Bool.eqb (run_is_terminal (run_state r)) (is_some (run_outcome r)))
     || negb (Bool.eqb (run_is_terminal (run_state r)) (is_some (run_finished_at r)))
     || is_some_and (run_outcome r) (fun o => bool_decide (outcome_state o <> run_state r))
  then Err RE_InvalidOutcome else
  _ ← validate_opt validate_identity (run_monitor_identity r);
  _ ← validate_opt validate_identity (run_command_identity r);
  _ ← validate_opt validate_log_path (run_stdout_path r);
  _ ← validate_opt validate_log_path (run_stderr_path r); Ok r.
Proof. by destruct r. Qed.

Lemma run_rehydrate_snapshot r :
  run_rehydrate (run_snapshot r) = Ok r <-> run_shape r /\ run_clock r.
Proof.
  rewrite run_rehydrate_eq. pose proof (timeline_guard r) as Ht. pose proof (outcome_guard r) as Ho.
  destruct (is_some_and (run_started_at r) _ || _ || _).
  { split; [done|]. intros [[] ?]. exfalso. by apply diff_true_false, Ht. }
  destruct (negb _ || _ || _).
  { split; [done|]. intros [[] ?]. exfalso. by apply diff_true_false, Ho. }
  destruct (proj1 Ht eq_refl) as (? & ? & ?). destruct (proj1 Ho eq_refl) as (? & ? & ?). split.
  - intros (? & Hm%validate_opt_ok & (? & Hc%validate_opt_ok & (? & Hso%validate_opt_ok
      & (? & Hse%validate_opt_ok & _)%bind_ok)%bind_ok)%bind_ok)%bind_ok. by repeat split.
  - intros [[] _].
    rewrite (proj2 (validate_opt_ok validate_identity (run_monitor_identity r) tt)) by done.
    cbn [mbind result_bind].
    rewrite (proj2 (validate_opt_ok validate_identity (run_command_identity r) tt)) by done.
    cbn [mbind result_bind].
    rewrite (proj2 (validate_opt_ok validate_log_path (run_stdout_path r) tt)) by done.
    cbn [mbind result_bind].
    by rewrite (proj2 (validate_opt_ok validate_log_path (run_stderr_path r) tt)).
Qed.

Lemma run_rehydrate_inv s r : run_rehydrate s = Ok r -> run_snapshot r = s.
Proof.
  unfold run_rehydrate. destruct (_ || _ || _); [done|]. destruct (negb _ || _ || _); [done|].
  intros (? & _ & (? & _ & (? & _ & (? & _ & [= <-])%bind_ok)%bind_ok)%bind_ok)%bind_ok.
  by destruct s.
Qed.

Lemma run_transition_ok from to actor reason t :
  run_transition from to actor reason = Ok t -> run_legal from to = true /\ tr_to t = to.
Proof. intros (? & _ & ->)%transition_ok. done. Qed.

Lemma complete_run_outcome s o s' :
  complete_run s (completion o) = Ok s' -> s' = outcome_state o /\ run_legal s s' = true.
Proof.
  unfold complete_run. intros (t & Ht & (tr & Htr & ->)%fmap_ok)%bind_ok.
  apply run_transition_ok in Htr as [Hl ->].
  assert (t = outcome_state o) as ->; [|done].
  destruct o as [[]| | | |]; simplify_eq/=; try done.
  by destruct (bool_decide _); simplify_eq.
Qed.

Lemma run_legal_live a b : run_legal a b = true -> run_is_terminal a = false.
Proof. by destruct a, b. Qed.

Lemma request_cancellation_ok r r' :
  request_cancellation r = Ok r' ->
  r' = run_set_state r RS_CancelRequested /\ run_is_terminal (run_state r) = false /\
  (run_state r = RS_CancelRequested \/ run_legal (run_state r) RS_CancelRequested = true).
Proof.
  unfold request_cancellation. case_bool_decide as E.
  - intros [= <-]. split_and!; [|by rewrite E|by left]. destruct r; simpl in *. by subst.
  - intros (t & [Hl Ht]%map_err_ok%run_transition_ok & [= <-])%bind_ok. rewrite Ht.
    split_and!; [done | by eapply run_legal_live | by right].
Qed.

Lemma mark_running_ok r t m c out err r' :
  mark_running r t m c out err = Ok r' ->
  run_created_at r <= t /\ identity_ok m /\ identity_ok c /\ log_path_ok out /\ log_path_ok err /\
  run_state r = RS_Starting /\
  r' = mk_run (run_id r) (run_job_id r) (run_sequence r) (run_scheduled_for r) (run_created_at r)
    (Some t) (run_finished_at r) RS_Running (run_claim_token r) (Some m) (Some c) (run_outcome r)
    (Some out) (Some err).
Proof.
  unfold mark_running. destruct (Z.ltb_spec t (run_created_at r)); [done|].
  intros ([] & Hm & ([] & Hc & ([] & Ho & ([] & He & (tr & [Hl Ht]%map_err_ok%run_transition_ok
    & [= <-])%bind_ok)%bind_ok)%bind_ok)%bind_ok)%bind_ok. rewrite Ht.
  split_and!; try done. by destruct (run_state r).
Qed.

Lemma with_outcome_ok r t o r' :
  with_outcome r t o = Ok r' ->
  run_outcome r = None /\ run_created_at r <= t /\ run_legal (run_state r) (outcome_state o) = true /\
  r' = mk_run (run_id r) (run_job_id r) (run_sequence r) (run_scheduled_for r) (run_created_at r)
    (run_started_at r) (Some t) (outcome_state o) (run_claim_token r) (run_monitor_identity r)
    (run_command_identity r) (Some o) (run_stdout_path r) (run_stderr_path r).
Proof.
  unfold with_outcome. destruct (run_outcome r); [done|].
  destruct (Z.ltb_spec t (run_created_at r)); [done|].
  intros (s & [-> Hl]%map_err_ok%complete_run_outcome & [= <-])%bind_ok. done.
Qed.

Lemma outcome_state_terminal o : run_is_terminal (outcome_state o) = true.
Proof. by destruct o as [[]| | | |]. Qed.

Lemma run_new_shape fresh job seq due now token : run_shape (run_new fresh job seq due now token).
Proof. by split. Qed.

Lemma run_update_shape r r' : run_shape r -> run_update r r' -> run_shape r'.
Proof.
  intros [] Hu. destruct Hu as [r r' Hu|r t m c out err r' Hu|r t o r' Hu].
  - apply request_cancellation_ok in Hu as (-> & Hl & _). rewrite Hl in *.
    split; cbn; try done. by destruct (run_outcome r).
  - apply mark_running_ok in Hu as (? & ? & ? & ? & ? & Hs & ->). rewrite Hs in *.
    split; cbn; try done. by destruct (run_outcome r).
  - apply with_outcome_ok in Hu as (Hn & ? & Hl & ->). split; cbn; try done; apply outcome_state_terminal.
Qed.

Lemma run_update_facts r r' :
  run_update r r' ->
  run_id r' = run_id r /\ run_job_id r' = run_job_id r /\ run_sequence r' = run_sequence r /\
  run_scheduled_for r' = run_scheduled_for r /\ run_created_at r' = run_created_at r /\
  run_claim_token r' = run_claim_token r /\
  (run_state r' = run_state r /\ r' = r \/ run_legal (run_state r) (run_state r') = true).
Proof.
  intros Hu. destruct Hu as [r r' Hu|r t m c out err r' Hu|r t o r' Hu].
  - apply request_cancellation_ok in Hu as (-> & _ & [E|Hl]); cbn; split_and!; try done; [left|by right].
    split; [done|]. by destruct r; simpl in *; subst.
  - apply mark_running_ok in Hu as (_ & _ & _ & _ & _ & Hs & ->). cbn. rewrite Hs.
    split_and!; try done. by right.
  - apply with_outcome_ok in Hu as (_ & _ & Hl & ->). cbn. split_and!; try done. by right.
Qed.

Lemma run_terminal_final r r' : run_shape r -> run_is_terminal (run_state r) = true -> ~ run_update r r'.
Proof.
  intros Hs Ht Hu. pose proof (shape_outcome _ Hs) as Ho. rewrite Ht in Ho.
  destruct Hu as [r r' Hu|r t m c out err r' Hu|r t o r' Hu].
  - apply request_cancellation_ok in Hu as (_ & Hl & _). congruence.
  - apply mark_running_ok in Hu as (_ & _ & _ & _ & _ & E & _). by rewrite E in Ht.
  - apply with_outcome_ok in Hu as (E & _). by rewrite E in Ho.
Qed.

Lemma run_outcome_decodes r t o r' :
  run_shape r -> with_outcome r t o = Ok r' ->
  run_rehydrate (run_snapshot r') =
  if is_some_and (run_started_at r) (fun started => t <? started) then Err RE_InvalidTimeline else Ok r'.
Proof.
  intros Hs Ho. assert (run_shape r') as Hs' by (eapply run_update_shape; [done|by econstructor]).
  apply with_outcome_ok in Ho as (_ & Hc & _ & Heq).
  destruct (is_some_and (run_started_at r) (fun started => t <? started)) eqn:E.
  - rewrite run_rehydrate_eq. destruct (run_started_at r) as [started|] eqn:Est; [|done].
    simpl in E. rewrite Heq. cbn [run_started_at run_finished_at run_created_at]. rewrite ?Est, E.
    by rewrite !orb_true_r.
  - apply run_rehydrate_snapshot. split; [done|]. rewrite Heq. unfold run_clock. cbn.
    destruct (run_started_at r); [|done]. by apply Z.ltb_ge in E.
Qed.

(** ** Properties *)

(** C20 (invariant).  From its claim on, a run keeps the shape that the store
    relies on: it has an outcome and a finish time exactly when its state is
    terminal, the outcome determines that state, no time precedes the
    creation, and recorded identities and log paths are valid.  Its identity,
    claim token and scheduled time never change, it moves along legal
    transitions only, and once terminal it accepts no update at all. *)
Theorem run_lifecycle fresh job seq due now token r :
  rtc run_update (run_new fresh job seq due now token) r ->
  run_shape r /\ run_id r = fresh /\ run_job_id r = job /\ run_sequence r = seq /\
  run_scheduled_for r = due /\ run_created_at r = now /\ run_claim_token r = token /\
  (exists l, history (fun a b => run_legal a b = true) RS_Starting l (run_state r)) /\
  (run_is_terminal (run_state r) = true -> forall r', ~ run_update r r').
Proof.
  intros Hu.
  assert (run_shape r /\ run_id r = fresh /\ run_job_id r = job /\ run_sequence r = seq /\
    run_scheduled_for r = due /\ run_created_at r = now /\ run_claim_token r = token /\
    exists l, history (fun a b => run_legal a b = true) RS_Starting l (run_state r)) as Hinv.
  { pose (P r := run_shape r /\ run_id r = fresh /\ run_job_id r = job /\ run_sequence r = seq /\
      run_scheduled_for r = due /\ run_created_at r = now /\ run_claim_token r = token /\
      exists l, history (fun a b => run_legal a b = true) RS_Starting l (run_state r)).
    change (P r). revert Hu. apply rtc_ind_r.
    - split; [apply run_new_shape|]. split_and!; try done. exists []. constructor.
    - intros r1 r2 _ Hu (Hs & Hid & Hj & Hsq & Hd & Hc & Ht & l & Hl).
      split; [by eapply run_update_shape|].
      destruct (run_update_facts _ _ Hu) as (Hid' & Hj' & Hsq' & Hd' & Hc' & Ht' & Hst).
      split_and!; try congruence. destruct Hst as [[Heq _]|Hst]; [rewrite Heq; eauto|].
      exists (l ++ [run_state r2]). clear -Hl Hst.
      induction Hl as [s|a b l c Hab Hl IH]; simpl; econstructor; eauto. constructor. }
  destruct Hinv as (Hs & ? & ? & ? & ? & ? & ? & Hh). split_and!; try done.
  intros Ht r'. by apply run_terminal_final.
Qed.

(** Decoding a stored run succeeds exactly for the
    snapshots of runs of that shape whose finish does not precede their
    start, and gives the run back. *)
Theorem run_rehydrate_spec s r :
  run_rehydrate s = Ok r <-> run_snapshot r = s /\ run_shape r /\ run_clock r.
Proof.
  split.
  - intros Hr. pose proof (run_rehydrate_inv _ _ Hr) as <-. split; [done|]. by apply run_rehydrate_snapshot.
  - intros (<- & Hs & Hc). by apply run_rehydrate_snapshot.
Qed.

(** [with_outcome] compares the finish only with the creation:
    when the wall clock has moved back below the recorded start, the accepted
    outcome gives a run whose stored form is refused with the timeline error
    ever after; otherwise it decodes. *)
Theorem with_outcome_decodes r t o r' :
  run_shape r -> with_outcome r t o = Ok r' ->
  run_rehydrate (run_snapshot r') =
  if is_some_and (run_started_at r) (fun started => t <? started) then Err RE_InvalidTimeline else Ok r'.
Proof. apply run_outcome_decodes. Qed.

(** ** Witnesses *)

Definition example_identity : ProcessIdentitySnapshot := mk_process_identity (lit "boot") 10 20 10.
Definition example_run0 : Run :=
  run_new (mk_run_id 1) (mk_job_id 7) 1 100 100 (mk_claim_token (replicate 32 5)).
Definition example_run1 : Run :=
  mk_run (mk_run_id 1) (mk_job_id 7) 1 100 100 (Some 150) None RS_Running
    (mk_claim_token (replicate 32 5)) (Some example_identity) (Some example_identity) None
    (Some (lit "stdout.log")) (Some (lit "stderr.log")).
Definition example_run2 : Run :=
  mk_run (mk_run_id 1) (mk_job_id 7) 1 100 100 (Some 150) (Some 120) RS_Succeeded
    (mk_claim_token (replicate 32 5)) (Some example_identity) (Some example_identity) (Some (RO_Exit 0))
    (Some (lit "stdout.log")) (Some (lit "stderr.log")).

Lemma example_run1_step :
  mark_running example_run0 150 example_identity example_identity (lit "stdout.log") (lit "stderr.log")
  = Ok example_run1.
Proof. reflexivity. Qed.

Lemma example_run2_step : with_outcome example_run1 120 (RO_Exit 0) = Ok example_run2.
Proof. reflexivity. Qed.

Lemma example_run1_shape : run_shape example_run1.
Proof.
  eapply run_update_shape; [apply run_new_shape | eapply update_running, example_run1_step].
Qed.

Lemma run_lifecycle_witness :
  rtc run_update example_run0 example_run2 /\
  (run_shape example_run2 /\ run_id example_run2 = mk_run_id 1 /\ run_job_id example_run2 = mk_job_id 7 /\
   run_sequence example_run2 = 1 /\ run_scheduled_for example_run2 = 100 /\
   run_created_at example_run2 = 100 /\ run_claim_token example_run2 = mk_claim_token (replicate 32 5) /\
   (exists l, history (fun a b => run_legal a b = true) RS_Starting l (run_state example_run2)) /\
   (run_is_terminal (run_state example_run2) = true -> forall r', ~ run_update example_run2 r')).
Proof.
  assert (rtc run_update example_run0 example_run2) as Hu.
  { eapply rtc_l; [eapply update_running, example_run1_step|].
    apply rtc_once. eapply update_outcome, example_run2_step. }
  split; [exact Hu|].
  exact (run_lifecycle (mk_run_id 1) (mk_job_id 7) 1 100 100 (mk_claim_token (replicate 32 5)) _ Hu).
Defined.

(** The clock stepped back by 30 between the start and the finish. *)
Lemma with_outcome_decodes_witness :
  with_outcome example_run1 120 (RO_Exit 0) = Ok example_run2 /\
  run_rehydrate (run_snapshot example_run2) = Err RE_InvalidTimeline.
Proof.
  split; [exact example_run2_step|].
  exact (with_outcome_decodes example_run1 120 (RO_Exit 0) _ example_run1_shape example_run2_step).
Defined.

Example log_path_ex :
  map (fun p => is_ok (validate_log_path p))
    [lit "a/stdout.log"; lit "a/./b"; lit "/a"; lit "../a"; lit "./a"; lit "a/.."; []]
  = [true; true; false; false; false; false; true].
Proof. reflexivity. Qed.
