(* ===== verification/Heap.v ===== *)
(** [src/supervisor/heap.rs]: the indexed heap of deadlines.

    [entries] is the vector, [positions] the hash map from a job to its index.
    Indexing out of range panics in the source: the operations are in the
    option monad, [None] is a panic (or a loop out of fuel), and the theorems
    show that it never happens on a well-formed heap. *)

From S2P Require Import Prelude Identifier Recurrence.

Record Entry := mk_entry { entry_due : ElapsedInstant; entry_job : JobId }.
#[export] Instance Entry_eq_dec : EqDecision Entry. Proof. solve_decision. Defined.

Record DeadlineHeap := mk_heap { entries : list Entry; positions : gmap JobId nat }.

Definition heap_empty : DeadlineHeap := mk_heap [] ∅.

Definition parent (index : nat) : nat := ((index - 1) / 2)%nat.

(** Tuples compare lexicographically; a [JobId] compares as its 128 bits. *)
Definition comes_before (left right : Entry) : bool :=
  (entry_due left <? entry_due right)
  || (entry_due left =? entry_due right)
     && (job_uuid (entry_job left) <? job_uuid (entry_job right)).

Definition swap (h : DeadlineHeap) (left right : nat) : option DeadlineHeap :=
  a ← entries h !! left;
  b ← entries h !! right;
  Some (mk_heap (<[left := b]> (<[right := a]> (entries h)))
                (<[entry_job a := right]> (<[entry_job b := left]> (positions h)))).

Fixpoint sift_up (fuel : nat) (h : DeadlineHeap) (index : nat) : option DeadlineHeap :=
  match fuel with
  | O => None
  | S fuel =>
    if (0 <? index)%nat then
      e ← entries h !! index;
      p ← entries h !! parent index;
      if negb (comes_before e p) then Some h else
      h' ← swap h index (parent index);
      sift_up fuel h' (parent index)
    else Some h
  end.

Fixpoint sift_down (fuel : nat) (h : DeadlineHeap) (index : nat) : option DeadlineHeap :=
  match fuel with
  | O => None
  | S fuel =>
    let left := (index * 2 + 1)%nat in
    if (length (entries h) <=? left)%nat then Some h else
    let right := (left + 1)%nat in
    child ← (if (right <? length (entries h))%nat then
               r ← entries h !! right;
               l ← entries h !! left;
               Some (if comes_before r l then right else left)
             else Some left);
    c ← entries h !! child;
    e ← entries h !! index;
    if negb (comes_before c e) then Some h else
    h' ← swap h index child;
    sift_down fuel h' child
  end.

(** The fuel: an index above for [sift_up], a longer prefix for [sift_down]. *)
Definition run_sift_up (h : DeadlineHeap) (index : nat) : option DeadlineHeap :=
  sift_up (S index) h index.
Definition run_sift_down (h : DeadlineHeap) (index : nat) : option DeadlineHeap :=
  sift_down (S (length (entries h))) h index.

(** The common end of [upsert] and [remove]. *)
Definition sift (h : DeadlineHeap) (index : nat) : option DeadlineHeap :=
  e ← entries h !! index;
  if (0 <? index)%nat then
    p ← entries h !! parent index;
    if comes_before e p then run_sift_up h index else run_sift_down h index
  else run_sift_down h index.

Definition upsert (h : DeadlineHeap) (job_id : JobId) (due : ElapsedInstant) : option DeadlineHeap :=
  match positions h !! job_id with
  | None =>
    let index := length (entries h) in
    run_sift_up (mk_heap (entries h ++ [mk_entry due job_id]) (<[job_id := index]> (positions h))) index
  | Some index =>
    e ← entries h !! index;
    sift (mk_heap (<[index := mk_entry due (entry_job e)]> (entries h)) (positions h)) index
  end.

Definition remove (h : DeadlineHeap) (job_id : JobId) : option (bool * DeadlineHeap) :=
  match positions h !! job_id with
  | None => Some (false, h)
  | Some index =>
    let positions' := delete job_id (positions h) in
    match last (entries h) with
    | None => Some (false, mk_heap (entries h) positions')
    | Some last =>
      let entries' := take (length (entries h) - 1) (entries h) in
      if (index =? length entries')%nat then Some (true, mk_heap entries' positions') else
      if (length entries' <=? index)%nat then None else
      h' ← sift (mk_heap (<[index := last]> entries') (<[entry_job last := index]> positions')) index;
      Some (true, h')
    end
  end.

Definition next_deadline (h : DeadlineHeap) : option ElapsedInstant := entry_due <$> entries h !! O.

Fixpoint pop_due_loop (fuel : nat) (h : DeadlineHeap) (now : ElapsedInstant) (due : list JobId)
  : option (list JobId * DeadlineHeap) :=
  match fuel with
  | O => None
  | S fuel =>
    match entries h !! O with
    | Some e =>
      if entry_due e <=? now then
        '(_, h') ← remove h (entry_job e);
        pop_due_loop fuel h' now (due ++ [entry_job e])
      else Some (due, h)
    | None => Some (due, h)
    end
  end.
Definition pop_due (h : DeadlineHeap) (now : ElapsedInstant) : option (list JobId * DeadlineHeap) :=
  pop_due_loop (S (length (entries h))) h now [].

Definition heap_is_empty (h : DeadlineHeap) : bool := is_empty (entries h).

(** ** Specification: a finite map from jobs to deadlines *)

Definition abs (h : DeadlineHeap) : gmap JobId ElapsedInstant :=
  omap (fun i => entry_due <$> entries h !! i) (positions h).

(** The index map is exactly the inverse of the vector. *)
Definition indexed (h : DeadlineHeap) : Prop :=
  forall j i, positions h !! j = Some i <-> exists e, entries h !! i = Some e /\ entry_job e = j.

Definition entry_le (a b : Entry) : Prop := comes_before b a = false.

Definition heap_ordered (es : list Entry) : Prop :=
  forall i e p, (0 < i)%nat -> es !! i = Some e -> es !! parent i = Some p -> entry_le p e.

Definition heap_wf (h : DeadlineHeap) : Prop := indexed h /\ heap_ordered (entries h).

(** Ordered except that the entry at [k] may be too small for its parent. *)
Definition ordered_above (es : list Entry) (k : nat) : Prop :=
  (forall i e p, (0 < i)%nat -> i <> k -> es !! i = Some e -> es !! parent i = Some p -> entry_le p e) /\
  (forall c e p, (0 < c)%nat -> (0 < k)%nat -> parent c = k -> es !! c = Some e ->
     es !! parent k = Some p -> entry_le p e).

(** Ordered except that the entry at [k] may be too large for its children. *)
Definition ordered_below (es : list Entry) (k : nat) : Prop :=
  (forall i e p, (0 < i)%nat -> parent i <> k -> es !! i = Some e -> es !! parent i = Some p -> entry_le p e) /\
  (forall c e p, (0 < c)%nat -> (0 < k)%nat -> parent c = k -> es !! c = Some e ->
     es !! parent k = Some p -> entry_le p e).

(** ** Lemmas: the order and the tree *)

Lemma comes_before_spec a b :
  comes_before a b = true <->
  entry_due a < entry_due b \/
  entry_due a = entry_due b /\ job_uuid (entry_job a) < job_uuid (entry_job b).
Proof. unfold comes_before. rewrite orb_true_iff, andb_true_iff, !Z.ltb_lt, Z.eqb_eq. done. Qed.

Lemma entry_le_spec a b :
  entry_le a b <->
  entry_due a < entry_due b \/
  entry_due a = entry_due b /\ job_uuid (entry_job a) <= job_uuid (entry_job b).
Proof.
  unfold entry_le. rewrite <- not_true_iff_false, comes_before_spec. lia.
Qed.

Lemma entry_le_refl a : entry_le a a.
Proof. rewrite entry_le_spec. lia. Qed.
Lemma entry_le_trans a b c : entry_le a b -> entry_le b c -> entry_le a c.
Proof. rewrite !entry_le_spec. lia. Qed.
Lemma comes_before_le a b : comes_before a b = true -> entry_le a b.
Proof. rewrite comes_before_spec, entry_le_spec. lia. Qed.
Lemma entry_le_due a b : entry_le a b -> entry_due a <= entry_due b.
Proof. rewrite entry_le_spec. lia. Qed.

Lemma parent_spec i p : (0 < i)%nat -> parent i = p <-> (i = p * 2 + 1 \/ i = p * 2 + 2)%nat.
Proof.
  intros Hi. unfold parent. pose proof (Nat.div_mod_eq (i - 1) 2) as Hd.
  pose proof (Nat.mod_upper_bound (i - 1) 2 ltac:(lia)). lia.
Qed.

Lemma parent_lt i : (0 < i)%nat -> (parent i < i)%nat.
Proof. intros Hi. destruct (proj1 (parent_spec i (parent i) Hi) eq_refl); lia. Qed.

(** The root is the smallest entry. *)
Lemma heap_root es e0 i e : heap_ordered es -> es !! O = Some e0 -> es !! i = Some e -> entry_le e0 e.
Proof.
  intros Hord H0. revert e. induction i as [i IH] using lt_wf_ind. intros e He.
  destruct (decide (i = O)) as [->|Hne]; [simplify_eq; apply entry_le_refl|].
  assert (0 < i)%nat as Hi by lia. pose proof (parent_lt i Hi) as Hlt.
  destruct (lookup_lt_is_Some_2 es (parent i)) as [p Hp].
  { apply lookup_lt_Some in He. lia. }
  eapply entry_le_trans; [by eapply IH | by eapply Hord].
Qed.

(** ** Lemmas: swapping *)

Definition transpose (l r i : nat) : nat := if decide (i = l) then r else if decide (i = r) then l else i.

Lemma swap_some h l r :
  (l < length (entries h))%nat -> (r < length (entries h))%nat ->
  exists h', swap h l r = Some h' /\ length (entries h') = length (entries h) /\
    (forall i, entries h' !! i = entries h !! transpose l r i) /\ (indexed h -> indexed h').
Proof.
  intros Hl Hr. destruct (lookup_lt_is_Some_2 _ _ Hl) as [a Ha].
  destruct (lookup_lt_is_Some_2 _ _ Hr) as [b Hb]. unfold swap. rewrite Ha, Hb. simpl.
  eexists. split; [done|]. simpl. split; [by rewrite !length_insert|].
  assert (forall i, <[l:=b]> (<[r:=a]> (entries h)) !! i = entries h !! transpose l r i) as Hlk.
  { intros i. unfold transpose. destruct (decide (i = l)) as [->|].
    - by rewrite list_lookup_insert_eq by (by rewrite length_insert).
    - rewrite list_lookup_insert_ne by done. destruct (decide (i = r)) as [->|].
      + by rewrite list_lookup_insert_eq.
      + by rewrite list_lookup_insert_ne. }
  split; [exact Hlk|]. intros Hidx j i. simpl. rewrite Hlk.
  destruct (decide (entry_job a = j)) as [<-|Ha'].
  { rewrite lookup_insert_eq. unfold transpose. split.
    - intros [= <-]. destruct (decide (r = l)) as [->|]; [|rewrite decide_True by done]; exists a; by simplify_eq.
    - intros (e & He & Hj). f_equal.
      assert (positions h !! entry_job a = Some l) as H1 by (apply Hidx; eauto).
      assert (positions h !! entry_job a = Some (transpose l r i)) as H2
        by (apply Hidx; unfold transpose; eauto).
      rewrite H1 in H2. injection H2 as H2. unfold transpose in H2. repeat case_decide; congruence. }
  rewrite lookup_insert_ne by done. destruct (decide (entry_job b = j)) as [<-|Hb'].
  { rewrite lookup_insert_eq. unfold transpose. split.
    - intros [= <-]. rewrite decide_True by done. eauto.
    - intros (e & He & Hj). f_equal.
      assert (positions h !! entry_job b = Some r) as H1 by (apply Hidx; eauto).
      assert (positions h !! entry_job b = Some (transpose l r i)) as H2
        by (apply Hidx; unfold transpose; eauto).
      rewrite H1 in H2. injection H2 as H2. unfold transpose in H2. repeat case_decide; congruence. }
  rewrite lookup_insert_ne by done. rewrite (Hidx j i : _ <-> _). unfold transpose.
  split; intros (e & He & Hj); exists e; repeat case_decide; simplify_eq; done.
Qed.

(** What the reorganisation of a heap preserves. *)
Definition same_content (h h' : DeadlineHeap) : Prop :=
  length (entries h') = length (entries h) /\
  forall e, (exists i, entries h' !! i = Some e) <-> (exists i, entries h !! i = Some e).

#[export] Instance same_content_equiv : PreOrder same_content.
Proof.
  split; [done|]. intros a b c [Hl1 H1] [Hl2 H2]. split; [congruence|]. intros e. by rewrite H2, H1.
Qed.

Lemma swap_same_content h l r h' :
  (forall i, entries h' !! i = entries h !! transpose l r i) ->
  length (entries h') = length (entries h) -> same_content h h'.
Proof.
  intros Hlk Hlen. split; [done|]. intros e.
  assert (forall i, transpose l r (transpose l r i) = i) as Htt.
  { intros i. unfold transpose. repeat case_decide; congruence. }
  split; intros [i Hi].
  - exists (transpose l r i). by rewrite <- Hlk.
  - exists (transpose l r i). by rewrite Hlk, Htt.
Qed.

(** ** Lemmas: sifting *)

(** A reorganisation succeeded: no panic, indices consistent, order restored,
    same entries. *)
Definition sifted (h : DeadlineHeap) (o : option DeadlineHeap) : Prop :=
  exists h', o = Some h' /\ indexed h' /\ heap_ordered (entries h') /\ same_content h h'.

Lemma sifted_trans h h1 o : same_content h h1 -> sifted h1 o -> sifted h o.
Proof. intros Hs (h' & ? & ? & ? & ?). exists h'. split_and!; try done. by etrans. Qed.

(** Replaces [es' !! i] by the entry it was before a swap. *)
Ltac at_index Hlk H :=
  rewrite Hlk in H; unfold transpose in H; repeat (rewrite decide_False in H by lia);
  repeat (rewrite decide_True in H by lia).

Lemma swap_above es es' k e p :
  (0 < k)%nat -> es !! k = Some e -> es !! parent k = Some p -> comes_before e p = true ->
  (forall i, es' !! i = es !! transpose k (parent k) i) ->
  ordered_above es k -> ordered_above es' (parent k).
Proof.
  intros Hk He Hp Hlt%comes_before_le Hlk [H1 H2]. pose proof (parent_lt k Hk) as Hpk. split.
  - intros i x y Hi Hne Hx Hy. pose proof (parent_lt i Hi).
    destruct (decide (i = k)) as [->|Hik].
    { at_index Hlk Hx. at_index Hlk Hy. by simplify_eq. }
    at_index Hlk Hx. destruct (decide (parent i = k)) as [Hpi|Hpi].
    + rewrite Hpi in Hy. at_index Hlk Hy. simplify_eq. by eapply (H2 i).
    + rewrite Hlk in Hy. unfold transpose in Hy. rewrite decide_False in Hy by done.
      destruct (decide (parent i = parent k)) as [Hpi'|Hpi'].
      * simplify_eq. eapply entry_le_trans; [exact Hlt|]. eapply (H1 i); eauto. by rewrite Hpi'.
      * by eapply (H1 i).
  - intros c x y Hc Hq Hpc Hx Hy. pose proof (parent_lt _ Hq).
    pose proof (parent_lt c Hc). at_index Hlk Hy.
    assert (entry_le y p) as Hyp by (eapply (H1 (parent k)); eauto; lia).
    destruct (decide (c = k)) as [->|Hck]; at_index Hlk Hx; [by simplify_eq|].
    eapply entry_le_trans; [exact Hyp|]. eapply (H1 c); eauto. by rewrite Hpc.
Qed.

Lemma sift_up_ok fuel h k :
  (k < fuel)%nat -> (k < length (entries h))%nat -> indexed h -> ordered_above (entries h) k ->
  sifted h (sift_up fuel h k).
Proof.
  revert h k. induction fuel as [|fuel IH]; intros h k Hf Hk Hidx Hord; [lia|]. cbn [sift_up].
  destruct (Nat.ltb_spec 0 k) as [Hk0|Hk0].
  2:{ exists h. split_and!; try done. intros i e p Hi. apply (proj1 Hord); lia. }
  pose proof (parent_lt k Hk0) as Hpk.
  destruct (lookup_lt_is_Some_2 _ _ Hk) as [e He].
  destruct (lookup_lt_is_Some_2 (entries h) (parent k)) as [p Hp]; [lia|].
  rewrite He, Hp. cbn [mbind option_bind]. destruct (comes_before e p) eqn:Hc; cbn [negb].
  - destruct (swap_some h k (parent k)) as (h1 & Hs & Hlen & Hlk & Hi1); [lia..|].
    rewrite Hs. cbn [mbind option_bind].
    eapply sifted_trans; [by eapply swap_same_content|].
    apply IH; [lia | lia | by apply Hi1 |]. by eapply swap_above.
  - exists h. split_and!; try done. intros i x y Hi Hx Hy.
    destruct (decide (i = k)) as [->|]; [simplify_eq; exact Hc|]. by eapply (proj1 Hord).
Qed.

(** The child that [sift_down] compares with: the smallest. *)
Lemma smallest_child es k :
  (k * 2 + 1 < length es)%nat ->
  exists child c,
    (if (k * 2 + 1 + 1 <? length es)%nat then
       r ← es !! (k * 2 + 1 + 1)%nat; l ← es !! (k * 2 + 1)%nat;
       Some (if comes_before r l then (k * 2 + 1 + 1)%nat else (k * 2 + 1)%nat)
     else Some (k * 2 + 1)%nat) = Some child /\
    (k < child)%nat /\ parent child = k /\ es !! child = Some c /\
    forall d x, (0 < d)%nat -> parent d = k -> es !! d = Some x -> entry_le c x.
Proof.
  intros Hl. destruct (lookup_lt_is_Some_2 _ _ Hl) as [l El].
  assert (forall d x, (0 < d)%nat -> parent d = k -> es !! d = Some x ->
    x = l \/ es !! (k * 2 + 1 + 1)%nat = Some x) as Hd.
  { intros d x Hd0 Hd Hx. destruct (proj1 (parent_spec d k Hd0) Hd) as [->| ->]; [left; congruence|].
    right. by replace (k * 2 + 1 + 1)%nat with (k * 2 + 2)%nat by lia. }
  destruct (Nat.ltb_spec (k * 2 + 1 + 1) (length es)) as [Hr|Hr].
  - destruct (lookup_lt_is_Some_2 _ _ Hr) as [r Er]. rewrite Er, El. cbn [mbind option_bind].
    destruct (comes_before r l) eqn:Ec.
    + exists (k * 2 + 1 + 1)%nat, r. split_and!; try (done || lia); [apply parent_spec; lia|].
      intros d x Hd0 Hdk Hx. destruct (Hd d x Hd0 Hdk Hx) as [->|]; [by apply comes_before_le|].
      simplify_eq. apply entry_le_refl.
    + exists (k * 2 + 1)%nat, l. split_and!; try (done || lia); [apply parent_spec; lia|].
      intros d x Hd0 Hdk Hx. destruct (Hd d x Hd0 Hdk Hx) as [->|]; [apply entry_le_refl|].
      by simplify_eq.
  - exists (k * 2 + 1)%nat, l. split_and!; try (done || lia); [apply parent_spec; lia|].
    intros d x Hd0 Hdk Hx. destruct (Hd d x Hd0 Hdk Hx) as [->|Hx']; [apply entry_le_refl|].
    apply lookup_lt_Some in Hx'. lia.
Qed.

Lemma swap_below es es' k child e c :
  (k < child)%nat -> parent child = k -> es !! k = Some e -> es !! child = Some c ->
  comes_before c e = true ->
  (forall d x, (0 < d)%nat -> parent d = k -> es !! d = Some x -> entry_le c x) ->
  (forall i, es' !! i = es !! transpose k child i) ->
  ordered_below es k -> ordered_below es' child.
Proof.
  intros Hkc Hpc He Hc Hlt%comes_before_le Hmin Hlk [H1 H2]. split.
  - intros i x y Hi Hne Hx Hy. pose proof (parent_lt i Hi).
    destruct (decide (i = child)) as [->|Hic].
    { rewrite Hpc in Hy. at_index Hlk Hx. at_index Hlk Hy. by simplify_eq. }
    destruct (decide (i = k)) as [->|Hik].
    { at_index Hlk Hx. at_index Hlk Hy. simplify_eq. eapply (H2 child); eauto; lia. }
    at_index Hlk Hx. destruct (decide (parent i = k)) as [Hpi|Hpi].
    + rewrite Hpi in Hy. at_index Hlk Hy. simplify_eq. by eapply Hmin.
    + rewrite Hlk in Hy. unfold transpose in Hy. rewrite !decide_False in Hy by done. by eapply (H1 i).
  - intros d x y Hd Hc0 Hpd Hx Hy. pose proof (parent_lt d Hd). rewrite Hpc in Hy.
    at_index Hlk Hx. at_index Hlk Hy. simplify_eq. eapply (H1 d); eauto. lia.
Qed.

Lemma sift_down_ok fuel h k :
  (length (entries h) - k < fuel)%nat -> (k < length (entries h))%nat -> indexed h ->
  ordered_below (entries h) k -> sifted h (sift_down fuel h k).
Proof.
  revert h k. induction fuel as [|fuel IH]; intros h k Hf Hk Hidx Hord; [lia|]. cbn [sift_down].
  destruct (Nat.leb_spec (length (entries h)) (k * 2 + 1)) as [Hleaf|Hleaf].
  { exists h. split_and!; try done. intros i e p Hi He Hp.
    destruct (decide (parent i = k)) as [Hpi|]; [|by eapply (proj1 Hord)].
    apply lookup_lt_Some in He. destruct (proj1 (parent_spec i k Hi) Hpi); lia. }
  destruct (smallest_child _ _ Hleaf) as (child & c & Hch & Hkc & Hpc & Hc & Hmin).
  rewrite Hch. cbn [mbind option_bind]. rewrite Hc. cbn [mbind option_bind].
  destruct (lookup_lt_is_Some_2 _ _ Hk) as [e He]. rewrite He. cbn [mbind option_bind].
  assert (child < length (entries h))%nat as Hcl by (by apply lookup_lt_Some in Hc).
  destruct (comes_before c e) eqn:Hce; cbn [negb].
  - destruct (swap_some h k child) as (h1 & Hs & Hlen & Hlk & Hi1); [lia..|].
    rewrite Hs. cbn [mbind option_bind].
    eapply sifted_trans; [by eapply swap_same_content|].
    apply IH; [lia | lia | by apply Hi1 |]. by eapply swap_below.
  - exists h. split_and!; try done. intros i x y Hi Hx Hy.
    destruct (decide (parent i = k)) as [Hpi|]; [|by eapply (proj1 Hord)].
    rewrite Hpi in Hy. simplify_eq. eapply entry_le_trans; [exact Hce|]. by eapply Hmin.
Qed.

(** Ordered except for the entry at [k], in both directions. *)
Definition ordered_around (es : list Entry) (k : nat) : Prop :=
  (forall i e p, (0 < i)%nat -> i <> k -> parent i <> k ->
     es !! i = Some e -> es !! parent i = Some p -> entry_le p e) /\
  (forall c e p, (0 < c)%nat -> (0 < k)%nat -> parent c = k -> es !! c = Some e ->
     es !! parent k = Some p -> entry_le p e).

Lemma sift_ok h k :
  (k < length (entries h))%nat -> indexed h -> ordered_around (entries h) k -> sifted h (sift h k).
Proof.
  intros Hk Hidx [H1 H2]. unfold sift, run_sift_up, run_sift_down.
  destruct (lookup_lt_is_Some_2 _ _ Hk) as [e He]. rewrite He. cbn [mbind option_bind].
  destruct (Nat.ltb_spec 0 k) as [Hk0|Hk0].
  - pose proof (parent_lt k Hk0).
    destruct (lookup_lt_is_Some_2 (entries h) (parent k)) as [p Hp]; [lia|].
    rewrite Hp. cbn [mbind option_bind]. destruct (comes_before e p) eqn:Hc.
    + apply comes_before_le in Hc. apply sift_up_ok; [lia|done..|]. split; [|done].
      intros i x y Hi Hik Hx Hy. destruct (decide (parent i = k)) as [Hpi|]; [|by eapply H1].
      rewrite Hpi in Hy. simplify_eq. eapply entry_le_trans; [exact Hc|]. by eapply (H2 i).
    + apply sift_down_ok; [lia|done..|]. split; [|done].
      intros i x y Hi Hik Hx Hy. destruct (decide (i = k)) as [->|]; [by simplify_eq|]. by eapply H1.
  - apply sift_down_ok; [lia|done..|]. split; [|intros; lia].
    intros i x y Hi Hik Hx Hy. eapply H1; eauto. lia.
Qed.

Lemma ordered_insert es k e : heap_ordered es -> ordered_around (<[k := e]> es) k.
Proof.
  intros Hord. split.
  - intros i x y Hi Hik Hpi. rewrite !list_lookup_insert_ne by done. by apply Hord.
  - intros c x y Hc Hk Hpc Hx Hy. pose proof (parent_lt c Hc). pose proof (parent_lt k Hk).
    rewrite list_lookup_insert_ne in Hx, Hy by lia.
    assert (k < length es)%nat as Hkl by (apply lookup_lt_Some in Hx; lia).
    destruct (lookup_lt_is_Some_2 _ _ Hkl) as [z Hz].
    apply entry_le_trans with z; [by eapply (Hord k)|]. eapply (Hord c); eauto. by rewrite Hpc.
Qed.

(** ** Lemmas: the operations against the map *)

Lemma abs_lookup h j d :
  indexed h -> abs h !! j = Some d <-> exists i, entries h !! i = Some (mk_entry d j).
Proof.
  intros Hidx. unfold abs. rewrite lookup_omap, bind_Some. setoid_rewrite fmap_Some. split.
  - intros (i & Hi & e & He & ->). exists i. apply Hidx in Hi as (e' & He' & <-). simplify_eq.
    by destruct e'.
  - intros [i Hi]. exists i. split; [apply Hidx; eauto | eauto].
Qed.

Lemma abs_ext h (m : gmap JobId ElapsedInstant) :
  indexed h ->
  (forall j d, (exists i, entries h !! i = Some (mk_entry d j)) <-> m !! j = Some d) -> abs h = m.
Proof.
  intros Hidx Hm. apply map_eq. intros j. apply option_eq. intros d.
  by rewrite abs_lookup, Hm.
Qed.

Lemma sifted_spec h o :
  indexed h -> sifted h o ->
  exists h', o = Some h' /\ heap_wf h' /\ abs h' = abs h /\ length (entries h') = length (entries h).
Proof.
  intros Hi (h' & -> & Hi' & Ho & Hl & Hc). exists h'. split_and!; try done.
  apply abs_ext; [done|]. intros j d. by rewrite (abs_lookup _ _ _ Hi), Hc.
Qed.

(** Two entries of one job are the same entry. *)
Lemma indexed_inj h i i' e e' :
  indexed h -> entries h !! i = Some e -> entries h !! i' = Some e' ->
  entry_job e = entry_job e' -> i = i'.
Proof.
  intros Hidx He He' Hj.
  assert (positions h !! entry_job e = Some i) as H1 by (apply Hidx; eauto).
  assert (positions h !! entry_job e = Some i') as H2 by (apply Hidx; eauto). congruence.
Qed.

(** [upsert] of a job that is in the heap. *)
Lemma upsert_existing h j d k :
  heap_wf h -> positions h !! j = Some k ->
  exists h', upsert h j d = Some h' /\ heap_wf h' /\ abs h' = <[j := d]> (abs h).
Proof.
  intros [Hidx Hord] Hj. unfold upsert. rewrite Hj.
  pose proof (proj1 (Hidx j k) Hj) as (e & He & Hje). rewrite He. cbn [mbind option_bind].
  assert (k < length (entries h))%nat as Hk by (by apply lookup_lt_Some in He).
  set (h1 := mk_heap (<[k := mk_entry d (entry_job e)]> (entries h)) (positions h)).
  assert (forall i x, entries h1 !! i = Some x <->
    i = k /\ x = mk_entry d j \/ i <> k /\ entries h !! i = Some x) as Hlk.
  { intros i x. unfold h1. cbn [entries]. destruct (decide (i = k)) as [->|Hne].
    - rewrite list_lookup_insert_eq by done. rewrite Hje. naive_solver.
    - rewrite list_lookup_insert_ne by done. naive_solver. }
  assert (indexed h1) as Hi1.
  { intros j' i. change (positions h1) with (positions h). rewrite (Hidx j' i : _ <-> _).
    setoid_rewrite Hlk. split.
    - intros (x & Hx & <-). destruct (decide (i = k)) as [->|]; [|naive_solver].
      simplify_eq. eexists. split; [by left|]. done.
    - intros (x & [[-> ->]|[? ?]] & <-); [by exists e | eauto]. }
  destruct (sifted_spec h1 (sift h1 k)) as (h' & Hs & Hwf & Habs & _); [done| |].
  { apply sift_ok; [unfold h1; simpl; by rewrite length_insert | done | by apply ordered_insert]. }
  exists h'. split_and!; try done. rewrite Habs. apply abs_ext; [done|]. intros j' d'.
  setoid_rewrite Hlk. rewrite lookup_insert_Some, (abs_lookup h _ _ Hidx). split.
  + intros (i & [[-> [= -> ->]]|[Hne Hi]]); [by left|]. right. split; [|eauto].
    intros ->. apply Hne. by eapply (indexed_inj h).
  + intros [[-> ->]|[Hne [i Hi]]]; [exists k; by left|]. exists i. right. split; [|done].
    intros ->. by simplify_eq.
Qed.

(** [upsert] of a job that is not. *)
Lemma upsert_new h j d :
  heap_wf h -> positions h !! j = None ->
  exists h', upsert h j d = Some h' /\ heap_wf h' /\ abs h' = <[j := d]> (abs h).
Proof.
  intros [Hidx Hord] Hj. unfold upsert. rewrite Hj.
  set (h1 := mk_heap (entries h ++ [mk_entry d j]) (<[j := length (entries h)]> (positions h))).
  assert (forall i x, entries h !! i = Some x -> entry_job x <> j) as Hfresh.
  { intros i x Hx <-. assert (positions h !! entry_job x = Some i) by (apply Hidx; eauto). congruence. }
  assert (forall i x, entries h1 !! i = Some x <->
    entries h !! i = Some x \/ i = length (entries h) /\ x = mk_entry d j) as Hlk.
  { intros i x. unfold h1. cbn [entries]. rewrite lookup_app_Some, list_lookup_singleton_Some.
    split; [|intros [?|[-> ->]]; [by left|right; split_and!; (done || lia)]].
    intros [|(? & ? & <-)]; [by left|right; split; [lia|done]]. }
  assert (indexed h1) as Hi1.
  { intros j' i. unfold h1 at 1. cbn [positions]. rewrite lookup_insert_Some, (Hidx j' i : _ <-> _).
    setoid_rewrite Hlk. split.
    - intros [[-> <-]|(Hne & x & Hx & <-)]; eauto.
    - intros (x & [Hx|[-> ->]] & <-); [|by left]. right. split; [|eauto].
      intros E. by eapply (Hfresh i x). }
  destruct (sifted_spec h1 (run_sift_up h1 (length (entries h)))) as (h' & Hs & Hwf & Habs & _); [done| |].
  { apply sift_up_ok; [lia | unfold h1; simpl; rewrite length_app; simpl; lia | done |]. split.
    - intros i x y Hi Hne Hx Hy. apply Hlk in Hx as [Hx|[? _]]; [|done].
      apply Hlk in Hy as [Hy|[Hl _]]; [by eapply Hord|].
      apply lookup_lt_Some in Hx. pose proof (parent_lt i Hi). lia.
    - intros c x y Hc _ Hpc Hx _. pose proof (parent_lt c Hc). apply Hlk in Hx as [Hx|[? _]]; [|lia].
      apply lookup_lt_Some in Hx. lia. }
  exists h'. split_and!; try done. rewrite Habs. apply abs_ext; [done|]. intros j' d'.
  setoid_rewrite Hlk. rewrite lookup_insert_Some, (abs_lookup h _ _ Hidx). split.
  + intros (i & [Hi|[_ [= -> ->]]]); [|by left]. right. split; [|eauto].
    intros ->. by eapply (Hfresh i _ Hi).
  + intros [[-> ->]|[Hne [i Hi]]]; eauto.
Qed.

Lemma upsert_wf h j d :
  heap_wf h -> exists h', upsert h j d = Some h' /\ heap_wf h' /\ abs h' = <[j := d]> (abs h).
Proof.
  intros Hwf. destruct (positions h !! j) as [k|] eqn:Hj;
    [by eapply upsert_existing | by apply upsert_new].
Qed.

(** The vector without its last entry, and the map without the removed job. *)
Lemma truncate_lookup (es : list Entry) last i x :
  es !! (length es - 1)%nat = Some last ->
  take (length es - 1) es !! i = Some x <-> es !! i = Some x /\ i <> (length es - 1)%nat.
Proof.
  intros Hl. rewrite lookup_take_Some. split.
  - intros [? ?]. split; [done | lia].
  - intros [Hx Hne]. split; [done|]. apply lookup_lt_Some in Hx. lia.
Qed.

(** [remove] when the job is not the last entry: the last entry takes its place. *)
Lemma remove_inner h j k last :
  heap_wf h -> positions h !! j = Some k ->
  entries h !! (length (entries h) - 1)%nat = Some last -> k <> (length (entries h) - 1)%nat ->
  exists h',
    sift (mk_heap (<[k := last]> (take (length (entries h) - 1) (entries h)))
            (<[entry_job last := k]> (delete j (positions h)))) k = Some h' /\
    heap_wf h' /\ abs h' = delete j (abs h) /\ S (length (entries h')) = length (entries h).
Proof.
  intros [Hidx Hord] Hj Hlast Hk. pose proof (proj1 (Hidx j k) Hj) as (e & He & Hje).
  set (n := (length (entries h) - 1)%nat) in *.
  assert (k < n)%nat as Hkn by (apply lookup_lt_Some in He; lia).
  set (h1 := mk_heap _ _).
  assert (forall i x, entries h1 !! i = Some x <->
    i = k /\ x = last \/ i <> k /\ i <> n /\ entries h !! i = Some x) as Hlk.
  { intros i x. unfold h1. cbn [entries]. destruct (decide (i = k)) as [->|Hne].
    - rewrite list_lookup_insert_eq; [naive_solver|]. rewrite length_take. lia.
    - rewrite list_lookup_insert_ne by done. unfold n. rewrite (truncate_lookup _ last) by done.
      naive_solver. }
  assert (entry_job last <> j) as Hjl.
  { rewrite <- Hje. intros E. apply Hk. by eapply (indexed_inj h). }
  assert (indexed h1) as Hi1.
  { intros j' i. unfold h1 at 1. cbn [positions].
    rewrite lookup_insert_Some, lookup_delete_Some, (Hidx j' i : _ <-> _). setoid_rewrite Hlk. split.
    - intros [[<- <-]|(Hne & Hne' & x & Hx & <-)]; [eauto|]. exists x. split; [|done]. right.
      split_and!; [intros ->; by simplify_eq | intros ->; by simplify_eq | done].
    - intros (x & [[-> ->]|(Hik & Hin & Hx)] & <-); [by left|]. right. split_and!; [..|eauto].
      + intros E. apply Hin. by eapply (indexed_inj h).
      + intros E. apply Hik. eapply (indexed_inj h); [done|done|exact He|congruence]. }
  assert (length (entries h1) = n) as Hlen1 by (unfold h1; simpl; rewrite length_insert, length_take; lia).
  destruct (sifted_spec h1 (sift h1 k)) as (h' & Hs & Hwf & Habs & Hlen); [done| |].
  { apply sift_ok; [lia | done |].
    apply ordered_insert. intros i x y Hi Hx Hy.
    apply (truncate_lookup _ last) in Hx as [Hx _]; [|done].
    apply (truncate_lookup _ last) in Hy as [Hy _]; [|done]. by eapply Hord. }
  exists h'. split; [done|]. split; [done|]. split; [|lia]. rewrite Habs. apply abs_ext; [done|]. intros j' d'.
  setoid_rewrite Hlk. rewrite lookup_delete_Some, (abs_lookup h _ _ Hidx). split.
  - intros (i & [[-> Hl]|(Hik & Hin & Hi)]).
    + rewrite <- Hl in Hlast. split; [|eauto]. rewrite <- Hl in Hjl. done.
    + split; [|eauto]. intros ->. apply Hik. eapply (indexed_inj h); [done|done|exact He|done].
  - intros (Hne & i & Hi). destruct (decide (i = n)) as [->|Hin].
    + exists k. left. split; [done|]. congruence.
    + exists i. right. split_and!; [|done|done]. intros ->. simplify_eq.
Qed.

Lemma remove_last h j k :
  heap_wf h -> positions h !! j = Some k -> k = (length (entries h) - 1)%nat ->
  let h' := mk_heap (take (length (entries h) - 1) (entries h)) (delete j (positions h)) in
  heap_wf h' /\ abs h' = delete j (abs h) /\ S (length (entries h')) = length (entries h).
Proof.
  intros [Hidx Hord] Hj Hk h'. pose proof (proj1 (Hidx j k) Hj) as (e & He & Hje).
  rewrite Hk in He.
  assert (forall i x, entries h' !! i = Some x <-> entries h !! i = Some x /\ i <> k) as Hlk.
  { intros i x. rewrite Hk. by apply (truncate_lookup _ e). }
  assert (indexed h') as Hi'.
  { intros j' i. unfold h' at 1. cbn [positions]. rewrite lookup_delete_Some, (Hidx j' i : _ <-> _).
    setoid_rewrite Hlk. split.
    - intros (Hne & x & Hx & <-). exists x. split_and!; try done. intros ->. by simplify_eq.
    - intros (x & [Hx Hik] & <-). split; [|eauto]. intros E. apply Hik. rewrite Hk.
      eapply (indexed_inj h); [done|done|exact He|congruence]. }
  split; [|split].
  - split; [done|]. intros i x y Hi [Hx _]%Hlk [Hy _]%Hlk. by eapply Hord.
  - apply abs_ext; [done|]. intros j' d'. setoid_rewrite Hlk.
    rewrite lookup_delete_Some, (abs_lookup h _ _ Hidx). split.
    + intros (i & Hi & Hik). split; [|eauto]. intros ->. apply Hik. rewrite Hk.
      eapply (indexed_inj h); [done|done|exact He|done].
    + intros (Hne & i & Hi). exists i. split; [done|]. intros ->. rewrite Hk in Hi. simplify_eq.
  - unfold h'. cbn [entries]. rewrite length_take. apply lookup_lt_Some in He. lia.
Qed.

Lemma remove_wf h j :
  heap_wf h ->
  exists h', remove h j = Some (bool_decide (is_Some (abs h !! j)), h') /\
    heap_wf h' /\ abs h' = delete j (abs h) /\
    (is_Some (abs h !! j) -> S (length (entries h')) = length (entries h)).
Proof.
  intros Hwf. pose proof Hwf as [Hidx Hord]. unfold remove. destruct (positions h !! j) as [k|] eqn:Hj.
  - pose proof (proj1 (Hidx j k) Hj) as (e & He & Hje).
    assert (k < length (entries h))%nat as Hk by (by apply lookup_lt_Some in He).
    rewrite bool_decide_true.
    2:{ exists (entry_due e). apply abs_lookup; [done|]. exists k. rewrite He, <- Hje. by destruct e. }
    destruct (lookup_lt_is_Some_2 (entries h) (length (entries h) - 1)) as [l Hl]; [lia|].
    rewrite last_lookup. replace (pred (length (entries h))) with (length (entries h) - 1)%nat by lia.
    rewrite Hl. rewrite length_take, Nat.min_l by lia.
    destruct (Nat.eqb_spec k (length (entries h) - 1)) as [Heq|Hne].
    + eexists. split; [reflexivity|]. destruct (remove_last h j k Hwf Hj Heq) as (? & ? & ?). done.
    + destruct (Nat.leb_spec (length (entries h) - 1) k); [lia|].
      destruct (remove_inner h j k l Hwf Hj Hl Hne) as (h' & Hs & Hwf' & Habs & Hlen).
      rewrite Hs. cbn [mbind option_bind]. eauto 10.
  - assert (abs h !! j = None) as Hn by (unfold abs; rewrite lookup_omap, Hj; done).
    exists h. rewrite Hn, bool_decide_false by (by intros []).
    split; [done|]. split; [done|]. split; [by rewrite delete_id | by intros []].
Qed.

Lemma abs_entries h e : indexed h -> (exists i, entries h !! i = Some e) <-> abs h !! entry_job e = Some (entry_due e).
Proof. intros Hidx. rewrite (abs_lookup _ _ _ Hidx). by destruct e. Qed.


(** The loop of [pop_due]: what it appends and what it leaves. *)
Definition popped (now : ElapsedInstant) (h h' : DeadlineHeap) (es : list Entry) : Prop :=
  heap_wf h' /\ StronglySorted entry_le es /\ NoDup (entry_job <$> es) /\
  (forall e, e ∈ es <-> abs h !! entry_job e = Some (entry_due e) /\ entry_due e <= now) /\
  (forall j d, abs h' !! j = Some d <-> abs h !! j = Some d /\ now < d).

Lemma popped_nil now h :
  heap_wf h -> (forall e, entries h !! O = Some e -> now < entry_due e) -> popped now h h [].
Proof.
  intros Hwf Hroot. pose proof Hwf as [Hidx Hord].
  assert (forall j d, abs h !! j = Some d -> now < d) as Hall.
  { intros j d. rewrite (abs_lookup _ _ _ Hidx). intros [i Hi].
    destruct (lookup_lt_is_Some_2 (entries h) 0) as [e0 He0]; [apply lookup_lt_Some in Hi; lia|].
    pose proof (heap_root _ _ _ _ Hord He0 Hi) as Hle%entry_le_due. specialize (Hroot _ He0). simpl in Hle. lia. }
  split; [done|]. split; [constructor|]. split; [constructor|]. split.
  - intros e. split; [by intros ?%elem_of_nil|]. intros [Ha Hle]. apply Hall in Ha. lia.
  - intros j d. split; [|by intros [? _]]. intros Ha. split; [done | by eapply Hall].
Qed.

Lemma popped_cons now h h1 h' e0 es :
  heap_wf h -> entries h !! O = Some e0 -> entry_due e0 <= now ->
  abs h1 = delete (entry_job e0) (abs h) -> popped now h1 h' es -> popped now h h' (e0 :: es).
Proof.
  intros [Hidx Hord] He0 Hdue Habs (Hwf' & Hsort & Hnd & Hin & Hout). rewrite Habs in Hin, Hout.
  assert (abs h !! entry_job e0 = Some (entry_due e0)) as Ha0 by (apply abs_entries; eauto).
  split; [done|]. split; [|split; [|split]].
  - constructor; [done|]. apply Forall_forall. intros e [He _]%Hin.
    apply lookup_delete_Some in He as [_ He]. apply abs_entries in He as [i Hi]; [|done]. by eapply heap_root.
  - cbn. constructor; [|done]. intros (e & Hj & [He _]%Hin)%list_elem_of_fmap.
    apply lookup_delete_Some in He as [Hne _]. done.
  - intros e. rewrite elem_of_cons, Hin, lookup_delete_Some. split.
    + intros [->|[[_ ?] ?]]; done.
    + intros [Ha Hle]. destruct (decide (entry_job e0 = entry_job e)) as [Hj|]; [left|by right].
      rewrite <- Hj, Ha0 in Ha. destruct e, e0; simplify_eq/=; done.
  - intros j d. rewrite Hout, lookup_delete_Some. split; [naive_solver|]. intros [Ha Hlt].
    split_and!; try done. intros <-. rewrite Ha0 in Ha. injection Ha as <-. lia.
Qed.

Lemma pop_due_loop_ok fuel h now acc :
  heap_wf h -> (length (entries h) < fuel)%nat ->
  exists es h', pop_due_loop fuel h now acc = Some (acc ++ (entry_job <$> es), h') /\ popped now h h' es.
Proof.
  revert h acc. induction fuel as [|fuel IH]; intros h acc Hwf Hf; [lia|]. cbn [pop_due_loop].
  destruct (entries h !! O) as [e0|] eqn:He0.
  2:{ exists [], h. split; [by rewrite app_nil_r|]. apply popped_nil; [done|]. by rewrite He0. }
  destruct (Z.leb_spec (entry_due e0) now) as [Hle|Hgt].
  2:{ exists [], h. split; [by rewrite app_nil_r|]. apply popped_nil; [done|]. rewrite He0. by intros ? [= <-]. }
  destruct (remove_wf h (entry_job e0) Hwf) as (h1 & -> & Hwf1 & Habs & Hlen).
  assert (abs h !! entry_job e0 = Some (entry_due e0)) as Ha0
    by (apply abs_entries; [apply Hwf | eauto]).
  specialize (Hlen (ex_intro _ _ Ha0)). cbn [mbind option_bind].
  destruct (IH h1 (acc ++ [entry_job e0]) Hwf1) as (es & h' & Hr & Hp); [lia|].
  exists (e0 :: es), h'. split; [by rewrite Hr, <- app_assoc|]. by eapply popped_cons.
Qed.

Lemma heap_empty_wf : heap_wf heap_empty.
Proof.
  split; [|by intros ????]. intros j i. cbn. rewrite lookup_empty. split; [done|]. by intros (? & ? & _).
Qed.

Lemma heap_minimum h :
  heap_wf h ->
  match next_deadline h with
  | Some d => (exists j, abs h !! j = Some d) /\ forall j d', abs h !! j = Some d' -> d <= d'
  | None => abs h = ∅
  end.
Proof.
  intros [Hidx Hord]. unfold next_deadline. destruct (entries h !! O) as [e|] eqn:He; simpl.
  - split; [exists (entry_job e); apply abs_entries; eauto|]. intros j d'.
    rewrite (abs_lookup _ _ _ Hidx). intros [i Hi].
    by pose proof (heap_root _ _ _ _ Hord He Hi) as ?%entry_le_due.
  - apply abs_ext; [done|]. intros j d. rewrite lookup_empty. split; [|done]. intros [i Hi].
    apply lookup_lt_Some in Hi. apply lookup_ge_None in He. lia.
Qed.

Lemma heap_is_empty_spec h : heap_wf h -> heap_is_empty h = true <-> abs h = ∅.
Proof.
  intros [Hidx Hord]. unfold heap_is_empty. destruct (entries h) as [|e es] eqn:He; simpl; split; try done.
  - intros _. apply abs_ext; [done|]. intros j d. rewrite lookup_empty, He. split; [|done]. by intros [? ?].
  - intros Ha. assert (abs h !! entry_job e = Some (entry_due e)) as H'
      by (apply abs_entries; [done|]; exists O; by rewrite He).
    by rewrite Ha, lookup_empty in H'.
Qed.

(** ** Properties *)

(** C18 (refinement).  The heap implements a finite map from jobs to deadlines
    with access to the minimum: on a well-formed heap no operation panics or
    runs out of steps, each keeps the heap well formed (the index map is the
    inverse of the vector, every entry is no smaller than its parent), and
    [upsert], [remove], [next_deadline] and [is_empty] are insertion,
    deletion, the least deadline and emptiness of that map. *)
Theorem heap_refines_map h :
  heap_wf h ->
  (forall j d, exists h', upsert h j d = Some h' /\ heap_wf h' /\ abs h' = <[j := d]> (abs h)) /\
  (forall j, exists h', remove h j = Some (bool_decide (is_Some (abs h !! j)), h') /\
     heap_wf h' /\ abs h' = delete j (abs h)) /\
  match next_deadline h with
  | Some d => (exists j, abs h !! j = Some d) /\ forall j d', abs h !! j = Some d' -> d <= d'
  | None => abs h = ∅
  end /\
  (heap_is_empty h = true <-> abs h = ∅).
Proof.
  intros Hwf. pose proof Hwf as [Hidx Hord]. split_and!.
  - intros j d. by apply upsert_wf.
  - intros j. destruct (remove_wf h j Hwf) as (h' & ? & ? & ? & _). eauto.
  - by apply heap_minimum.
  - by apply heap_is_empty_spec.
Qed.

(** [pop_due] ends without a panic and returns the jobs
    whose deadline is not after [now], each once, ordered by deadline and then
    by identifier; exactly the later deadlines stay in the heap. *)
Theorem pop_due_spec h now :
  heap_wf h ->
  exists es h', pop_due h now = Some (entry_job <$> es, h') /\ heap_wf h' /\
    StronglySorted entry_le es /\ NoDup (entry_job <$> es) /\
    (forall e, e ∈ es <-> abs h !! entry_job e = Some (entry_due e) /\ entry_due e <= now) /\
    (forall j d, abs h' !! j = Some d <-> abs h !! j = Some d /\ now < d).
Proof.
  intros Hwf. destruct (pop_due_loop_ok (S (length (entries h))) h now [] Hwf) as (es & h' & Hr & Hp); [lia|].
  exists es, h'. by destruct Hp as (? & ? & ? & ? & ?).
Qed.

(** ** Witnesses *)

Definition example_heap : option DeadlineHeap :=
  h ← upsert heap_empty (mk_job_id 1) 30;
  h ← upsert h (mk_job_id 2) 10;
  h ← upsert h (mk_job_id 3) 20;
  upsert h (mk_job_id 4) 10.

Lemma example_heap_wf : exists h, example_heap = Some h /\ heap_wf h.
Proof.
  destruct (upsert_wf heap_empty (mk_job_id 1) 30 heap_empty_wf) as (h1 & E1 & W1 & _).
  destruct (upsert_wf h1 (mk_job_id 2) 10 W1) as (h2 & E2 & W2 & _).
  destruct (upsert_wf h2 (mk_job_id 3) 20 W2) as (h3 & E3 & W3 & _).
  destruct (upsert_wf h3 (mk_job_id 4) 10 W3) as (h4 & E4 & W4 & _).
  exists h4. split; [|done]. unfold example_heap. by rewrite E1; simpl; rewrite E2; simpl; rewrite E3.
Qed.

Lemma heap_refines_map_witness :
  heap_wf heap_empty /\
  (forall j d, exists h', upsert heap_empty j d = Some h' /\ heap_wf h' /\ abs h' = <[j := d]> (abs heap_empty)) /\
  (forall j, exists h', remove heap_empty j = Some (bool_decide (is_Some (abs heap_empty !! j)), h') /\
     heap_wf h' /\ abs h' = delete j (abs heap_empty)) /\
  match next_deadline heap_empty with
  | Some d => (exists j, abs heap_empty !! j = Some d) /\ forall j d', abs heap_empty !! j = Some d' -> d <= d'
  | None => abs heap_empty = ∅
  end /\
  (heap_is_empty heap_empty = true <-> abs heap_empty = ∅).
Proof. exact (conj heap_empty_wf (heap_refines_map heap_empty heap_empty_wf)). Defined.

Lemma pop_due_spec_witness :
  exists h, example_heap = Some h /\ heap_wf h /\
  exists es h', pop_due h 20 = Some (entry_job <$> es, h') /\ heap_wf h' /\
    StronglySorted entry_le es /\ NoDup (entry_job <$> es) /\
    (forall e, e ∈ es <-> abs h !! entry_job e = Some (entry_due e) /\ entry_due e <= 20) /\
    (forall j d, abs h' !! j = Some d <-> abs h !! j = Some d /\ 20 < d).
Proof.
  destruct example_heap_wf as (h & E & W). exists h. split; [exact E|]. split; [exact W|].
  exact (pop_due_spec h 20 W).
Defined.

Example pop_due_ex :
  (h ← example_heap; r ← pop_due h 20; Some (map job_uuid r.1, next_deadline r.2))
  = Some ([2; 4; 3], Some 30).
Proof. vm_compute. reflexivity. Qed.
