(* ===== verification/Sqlite.v ===== *)
(** [src/infrastructure/sqlite/mod.rs] and [migrations/]: the database, its
    schema, and the monad in which the stores run.

    A table is the list of its rows in insertion order; TEXT is a byte string,
    INTEGER a number, BLOB a list of bytes and a nullable column an option.
    Every statement is one step against the database.  Before a step that is
    not inside a transaction, other processes may have changed the database;
    any step may fail.  Both are read from a schedule, so a theorem for all
    schedules covers every interleaving and every failure.  An immediate
    transaction holds the write lock: inside it the database changes by its
    own statements only, and an error before or at the commit rolls back. *)

From S2P Require Import Prelude Text Primitives Duration Identifier States Recurrence Execution JobAgg RunAgg.

(** ** Errors *)

(** [rusqlite::Error], as far as the stores tell its cases apart. *)
Inductive SqlFailure :=
| SQ_Busy | SQ_Locked | SQ_Constraint | SQ_Conversion | SQ_Other (code : Z).
#[export] Instance SqlFailure_eq_dec : EqDecision SqlFailure. Proof. solve_decision. Defined.

(** The source stores [error.to_string()]; the model keeps the error. *)
Inductive Reason :=
| RS_Message (message : str)
| RS_IdentifierError (e : IdentifierError)
| RS_PrimitiveError (e : PrimitiveError)
| RS_ExecutionStorage (e : ExecutionStorageError)
| RS_JobError (e : JobError)
| RS_RunError (e : RunError)
| RS_Json (message : str).
#[export] Instance Reason_eq_dec : EqDecision Reason. Proof. solve_decision. Defined.

Inductive StoreError :=
| SE_Io (message : str)
| SE_Sqlite (e : SqlFailure)
| SE_InsecureDatabaseFile | SE_InvalidDatabasePath
| SE_NewerSchema (found supported : Z)
| SE_InvalidBusyTimeout | SE_PragmaMismatch
| SE_AlreadyExists | SE_NotFound | SE_Conflict | SE_Busy
| SE_Corrupt (why : Reason)
| SE_Domain (why : Reason)
| SE_DuplicateClaim | SE_InvalidClaim
| SE_Random (message : str).
#[export] Instance StoreError_eq_dec : EqDecision StoreError. Proof. solve_decision. Defined.

Definition map_write_error (e : SqlFailure) : StoreError :=
  match e with
  | SQ_Busy | SQ_Locked => SE_Busy
  | _ => SE_Sqlite e
  end.

(** The error of a row decoder travels as a conversion failure: [Corrupt]
    comes out again, anything else is a [Sqlite] error. *)
Definition map_read_error (e : SqlFailure + StoreError) : StoreError :=
  match e with
  | inl f => SE_Sqlite f
  | inr (SE_Corrupt why) => SE_Corrupt why
  | inr _ => SE_Sqlite SQ_Conversion
  end.

(** [is_constraint] *)
Definition is_constraint (e : SqlFailure) : bool :=
  match e with SQ_Constraint => true | _ => false end.

(** ** Tables *)

Record JobRow := mk_job_row {
  jr_id : str;
  jr_revision : Z;
  jr_name : option str;
  jr_description : option str;
  jr_created_at : str;
  jr_updated_at : str;
  jr_state : str;
  jr_runtime_tier : str;
  jr_schedule_json : str;
  jr_missed_policy : str;
  jr_execution_json : str;
  jr_next_due : option str;
  jr_tzdb_version : str;
  jr_owner_uid : Z;
  jr_hidden : Z
}.

Record RunRow := mk_run_row {
  rr_id : str;
  rr_job_id : str;
  rr_sequence : Z;
  rr_scheduled_for : str;
  rr_created_at : str;
  rr_started_at : option str;
  rr_finished_at : option str;
  rr_state : str;
  rr_claim_token : list Z;
  rr_monitor_json : option str;
  rr_command_json : option str;
  rr_process_group : option Z;
  rr_exit_code : option Z;
  rr_signal : option Z;
  rr_failure : option str;
  rr_outcome_json : option str;
  rr_stdout_path : option str;
  rr_stderr_path : option str;
  rr_stdout_truncated : Z;
  rr_stderr_truncated : Z
}.

Record TransitionRow := mk_transition_row {
  tw_job_id : str;
  tw_run_id : option str;
  tw_from : str;
  tw_to : str;
  tw_occurred_at : str;
  tw_actor : str;
  tw_reason : str;
  tw_revision : Z
}.

Record Db := mk_db {
  db_jobs : list JobRow;
  db_runs : list RunRow;
  db_transitions : list TransitionRow
}.

Definition set_jobs (db : Db) (l : list JobRow) : Db := mk_db l (db_runs db) (db_transitions db).
Definition set_runs (db : Db) (l : list RunRow) : Db := mk_db (db_jobs db) l (db_transitions db).
Definition set_transitions (db : Db) (l : list TransitionRow) : Db := mk_db (db_jobs db) (db_runs db) l.

(** ** The monad *)

Inductive Fault := F_Busy | F_Locked | F_Other (code : Z).
Definition fault_failure (f : Fault) : SqlFailure :=
  match f with F_Busy => SQ_Busy | F_Locked => SQ_Locked | F_Other code => SQ_Other code end.

(** What surrounds one statement: the changes of other processes before it,
    and whether it fails. *)
Record Step := mk_step { step_env : Db -> Db; step_fault : option Fault }.

Record World := mk_world { w_db : Db; w_schedule : list Step }.

(** A computation of a store; the flag says whether it runs inside a
    transaction of this connection. *)
Definition Store (A : Type) : Type := bool -> World -> result StoreError A * World.

#[export] Instance store_ret : MRet Store := fun A a _ w => (Ok a, w).
#[export] Instance store_bind : MBind Store := fun A B f m locked w =>
  match m locked w with
  | (Ok a, w') => f a locked w'
  | (Err e, w') => (Err e, w')
  end.

Definition fail {A} (e : StoreError) : Store A := fun _ w => (Err e, w).
Definition lift {A} (r : result StoreError A) : Store A := fun _ w => (r, w).

(** The database a statement sees, and what follows in the schedule. *)
Definition seen (locked : bool) (w : World) : Db :=
  match w_schedule w with
  | s :: _ => if locked then w_db w else step_env s (w_db w)
  | [] => w_db w
  end.
Definition fault (w : World) : option Fault :=
  match w_schedule w with s :: _ => step_fault s | [] => None end.

(** One statement that may change the database, with the mapping of its error. *)
Definition execute {A} (conv : SqlFailure -> StoreError) (f : Db -> result SqlFailure (A * Db)) : Store A :=
  fun locked w =>
  let db := seen locked w in
  let rest := tail (w_schedule w) in
  match fault w with
  | Some fault => (Err (conv (fault_failure fault)), mk_world db rest)
  | None =>
    match f db with
    | Ok (a, db') => (Ok a, mk_world db' rest)
    | Err e => (Err (conv e), mk_world db rest)
    end
  end.

(** One query with a row decoder. *)
Definition query {A} (f : Db -> result StoreError A) : Store A := fun locked w =>
  let db := seen locked w in
  let rest := tail (w_schedule w) in
  match fault w with
  | Some fault => (Err (map_read_error (inl (fault_failure fault))), mk_world db rest)
  | None => (map_err (fun e => map_read_error (inr e)) (f db), mk_world db rest)
  end.

Definition nothing (db : Db) : result SqlFailure (unit * Db) := Ok (tt, db).

(** [transaction_with_behavior(Immediate)?; body; commit()?]: dropping the
    transaction without a commit rolls back. *)
Definition transaction_with {A} (conv : SqlFailure -> StoreError) (body : Store A) : Store A := fun locked w =>
  match execute conv nothing locked w with
  | (Err e, w0) => (Err e, w0)
  | (Ok _, w0) =>
    match (a ← body; _ ← execute conv nothing; mret a) true w0 with
    | (Ok a, w1) => (Ok a, w1)
    | (Err e, w1) => (Err e, mk_world (w_db w0) (w_schedule w1))
    end
  end.
Definition transaction {A} : Store A -> Store A := transaction_with map_write_error.

(** ** Lemmas: running a store *)

Lemma store_bind_ok {A B} (m : Store A) (f : A -> Store B) l w b w' :
  (m ≫= f) l w = (Ok b, w') <-> exists a w1, m l w = (Ok a, w1) /\ f a l w1 = (Ok b, w').
Proof. unfold mbind, store_bind. destruct (m l w) as [[a|e] w1]; naive_solver. Qed.

Lemma execute_ok {A} conv (f : Db -> result SqlFailure (A * Db)) l w a w' :
  execute conv f l w = (Ok a, w') -> f (seen l w) = Ok (a, w_db w').
Proof.
  unfold execute. destruct (fault w); [done|]. destruct (f (seen l w)) as [[a' db']|]; [|done].
  by intros [= <- <-].
Qed.

Lemma query_ok {A} (f : Db -> result StoreError A) l w a w' :
  query f l w = (Ok a, w') -> f (seen l w) = Ok a /\ w_db w' = seen l w.
Proof.
  unfold query. destruct (fault w); [done|]. destruct (f (seen l w)) as [a'|]; [|done].
  by intros [= <- <-].
Qed.

(** Inside a transaction a statement sees what the previous one left. *)
Lemma seen_locked w : seen true w = w_db w.
Proof. unfold seen. by destruct (w_schedule w). Qed.

(** All or nothing, for every schedule: an error leaves the database as the
    transaction found it; a success is its body on that database. *)
Lemma transaction_inv {A} (body : Store A) l w r w' :
  transaction body l w = (r, w') ->
  match r with
  | Err _ => w_db w' = seen l w
  | Ok a => exists w0 w1, w_db w0 = seen l w /\ body true w0 = (Ok a, w1) /\ w_db w' = w_db w1
  end.
Proof.
  unfold transaction, transaction_with.
  destruct (execute map_write_error nothing l w) as [[u|e] w0] eqn:Eb.
  - assert (w_db w0 = seen l w) as H0 by (apply execute_ok in Eb; unfold nothing in Eb; congruence).
    destruct ((a ← body; _ ← execute map_write_error nothing; mret a) true w0) as [[a|e] w1] eqn:Ec.
    + intros [= <- <-]. apply store_bind_ok in Ec as (a' & w2 & Hbody & Hc).
      apply store_bind_ok in Hc as ([] & w3 & Hc & [= -> ->]). apply execute_ok in Hc.
      rewrite seen_locked in Hc. exists w0, w2. split_and!; [done..|]. unfold nothing in Hc. congruence.
    + intros [= <- <-]. done.
  - intros [= <- <-]. unfold execute in Eb. destruct (fault w); [by simplify_eq|].
    unfold nothing in Eb. by simplify_eq.
Qed.

(** A computation only consumes its schedule. *)
Definition consumes {A} (m : Store A) : Prop := forall l w, w_schedule (m l w).2 `suffix_of` w_schedule w.

Lemma tail_suffix {A} (l : list A) : tail l `suffix_of` l.
Proof. destruct l; simpl; [done|]. by apply suffix_cons_r. Qed.

Lemma consumes_ret {A} (a : A) : consumes (mret a).
Proof. intros l w. done. Qed.
Lemma consumes_lift {A} (r : result StoreError A) : consumes (lift r).
Proof. intros l w. done. Qed.
Lemma consumes_fail {A} e : consumes (@fail A e).
Proof. intros l w. done. Qed.
Lemma consumes_execute {A} conv (f : Db -> result SqlFailure (A * Db)) : consumes (execute conv f).
Proof.
  intros l w. unfold execute. destruct (fault w); [apply tail_suffix|].
  destruct (f _) as [[]|]; apply tail_suffix.
Qed.
Lemma consumes_query {A} (f : Db -> result StoreError A) : consumes (query f).
Proof. intros l w. unfold query. destruct (fault w); apply tail_suffix. Qed.
Lemma consumes_bind {A B} (m : Store A) (f : A -> Store B) :
  consumes m -> (forall a, consumes (f a)) -> consumes (m ≫= f).
Proof.
  intros Hm Hf l w. unfold mbind, store_bind. specialize (Hm l w).
  destruct (m l w) as [[a|e] w']; simpl in *; [|done]. etrans; [apply Hf|done].
Qed.
Create HintDb store.
#[export] Hint Resolve consumes_ret consumes_lift consumes_fail consumes_execute consumes_query consumes_bind : store.

Lemma consumes_transaction {A} (body : Store A) : consumes body -> consumes (transaction body).
Proof.
  intros Hb l w. unfold transaction, transaction_with.
  pose proof (consumes_execute map_write_error nothing l w) as Hx.
  destruct (execute map_write_error nothing l w) as [[u|e] w0]; [|done]. simpl in Hx.
  assert (consumes (a ← body; _ ← execute map_write_error nothing; mret a)) as Hc.
  { apply consumes_bind; [done|]. auto with store. }
  specialize (Hc true w0).
  destruct ((a ← body; _ ← execute map_write_error nothing; mret a) true w0) as [[a|e] w1];
    simpl in *; by etrans.
Qed.
#[export] Hint Resolve consumes_transaction : store.

(** ** SQL statements on a table *)

(** [UPDATE t SET .. WHERE p]: the number of changed rows, or a constraint
    failure that changes nothing. *)
Definition update_rows {R} (check : R -> bool) (p : R -> bool) (f : R -> R) (l : list R)
  : result SqlFailure (nat * list R) :=
  if forallb (fun r => negb (p r) || check (f r)) l
  then Ok (length (List.filter p l), map (fun r => if p r then f r else r) l)
  else Err SQ_Constraint.

Definition text_in (s : str) (l : list str) : bool := existsb (fun x => bool_decide (s = x)) l.

Definition active_states : list str := [lit "starting"; lit "running"; lit "cancel_requested"].
Definition terminal_run_states : list str := [lit "succeeded"; lit "failed"; lit "cancelled"; lit "interrupted"].
Definition terminal_job_states : list str :=
  [lit "succeeded"; lit "failed"; lit "cancelled"; lit "interrupted"; lit "missed"].
Definition job_states : list str := [lit "scheduled"; lit "waiting"] ++ active_states ++ terminal_job_states.
Definition run_states : list str := active_states ++ terminal_run_states.

(** [LIMIT n] *)
Fixpoint limit {A} (n : Z) (l : list A) : list A :=
  match l with
  | [] => []
  | x :: l => if n <=? 0 then [] else x :: limit (n - 1) l
  end.

(** [ORDER BY] a TEXT column: the BINARY collation. *)
Definition str_le (a b : str) : bool := negb (str_ltb b a).
Definition order_by {A} (key : A -> str) (l : list A) : list A :=
  merge_sort (fun a b => Is_true (str_le (key a) (key b))) l.

(** What the validating deserializers of durations and timestamps ensure. *)
Definition schedule_in_range `{Jiff} (s : Schedule) : Prop :=
  match s with
  | OneShotRelative duration due => duration_ok duration /\ ts_ok due
  | OneShotAbsolute _ _ _ due _ => ts_ok due
  | RecurringInterval interval anchor => duration_ok interval /\ ts_ok anchor
  end.

(** [serde_json] and SQLite's [json_valid]: parameters. *)
Class Serde `{Jiff} := {
  schedule_to_json : Schedule -> result str str;
  schedule_from_json : str -> result str Schedule;
  identity_to_json : ProcessIdentitySnapshot -> result str str;
  identity_from_json : str -> result str ProcessIdentitySnapshot;
  outcome_to_json : RunOutcome -> result str str;
  outcome_from_json : str -> result str RunOutcome;
  json_valid : str -> bool;
  schedule_json_law : forall s, schedule_ok s ->
    exists t, schedule_to_json s = Ok t /\ schedule_from_json t = Ok s /\ json_valid t = true;
  schedule_range_law : forall t s, schedule_from_json t = Ok s -> schedule_in_range s;
  identity_json_law : forall i,
    exists t, identity_to_json i = Ok t /\ identity_from_json t = Ok i /\ json_valid t = true;
  outcome_json_law : forall o,
    exists t, outcome_to_json o = Ok t /\ outcome_from_json t = Ok o /\ json_valid t = true
}.

Section Schema.
Context `{Serde}.

Definition json_valid_opt (o : option str) : bool := match o with Some s => json_valid s | None => true end.

(** The CHECK constraints of [jobs]. *)
Definition job_row_check (r : JobRow) : bool :=
  (0 <? jr_revision r) && text_in (jr_state r) job_states
  && text_in (jr_runtime_tier r) [lit "session"; lit "durable"]
  && json_valid (jr_schedule_json r)
  && text_in (jr_missed_policy r) [lit "hold"; lit "run-latest"; lit "skip"]
  && json_valid (jr_execution_json r)
  && (0 <=? jr_owner_uid r)
  && ((jr_hidden r =? 0) || (jr_hidden r =? 1)).

(** The CHECK constraints of [runs]. *)
Definition run_row_check (r : RunRow) : bool :=
  (0 <? rr_sequence r) && text_in (rr_state r) run_states
  && (length (rr_claim_token r) =? 32)%nat
  && json_valid_opt (rr_monitor_json r) && json_valid_opt (rr_command_json r)
  && json_valid_opt (rr_outcome_json r)
  && ((rr_stdout_truncated r =? 0) || (rr_stdout_truncated r =? 1))
  && ((rr_stderr_truncated r =? 0) || (rr_stderr_truncated r =? 1))
  && negb (is_some (rr_exit_code r) && is_some (rr_signal r)).

(** The UNIQUE constraints of [runs] for a new row. *)
Definition run_row_unique (runs : list RunRow) (r : RunRow) : bool :=
  forallb (fun x =>
    negb (bool_decide (rr_id x = rr_id r)) && negb (bool_decide (rr_claim_token x = rr_claim_token r))
    && negb (bool_decide (rr_job_id x = rr_job_id r)
             && ((rr_sequence x =? rr_sequence r) || bool_decide (rr_scheduled_for x = rr_scheduled_for r)))) runs.

Definition job_exists (db : Db) (id : str) : bool := existsb (fun r => bool_decide (jr_id r = id)) (db_jobs db).

(** [INSERT INTO jobs] *)
Definition insert_job (r : JobRow) (db : Db) : result SqlFailure (nat * Db) :=
  if job_row_check r && negb (job_exists db (jr_id r))
  then Ok (1%nat, set_jobs db (db_jobs db ++ [r])) else Err SQ_Constraint.

(** [INSERT INTO runs], with the foreign key on [jobs]. *)
Definition insert_run (r : RunRow) (db : Db) : result SqlFailure (nat * Db) :=
  if run_row_check r && run_row_unique (db_runs db) r && job_exists db (rr_job_id r)
  then Ok (1%nat, set_runs db (db_runs db ++ [r])) else Err SQ_Constraint.

(** [INSERT INTO transitions] *)
Definition insert_transition (r : TransitionRow) (db : Db) : result SqlFailure (nat * Db) :=
  if negb (is_empty (tw_reason r)) && negb (contains_nul (tw_reason r)) && (0 <? tw_revision r)
     && job_exists db (tw_job_id r)
     && match tw_run_id r with
        | Some id => existsb (fun x => bool_decide (rr_id x = id)) (db_runs db)
        | None => true
        end
  then Ok (1%nat, set_transitions db (db_transitions db ++ [r])) else Err SQ_Constraint.

(** [UPDATE jobs], [UPDATE runs]: no statement of the program assigns a key. *)
Definition update_jobs (p : JobRow -> bool) (f : JobRow -> JobRow) (db : Db) : result SqlFailure (nat * Db) :=
  '(n, l) ← update_rows job_row_check p f (db_jobs db); Ok (n, set_jobs db l).
Definition update_runs (p : RunRow -> bool) (f : RunRow -> RunRow) (db : Db) : result SqlFailure (nat * Db) :=
  '(n, l) ← update_rows run_row_check p f (db_runs db); Ok (n, set_runs db l).

(** [ON DELETE SET NULL]: the transitions of deleted runs. *)
Definition unlink_runs (gone : RunRow -> bool) (runs : list RunRow) (t : TransitionRow) : TransitionRow :=
  let orphan :=
    match tw_run_id t with
    | Some id => existsb (fun r => gone r && bool_decide (rr_id r = id)) runs
    | None => false
    end in
  if orphan then
    mk_transition_row (tw_job_id t) None (tw_from t) (tw_to t) (tw_occurred_at t) (tw_actor t) (tw_reason t)
      (tw_revision t)
  else t.

(** [DELETE FROM runs] *)
Definition delete_runs (p : RunRow -> bool) (db : Db) : result SqlFailure (nat * Db) :=
  Ok (length (List.filter p (db_runs db)),
      mk_db (db_jobs db) (List.filter (fun r => negb (p r)) (db_runs db))
        (map (unlink_runs p (db_runs db)) (db_transitions db))).

Definition delete_transitions (p : TransitionRow -> bool) (db : Db) : result SqlFailure (nat * Db) :=
  Ok (length (List.filter p (db_transitions db)),
      set_transitions db (List.filter (fun t => negb (p t)) (db_transitions db))).

(** [DELETE FROM jobs]: [ON DELETE CASCADE] on runs and transitions. *)
Definition delete_jobs (p : JobRow -> bool) (db : Db) : result SqlFailure (nat * Db) :=
  let cascades (id : str) := existsb (fun r => p r && bool_decide (jr_id r = id)) (db_jobs db) in
  Ok (length (List.filter p (db_jobs db)),
      mk_db (List.filter (fun r => negb (p r)) (db_jobs db))
        (List.filter (fun r => negb (cascades (rr_job_id r))) (db_runs db))
        (map (unlink_runs (fun r => cascades (rr_job_id r)) (db_runs db))
          (List.filter (fun t => negb (cascades (tw_job_id t))) (db_transitions db)))).
End Schema.

(** ** A model of the class [Serde]: values encoded as one number *)
Module SerdeModel.
#[local] Existing Instance JiffModel.jiff.
Definition in_range_b (s : Schedule) : bool :=
  match s with
  | OneShotRelative d due => in_range 1 MAX_DURATION_SECONDS (duration_get d) && in_range ts_min ts_max due
  | OneShotAbsolute _ _ _ due _ => in_range ts_min ts_max due
  | RecurringInterval i anchor => in_range 1 MAX_DURATION_SECONDS (duration_get i) && in_range ts_min ts_max anchor
  end.
Definition schedule_code (s : Schedule) : Z * Z * Z * str * str * str * Z :=
  match s with
  | OneShotRelative d due => (0, duration_get d, due, [], [], [], 0)
  | OneShotAbsolute a b c due dst =>
    (1, 0, due, a, b, c, match dst with DST_Reject => 0 | DST_Earlier => 1 | DST_Later => 2 end)
  | RecurringInterval i anchor => (2, duration_get i, anchor, [], [], [], 0)
  end.
Definition code_schedule (t : Z * Z * Z * str * str * str * Z) : Schedule :=
  let '(tag, d, due, a, b, c, dst) := t in
  match tag with
  | 0 => OneShotRelative (mk_duration d) due
  | 1 => OneShotAbsolute a b c due (match dst with 0 => DST_Reject | 1 => DST_Earlier | _ => DST_Later end)
  | _ => RecurringInterval (mk_duration d) due
  end.
Definition outcome_code (o : RunOutcome) : Z * Z * str :=
  match o with
  | RO_Exit c => (0, c, []) | RO_Signal s => (1, s, []) | RO_Failure m => (2, 0, m)
  | RO_Interrupted m => (3, 0, m) | RO_Cancelled m => (4, 0, m)
  end.
Definition code_outcome (t : Z * Z * str) : RunOutcome :=
  let '(tag, c, m) := t in
  match tag with
  | 0 => RO_Exit c | 1 => RO_Signal c | 2 => RO_Failure m | 3 => RO_Interrupted m | _ => RO_Cancelled m
  end.
Definition identity_code (i : ProcessIdentitySnapshot) : str * Z * Z * Z :=
  (boot_identity i, pid i, start_token i, process_group_id i).
Definition code_identity (t : str * Z * Z * Z) : ProcessIdentitySnapshot :=
  let '(b, p, s, g) := t in mk_process_identity b p s g.

Definition print {A} `{Countable B} (code : A -> B) (a : A) : str := [Z.pos (countable.encode (code a))].
Definition parse {A} `{Countable B} (back : B -> A) (s : str) : result str A :=
  match s with [Z.pos n] => ok_or (back <$> countable.decode n) [] | _ => Err [] end.

Lemma parse_print {A} `{Countable B} (code : A -> B) (back : B -> A) a :
  back (code a) = a -> parse back (print code a) = Ok a.
Proof. intros Hb. unfold parse, print. by rewrite countable.decode_encode; simpl; rewrite Hb. Qed.

Definition parse_schedule (s : str) : result str Schedule :=
  sch ← parse code_schedule s; if in_range_b sch then Ok sch else Err [].

Lemma in_range_b_spec s : in_range_b s = true <-> schedule_in_range s.
Proof.
  destruct s; simpl; unfold duration_ok, ts_ok; rewrite ?andb_true_iff, !in_range_spec; done.
Qed.

#[export] Program Instance serde : Serde := {|
  schedule_to_json s := Ok (print schedule_code s);
  schedule_from_json := parse_schedule;
  identity_to_json i := Ok (print identity_code i);
  identity_from_json := parse code_identity;
  outcome_to_json o := Ok (print outcome_code o);
  outcome_from_json := parse code_outcome;
  json_valid _ := true
|}.
Next Obligation.
  intros s Hs. eexists. split_and!; [done| |done]. unfold parse_schedule.
  rewrite parse_print by (by destruct s as [[]|? ? ? ? []|[]]). cbn [mbind result_bind].
  by rewrite (proj2 (in_range_b_spec s)) by (destruct s; simpl in *; naive_solver).
Qed.
Next Obligation.
  intros t s. unfold parse_schedule. intros (s' & _ & Hs)%bind_ok.
  destruct (in_range_b s') eqn:E; [|done]. injection Hs as <-. by apply in_range_b_spec.
Qed.
Next Obligation. intros i. eexists. split_and!; [done| |done]. apply parse_print. by destruct i. Qed.
Next Obligation. intros o. eexists. split_and!; [done| |done]. apply parse_print. by destruct o. Qed.
End SerdeModel.
