(* ===== verification/JobStore.v ===== *)
(** [src/infrastructure/sqlite/job_store.rs]: the rows of jobs and the
    transactional updates of one job.

    [list] and [delete] exist in test builds only. *)

From S2P Require Import Prelude Text Primitives Duration Identifier States Recurrence Execution JobAgg RunAgg Sqlite.

(** ** Text of the enumerations: [serde]'s [rename_all] attributes *)

Definition job_state_text (s : JobState) : str :=
  match s with
  | JS_Scheduled => lit "scheduled" | JS_Waiting => lit "waiting" | JS_Starting => lit "starting"
  | JS_Running => lit "running" | JS_CancelRequested => lit "cancel_requested"
  | JS_Succeeded => lit "succeeded" | JS_Failed => lit "failed" | JS_Cancelled => lit "cancelled"
  | JS_Interrupted => lit "interrupted" | JS_Missed => lit "missed"
  end.
Definition all_job_states : list JobState :=
  [JS_Scheduled; JS_Waiting; JS_Starting; JS_Running; JS_CancelRequested;
   JS_Succeeded; JS_Failed; JS_Cancelled; JS_Interrupted; JS_Missed].

Definition runtime_tier_text (t : RuntimeTier) : str :=
  match t with RT_Session => lit "session" | RT_Durable => lit "durable" end.
Definition missed_policy_text (p : MissedPolicy) : str :=
  match p with MP_Hold => lit "hold" | MP_RunLatest => lit "run-latest" | MP_Skip => lit "skip" end.
Definition actor_text (a : TransitionActor) : str :=
  match a with TA_Cli => lit "cli" | TA_Supervisor => lit "supervisor" | TA_Monitor => lit "monitor" end.

(** [decode_enum]: the variant of that text, or the error of [serde_json]. *)
Definition decode_enum {A} (text : A -> str) (all : list A) (value : str) : result StoreError A :=
  ok_or (list_find (fun a => text a = value) all ≫= fun p => Some p.2)
        (SE_Corrupt (RS_Json (lit "unknown variant"))).

Definition decode_job_state : str -> result StoreError JobState := decode_enum job_state_text all_job_states.
Definition decode_runtime_tier : str -> result StoreError RuntimeTier :=
  decode_enum runtime_tier_text [RT_Session; RT_Durable].
Definition decode_missed_policy : str -> result StoreError MissedPolicy :=
  decode_enum missed_policy_text [MP_Hold; MP_RunLatest; MP_Skip].

(** [to_sql_u64]: an SQLite INTEGER is an [i64]. *)
Definition to_sql_u64 (value : Z) : result StoreError Z :=
  if value <=? i64_max then Ok value
  else Err (SE_Corrupt (RS_Message (lit "counter exceeds SQLite i64"))).

Definition corrupt {E A} (why : E -> Reason) (r : result E A) : result StoreError A :=
  map_err (fun e => SE_Corrupt (why e)) r.

Section JobStore.
Context `{Serde} `{ExecutionJson}.

Definition parse_timestamp (value : str) : result StoreError UtcTimestamp :=
  corrupt RS_PrimitiveError (utc_from_str value).

(** The arguments of the INSERT, in the order of their evaluation. *)
Definition encode_job_row (snapshot : JobSnapshot) : result StoreError JobRow :=
  schedule ← corrupt RS_Json (schedule_to_json (js_schedule snapshot));
  execution ← corrupt RS_ExecutionStorage (to_persistence_json (js_execution snapshot));
  revision ← to_sql_u64 (js_revision snapshot);
  Ok {| jr_id := job_id_to_string (js_id snapshot);
        jr_revision := revision;
        jr_name := name_str <$> js_name snapshot;
        jr_description := description_str <$> js_description snapshot;
        jr_created_at := ts_show (js_created_at snapshot);
        jr_updated_at := ts_show (js_updated_at snapshot);
        jr_state := job_state_text (js_state snapshot);
        jr_runtime_tier := runtime_tier_text (js_runtime_tier snapshot);
        jr_schedule_json := schedule;
        jr_missed_policy := missed_policy_text (js_missed_policy snapshot);
        jr_execution_json := execution;
        jr_next_due := Some (ts_show (js_next_due snapshot));
        jr_tzdb_version := js_tzdb_version snapshot;
        jr_owner_uid := js_owner_uid snapshot;
        jr_hidden := 0 |}.

(** The match on the result of the INSERT. *)
Definition create_error (e : SqlFailure) : StoreError :=
  if is_constraint e then SE_AlreadyExists else map_write_error e.

Definition create (job : Job) : Store unit :=
  row ← lift (encode_job_row (job_snapshot job));
  changed ← execute create_error (insert_job row);
  if (changed =? 1)%nat then mret tt
  else fail (SE_Corrupt (RS_Message (lit "job insert affected no row"))).

(** [decode_job_row_inner] *)
Definition decode_job_row (row : JobRow) : result StoreError Job :=
  id ← corrupt RS_IdentifierError (job_id_from_str (jr_id row));
  revision_raw ← ok_or (checked_u64 (jr_revision row)) (SE_Corrupt (RS_Message (lit "negative revision")));
  revision ← corrupt RS_PrimitiveError (revision_new revision_raw);
  name ← match jr_name row with
         | Some s => Some <$> corrupt RS_PrimitiveError (name_new s) | None => Ok None end;
  description ← match jr_description row with
                | Some s => Some <$> corrupt RS_PrimitiveError (description_new s) | None => Ok None end;
  created_at ← parse_timestamp (jr_created_at row);
  updated_at ← parse_timestamp (jr_updated_at row);
  state ← decode_job_state (jr_state row);
  runtime_tier ← decode_runtime_tier (jr_runtime_tier row);
  schedule ← corrupt RS_Json (schedule_from_json (jr_schedule_json row));
  missed_policy ← decode_missed_policy (jr_missed_policy row);
  execution ← corrupt RS_ExecutionStorage (from_persistence_json (jr_execution_json row));
  next_due_raw ← ok_or (jr_next_due row) (SE_Sqlite SQ_Conversion);
  next_due ← parse_timestamp next_due_raw;
  owner_uid ← ok_or (checked 0 u32_max (jr_owner_uid row))
                (SE_Corrupt (RS_Message (lit "owner UID is outside u32")));
  corrupt RS_JobError (job_rehydrate {|
    js_id := id; js_revision := revision; js_name := name; js_description := description;
    js_created_at := created_at; js_updated_at := updated_at; js_state := state;
    js_runtime_tier := runtime_tier; js_schedule := schedule; js_missed_policy := missed_policy;
    js_execution := execution; js_next_due := next_due; js_tzdb_version := jr_tzdb_version row;
    js_owner_uid := owner_uid |}).

(** [SELECT .. FROM jobs WHERE id = ?1] *)
Definition find_job (id : JobId) (db : Db) : option JobRow :=
  snd <$> list_find (fun r => jr_id r = job_id_to_string id) (db_jobs db).

(** [query_row(..).optional()] with the decoder. *)
Definition decode_optional {R A} (decode : R -> result StoreError A) (r : option R)
  : result StoreError (option A) :=
  match r with Some r => Some <$> decode r | None => Ok None end.

Definition load_job (id : JobId) : Store (option Job) :=
  query (fun db => decode_optional decode_job_row (find_job id db)).

(** [let mut job = load_job(..)?.ok_or(NotFound)?] *)
Definition load_existing (id : JobId) : Store Job :=
  job ← load_job id;
  match job with Some job => mret job | None => fail SE_NotFound end.

Definition job_row_is (id : JobId) (revision : Z) (r : JobRow) : bool :=
  bool_decide (jr_id r = job_id_to_string id) && (jr_revision r =? revision).

(** [UPDATE jobs SET revision, state, updated_at_utc] and, for a recurring
    job, [next_due_utc]. *)
Definition job_row_update (revision : Z) (state updated : str) (next_due : option str) (r : JobRow) : JobRow :=
  mk_job_row (jr_id r) revision (jr_name r) (jr_description r) (jr_created_at r) updated state
    (jr_runtime_tier r) (jr_schedule_json r) (jr_missed_policy r) (jr_execution_json r)
    (match next_due with Some d => Some d | None => jr_next_due r end)
    (jr_tzdb_version r) (jr_owner_uid r) (jr_hidden r).

(** The common end of the two transactional updates: the guarded UPDATE and
    the row of the audit trail. *)
Definition save_transition (id : JobId) (expected : Revision) (job : Job)
  (t : Transition JobState) (now : UtcTimestamp) (next_due : option UtcTimestamp) : Store unit :=
  revision ← lift (to_sql_u64 (job_revision job));
  expected_sql ← lift (to_sql_u64 expected);
  changed ← execute map_write_error
    (update_jobs (job_row_is id expected_sql)
       (job_row_update revision (job_state_text (job_state job)) (ts_show now) (ts_show <$> next_due)));
  if negb (changed =? 1)%nat then fail SE_Conflict else
  _ ← execute map_write_error
    (insert_transition (mk_transition_row (job_id_to_string id) None (job_state_text (tr_from t))
       (job_state_text (tr_to t)) (ts_show now) (actor_text (tr_actor t)) (tr_reason t) revision));
  mret tt.

Definition transition_job (id : JobId) (expected : Revision) (to : JobState) (recurring : bool)
  (actor : TransitionActor) (reason : str) (now : UtcTimestamp) : Store Job :=
  transaction (
    job ← load_existing id;
    if negb (job_revision job =? expected) then fail SE_Conflict else
    '(job', t) ← lift (map_err (fun e => SE_Domain (RS_JobError e))
                         (job_do_transition job to recurring actor reason now));
    _ ← save_transition id expected job' t now None;
    mret job').

Definition advance_recurring_job (id : JobId) (expected : Revision) (now : UtcTimestamp) : Store Job :=
  transaction (
    job ← load_existing id;
    if negb (job_revision job =? expected) then fail SE_Conflict else
    '(job', t) ← lift (map_err (fun e => SE_Domain (RS_JobError e))
                         (job_advance_recurring job TA_Monitor (lit "next fixed-rate occurrence") now));
    _ ← save_transition id expected job' t now (Some (job_next_due job'));
    mret job').
End JobStore.

(** ** Lemmas: the texts of the enumerations *)

Lemma decode_enum_ok {A} (text : A -> str) all v a :
  decode_enum text all v = Ok a -> text a = v.
Proof.
  unfold decode_enum. rewrite ok_or_ok. intros ([i x] & Hf & [= ->])%bind_Some.
  by apply list_find_Some in Hf as (_ & ? & _).
Qed.

Lemma job_state_roundtrip s : decode_job_state (job_state_text s) = Ok s.
Proof. by destruct s. Qed.
Lemma runtime_tier_roundtrip t : decode_runtime_tier (runtime_tier_text t) = Ok t.
Proof. by destruct t. Qed.
Lemma missed_policy_roundtrip p : decode_missed_policy (missed_policy_text p) = Ok p.
Proof. by destruct p. Qed.

Lemma corrupt_ok {E A} (why : E -> Reason) (r : result E A) a : corrupt why r = Ok a <-> r = Ok a.
Proof. apply map_err_ok. Qed.

Lemma to_sql_u64_ok v s : to_sql_u64 v = Ok s <-> s = v /\ v <= i64_max.
Proof. unfold to_sql_u64. destruct (Z.leb_spec v i64_max); naive_solver lia. Qed.

(** ** Lemmas: a row and the job it stores *)

Section Rows.
Context `{Serde} `{ExecutionJson}.

Definition text_column (maximum : nat) (o : option str) : Prop := opt_Forall (text_ok maximum) o.

Record row_decodes (r : JobRow) (j : Job) : Prop := {
  rd_id : job_id_from_str (jr_id r) = Ok (job_id j);
  rd_revision : jr_revision r = job_revision j /\ counter_ok (jr_revision r);
  rd_name : job_name j = mk_name <$> jr_name r /\ text_column 256 (jr_name r);
  rd_description : job_description j = mk_description <$> jr_description r /\ text_column 4096 (jr_description r);
  rd_created : utc_from_str (jr_created_at r) = Ok (job_created_at j);
  rd_updated : utc_from_str (jr_updated_at r) = Ok (job_updated_at j);
  rd_state : jr_state r = job_state_text (job_state j);
  rd_tier : jr_runtime_tier r = runtime_tier_text (job_runtime_tier j);
  rd_schedule : schedule_from_json (jr_schedule_json r) = Ok (job_schedule j);
  rd_policy : jr_missed_policy r = missed_policy_text (job_missed_policy j);
  rd_execution : from_persistence_json (jr_execution_json r) = Ok (job_execution j);
  rd_next_due : exists s, jr_next_due r = Some s /\ utc_from_str s = Ok (job_next_due j);
  rd_tzdb : jr_tzdb_version r = job_tzdb_version j;
  rd_owner : jr_owner_uid r = job_owner_uid j /\ 0 <= jr_owner_uid r <= u32_max;
  rd_order : job_created_at j <= job_updated_at j;
  rd_tzdb_ok : job_tzdb_version j <> [] /\ contains_nul (job_tzdb_version j) = false
}.

(** The columns alone, without the two demands of [rehydrate]. *)
Record job_row_fields (r : JobRow) (j : Job) : Prop := {
  jf_id : job_id_from_str (jr_id r) = Ok (job_id j);
  jf_revision : jr_revision r = job_revision j /\ counter_ok (jr_revision r);
  jf_name : job_name j = mk_name <$> jr_name r /\ text_column 256 (jr_name r);
  jf_description : job_description j = mk_description <$> jr_description r /\ text_column 4096 (jr_description r);
  jf_created : utc_from_str (jr_created_at r) = Ok (job_created_at j);
  jf_updated : utc_from_str (jr_updated_at r) = Ok (job_updated_at j);
  jf_state : jr_state r = job_state_text (job_state j);
  jf_tier : jr_runtime_tier r = runtime_tier_text (job_runtime_tier j);
  jf_schedule : schedule_from_json (jr_schedule_json r) = Ok (job_schedule j);
  jf_policy : jr_missed_policy r = missed_policy_text (job_missed_policy j);
  jf_execution : from_persistence_json (jr_execution_json r) = Ok (job_execution j);
  jf_next_due : exists s, jr_next_due r = Some s /\ utc_from_str s = Ok (job_next_due j);
  jf_tzdb : jr_tzdb_version r = job_tzdb_version j;
  jf_owner : jr_owner_uid r = job_owner_uid j /\ 0 <= jr_owner_uid r <= u32_max
}.

Lemma row_decodes_fields r j : row_decodes r j -> job_row_fields r j.
Proof. intros []. by split. Qed.

Lemma name_column_ok o v :
  match o with Some s => Some <$> corrupt RS_PrimitiveError (name_new s) | None => Ok None end = Ok v <->
  v = mk_name <$> o /\ text_column 256 o.
Proof.
  destruct o as [s|]; simpl; [|naive_solver]. rewrite fmap_ok. setoid_rewrite corrupt_ok.
  setoid_rewrite name_new_ok. naive_solver.
Qed.

Lemma description_column_ok o v :
  match o with Some s => Some <$> corrupt RS_PrimitiveError (description_new s) | None => Ok None end = Ok v <->
  v = mk_description <$> o /\ text_column 4096 o.
Proof.
  destruct o as [s|]; simpl; [|naive_solver]. rewrite fmap_ok. setoid_rewrite corrupt_ok.
  setoid_rewrite description_new_ok. naive_solver.
Qed.

(** Decoding reads the columns and leaves the rest to [rehydrate]. *)
Lemma decode_job_row_fields r j :
  job_row_fields r j -> decode_job_row r = corrupt RS_JobError (job_rehydrate (job_snapshot j)).
Proof.
  intros [Hid [Hr Hr0] Hn Hd Hc Hu Hst Hti Hsc Hpo Hex (nr & Hnr & Hnd) Htz [How How']].
  unfold decode_job_row, parse_timestamp. unfold counter_ok in Hr0.
  rewrite Hid. cbn [corrupt map_err mbind result_bind].
  rewrite (checked_in 0 u64_max (jr_revision r)) by lia. cbn [ok_or mbind result_bind].
  assert (revision_new (jr_revision r) = Ok (jr_revision r)) as Hrev by (apply counter_new_ok; lia).
  rewrite Hrev.
  cbn [corrupt map_err mbind result_bind].
  rewrite (proj2 (name_column_ok _ _) Hn). cbn [mbind result_bind].
  rewrite (proj2 (description_column_ok _ _) Hd). cbn [mbind result_bind].
  rewrite Hc, Hu. cbn [corrupt map_err mbind result_bind].
  rewrite Hst, Hti, Hpo, job_state_roundtrip, runtime_tier_roundtrip, missed_policy_roundtrip, Hsc, Hex, Hnr.
  cbn [corrupt map_err mbind result_bind ok_or]. rewrite Hnd.
  cbn [corrupt map_err mbind result_bind ok_or]. rewrite checked_in by lia.
  cbn [corrupt map_err mbind result_bind ok_or]. f_equal. f_equal. unfold job_snapshot. rewrite Hr, How, Htz. by destruct j.
Qed.

Lemma decode_job_row_ok r j : decode_job_row r = Ok j <-> row_decodes r j.
Proof.
  split.
  - unfold decode_job_row, parse_timestamp.
    intros (id & Hid%corrupt_ok & (rev0 & [-> Hr0]%ok_or_ok%checked_Some & (rev & Hrev%corrupt_ok & Hj)%bind_ok)%bind_ok)%bind_ok.
    apply counter_new_ok in Hrev as [-> Hrev].
    apply bind_ok in Hj as (name & Hname%name_column_ok & (desc & Hdesc%description_column_ok & Hj)%bind_ok).
    apply bind_ok in Hj as (c & Hc%corrupt_ok & (u & Hu%corrupt_ok & Hj)%bind_ok).
    apply bind_ok in Hj as (st & Hst%decode_enum_ok & (ti & Hti%decode_enum_ok & Hj)%bind_ok).
    apply bind_ok in Hj as (sc & Hsc%corrupt_ok & (po & Hpo%decode_enum_ok & Hj)%bind_ok).
    apply bind_ok in Hj as (ex & Hex%corrupt_ok & (nr & Hnr%ok_or_ok & Hj)%bind_ok).
    apply bind_ok in Hj as (nd & Hnd%corrupt_ok & (ow & [-> How]%ok_or_ok%checked_Some & Hj%corrupt_ok)%bind_ok).
    apply job_rehydrate_ok in Hj as (Heq & Ho1 & Ho2 & Ho3).
    destruct j; unfold job_snapshot in Heq; injection Heq; intros; subst.
    split; simpl; try done; [split; [done | unfold counter_ok; lia] | eauto].
  - intros Hrow. rewrite (decode_job_row_fields r j) by (by apply row_decodes_fields).
    apply corrupt_ok, job_rehydrate_ok. split; [done|]. split; [apply rd_order with r | apply rd_tzdb_ok with r]; done.
Qed.

(** The rows written by the two updates. *)
Lemma row_decodes_update r j to now :
  row_decodes r j -> ts_ok now -> job_updated_at j <= now -> counter_ok (job_revision j + 1) ->
  row_decodes (job_row_update (job_revision j + 1) (job_state_text to) (ts_show now) None r)
    (job_set_state j (job_revision j + 1) to now).
Proof.
  intros [] Hn Hle Hc. split; simpl; try done; [by apply utc_from_str_show | lia].
Qed.

Lemma row_decodes_advance r j to now due :
  row_decodes r j -> ts_ok now -> ts_ok due -> job_updated_at j <= now -> counter_ok (job_revision j + 1) ->
  row_decodes (job_row_update (job_revision j + 1) (job_state_text to) (ts_show now) (Some (ts_show due)) r)
    (job_set_next_due (job_set_state j (job_revision j + 1) to now) due).
Proof.
  intros [] Hn Hd Hle Hc. split; simpl; try done; [by apply utc_from_str_show | | lia].
  eexists. split; [done|]. by apply utc_from_str_show.
Qed.
End Rows.

(** ** Lemmas: one row replaced, one audit row appended *)

Section Updates.
Context `{Serde} `{ExecutionJson}.

Definition replaces (id : JobId) (db db' : Db) (row row' : JobRow) (t : TransitionRow) : Prop :=
  exists l1 l2, db_jobs db = l1 ++ row :: l2 /\ db_jobs db' = l1 ++ row' :: l2 /\
    Forall (fun r => jr_id r <> job_id_to_string id) l1 /\
    Forall (fun r => jr_id r = job_id_to_string id -> jr_revision r <> jr_revision row) l2 /\
    db_runs db' = db_runs db /\ db_transitions db' = db_transitions db ++ [t].

Definition audit_row (id : JobId) (t : Transition JobState) (now : UtcTimestamp) (revision : Z) : TransitionRow :=
  mk_transition_row (job_id_to_string id) None (job_state_text (tr_from t)) (job_state_text (tr_to t))
    (ts_show now) (actor_text (tr_actor t)) (tr_reason t) revision.

Lemma find_job_split id db row :
  find_job id db = Some row ->
  exists l1 l2, db_jobs db = l1 ++ row :: l2 /\ jr_id row = job_id_to_string id /\
    Forall (fun r => jr_id r <> job_id_to_string id) l1.
Proof. unfold find_job. intros ([i r] & Hf & ->)%fmap_Some. by apply list_find_split in Hf. Qed.

Lemma find_job_app id l1 row l2 runs ts :
  Forall (fun r => jr_id r <> job_id_to_string id) l1 -> jr_id row = job_id_to_string id ->
  find_job id (mk_db (l1 ++ row :: l2) runs ts) = Some row.
Proof. intros Hl Hr. unfold find_job. simpl. by rewrite list_find_app_r. Qed.

Lemma save_transition_ok id expected job t now due w u w' row :
  find_job id (w_db w) = Some row -> jr_revision row = expected ->
  save_transition id expected job t now due true w = (Ok u, w') ->
  job_revision job <= i64_max /\
  replaces id (w_db w) (w_db w') row
    (job_row_update (job_revision job) (job_state_text (job_state job)) (ts_show now) (ts_show <$> due) row)
    (audit_row id t now (job_revision job)).
Proof.
  intros Hfind Hrev Hs. unfold save_transition in Hs.
  apply store_bind_ok in Hs as (r1 & w1 & Hr1 & Hs). apply (f_equal fst) in Hr1 as Hr1'.
  apply to_sql_u64_ok in Hr1' as [-> Hmax]. unfold lift in Hr1. injection Hr1 as Hr1 <-.
  apply store_bind_ok in Hs as (r2 & w2 & Hr2 & Hs). unfold lift in Hr2. injection Hr2 as Hr2 <-.
  apply to_sql_u64_ok in Hr2 as [-> _].
  apply store_bind_ok in Hs as (n & w3 & Hu & Hs). apply execute_ok in Hu. rewrite seen_locked in Hu.
  destruct (Nat.eqb_spec n 1) as [->|]; [|done]. cbn [negb] in Hs.
  apply store_bind_ok in Hs as (m & w4 & Hi & [= _ ->]). apply execute_ok in Hi. rewrite seen_locked in Hi.
  split; [done|]. destruct (find_job_split _ _ _ Hfind) as (l1 & l2 & Hl & Hid & Hl1).
  unfold update_jobs, update_rows in Hu. destruct (forallb _ _); [|done].
  cbn [mbind result_bind] in Hu. injection Hu as Hn Hdb. rewrite Hl in Hn.
  assert (job_row_is id expected row = true) as Hp.
  { unfold job_row_is. rewrite Hid, bool_decide_true by done. by apply Z.eqb_eq. }
  destruct (filter_one _ _ _ _ Hp Hn) as [Hf1 Hf2].
  assert (db_jobs (w_db w3) = l1 ++ job_row_update (job_revision job) (job_state_text (job_state job))
            (ts_show now) (ts_show <$> due) row :: l2) as Hl3.
  { rewrite <- Hdb. cbn [set_jobs db_jobs]. rewrite Hl, map_app. cbn [map]. rewrite Hp.
    by rewrite !map_if_none. }
  unfold insert_transition in Hi. destruct (_ && _); [|done]. injection Hi as _ Hdb'.
  exists l1, l2. rewrite <- Hdb'. cbn [set_transitions db_jobs db_runs db_transitions].
  rewrite <- Hdb. cbn [set_jobs db_runs db_transitions]. rewrite <- Hdb in Hl3. split_and!; try done.
  eapply Forall_impl; [exact Hf2|]. intros r Hr E. unfold job_row_is in Hr.
  rewrite bool_decide_true in Hr by done. cbn [andb] in Hr. apply Z.eqb_neq in Hr. congruence.
Qed.

Lemma load_existing_ok id l w j w' :
  load_existing id l w = (Ok j, w') ->
  w_db w' = seen l w /\ exists row, find_job id (seen l w) = Some row /\ row_decodes row j.
Proof.
  unfold load_existing. intros (o & w1 & Hq & Ho)%store_bind_ok. apply query_ok in Hq as [Hd Hw].
  unfold decode_optional in Hd. destruct (find_job id (seen l w)) as [row|]; [|by simplify_eq].
  apply fmap_ok in Hd as (j' & Hj & ->). injection Ho as <- <-. split; [done|].
  exists row. split; [done|]. by apply decode_job_row_ok.
Qed.

(** The two transactional updates share their frame. *)
Lemma guarded_update_ok id expected (step : Job -> result StoreError (Job * Transition JobState))
    now (due : Job -> option UtcTimestamp) l w r w' :
  transaction (
    job ← load_existing id;
    if negb (job_revision job =? expected) then fail SE_Conflict else
    '(job', t) ← lift (step job);
    _ ← save_transition id expected job' t now (due job');
    mret job') l w = (r, w') ->
  match r with
  | Err _ => w_db w' = seen l w
  | Ok job' => exists row job t,
      find_job id (seen l w) = Some row /\ row_decodes row job /\ job_revision job = expected /\
      step job = Ok (job', t) /\ job_revision job' <= i64_max /\
      replaces id (seen l w) (w_db w') row
        (job_row_update (job_revision job') (job_state_text (job_state job')) (ts_show now)
           (ts_show <$> due job') row)
        (audit_row id t now (job_revision job'))
  end.
Proof.
  intros Ht%transaction_inv. destruct r as [job'|]; [|done].
  destruct Ht as (w0 & w1 & Hw0 & Hbody & Hw1). rewrite <- Hw0.
  apply store_bind_ok in Hbody as (job & w2 & Hload & Hbody).
  apply load_existing_ok in Hload as (Hw2 & row & Hfind & Hrow). rewrite seen_locked in Hw2, Hfind.
  destruct (Z.eqb_spec (job_revision job) expected) as [Hrev|]; [|done]. cbn [negb] in Hbody.
  apply store_bind_ok in Hbody as ([j t] & w3 & Hstep & Hbody). unfold lift in Hstep. injection Hstep as Hstep <-.
  apply store_bind_ok in Hbody as (u & w4 & Hsave & [= -> <-]).
  exists row, job, t. rewrite <- Hw2 in *. rewrite Hw1.
  apply save_transition_ok with (row := row) in Hsave as [Hmax Hrep]; [by split_and!|done|].
  by rewrite (proj1 (rd_revision _ _ Hrow)).
Qed.

Lemma replaces_find id db db' row row' t :
  replaces id db db' row row' t -> jr_id row' = job_id_to_string id -> find_job id db' = Some row'.
Proof.
  intros (l1 & l2 & _ & Hj & Hl1 & _) Hid. destruct db' as [jobs runs ts]. simpl in Hj. subst jobs.
  by apply find_job_app.
Qed.
End Updates.

(** ** Properties *)

Section Properties.
Context `{Serde} `{ExecutionJson}.

(** A job that the application builds: its invariant and column ranges. *)
Record storable (j : Job) : Prop := {
  st_ok : job_ok j;
  st_id : uuid_ok (job_uuid (job_id j));
  st_name : opt_Forall (fun n => text_ok 256 (name_str n)) (job_name j);
  st_description : opt_Forall (fun d => text_ok 4096 (description_str d)) (job_description j);
  st_owner : 0 <= job_owner_uid j <= u32_max
}.

Lemma id_text_decode v : uuid_ok v -> decode (id_text v) = Ok v.
Proof.
  intros Hv. destruct (encode_decode v Hv) as (s & Hs & _ & Hd). unfold id_text. by rewrite Hs.
Qed.

Lemma job_id_text id : uuid_ok (job_uuid id) -> job_id_from_str (job_id_to_string id) = Ok id.
Proof. intros Hid. unfold job_id_from_str, job_id_to_string. rewrite id_text_decode by done. by destruct id. Qed.
Lemma run_id_text id : uuid_ok (run_uuid id) -> run_id_from_str (run_id_to_string id) = Ok id.
Proof. intros Hid. unfold run_id_from_str, run_id_to_string. rewrite id_text_decode by done. by destruct id. Qed.

Lemma encode_job_row_ok j row :
  storable j -> encode_job_row (job_snapshot j) = Ok row -> row_decodes row j /\ jr_id row = job_id_to_string (job_id j).
Proof.
  intros [[] Hid Hn Hd Ho]. unfold encode_job_row.
  intros (sc & Hsc%corrupt_ok & (ex & Hex%corrupt_ok & (rev & [-> Hmax]%to_sql_u64_ok & [= <-])%bind_ok)%bind_ok)%bind_ok.
  cbn [job_snapshot js_schedule js_execution js_revision] in *. split; [|done].
  destruct (schedule_json_law (job_schedule j)) as (t & Ht & Hback & _); [done|].
  split; cbn; try done.
  - by apply job_id_text.
  - destruct (job_name j) as [[]|]; simpl in *; done.
  - destruct (job_description j) as [[]|]; simpl in *; done.
  - by apply utc_from_str_show.
  - by apply utc_from_str_show.
  - congruence.
  - by apply persistence_roundtrip.
  - eexists. split; [done|]. by apply utc_from_str_show.
Qed.
End Properties.

(** Creating a job, under every schedule of interference and
    failures: on success exactly one row is appended to the jobs, and loading
    that identifier gives the job back, field by field; on an error nothing is
    written. *)
Theorem create_load `{Serde} `{ExecutionJson} job l w r w' :
  storable job -> create job l w = (r, w') ->
  match r with
  | Ok _ => exists row, w_db w' = set_jobs (seen l w) (db_jobs (seen l w) ++ [row]) /\
      find_job (job_id job) (w_db w') = Some row /\ decode_job_row row = Ok job
  | Err _ => w_db w' = w_db w \/ w_db w' = seen l w
  end.
Proof.
  intros Hst. unfold create. unfold mbind, store_bind at 1, lift.
  destruct (encode_job_row (job_snapshot job)) as [row|e] eqn:Erow; [|intros [= <- <-]; by left].
  destruct (encode_job_row_ok _ _ Hst Erow) as [Hrow Hid].
  unfold mbind, store_bind. destruct (execute _ _ l w) as [[n|e] w1] eqn:Ex.
  - apply execute_ok in Ex. unfold insert_job in Ex.
    destruct (job_row_check row && _) eqn:Ec; [|done]. injection Ex as <- Hdb. cbn [Nat.eqb].
    intros [= <- <-]. exists row. split; [done|]. rewrite <- Hdb. apply andb_true_iff in Ec as [_ Hne].
    split; [|by apply decode_job_row_ok]. apply find_job_app; [|done].
    apply negb_true_iff in Hne. unfold job_exists in Hne. rewrite Hid in Hne.
    rewrite Forall_forall. intros r Hr E. revert Hne. apply not_false_iff_true, existsb_exists.
    exists r. split; [by apply list_elem_of_In|]. by apply bool_decide_eq_true.
  - intros [= <- <-]. right. unfold execute in Ex. destruct (fault w); [by simplify_eq|].
    destruct (insert_job row (seen l w)) as [[]|]; by simplify_eq.
Qed.

(** C2 (refinement).  A transition of a stored job, under every schedule: it
    either returns an error and leaves the database as the transaction found
    it, or the stored job at that moment had the expected revision, the domain
    accepts the transition, exactly that row and one audit row are written, and
    the row now decodes to the returned job. *)
Theorem transition_job_spec `{Serde} `{ExecutionJson} id expected to recurring actor reason now l w r w' :
  ts_ok now -> transition_job id expected to recurring actor reason now l w = (r, w') ->
  match r with
  | Err _ => w_db w' = seen l w
  | Ok job' => exists row row' job t,
      find_job id (seen l w) = Some row /\ decode_job_row row = Ok job /\ job_revision job = expected /\
      job_do_transition job to recurring actor reason now = Ok (job', t) /\
      replaces id (seen l w) (w_db w') row row' (audit_row id t now (expected + 1)) /\
      find_job id (w_db w') = Some row' /\ decode_job_row row' = Ok job'
  end.
Proof.
  intros Hn Ht. apply (guarded_update_ok id expected _ now (fun _ => None)) in Ht.
  destruct r as [job'|]; [|done]. destruct Ht as (row & job & t & Hfind & Hrow & Hrev & Hstep & Hmax & Hrep).
  apply map_err_ok in Hstep. pose proof Hstep as Hst.
  apply job_do_transition_ok in Hst as (Hle & _ & rv & [-> Hc]%revision_next_ok & Heq).
  2:{ destruct (rd_revision _ _ Hrow) as [<- ?]. done. }
  assert (job_revision job' = job_revision job + 1 /\ job_state job' = to) as [Hr' Hs'] by (by rewrite Heq).
  rewrite Hr', Hs' in Hrep. cbn [fmap option_fmap option_map] in Hrep. rewrite Hrev in Hrep at 2.
  pose proof (row_decodes_update row job to now Hrow Hn Hle Hc) as Hrow'. rewrite <- Heq in Hrow'.
  exists row, (job_row_update (job_revision job + 1) (job_state_text to) (ts_show now) None row), job, t.
  destruct (find_job_split _ _ _ Hfind) as (_ & _ & _ & Hid & _).
  split_and!; try done; [by apply decode_job_row_ok | by eapply replaces_find | by apply decode_job_row_ok].
Qed.

(** Advancing a stored recurring job, under every schedule:
    an error changes nothing; a success replaces exactly one row of the
    expected revision by the domain's advanced job (back to [Waiting], due at
    the first grid point after [now]) with its audit row, and the new row
    decodes to the returned job. *)
Theorem advance_recurring_job_spec `{Serde} `{ExecutionJson} id expected now l w r w' :
  ts_ok now -> advance_recurring_job id expected now l w = (r, w') ->
  match r with
  | Err _ => w_db w' = seen l w
  | Ok job' => exists row row' job t interval anchor,
      find_job id (seen l w) = Some row /\ decode_job_row row = Ok job /\ job_revision job = expected /\
      job_schedule job = RecurringInterval interval anchor /\
      job_advance_recurring job TA_Monitor (lit "next fixed-rate occurrence") now = Ok (job', t) /\
      job_state job' = JS_Waiting /\ job_next_due job' = next_grid anchor now interval /\
      now < job_next_due job' /\
      replaces id (seen l w) (w_db w') row row' (audit_row id t now (expected + 1)) /\
      find_job id (w_db w') = Some row' /\ decode_job_row row' = Ok job'
  end.
Proof.
  intros Hn Ht. apply (guarded_update_ok id expected _ now (fun j => Some (job_next_due j))) in Ht.
  destruct r as [job'|]; [|done]. destruct Ht as (row & job & t & Hfind & Hrow & Hrev & Hstep & Hmax & Hrep).
  apply map_err_ok in Hstep. pose proof Hstep as Hst.
  apply job_advance_recurring_ok in Hst as (i & a & n & j0 & Hsc & Hnext & Hst & Heq).
  pose proof (schedule_range_law _ _ (rd_schedule _ _ Hrow)) as Hsr. rewrite Hsc in Hsr. destruct Hsr as [Hi Ha].
  destruct (next_fixed_rate_utc_ok _ _ _ _ Ha Hn Hi Hnext) as (Hg & Hnok & Hnlt & _).
  apply job_do_transition_ok in Hst as (Hle & _ & rv & [-> Hc]%revision_next_ok & Heq0).
  2:{ destruct (rd_revision _ _ Hrow) as [<- ?]. done. }
  rewrite Heq0 in Heq.
  assert (job_revision job' = job_revision job + 1 /\ job_state job' = JS_Waiting /\ job_next_due job' = n)
    as (Hr' & Hs' & Hd') by (by rewrite Heq).
  rewrite Hr', Hs', Hd' in Hrep. cbn [fmap option_fmap option_map] in Hrep. rewrite Hrev in Hrep at 2.
  pose proof (row_decodes_advance row job JS_Waiting now n Hrow Hn Hnok Hle Hc) as Hrow'. rewrite <- Heq in Hrow'.
  exists row, (job_row_update (job_revision job + 1) (job_state_text JS_Waiting) (ts_show now) (Some (ts_show n)) row),
    job, t, i, a.
  destruct (find_job_split _ _ _ Hfind) as (_ & _ & _ & Hid & _). rewrite Hd'.
  split_and!; try done; [by apply decode_job_row_ok | by eapply replaces_find | by apply decode_job_row_ok].
Qed.

(** No lost update: once a transition of revision [expected] has
    been committed, a second writer that still holds that revision never
    succeeds against the database it left, by a transition or by an advance. *)
Theorem stale_revision_refused `{Serde} `{ExecutionJson} id expected to recurring actor reason now l w job' w' :
  transition_job id expected to recurring actor reason now l w = (Ok job', w') ->
  forall l2 w2, seen l2 w2 = w_db w' ->
  (forall to2 recurring2 actor2 reason2 now2 r2 w3,
     transition_job id expected to2 recurring2 actor2 reason2 now2 l2 w2 = (r2, w3) ->
     (exists e, r2 = Err e) /\ w_db w3 = w_db w') /\
  (forall now2 r2 w3, advance_recurring_job id expected now2 l2 w2 = (r2, w3) ->
     (exists e, r2 = Err e) /\ w_db w3 = w_db w').
Proof.
  intros Ht l2 w2 Hseen. apply (guarded_update_ok id expected _ now (fun _ => None)) in Ht.
  destruct Ht as (row & job & t & Hfind & Hrow & Hrev & Hstep & Hmax & Hrep).
  apply map_err_ok, job_do_transition_ok in Hstep as (_ & _ & rv & [-> _]%revision_next_ok & Heq).
  2:{ destruct (rd_revision _ _ Hrow) as [<- ?]. done. }
  destruct (find_job_split _ _ _ Hfind) as (_ & _ & _ & Hid & _).
  apply replaces_find in Hrep; [|done]. rewrite <- Hseen in Hrep. rewrite Heq in Hrep. cbn in Hrep.
  assert (forall row2 job2, find_job id (seen l2 w2) = Some row2 -> row_decodes row2 job2 ->
    job_revision job2 <> expected) as Hne.
  { intros row2 job2 Hf Hd E. rewrite Hrep in Hf. injection Hf as <-.
    destruct (rd_revision _ _ Hd) as [Hr _]. cbn in Hr. lia. }
  split.
  - intros to2 rec2 actor2 reason2 now2 r2 w3 Ht2.
    apply (guarded_update_ok id expected _ now2 (fun _ => None)) in Ht2.
    destruct r2 as [j2|e]; [|split; [by eexists | congruence]].
    destruct Ht2 as (row2 & job2 & t2 & Hf & Hd & Hr2 & _). by destruct (Hne row2 job2).
  - intros now2 r2 w3 Ht2.
    apply (guarded_update_ok id expected _ now2 (fun j => Some (job_next_due j))) in Ht2.
    destruct r2 as [j2|e]; [|split; [by eexists | congruence]].
    destruct Ht2 as (row2 & job2 & t2 & Hf & Hd & Hr2 & _). by destruct (Hne row2 job2).
Qed.

(** ** Witnesses: a database with one recurring job *)

Module JobStoreExample.
#[export] Existing Instances JiffModel.jiff SerdeModel.serde ExecutionJsonModel.execution_json.
Definition job0 : Job := example_job 1 (40 * 10 ^ 9) JS_Scheduled (100 * 10 ^ 9).
Definition empty_world : World := mk_world (mk_db [] [] []) [].
(** Another process adds nothing, then the INSERT of the job. *)
Definition world0 : World := (create job0 false empty_world).2.
(** The interference of the second statement is not seen inside a transaction. *)
Definition busy_world : World :=
  mk_world (w_db world0) [mk_step id None; mk_step (fun _ => mk_db [] [] []) None].
Definition start (w : World) := transition_job (job_id job0) 1 JS_Waiting false TA_Supervisor (lit "due") (50 * 10 ^ 9) false w.
Definition advance (w : World) := advance_recurring_job (job_id job0) 1 (170 * 10 ^ 9) false w.
End JobStoreExample.
Import JobStoreExample.

Lemma job0_storable : storable job0.
Proof. split; [apply example_job_ok | by vm_compute | done | done | by vm_compute]. Qed.

Lemma create_job0 : create job0 false empty_world = (Ok tt, world0).
Proof. vm_compute. reflexivity. Qed.

Lemma create_load_witness :
  (storable job0 /\ create job0 false empty_world = (Ok tt, world0)) /\
  exists row, w_db world0 = set_jobs (seen false empty_world) (db_jobs (seen false empty_world) ++ [row]) /\
    find_job (job_id job0) (w_db world0) = Some row /\ decode_job_row row = Ok job0.
Proof.
  split; [exact (conj job0_storable create_job0)|].
  exact (create_load job0 false empty_world _ _ job0_storable create_job0).
Defined.

Lemma transition_job_spec_witness :
  exists job' w', (ts_ok (50 * 10 ^ 9) /\ start busy_world = (Ok job', w')) /\
  exists row row' job t,
    find_job (job_id job0) (seen false busy_world) = Some row /\ decode_job_row row = Ok job /\
    job_revision job = 1 /\
    job_do_transition job JS_Waiting false TA_Supervisor (lit "due") (50 * 10 ^ 9) = Ok (job', t) /\
    replaces (job_id job0) (seen false busy_world) (w_db w') row row'
      (audit_row (job_id job0) t (50 * 10 ^ 9) (1 + 1)) /\
    find_job (job_id job0) (w_db w') = Some row' /\ decode_job_row row' = Ok job'.
Proof.
  assert (ts_ok (50 * 10 ^ 9)) as Hn by (by vm_compute).
  assert (exists job' w', start busy_world = (Ok job', w')) as (job' & w' & E)
    by (eexists _, _; vm_compute; reflexivity).
  exists job', w'. split; [exact (conj Hn E)|].
  exact (transition_job_spec _ _ _ _ _ _ _ _ _ _ _ Hn E).
Defined.

Lemma advance_recurring_job_spec_witness :
  exists job' w', (ts_ok (170 * 10 ^ 9) /\ advance busy_world = (Ok job', w')) /\
  exists row row' job t interval anchor,
    find_job (job_id job0) (seen false busy_world) = Some row /\ decode_job_row row = Ok job /\
    job_revision job = 1 /\ job_schedule job = RecurringInterval interval anchor /\
    job_advance_recurring job TA_Monitor (lit "next fixed-rate occurrence") (170 * 10 ^ 9) = Ok (job', t) /\
    job_state job' = JS_Waiting /\ job_next_due job' = next_grid anchor (170 * 10 ^ 9) interval /\
    170 * 10 ^ 9 < job_next_due job' /\
    replaces (job_id job0) (seen false busy_world) (w_db w') row row'
      (audit_row (job_id job0) t (170 * 10 ^ 9) (1 + 1)) /\
    find_job (job_id job0) (w_db w') = Some row' /\ decode_job_row row' = Ok job'.
Proof.
  assert (ts_ok (170 * 10 ^ 9)) as Hn by (by vm_compute).
  assert (exists job' w', advance busy_world = (Ok job', w')) as (job' & w' & E)
    by (eexists _, _; vm_compute; reflexivity).
  exists job', w'. split; [exact (conj Hn E)|].
  exact (advance_recurring_job_spec _ _ _ _ _ _ _ Hn E).
Defined.

Lemma stale_revision_refused_witness :
  exists job' w', start busy_world = (Ok job', w') /\
  forall l2 w2, seen l2 w2 = w_db w' ->
  (forall to2 recurring2 actor2 reason2 now2 r2 w3,
     transition_job (job_id job0) 1 to2 recurring2 actor2 reason2 now2 l2 w2 = (r2, w3) ->
     (exists e, r2 = Err e) /\ w_db w3 = w_db w') /\
  (forall now2 r2 w3, advance_recurring_job (job_id job0) 1 now2 l2 w2 = (r2, w3) ->
     (exists e, r2 = Err e) /\ w_db w3 = w_db w').
Proof.
  assert (exists job' w', start busy_world = (Ok job', w')) as (job' & w' & E)
    by (eexists _, _; vm_compute; reflexivity).
  exists job', w'. split; [exact E|]. exact (stale_revision_refused _ _ _ _ _ _ _ _ _ _ _ E).
Defined.
