(* ===== verification/RunStore.v ===== *)
(** [src/infrastructure/sqlite/run_store.rs]: claims and updates of runs.

    A claim is one transaction.  The three updates of a run are a read and a
    guarded UPDATE without a transaction: other processes may act in between,
    and the guard of the UPDATE decides. *)

From S2P Require Import Prelude Text Primitives Identifier States Recurrence Execution JobAgg RunAgg Sqlite JobStore.

Definition encode_run_state (s : RunState) : str :=
  match s with
  | RS_Starting => lit "starting" | RS_Running => lit "running"
  | RS_CancelRequested => lit "cancel_requested" | RS_Succeeded => lit "succeeded"
  | RS_Failed => lit "failed" | RS_Cancelled => lit "cancelled" | RS_Interrupted => lit "interrupted"
  end.

Definition decode_run_state (value : str) : result StoreError RunState :=
  if bool_decide (value = lit "starting") then Ok RS_Starting else
  if bool_decide (value = lit "running") then Ok RS_Running else
  if bool_decide (value = lit "cancel_requested") then Ok RS_CancelRequested else
  if bool_decide (value = lit "succeeded") then Ok RS_Succeeded else
  if bool_decide (value = lit "failed") then Ok RS_Failed else
  if bool_decide (value = lit "cancelled") then Ok RS_Cancelled else
  if bool_decide (value = lit "interrupted") then Ok RS_Interrupted else
  Err (SE_Corrupt (RS_Message (lit "unknown run state"))).

(** [value.map(f).transpose()] *)
Definition transpose_opt {E A B} (f : A -> result E B) (o : option A) : result E (option B) :=
  match o with Some a => Some <$> f a | None => Ok None end.

Definition decode_optional_json {A} (from_json : str -> result str A) (value : option str)
  : result StoreError (option A) := transpose_opt (fun json => corrupt RS_Json (from_json json)) value.

(** [row.get::<_, Option<i32>>(..)?] *)
Definition get_i32 (value : option Z) : result StoreError (option Z) :=
  transpose_opt (fun v => ok_or (checked (- 2 ^ 31) (2 ^ 31 - 1) v) (SE_Sqlite SQ_Conversion)) value.

Definition validate_outcome_columns (outcome : option RunOutcome) (exit_code signal : option Z)
  (failure : option str) : result StoreError unit :=
  let matches :=
    match outcome with
    | None => negb (is_some exit_code) && negb (is_some signal) && negb (is_some failure)
    | Some (RO_Exit expected) =>
      bool_decide (exit_code = Some expected) && negb (is_some signal) && negb (is_some failure)
    | Some (RO_Signal expected) =>
      bool_decide (signal = Some expected) && negb (is_some exit_code) && negb (is_some failure)
    | Some (RO_Failure expected) | Some (RO_Interrupted expected) | Some (RO_Cancelled expected) =>
      bool_decide (failure = Some expected) && negb (is_some exit_code) && negb (is_some signal)
    end in
  if matches then Ok tt else Err (SE_Corrupt (RS_Message (lit "run outcome columns disagree"))).

Definition verify_claim (run : Run) (token : ClaimToken) : result StoreError unit :=
  if bool_decide (run_claim_token run = token) then Ok tt else Err SE_InvalidClaim.

(** The columns of an outcome: exit code, signal, failure text. *)
Definition outcome_columns (o : RunOutcome) : option Z * option Z * option str :=
  match o with
  | RO_Exit code => (Some code, None, None)
  | RO_Signal signal => (None, Some signal, None)
  | RO_Failure message | RO_Interrupted message | RO_Cancelled message => (None, None, Some message)
  end.

Section RunStore.
Context `{Serde}.

(** [decode_run_row_inner] *)
Definition decode_run_row (row : RunRow) : result StoreError Run :=
  id ← corrupt RS_IdentifierError (run_id_from_str (rr_id row));
  job_id ← corrupt RS_IdentifierError (job_id_from_str (rr_job_id row));
  sequence_raw ← ok_or (checked_u64 (rr_sequence row)) (SE_Corrupt (RS_Message (lit "negative sequence")));
  sequence ← corrupt RS_PrimitiveError (sequence_new sequence_raw);
  scheduled_for ← parse_timestamp (rr_scheduled_for row);
  created_at ← parse_timestamp (rr_created_at row);
  started_at ← transpose_opt parse_timestamp (rr_started_at row);
  finished_at ← transpose_opt parse_timestamp (rr_finished_at row);
  state ← decode_run_state (rr_state row);
  token ← (if (length (rr_claim_token row) =? 32)%nat then Ok (mk_claim_token (rr_claim_token row))
           else Err (SE_Corrupt (RS_Message (lit "claim token is not 32 bytes"))));
  monitor ← decode_optional_json identity_from_json (rr_monitor_json row);
  command ← decode_optional_json identity_from_json (rr_command_json row);
  group ← get_i32 (rr_process_group row);
  if bool_decide (group <> process_group_id <$> command)
  then Err (SE_Corrupt (RS_Message (lit "process group does not match command identity"))) else
  exit_code ← get_i32 (rr_exit_code row);
  signal ← get_i32 (rr_signal row);
  outcome ← decode_optional_json outcome_from_json (rr_outcome_json row);
  _ ← validate_outcome_columns outcome exit_code signal (rr_failure row);
  corrupt RS_RunError (run_rehydrate {|
    rs_id := id; rs_job_id := job_id; rs_sequence := sequence; rs_scheduled_for := scheduled_for;
    rs_created_at := created_at; rs_started_at := started_at; rs_finished_at := finished_at;
    rs_state := state; rs_claim_token := token; rs_monitor_identity := monitor;
    rs_command_identity := command; rs_outcome := outcome;
    rs_stdout_path := rr_stdout_path row; rs_stderr_path := rr_stderr_path row |}).

Definition find_run (id : RunId) (db : Db) : option RunRow :=
  snd <$> list_find (fun r => rr_id r = run_id_to_string id) (db_runs db).

Definition load_run (id : RunId) : Store (option Run) :=
  query (fun db => decode_optional decode_run_row (find_run id db)).

Definition load_existing_run (id : RunId) : Store Run :=
  run ← load_run id;
  match run with Some run => mret run | None => fail SE_NotFound end.

(** [claim_run]: the fresh identifier and the 32 random bytes are arguments. *)
Definition claim_row (s : RunSnapshot) (sequence : Z) : RunRow :=
  mk_run_row (run_id_to_string (rs_id s)) (job_id_to_string (rs_job_id s)) sequence
    (ts_show (rs_scheduled_for s)) (ts_show (rs_created_at s)) None None (encode_run_state (rs_state s))
    (token_bytes (rs_claim_token s)) None None None None None None None None None 0 0.

Definition occurrence_claimed (job : JobId) (scheduled_for : UtcTimestamp) (db : Db) : bool :=
  existsb (fun r => bool_decide (rr_job_id r = job_id_to_string job)
                    && bool_decide (rr_scheduled_for r = ts_show scheduled_for)) (db_runs db).

(** [SELECT COALESCE(MAX(sequence), 0)] *)
Definition last_sequence (job : JobId) (db : Db) : Z :=
  foldr Z.max 0 (rr_sequence <$> List.filter (fun r => bool_decide (rr_job_id r = job_id_to_string job)) (db_runs db)).

Definition claim_error (e : SqlFailure) : StoreError :=
  if is_constraint e then SE_DuplicateClaim else map_write_error e.

Definition claim_run (fresh : RunId) (random : result str (list Z)) (job : JobId)
  (scheduled_for created_at : UtcTimestamp) : Store Run :=
  transaction (
    duplicate ← execute SE_Sqlite (fun db => Ok (occurrence_claimed job scheduled_for db, db));
    if duplicate : bool then fail SE_DuplicateClaim else
    last ← execute SE_Sqlite (fun db => Ok (last_sequence job db, db));
    sequence_raw ← lift (ok_or (checked_u64 last ≫= fun value => checked_u64 (value + 1))
                           (SE_Corrupt (RS_Message (lit "run sequence overflow"))));
    sequence ← lift (map_err (fun e => SE_Domain (RS_PrimitiveError e)) (sequence_new sequence_raw));
    token ← lift (map_err SE_Random random);
    let run := run_new fresh job sequence scheduled_for created_at (mk_claim_token token) in
    let snapshot := run_snapshot run in
    sql_sequence ← lift (to_sql_u64 (rs_sequence snapshot));
    changed ← execute claim_error (insert_run (claim_row snapshot sql_sequence));
    if (changed =? 1)%nat then mret run
    else fail (SE_Corrupt (RS_Message (lit "run claim affected no row")))).

Definition run_row_is (id : RunId) (token : ClaimToken) (r : RunRow) : bool :=
  bool_decide (rr_id r = run_id_to_string id) && bool_decide (rr_claim_token r = token_bytes token).

(** [serde_json::to_string] of an optional identity. *)
Definition opt_identity_to_json (o : option ProcessIdentitySnapshot) : result str str :=
  match o with Some i => identity_to_json i | None => Ok (lit "null") end.

Definition running_row (started_at monitor_json command_json : str) (group : option Z)
  (stdout_path stderr_path : str) (r : RunRow) : RunRow :=
  mk_run_row (rr_id r) (rr_job_id r) (rr_sequence r) (rr_scheduled_for r) (rr_created_at r)
    (Some started_at) (rr_finished_at r) (lit "running") (rr_claim_token r) (Some monitor_json)
    (Some command_json) group (rr_exit_code r) (rr_signal r) (rr_failure r) (rr_outcome_json r)
    (Some stdout_path) (Some stderr_path) (rr_stdout_truncated r) (rr_stderr_truncated r).

Definition mark_run_running (id : RunId) (token : ClaimToken) (started_at : UtcTimestamp)
  (monitor command : ProcessIdentitySnapshot) (stdout_path stderr_path : str) : Store Run :=
  run ← load_existing_run id;
  _ ← lift (verify_claim run token);
  running ← lift (map_err (fun e => SE_Domain (RS_RunError e))
                    (mark_running run started_at monitor command stdout_path stderr_path));
  let snapshot := run_snapshot running in
  monitor_json ← lift (corrupt RS_Json (opt_identity_to_json (rs_monitor_identity snapshot)));
  command_json ← lift (corrupt RS_Json (opt_identity_to_json (rs_command_identity snapshot)));
  let group := process_group_id <$> rs_command_identity snapshot in
  changed ← execute map_write_error
    (update_runs (fun r => run_row_is id token r && bool_decide (rr_state r = lit "starting"))
       (running_row (ts_show started_at) monitor_json command_json group stdout_path stderr_path));
  if negb (changed =? 1)%nat then fail SE_Conflict else mret running.

Definition terminal_row (finished_at state : str) (columns : option Z * option Z * option str)
  (outcome_json : str) (r : RunRow) : RunRow :=
  let '(exit_code, signal, failure) := columns in
  mk_run_row (rr_id r) (rr_job_id r) (rr_sequence r) (rr_scheduled_for r) (rr_created_at r)
    (rr_started_at r) (Some finished_at) state (rr_claim_token r) (rr_monitor_json r)
    (rr_command_json r) (rr_process_group r) exit_code signal failure (Some outcome_json)
    (rr_stdout_path r) (rr_stderr_path r) (rr_stdout_truncated r) (rr_stderr_truncated r).

Definition record_run_terminal (id : RunId) (token : ClaimToken) (finished_at : UtcTimestamp)
  (outcome : RunOutcome) : Store Run :=
  run ← load_existing_run id;
  _ ← lift (verify_claim run token);
  if run_is_terminal (run_state run) then
    if bool_decide (run_finished_at run = Some finished_at) && bool_decide (run_outcome run = Some outcome)
    then mret run else fail SE_Conflict
  else
  completed ← lift (map_err (fun e => SE_Domain (RS_RunError e)) (with_outcome run finished_at outcome));
  let snapshot := run_snapshot completed in
  outcome ← lift (ok_or (rs_outcome snapshot) (SE_Corrupt (RS_Message (lit "terminal run has no outcome"))));
  outcome_json ← lift (corrupt RS_Json (outcome_to_json outcome));
  changed ← execute map_write_error
    (update_runs (fun r => run_row_is id token r && text_in (rr_state r) active_states)
       (terminal_row (ts_show finished_at) (encode_run_state (rs_state snapshot))
          (outcome_columns outcome) outcome_json));
  if negb (changed =? 1)%nat then fail SE_Conflict else mret completed.

Definition run_row_set_state (state : str) (r : RunRow) : RunRow :=
  mk_run_row (rr_id r) (rr_job_id r) (rr_sequence r) (rr_scheduled_for r) (rr_created_at r)
    (rr_started_at r) (rr_finished_at r) state (rr_claim_token r) (rr_monitor_json r)
    (rr_command_json r) (rr_process_group r) (rr_exit_code r) (rr_signal r) (rr_failure r)
    (rr_outcome_json r) (rr_stdout_path r) (rr_stderr_path r) (rr_stdout_truncated r) (rr_stderr_truncated r).

Definition request_run_cancellation (id : RunId) (token : ClaimToken) : Store Run :=
  run ← load_existing_run id;
  _ ← lift (verify_claim run token);
  if bool_decide (run_state run = RS_CancelRequested) || run_is_terminal (run_state run) then mret run else
  let previous := encode_run_state (run_state run) in
  requested ← lift (map_err (fun e => SE_Domain (RS_RunError e)) (request_cancellation run));
  changed ← execute map_write_error
    (update_runs (fun r => run_row_is id token r && bool_decide (rr_state r = previous))
       (run_row_set_state (lit "cancel_requested")));
  if negb (changed =? 1)%nat then fail SE_Conflict else mret requested.
End RunStore.

(** ** Lemmas: a row and the snapshot it stores *)

Lemma run_state_roundtrip s : decode_run_state (encode_run_state s) = Ok s.
Proof. by destruct s. Qed.

Lemma decode_run_state_ok v s : decode_run_state v = Ok s -> v = encode_run_state s.
Proof. unfold decode_run_state. repeat case_bool_decide; by intros [= <-]. Qed.

Lemma transpose_opt_ok {E A B} (f : A -> result E B) o v :
  transpose_opt f o = Ok v <->
  match o, v with
  | Some a, Some b => f a = Ok b
  | None, None => True
  | _, _ => False
  end.
Proof.
  destruct o as [a|]; simpl.
  - rewrite fmap_ok. destruct v; [naive_solver|]. split; [by intros (? & _ & ?) | done].
  - destruct v; naive_solver.
Qed.

Definition i32_ok (v : Z) : Prop := - 2 ^ 31 <= v <= 2 ^ 31 - 1.
Definition columns_i32 (c : option Z * option Z * option str) : Prop :=
  opt_Forall i32_ok c.1.1 /\ opt_Forall i32_ok c.1.2.
Definition outcome_opt_columns (o : option RunOutcome) : option Z * option Z * option str :=
  match o with Some o => outcome_columns o | None => (None, None, None) end.

Lemma get_i32_ok o v : get_i32 o = Ok v <-> v = o /\ opt_Forall i32_ok o.
Proof.
  unfold get_i32. rewrite transpose_opt_ok. unfold i32_ok. destruct o as [z|], v as [z'|]; simpl; try naive_solver.
  rewrite ok_or_ok, checked_Some. naive_solver.
Qed.

Lemma validate_outcome_columns_ok o e s f u :
  validate_outcome_columns o e s f = Ok u <-> (e, s, f) = outcome_opt_columns o.
Proof.
  unfold validate_outcome_columns, outcome_opt_columns, outcome_columns. destruct u.
  destruct o as [[]|], e, s, f; simpl; repeat case_bool_decide; simplify_eq/=; naive_solver.
Qed.

Section RunRows.
Context `{Serde}.

Record row_fields (r : RunRow) (s : RunSnapshot) : Prop := {
  rf_id : run_id_from_str (rr_id r) = Ok (rs_id s);
  rf_job : job_id_from_str (rr_job_id r) = Ok (rs_job_id s);
  rf_sequence : rr_sequence r = rs_sequence s /\ counter_ok (rr_sequence r);
  rf_scheduled : utc_from_str (rr_scheduled_for r) = Ok (rs_scheduled_for s);
  rf_created : utc_from_str (rr_created_at r) = Ok (rs_created_at s);
  rf_started : transpose_opt parse_timestamp (rr_started_at r) = Ok (rs_started_at s);
  rf_finished : transpose_opt parse_timestamp (rr_finished_at r) = Ok (rs_finished_at s);
  rf_state : rr_state r = encode_run_state (rs_state s);
  rf_token : rr_claim_token r = token_bytes (rs_claim_token s) /\ length (rr_claim_token r) = 32%nat;
  rf_monitor : decode_optional_json identity_from_json (rr_monitor_json r) = Ok (rs_monitor_identity s);
  rf_command : decode_optional_json identity_from_json (rr_command_json r) = Ok (rs_command_identity s);
  rf_group : rr_process_group r = process_group_id <$> rs_command_identity s /\ opt_Forall i32_ok (rr_process_group r);
  rf_columns : (rr_exit_code r, rr_signal r, rr_failure r) = outcome_opt_columns (rs_outcome s);
  rf_i32 : opt_Forall i32_ok (rr_exit_code r) /\ opt_Forall i32_ok (rr_signal r);
  rf_outcome : decode_optional_json outcome_from_json (rr_outcome_json r) = Ok (rs_outcome s);
  rf_stdout : rr_stdout_path r = rs_stdout_path s;
  rf_stderr : rr_stderr_path r = rs_stderr_path s
}.

(** Decoding reads the columns and leaves the rest to [rehydrate]. *)
Lemma decode_run_row_fields r s :
  row_fields r s -> decode_run_row r = corrupt RS_RunError (run_rehydrate s).
Proof.
  intros [Hid Hj [Hs Hs0] Hsc Hc Hst Hf Hstate [Ht Ht32] Hm Hcmd [Hg Hg32] Hcol [He32 Hsig32] Ho Hout Herr].
  unfold counter_ok in Hs0. unfold decode_run_row.
  rewrite Hid, Hj. cbn [corrupt map_err mbind result_bind].
  rewrite (checked_in 0 u64_max (rr_sequence r)) by lia. cbn [ok_or mbind result_bind].
  assert (sequence_new (rr_sequence r) = Ok (rr_sequence r)) as Hseq by (apply counter_new_ok; lia).
  rewrite Hseq. cbn [corrupt map_err mbind result_bind].
  assert (parse_timestamp (rr_scheduled_for r) = Ok (rs_scheduled_for s)) as -> by (by apply corrupt_ok).
  assert (parse_timestamp (rr_created_at r) = Ok (rs_created_at s)) as -> by (by apply corrupt_ok).
  cbn [mbind result_bind]. rewrite Hst, Hf. cbn [mbind result_bind].
  rewrite Hstate, run_state_roundtrip. cbn [mbind result_bind]. rewrite Ht32, Nat.eqb_refl.
  cbn [mbind result_bind]. rewrite Hm, Hcmd. cbn [mbind result_bind].
  rewrite (proj2 (get_i32_ok _ _) (conj eq_refl Hg32)). cbn [mbind result_bind].
  rewrite bool_decide_false by (intros Hne; by apply Hne).
  rewrite (proj2 (get_i32_ok _ _) (conj eq_refl He32)). cbn [mbind result_bind].
  rewrite (proj2 (get_i32_ok _ _) (conj eq_refl Hsig32)). cbn [mbind result_bind].
  rewrite Ho. cbn [mbind result_bind].
  rewrite (proj2 (validate_outcome_columns_ok _ _ _ _ tt) Hcol). cbn [mbind result_bind].
  f_equal. f_equal. destruct s as [? ? ? ? ? ? ? ? [] ? ? ? ? ?]; simpl in *. by rewrite Hs, Ht, Hout, Herr.
Qed.

Lemma decode_run_row_ok r run :
  decode_run_row r = Ok run -> row_fields r (run_snapshot run) /\ run_shape run /\ run_clock run.
Proof.
  intros Hd. pose proof Hd as Hdec. unfold decode_run_row in Hd.
  apply bind_ok in Hd as (id & Hid%corrupt_ok & (j & Hj%corrupt_ok & (sq & [-> Hs0]%ok_or_ok%checked_Some & Hd)%bind_ok)%bind_ok).
  apply bind_ok in Hd as (sq & Hsq%corrupt_ok & (sc & Hsc%corrupt_ok & (c & Hc%corrupt_ok & Hd)%bind_ok)%bind_ok).
  apply counter_new_ok in Hsq as [-> Hsq0].
  apply bind_ok in Hd as (st & Hst & (f & Hf & (s & Hs%decode_run_state_ok & Hd)%bind_ok)%bind_ok).
  apply bind_ok in Hd as (tok & Htok & (m & Hm & (cmd & Hcmd & Hd)%bind_ok)%bind_ok).
  destruct (Nat.eqb_spec (length (rr_claim_token r)) 32) as [Hlen|]; [|done]. injection Htok as <-.
  apply bind_ok in Hd as (g & [-> Hg]%get_i32_ok & Hd).
  case_bool_decide as Hgroup; [done|].
  apply bind_ok in Hd as (e & [-> He]%get_i32_ok & (sig & [-> Hsig]%get_i32_ok & (o & Ho & Hd)%bind_ok)%bind_ok).
  apply bind_ok in Hd as (u & Hcol%validate_outcome_columns_ok & Hd%corrupt_ok).
  pose proof (run_rehydrate_inv _ _ Hd) as Hsnap. rewrite <- Hsnap in Hd. apply run_rehydrate_snapshot in Hd as [? ?].
  split; [|done]. rewrite Hsnap. split; simpl; try done. split; [done | unfold counter_ok; lia].
Qed.
End RunRows.

(** ** Lemmas: claims *)

Definition runs_distinct (r s : RunRow) : Prop :=
  rr_id r <> rr_id s /\ rr_claim_token r <> rr_claim_token s /\
  (rr_job_id r = rr_job_id s -> rr_sequence r <> rr_sequence s /\ rr_scheduled_for r <> rr_scheduled_for s).

(** The UNIQUE constraints, as an invariant of the table. *)
Definition runs_unique (l : list RunRow) : Prop :=
  forall i j r s, l !! i = Some r -> l !! j = Some s -> i <> j -> runs_distinct r s.

Lemma runs_distinct_sym r s : runs_distinct r s -> runs_distinct s r.
Proof. unfold runs_distinct. intros (? & ? & Hj). split_and!; [done..|]. intros E. destruct (Hj (eq_sym E)). done. Qed.

Lemma run_row_unique_spec l r : run_row_unique l r = true <-> Forall (fun x => runs_distinct x r) l.
Proof.
  unfold run_row_unique. rewrite forallb_Forall. apply Forall_iff. intros x. unfold runs_distinct.
  rewrite !andb_true_iff, !negb_true_iff, !bool_decide_eq_false, andb_false_iff, orb_false_iff,
    !bool_decide_eq_false, Z.eqb_neq. destruct (decide (rr_job_id x = rr_job_id r)); tauto.
Qed.

Lemma runs_unique_app l r : runs_unique l -> Forall (fun x => runs_distinct x r) l -> runs_unique (l ++ [r]).
Proof.
  intros Hl Hr i j x y Hx Hy Hij. rewrite Forall_forall in Hr.
  apply lookup_app_Some in Hx as [Hx|[Hi Hx]]; apply lookup_app_Some in Hy as [Hy|[Hj Hy]].
  - by eapply Hl.
  - apply list_lookup_singleton_Some in Hy as [_ <-]. apply Hr. by eapply list_elem_of_lookup_2.
  - apply list_lookup_singleton_Some in Hx as [_ <-]. apply runs_distinct_sym, Hr. by eapply list_elem_of_lookup_2.
  - apply list_lookup_singleton_Some in Hx as [? _]. apply list_lookup_singleton_Some in Hy as [? _]. lia.
Qed.

Lemma last_sequence_nonneg job db : 0 <= last_sequence job db.
Proof. unfold last_sequence. induction (rr_sequence <$> _) as [|x l IH]; simpl; lia. Qed.

Section Claims.
Context `{Serde}.

Lemma claim_run_ok fresh random job due now l w run w' :
  claim_run fresh random job due now l w = (Ok run, w') ->
  occurrence_claimed job due (seen l w) = false /\
  exists token, random = Ok token /\
    last_sequence job (seen l w) + 1 <= i64_max /\
    run = run_new fresh job (last_sequence job (seen l w) + 1) due now (mk_claim_token token) /\
    insert_run (claim_row (run_snapshot run) (last_sequence job (seen l w) + 1)) (seen l w) = Ok (1%nat, w_db w').
Proof.
  intros Ht%transaction_inv. destruct Ht as (w0 & w1 & Hw0 & Hb & Hw1).
  apply store_bind_ok in Hb as (d & w2 & Hd & Hb). apply execute_ok in Hd. rewrite seen_locked, Hw0 in Hd.
  injection Hd as <- Hw2. destruct (occurrence_claimed job due (seen l w)); [done|].
  apply store_bind_ok in Hb as (n & w3 & Hn & Hb). apply execute_ok in Hn. rewrite seen_locked, <- Hw2 in Hn.
  injection Hn as <- Hw3.
  apply store_bind_ok in Hb as (sr & w4 & Hsr & Hb). unfold lift in Hsr. injection Hsr as Hsr <-.
  apply ok_or_ok, bind_Some in Hsr as (v & [-> _]%checked_Some & [-> _]%checked_Some).
  apply store_bind_ok in Hb as (sq & w5 & Hsq & Hb). unfold lift in Hsq. injection Hsq as Hsq <-.
  apply map_err_ok, counter_new_ok in Hsq as [-> _].
  apply store_bind_ok in Hb as (tok & w6 & Htok & Hb). unfold lift in Htok. injection Htok as Htok <-.
  apply map_err_ok in Htok.
  apply store_bind_ok in Hb as (sq & w7 & Hsq & Hb). unfold lift in Hsq. injection Hsq as Hsq <-.
  apply to_sql_u64_ok in Hsq as [-> Hmax].
  apply store_bind_ok in Hb as (n & w8 & Hi & Hb). apply execute_ok in Hi. rewrite seen_locked, <- Hw3 in Hi.
  destruct (Nat.eqb_spec n 1) as [->|]; [|done]. injection Hb as <- <-.
  split; [done|]. exists tok. cbn [run_snapshot run_new rs_sequence run_sequence] in *. split_and!; try done.
  by rewrite Hw1.
Qed.

Lemma claim_row_fields fresh job seq due now token :
  uuid_ok (run_uuid fresh) -> uuid_ok (job_uuid job) -> ts_ok due -> ts_ok now -> counter_ok seq ->
  length token = 32%nat ->
  row_fields (claim_row (run_snapshot (run_new fresh job seq due now (mk_claim_token token))) seq)
    (run_snapshot (run_new fresh job seq due now (mk_claim_token token))).
Proof.
  intros Hf Hj Hd Hn Hs Ht. split; simpl; try done.
  - by apply run_id_text.
  - by apply job_id_text.
  - by apply utc_from_str_show.
  - by apply utc_from_str_show.
Qed.
End Claims.

(** ** Lemmas: the guarded updates *)

(** The world of the second statement: the schedule has moved on, and other
    processes may have acted. *)
Definition after_read (l : bool) (w : World) : World := mk_world (seen l w) (tail (w_schedule w)).

(** Exactly one row of that run and token, in a state the guard allows, is
    rewritten; nothing else changes. *)
Definition one_run_changed (id : RunId) (token : ClaimToken) (guard : str -> bool) (f : RunRow -> RunRow)
  (db db' : Db) : Prop :=
  exists l1 row l2, db_runs db = l1 ++ row :: l2 /\ db_runs db' = l1 ++ f row :: l2 /\
    rr_id row = run_id_to_string id /\ rr_claim_token row = token_bytes token /\ guard (rr_state row) = true /\
    db_jobs db' = db_jobs db /\ db_transitions db' = db_transitions db.

Lemma update_runs_one `{Serde} id token guard f db n db' :
  update_runs (fun r => run_row_is id token r && guard (rr_state r)) f db = Ok (n, db') -> n = 1%nat ->
  one_run_changed id token guard f db db'.
Proof.
  unfold update_runs, update_rows. destruct (forallb _ _); [|done]. cbn [mbind result_bind].
  intros [= Hn <-] ->. destruct (filter_single _ _ Hn) as (l1 & row & l2 & Hl & Hp & H1 & H2).
  exists l1, row, l2. cbn. rewrite Hl, map_app. cbn [map]. rewrite Hp.
  rewrite !map_if_none by done. apply andb_true_iff in Hp as [[Hi Ht]%andb_true_iff Hg].
  apply bool_decide_eq_true in Hi, Ht. done.
Qed.

Lemma load_existing_run_inv `{Serde} id l w r w' :
  load_existing_run id l w = (r, w') ->
  w' = after_read l w /\
  match r with
  | Ok run => exists row, find_run id (seen l w) = Some row /\ decode_run_row row = Ok run
  | Err _ => True
  end.
Proof.
  unfold load_existing_run, load_run, mbind, store_bind, query. fold (after_read l w).
  destruct (fault w); [by intros [= <- <-]|]. unfold decode_optional.
  destruct (find_run id (seen l w)) as [row|]; simpl; [|by intros [= <- <-]].
  destruct (decode_run_row row) as [run|] eqn:E; simpl; intros [= <- <-]; [|done]. split; [done|]. eauto.
Qed.

(** One guarded statement after the read. *)
Lemma execute_update_inv `{Serde} id token guard f l w (r : result StoreError nat) w' :
  execute map_write_error (update_runs (fun r => run_row_is id token r && guard (rr_state r)) f) l w = (r, w') ->
  match r with
  | Ok n => (n = 1%nat -> one_run_changed id token guard f (seen l w) (w_db w')) /\
            update_runs (fun r => run_row_is id token r && guard (rr_state r)) f (seen l w) = Ok (n, w_db w')
  | Err _ => w_db w' = seen l w
  end.
Proof.
  intros Hx. destruct r as [n|e].
  - apply execute_ok in Hx. split; [|done]. intros Hn. by eapply update_runs_one.
  - unfold execute in Hx. destruct (fault w); [by simplify_eq|].
    destruct (update_runs _ _ _) as [[]|]; by simplify_eq.
Qed.

Lemma filter_nil_Forall {A} (p : A -> bool) l :
  length (List.filter p l) = 0%nat -> Forall (fun y => p y = false) l.
Proof.
  induction l as [|y l IH]; simpl; [constructor|]. destruct (p y) eqn:E; simpl; [done|].
  intros. constructor; auto.
Qed.

(** Unique identifiers: a guard on an identifier selects at most one row. *)
Lemma unique_filter id token (guard : str -> bool) l :
  runs_unique l ->
  (length (List.filter (fun r => run_row_is id token r && guard (rr_state r)) l) <= 1)%nat.
Proof.
  intros Hu. set (p := fun r => _). induction l as [|x l IH]; simpl; [lia|].
  assert (runs_unique l) as Hul.
  { intros i j r s Hr Hs Hij. apply (Hu (S i) (S j)); [done..|lia]. }
  destruct (p x) eqn:Hp; [|by apply IH]. simpl.
  assert (Forall (fun y => p y = false) l) as Hnone.
  { apply Forall_lookup. intros i y Hy. destruct (p y) eqn:Hpy; [|done]. exfalso.
    destruct (Hu O (S i) x y eq_refl Hy) as [Hne _]; [done|].
    unfold p, run_row_is in Hp, Hpy. apply Hne.
    apply andb_true_iff in Hp as [[Hx%bool_decide_eq_true _]%andb_true_iff _].
    apply andb_true_iff in Hpy as [[Hy'%bool_decide_eq_true _]%andb_true_iff _]. congruence. }
  rewrite (proj2 (List.length_zero_iff_nil (List.filter p l))); [simpl; lia|].
  clear -Hnone. induction Hnone as [|y l Hy Hl IH]; simpl; [done|]. by rewrite Hy.
Qed.

Lemma update_runs_none `{Serde} p f db db' : update_runs p f db = Ok (0%nat, db') -> db' = db.
Proof.
  unfold update_runs, update_rows. destruct (forallb _ _); [|done]. cbn [mbind result_bind].
  intros [= Hn <-]. rewrite map_if_none by (by apply filter_nil_Forall). by destruct db.
Qed.

(** The whole second half of an update: the guarded statement and the test of
    its count. *)
Lemma guarded_run_update `{Serde} {A} id token guard f (a : A) l w r w' :
  runs_unique (db_runs (seen l w)) ->
  (changed ← execute map_write_error (update_runs (fun r => run_row_is id token r && guard (rr_state r)) f);
   if negb (changed =? 1)%nat then fail SE_Conflict else mret a) l w = (r, w') ->
  match r with
  | Ok b => b = a /\ one_run_changed id token guard f (seen l w) (w_db w')
  | Err _ => w_db w' = seen l w
  end.
Proof.
  intros Hu. unfold mbind, store_bind.
  destruct (execute _ _ l w) as [[n|e] w1] eqn:Ex; pose proof (execute_update_inv _ _ _ _ _ _ _ _ Ex) as Hx.
  - destruct Hx as [Hone Hx]. destruct (Nat.eqb_spec n 1) as [Hn|Hn]; simpl.
    + intros [= <- <-]. split; [done | by apply Hone].
    + intros [= <- <-]. assert (n = 0)%nat as ->; [|by apply update_runs_none in Hx].
      unfold update_runs, update_rows in Hx. destruct (forallb _ _); [|done].
      cbn [mbind result_bind] in Hx. injection Hx as Hlen _.
      pose proof (unique_filter id token guard _ Hu). lia.
  - by intros [= <- <-].
Qed.

(** A pure step either passes its value on or ends the computation there. *)
Lemma lift_inv {A B} (m : result StoreError A) (k : A -> Store B) l w r w' :
  (a ← lift m; k a) l w = (r, w') ->
  (exists a, m = Ok a /\ k a l w = (r, w')) \/ (w' = w /\ exists e, r = Err e).
Proof.
  unfold mbind, store_bind, lift. destruct m as [a|e]; [eauto|]. intros [= <- <-]. eauto.
Qed.

(** The first half of an update: the run is read and its token compared. *)
Lemma claimed_run_inv `{Serde} {B} id token (k : Run -> Store B) l w r w' :
  (run ← load_existing_run id; _ ← lift (verify_claim run token); k run) l w = (r, w') ->
  (exists row run, find_run id (seen l w) = Some row /\ decode_run_row row = Ok run /\
     run_claim_token run = token /\ k run l (after_read l w) = (r, w')) \/
  (w' = after_read l w /\ exists e, r = Err e).
Proof.
  unfold mbind at 1, store_bind at 1. destruct (load_existing_run id l w) as [[run|e] w1] eqn:El;
    apply load_existing_run_inv in El as [-> El]; [|intros [= <- <-]; right; eauto].
  destruct El as (row & Hf & Hd). intros [([] & Hv & Hk)|[-> He]]%lift_inv; [|by right].
  unfold verify_claim in Hv. case_bool_decide; [|done]. left. by exists row, run.
Qed.

(** The row found by a key is the row that a guard on that key rewrites. *)
Lemma one_run_changed_find id token guard f db db' row :
  one_run_changed id token guard f db db' -> find_run id db = Some row -> runs_unique (db_runs db) ->
  rr_id (f row) = rr_id row ->
  find_run id db' = Some (f row) /\ guard (rr_state row) = true.
Proof.
  intros (l1 & row1 & l2 & Hl & Hl' & Hid & _ & Hg & _) Hf Hu Hfid.
  unfold find_run in Hf. apply fmap_Some in Hf as ([i r] & Hf & ->). simpl in *.
  apply list_find_split in Hf as (m1 & m2 & Hm & Hr & Hm1).
  assert (r = row1 /\ Forall (fun y => rr_id y <> run_id_to_string id) l1) as [-> Hl1].
  { rewrite Hl in Hm. assert (db_runs db !! length l1 = Some row1) as Hk by (rewrite Hl; by apply list_lookup_middle).
    assert (db_runs db !! length m1 = Some r) as Hk' by (rewrite Hl, Hm; by apply list_lookup_middle).
    destruct (decide (length l1 = length m1)) as [Heq|Hne].
    - rewrite Heq, Hk' in Hk. injection Hk as ->. split; [done|].
      apply app_inj_1 in Hm as [-> _]; done.
    - destruct (Hu _ _ _ _ Hk Hk' Hne) as [Hd _]. congruence. }
  split; [|done]. unfold find_run. rewrite Hl'. rewrite list_find_app_r; [done | done | congruence].
Qed.

(** ** Lemmas: the rows written by the updates *)

Section Written.
Context `{Serde}.

Lemma identity_json_back o t :
  opt_identity_to_json o = Ok t -> is_some o = true ->
  decode_optional_json identity_from_json (Some t) = Ok o.
Proof.
  destruct o as [i|]; [|done]. intros Ht _. destruct (identity_json_law i) as (t' & Ht' & Hback & _).
  simpl in Ht. rewrite Ht in Ht'. injection Ht' as <-. unfold decode_optional_json. simpl. by rewrite Hback.
Qed.

Lemma row_fields_running row run t m c out err r' mj cj :
  row_fields row (run_snapshot run) -> ts_ok t -> i32_ok (process_group_id c) ->
  mark_running run t m c out err = Ok r' ->
  opt_identity_to_json (Some m) = Ok mj -> opt_identity_to_json (Some c) = Ok cj ->
  row_fields (running_row (ts_show t) mj cj (Some (process_group_id c)) out err row) (run_snapshot r').
Proof.
  intros [] Ht Hc (_ & _ & _ & _ & _ & _ & ->)%mark_running_ok Hmj Hcj.
  apply identity_json_back in Hmj; [|done]. apply identity_json_back in Hcj; [|done].
  split; cbn in *; try done.
  unfold parse_timestamp. by rewrite utc_from_str_show.
Qed.

Lemma row_fields_terminal row run t o r' oj :
  row_fields row (run_snapshot run) -> ts_ok t -> columns_i32 (outcome_columns o) ->
  with_outcome run t o = Ok r' -> outcome_to_json o = Ok oj ->
  row_fields (terminal_row (ts_show t) (encode_run_state (outcome_state o)) (outcome_columns o) oj row)
    (run_snapshot r').
Proof.
  intros [] Ht [Hc1 Hc2] (_ & _ & _ & ->)%with_outcome_ok Hoj.
  destruct (outcome_json_law o) as (t' & Ht' & Hback & _). rewrite Hoj in Ht'. injection Ht' as <-.
  unfold terminal_row. destruct (outcome_columns o) as [[ec sg] fl] eqn:Eo.
  split; cbn in *; try done.
  - unfold parse_timestamp. by rewrite utc_from_str_show.
  - unfold decode_optional_json. simpl. by rewrite Hback.
Qed.

Lemma row_fields_cancel row run r' :
  row_fields row (run_snapshot run) -> request_cancellation run = Ok r' ->
  row_fields (run_row_set_state (lit "cancel_requested") row) (run_snapshot r').
Proof. intros [] (-> & _)%request_cancellation_ok. split; cbn in *; done. Qed.
End Written.

(** A run that is started is one that the store can read back. *)
Lemma mark_running_decodes run t m c out err r' :
  run_shape run -> mark_running run t m c out err = Ok r' -> run_shape r' /\ run_clock r'.
Proof.
  intros Hsh Em. split.
  - eapply run_update_shape; [exact Hsh|]. by econstructor.
  - pose proof (shape_terminal _ Hsh) as Hterm.
    apply mark_running_ok in Em as (_ & _ & _ & _ & _ & Hst & ->). rewrite Hst in Hterm.
    unfold run_clock. cbn. by destruct (run_finished_at run).
Qed.

Lemma terminal_row_id t s c oj row : rr_id (terminal_row t s c oj row) = rr_id row.
Proof. by destruct c as [[? ?] ?]. Qed.

(** ** Properties *)

(** C1 (safety).  At most one run per occurrence: a claim, under every
    schedule, either fails and writes nothing, or the occurrence had no run,
    and exactly one row is appended, in state [Starting] with the next
    sequence number of the job and the drawn token; the row decodes to the
    returned run, the occurrence is claimed from then on, and the uniqueness
    of identifiers, tokens, sequences and occurrences is preserved. *)
Theorem claim_run_spec `{Serde} fresh random job due now l w r w' :
  uuid_ok (run_uuid fresh) -> uuid_ok (job_uuid job) -> ts_ok due -> ts_ok now ->
  claim_run fresh random job due now l w = (r, w') ->
  match r with
  | Err _ => w_db w' = seen l w
  | Ok run => exists row token,
      random = Ok token /\ occurrence_claimed job due (seen l w) = false /\
      run = run_new fresh job (last_sequence job (seen l w) + 1) due now (mk_claim_token token) /\
      w_db w' = set_runs (seen l w) (db_runs (seen l w) ++ [row]) /\ decode_run_row row = Ok run /\
      occurrence_claimed job due (w_db w') = true /\
      (runs_unique (db_runs (seen l w)) -> runs_unique (db_runs (w_db w')))
  end.
Proof.
  intros Hf Hj Hd Hn Hr. destruct r as [run|e]; [|by apply transaction_inv in Hr].
  apply claim_run_ok in Hr as (Hfree & token & Htok & Hmax & Hrun & Hins).
  pose proof (last_sequence_nonneg job (seen l w)) as H0'.
  unfold insert_run in Hins. destruct (_ && _ && _) eqn:Ec; [|done]. injection Hins as Hdb.
  apply andb_true_iff in Ec as [[Hcheck Huniq]%andb_true_iff _]. apply run_row_unique_spec in Huniq.
  eexists _, token. split_and!; [done..| | | |]; [by symmetry | | |].
  - rewrite (decode_run_row_fields _ (run_snapshot run)).
    + apply corrupt_ok, run_rehydrate_snapshot. rewrite Hrun. split; [apply run_new_shape | done].
    + rewrite Hrun. apply claim_row_fields; try done.
      * unfold counter_ok. change i64_max with 9223372036854775807 in Hmax.
        change u64_max with 18446744073709551615. lia.
      * rewrite Hrun in Hcheck. unfold run_row_check in Hcheck. rewrite !andb_true_iff in Hcheck.
        destruct Hcheck as [[[[[[[_ Hlen] _] _] _] _] _] _]. by apply Nat.eqb_eq in Hlen.
  - rewrite <- Hdb. unfold occurrence_claimed. cbn. rewrite existsb_app. apply orb_true_iff. right.
    rewrite Hrun. cbn. by rewrite !bool_decide_true.
  - intros Hu. rewrite <- Hdb. by apply runs_unique_app.
Qed.

(** Marking a run as running, with other processes acting
    between the read and the guarded UPDATE: it succeeds only if the domain
    accepts the start of the run that was read with that token, and then it
    rewrites exactly one row, of that run and token, that was still
    [starting]; otherwise it writes nothing.  If nobody touched the row in
    between, the row decodes to the returned run. *)
Theorem mark_run_running_spec `{Serde} id token t m c out err l w r w' :
  ts_ok t -> i32_ok (process_group_id c) -> runs_unique (db_runs (seen l (after_read l w))) ->
  mark_run_running id token t m c out err l w = (r, w') ->
  match r with
  | Err _ => w_db w' = seen l w \/ w_db w' = seen l (after_read l w)
  | Ok running => exists row0 run mj cj,
      find_run id (seen l w) = Some row0 /\ decode_run_row row0 = Ok run /\ run_claim_token run = token /\
      mark_running run t m c out err = Ok running /\
      one_run_changed id token (fun s => bool_decide (s = lit "starting"))
        (running_row (ts_show t) mj cj (Some (process_group_id c)) out err)
        (seen l (after_read l w)) (w_db w') /\
      (find_run id (seen l (after_read l w)) = Some row0 ->
       exists row', find_run id (w_db w') = Some row' /\ decode_run_row row' = Ok running)
  end.
Proof.
  intros Ht Hc Hu Hr. apply claimed_run_inv in Hr as [(row0 & run & Hfind & Hdec & Htok & Hr)|[-> [e ->]]]; [|by left].
  apply lift_inv in Hr as [(running & Em%map_err_ok & Hr)|[-> [e ->]]]; [|by left].
  pose proof (mark_running_ok _ _ _ _ _ _ _ Em) as (_ & _ & _ & _ & _ & _ & Heq).
  assert (rs_monitor_identity (run_snapshot running) = Some m /\ rs_command_identity (run_snapshot running) = Some c)
    as [Hsm Hsc] by (by rewrite Heq).
  rewrite Hsm, Hsc in Hr.
  apply lift_inv in Hr as [(mj & Hmj%corrupt_ok & Hr)|[-> [e ->]]]; [|by left].
  apply lift_inv in Hr as [(cj & Hcj%corrupt_ok & Hr)|[-> [e ->]]]; [|by left].
  pose proof (guarded_run_update id token (fun s => bool_decide (s = lit "starting")) _ running _ _ _ _ Hu Hr) as Hone.
  destruct r as [b|]; [|by right]. destruct Hone as [-> Hone].
  exists row0, run, mj, cj. split_and!; try done. intros Hsame.
  destruct (one_run_changed_find _ _ _ _ _ _ _ Hone Hsame Hu eq_refl) as [Hf' _].
  eexists. split; [exact Hf'|]. destruct (decode_run_row_ok _ _ Hdec) as (Hrow & Hsh & Hck).
  rewrite (decode_run_row_fields _ (run_snapshot running)) by (by eapply row_fields_running).
  apply corrupt_ok, run_rehydrate_snapshot. by eapply mark_running_decodes.
Qed.

(** C10 (refinement).  Recording the end of a run, with other processes acting
    between the read and the guarded UPDATE.  It succeeds in two cases only:
    the run read with that token has already that finish and that outcome,
    and nothing is written; or the domain accepts the outcome, and exactly
    one row, of that run and token and still active, is rewritten.  If nobody
    touched the row in between, it then decodes to the returned run, unless
    the finish precedes the recorded start: such a row is stored and refused
    by every later read.  A failure writes nothing. *)
Theorem record_run_terminal_spec `{Serde} id token t o l w r w' :
  ts_ok t -> columns_i32 (outcome_columns o) -> runs_unique (db_runs (seen l (after_read l w))) ->
  record_run_terminal id token t o l w = (r, w') ->
  match r with
  | Err _ => w_db w' = seen l w \/ w_db w' = seen l (after_read l w)
  | Ok completed => exists row0 run,
      find_run id (seen l w) = Some row0 /\ decode_run_row row0 = Ok run /\ run_claim_token run = token /\
      ((run_is_terminal (run_state run) = true /\ run_finished_at run = Some t /\ run_outcome run = Some o /\
        completed = run /\ w_db w' = seen l w) \/
       (run_is_terminal (run_state run) = false /\ with_outcome run t o = Ok completed /\
        exists oj, outcome_to_json o = Ok oj /\
        one_run_changed id token (fun s => text_in s active_states)
          (terminal_row (ts_show t) (encode_run_state (outcome_state o)) (outcome_columns o) oj)
          (seen l (after_read l w)) (w_db w') /\
        (find_run id (seen l (after_read l w)) = Some row0 ->
         exists row', find_run id (w_db w') = Some row' /\
         decode_run_row row' =
           if is_some_and (run_started_at run) (fun started => t <? started)
           then Err (SE_Corrupt (RS_RunError RE_InvalidTimeline)) else Ok completed)))
  end.
Proof.
  intros Ht Ho Hu Hr. apply claimed_run_inv in Hr as [(row0 & run & Hfind & Hdec & Htok & Hr)|[-> [e ->]]]; [|by left].
  destruct (run_is_terminal (run_state run)) eqn:Eterm.
  { destruct (bool_decide (run_finished_at run = Some t) && bool_decide (run_outcome run = Some o)) eqn:E;
      injection Hr as <- <-; [|by left].
    apply andb_true_iff in E as [Hf%bool_decide_eq_true Hout%bool_decide_eq_true].
    exists row0, run. split_and!; try done. left. by rewrite Eterm. }
  apply lift_inv in Hr as [(completed & Em%map_err_ok & Hr)|[-> [e ->]]]; [|by left].
  pose proof (with_outcome_ok _ _ _ _ Em) as (_ & _ & _ & Heq).
  assert (rs_outcome (run_snapshot completed) = Some o /\ rs_state (run_snapshot completed) = outcome_state o)
    as [Hso Hss] by (by rewrite Heq).
  rewrite Hso, Hss in Hr.
  apply lift_inv in Hr as [(o' & Ho'%ok_or_ok & Hr)|[-> [e ->]]]; [injection Ho' as <-|by left].
  apply lift_inv in Hr as [(oj & Hoj%corrupt_ok & Hr)|[-> [e ->]]]; [|by left].
  pose proof (guarded_run_update id token (fun s => text_in s active_states) _ completed _ _ _ _ Hu Hr) as Hone.
  destruct r as [b|]; [|by right]. destruct Hone as [-> Hone].
  exists row0, run. split_and!; try done. right. rewrite Eterm. split_and!; try done.
  exists oj. split_and!; try done. intros Hsame.
  destruct (one_run_changed_find _ _ _ _ _ _ _ Hone Hsame Hu) as [Hf' _]; [by apply terminal_row_id|].
  eexists. split; [exact Hf'|]. destruct (decode_run_row_ok _ _ Hdec) as (Hrow & Hsh & _).
  rewrite (decode_run_row_fields _ (run_snapshot completed)) by (by eapply row_fields_terminal).
  rewrite (run_outcome_decodes _ _ _ _ Hsh Em). by destruct (is_some_and _ _).
Qed.

(** A cancellation request, with other processes acting between
    the read and the guarded UPDATE: it is repeatable and without effect on a
    run that is terminal or already asked to cancel; otherwise exactly one
    row, of that run and token and still in the state that was read, moves to
    [cancel_requested], and no other column changes.  A failure writes
    nothing. *)
Theorem request_run_cancellation_spec `{Serde} id token l w r w' :
  runs_unique (db_runs (seen l (after_read l w))) ->
  request_run_cancellation id token l w = (r, w') ->
  match r with
  | Err _ => w_db w' = seen l w \/ w_db w' = seen l (after_read l w)
  | Ok requested => exists row0 run,
      find_run id (seen l w) = Some row0 /\ decode_run_row row0 = Ok run /\ run_claim_token run = token /\
      ((run_state run = RS_CancelRequested \/ run_is_terminal (run_state run) = true) /\
         requested = run /\ w_db w' = seen l w \/
       (run_state run = RS_Starting \/ run_state run = RS_Running) /\
         requested = run_set_state run RS_CancelRequested /\
         one_run_changed id token (fun s => bool_decide (s = encode_run_state (run_state run)))
           (run_row_set_state (lit "cancel_requested")) (seen l (after_read l w)) (w_db w') /\
         (find_run id (seen l (after_read l w)) = Some row0 ->
          exists row', find_run id (w_db w') = Some row' /\ decode_run_row row' = Ok requested))
  end.
Proof.
  intros Hu Hr. apply claimed_run_inv in Hr as [(row0 & run & Hfind & Hdec & Htok & Hr)|[-> [e ->]]]; [|by left].
  destruct (bool_decide (run_state run = RS_CancelRequested) || run_is_terminal (run_state run)) eqn:E.
  { injection Hr as <- <-. exists row0, run. split_and!; try done. left.
    apply orb_true_iff in E as [E%bool_decide_eq_true|E]; auto. }
  apply orb_false_iff in E as [Hnc%bool_decide_eq_false Hnt].
  apply lift_inv in Hr as [(requested & Em%map_err_ok & Hr)|[-> [e ->]]]; [|by left].
  pose proof (request_cancellation_ok _ _ Em) as (Heq & _ & _).
  pose proof (guarded_run_update id token (fun s => bool_decide (s = encode_run_state (run_state run)))
    _ requested _ _ _ _ Hu Hr) as Hone.
  destruct r as [b|]; [|by right]. destruct Hone as [-> Hone].
  exists row0, run. split_and!; try done. right. split_and!; try done.
  { destruct (run_state run); auto; done. }
  intros Hsame. destruct (one_run_changed_find _ _ _ _ _ _ _ Hone Hsame Hu eq_refl) as [Hf' _].
  eexists. split; [exact Hf'|]. destruct (decode_run_row_ok _ _ Hdec) as (Hrow & Hsh & Hck).
  rewrite (decode_run_row_fields _ (run_snapshot requested)) by (by eapply row_fields_cancel).
  apply corrupt_ok, run_rehydrate_snapshot. split; [|by rewrite Heq].
  eapply run_update_shape; [exact Hsh|]. by econstructor.
Qed.

(** ** Witnesses *)

Module RunStoreExample.
Export JobStoreExample.
Definition run_id0 : RunId := mk_run_id 1.
Definition bytes0 : list Z := replicate 32 5.
Definition token0 : ClaimToken := mk_claim_token bytes0.
Definition due0 : UtcTimestamp := 100 * 10 ^ 9.
Definition claim (w : World) := claim_run run_id0 (Ok bytes0) (job_id job0) due0 due0 false w.
Definition claimed_world : World := (claim world0).2.
Definition mark (w : World) :=
  mark_run_running run_id0 token0 (due0 + 10) example_identity example_identity (lit "out.log") (lit "err.log") false w.
Definition running_world : World := (mark claimed_world).2.
Definition finish (t : UtcTimestamp) (w : World) := record_run_terminal run_id0 token0 t (RO_Exit 0) false w.
Definition ask_cancel (w : World) := request_run_cancellation run_id0 token0 false w.
End RunStoreExample.
Import RunStoreExample.

Lemma runs_unique_short l : (length l <= 1)%nat -> runs_unique l.
Proof.
  intros Hl i j r s Hi%lookup_lt_Some Hj%lookup_lt_Some Hij. lia.
Qed.

Lemma running_unique : runs_unique (db_runs (seen false (after_read false running_world))).
Proof. apply runs_unique_short. vm_compute. lia. Qed.

Lemma claim_run_spec_witness :
  exists run w', (uuid_ok 1 /\ uuid_ok (job_uuid (job_id job0)) /\ ts_ok due0 /\ claim world0 = (Ok run, w')) /\
  exists row token,
    Ok bytes0 = @Ok str (list Z) token /\ occurrence_claimed (job_id job0) due0 (seen false world0) = false /\
    run = run_new run_id0 (job_id job0) (last_sequence (job_id job0) (seen false world0) + 1) due0 due0 (mk_claim_token token) /\
    w_db w' = set_runs (seen false world0) (db_runs (seen false world0) ++ [row]) /\ decode_run_row row = Ok run /\
    occurrence_claimed (job_id job0) due0 (w_db w') = true /\
    (runs_unique (db_runs (seen false world0)) -> runs_unique (db_runs (w_db w'))).
Proof.
  assert (uuid_ok 1) as H1 by (by vm_compute). assert (uuid_ok (job_uuid (job_id job0))) as H2 by (by vm_compute).
  assert (ts_ok due0) as H3 by (by vm_compute).
  assert (exists run w', claim world0 = (Ok run, w')) as (run & w' & E) by (eexists _, _; vm_compute; reflexivity).
  exists run, w'. split; [exact (conj H1 (conj H2 (conj H3 E)))|].
  exact (claim_run_spec run_id0 (Ok bytes0) (job_id job0) due0 due0 false world0 _ _ H1 H2 H3 H3 E).
Defined.

Lemma mark_run_running_spec_witness :
  exists running w', (ts_ok (due0 + 10) /\ i32_ok (process_group_id example_identity) /\
    runs_unique (db_runs (seen false (after_read false claimed_world))) /\ mark claimed_world = (Ok running, w')) /\
  exists row0 run mj cj,
    find_run run_id0 (seen false claimed_world) = Some row0 /\ decode_run_row row0 = Ok run /\
    run_claim_token run = token0 /\
    mark_running run (due0 + 10) example_identity example_identity (lit "out.log") (lit "err.log") = Ok running /\
    one_run_changed run_id0 token0 (fun s => bool_decide (s = lit "starting"))
      (running_row (ts_show (due0 + 10)) mj cj (Some (process_group_id example_identity)) (lit "out.log") (lit "err.log"))
      (seen false (after_read false claimed_world)) (w_db w') /\
    (find_run run_id0 (seen false (after_read false claimed_world)) = Some row0 ->
     exists row', find_run run_id0 (w_db w') = Some row' /\ decode_run_row row' = Ok running).
Proof.
  assert (ts_ok (due0 + 10)) as H1 by (by vm_compute).
  assert (i32_ok (process_group_id example_identity)) as H2 by (by vm_compute).
  assert (runs_unique (db_runs (seen false (after_read false claimed_world)))) as H3
    by (apply runs_unique_short; vm_compute; lia).
  assert (exists run w', mark claimed_world = (Ok run, w')) as (run & w' & E) by (eexists _, _; vm_compute; reflexivity).
  exists run, w'. split; [exact (conj H1 (conj H2 (conj H3 E)))|].
  pose proof (mark_run_running_spec run_id0 token0 (due0 + 10) example_identity example_identity (lit "out.log")
    (lit "err.log") false claimed_world (Ok run) w') as X.
  specialize (X H1 H2 H3 E). cbv beta iota in X. exact X.
Defined.

(** The clock stepped back below the start: the outcome is stored, and the row
    is refused from then on. *)
Lemma record_run_terminal_spec_witness :
  exists completed w', (ts_ok due0 /\ columns_i32 (outcome_columns (RO_Exit 0)) /\
    runs_unique (db_runs (seen false (after_read false running_world))) /\
    finish due0 running_world = (Ok completed, w')) /\
  exists row0 run,
    find_run run_id0 (seen false running_world) = Some row0 /\ decode_run_row row0 = Ok run /\
    run_claim_token run = token0 /\
    ((run_is_terminal (run_state run) = true /\ run_finished_at run = Some due0 /\
      run_outcome run = Some (RO_Exit 0) /\ completed = run /\ w_db w' = seen false running_world) \/
     (run_is_terminal (run_state run) = false /\ with_outcome run due0 (RO_Exit 0) = Ok completed /\
      exists oj, outcome_to_json (RO_Exit 0) = Ok oj /\
      one_run_changed run_id0 token0 (fun s => text_in s active_states)
        (terminal_row (ts_show due0) (encode_run_state (outcome_state (RO_Exit 0))) (outcome_columns (RO_Exit 0)) oj)
        (seen false (after_read false running_world)) (w_db w') /\
      (find_run run_id0 (seen false (after_read false running_world)) = Some row0 ->
       exists row', find_run run_id0 (w_db w') = Some row' /\
       decode_run_row row' =
         if is_some_and (run_started_at run) (fun started => due0 <? started)
         then Err (SE_Corrupt (RS_RunError RE_InvalidTimeline)) else Ok completed))).
Proof.
  assert (ts_ok due0) as H1 by (by vm_compute).
  assert (columns_i32 (outcome_columns (RO_Exit 0))) as H2 by (by vm_compute).
  assert (exists run w', finish due0 running_world = (Ok run, w')) as (run & w' & E)
    by (eexists _, _; vm_compute; reflexivity).
  exists run, w'. split; [exact (conj H1 (conj H2 (conj running_unique E)))|].
  pose proof (record_run_terminal_spec run_id0 token0 due0 (RO_Exit 0) false running_world (Ok run) w') as X.
  specialize (X H1 H2 running_unique E). cbv beta iota in X. exact X.
Defined.

Lemma request_run_cancellation_spec_witness :
  exists requested w', (runs_unique (db_runs (seen false (after_read false running_world))) /\
    ask_cancel running_world = (Ok requested, w')) /\
  exists row0 run,
    find_run run_id0 (seen false running_world) = Some row0 /\ decode_run_row row0 = Ok run /\
    run_claim_token run = token0 /\
    ((run_state run = RS_CancelRequested \/ run_is_terminal (run_state run) = true) /\
       requested = run /\ w_db w' = seen false running_world \/
     (run_state run = RS_Starting \/ run_state run = RS_Running) /\
       requested = run_set_state run RS_CancelRequested /\
       one_run_changed run_id0 token0 (fun s => bool_decide (s = encode_run_state (run_state run)))
         (run_row_set_state (lit "cancel_requested")) (seen false (after_read false running_world)) (w_db w') /\
       (find_run run_id0 (seen false (after_read false running_world)) = Some row0 ->
        exists row', find_run run_id0 (w_db w') = Some row' /\ decode_run_row row' = Ok requested)).
Proof.
  assert (exists run w', ask_cancel running_world = (Ok run, w')) as (run & w' & E)
    by (eexists _, _; vm_compute; reflexivity).
  exists run, w'. split; [exact (conj running_unique E)|].
  pose proof (request_run_cancellation_spec run_id0 token0 false running_world (Ok run) w') as X.
  specialize (X running_unique E). cbv beta iota in X. exact X.
Defined.

(** The stored row of a run that finished before it started. *)
Example finished_before_start_ex :
  (load_run run_id0 false (finish due0 running_world).2).1 = Err (SE_Corrupt (RS_RunError RE_InvalidTimeline)).
Proof. vm_compute. reflexivity. Qed.

(** A second claim of the occurrence. *)
Example duplicate_claim_ex :
  (claim_run (mk_run_id 2) (Ok (replicate 32 6)) (job_id job0) due0 due0 false claimed_world).1 = Err SE_DuplicateClaim.
Proof. vm_compute. reflexivity. Qed.
