(* ===== verification/Reconcile.v ===== *)
(** [src/application/reconcile.rs]: the plan of startup recovery.

    The inspector of processes answers from the state of the machine, which
    changes between two questions: it is a function of a state [S] that it
    threads.  A plan is built by pushing on three vectors; the functions
    below return the new vectors. *)

From S2P Require Import Prelude Primitives Duration Identifier States Recurrence Execution JobAgg RunAgg.

Inductive IdentityStatus := IS_Alive | IS_Dead | IS_Changed.
Inductive CommandFate := CF_Alive | CF_Dead | CF_Changed | CF_Unknown.
#[export] Instance IdentityStatus_eq_dec : EqDecision IdentityStatus. Proof. solve_decision. Defined.
#[export] Instance CommandFate_eq_dec : EqDecision CommandFate. Proof. solve_decision. Defined.

Record RecoveryRecord := mk_recovery_record { rec_job : Job; rec_active_run : option Run }.

Record RecoveredDeadline := mk_recovered_deadline {
  rd_job_id : JobId;
  rd_scheduled_for : UtcTimestamp;
  rd_elapsed_due : ElapsedInstant
}.

Inductive RecoveryAction :=
| Interrupt (job_id : JobId) (expected_revision : Revision) (run : option (RunId * ClaimToken))
    (command_fate : CommandFate)
| MarkMissed (job_id : JobId) (expected_revision : Revision)
| AdvanceRecurring (job_id : JobId) (expected_revision : Revision) (next_due_utc : UtcTimestamp).

Record RecoveryPlan := mk_plan {
  plan_deadlines : list RecoveredDeadline;
  plan_preserved : list RunId;
  plan_actions : list RecoveryAction
}.

Inductive ReconciliationError :=
| RC_InvalidBootIdentity
| RC_TerminalJobLoaded (id : JobId)
| RC_UnexpectedActiveRun (id : JobId)
| RC_DeadlineOverflow.
#[export] Instance ReconciliationError_eq_dec : EqDecision ReconciliationError. Proof. solve_decision. Defined.

Definition plan_empty : RecoveryPlan := mk_plan [] [] [].
Definition push_deadline (d : RecoveredDeadline) (p : RecoveryPlan) : RecoveryPlan :=
  mk_plan (plan_deadlines p ++ [d]) (plan_preserved p) (plan_actions p).
Definition push_preserved (r : RunId) (p : RecoveryPlan) : RecoveryPlan :=
  mk_plan (plan_deadlines p) (plan_preserved p ++ [r]) (plan_actions p).
Definition push_action (a : RecoveryAction) (p : RecoveryPlan) : RecoveryPlan :=
  mk_plan (plan_deadlines p) (plan_preserved p) (plan_actions p ++ [a]).

Definition interrupt_action (record : RecoveryRecord) (run : option (RunId * ClaimToken))
  (fate : CommandFate) : RecoveryAction :=
  Interrupt (job_id (rec_job record)) (job_revision (rec_job record)) run fate.

Definition job_is_active (s : JobState) : bool :=
  match s with JS_Starting | JS_Running | JS_CancelRequested => true | _ => false end.

(** [deadline] *)
Definition recovered_deadline (id : JobId) (scheduled_for wall_now : UtcTimestamp) (elapsed_now : ElapsedInstant)
  : result ReconciliationError RecoveredDeadline :=
  remaining ← ok_or (checked_u128 (Z.max (scheduled_for - wall_now) 0)) RC_DeadlineOverflow;
  elapsed_due ← ok_or (checked_u128 (elapsed_now + remaining)) RC_DeadlineOverflow;
  Ok (mk_recovered_deadline id scheduled_for elapsed_due).

Section Waiting.
Context `{Jiff}.

Definition recovery_next (anchor wall_now : UtcTimestamp) (interval : DurationSeconds)
  : result ReconciliationError UtcTimestamp :=
  map_err (fun _ => RC_DeadlineOverflow) (next_fixed_rate_utc anchor wall_now interval).

Definition reconcile_waiting (record : RecoveryRecord) (wall_now : UtcTimestamp) (elapsed_now : ElapsedInstant)
  (plan : RecoveryPlan) : result ReconciliationError RecoveryPlan :=
  let job := rec_job record in
  let due := job_next_due job in
  if wall_now <? due then
    d ← recovered_deadline (job_id job) due wall_now elapsed_now;
    Ok (push_deadline d plan)
  else
  match job_schedule job, job_missed_policy job with
  | schedule, MP_RunLatest =>
    let plan := push_deadline (mk_recovered_deadline (job_id job) due elapsed_now) plan in
    match schedule with
    | RecurringInterval interval anchor =>
      next_due ← recovery_next anchor wall_now interval;
      Ok (push_action (AdvanceRecurring (job_id job) (job_revision job) next_due) plan)
    | _ => Ok plan
    end
  | RecurringInterval interval anchor, MP_Skip =>
    next_due ← recovery_next anchor wall_now interval;
    let plan := push_action (AdvanceRecurring (job_id job) (job_revision job) next_due) plan in
    d ← recovered_deadline (job_id job) next_due wall_now elapsed_now;
    Ok (push_deadline d plan)
  | _, _ => Ok (push_action (MarkMissed (job_id job) (job_revision job)) plan)
  end.
End Waiting.

Section Plan.
Context {S : Type} (classify : ProcessIdentitySnapshot -> S -> result str IdentityStatus * S).
Context `{Jiff}.

Definition inspect_fate (identity : option ProcessIdentitySnapshot) (boot : str) (s : S) : CommandFate * S :=
  match identity with
  | None => (CF_Unknown, s)
  | Some identity =>
    if bool_decide (boot_identity identity <> boot) then (CF_Changed, s) else
    let '(answer, s) := classify identity s in
    (match answer with
     | Ok IS_Alive => CF_Alive | Ok IS_Dead => CF_Dead | Ok IS_Changed => CF_Changed | Err _ => CF_Unknown
     end, s)
  end.

(** [run.monitor_identity().is_some_and(..)] *)
Definition monitor_alive (identity : option ProcessIdentitySnapshot) (boot : str) (s : S) : bool * S :=
  match identity with
  | None => (false, s)
  | Some identity =>
    if bool_decide (boot_identity identity = boot) then
      let '(answer, s) := classify identity s in (bool_decide (answer = Ok IS_Alive), s)
    else (false, s)
  end.

Definition reconcile_active (record : RecoveryRecord) (boot : str) (plan : RecoveryPlan) (s : S)
  : RecoveryPlan * S :=
  match rec_active_run record with
  | None => (push_action (interrupt_action record None CF_Unknown) plan, s)
  | Some run =>
    if run_is_terminal (run_state run) then (push_action (interrupt_action record None CF_Unknown) plan, s) else
    let '(fate, s) := inspect_fate (run_command_identity run) boot s in
    let '(alive, s) := monitor_alive (run_monitor_identity run) boot s in
    if alive && match run_state run with RS_Running | RS_CancelRequested => true | _ => false end
    then (push_preserved (run_id run) plan, s)
    else (push_action (interrupt_action record (Some (run_id run, run_claim_token run)) fate) plan, s)
  end.

(** The body of the loop. *)
Definition plan_record (record : RecoveryRecord) (wall_now : UtcTimestamp) (elapsed_now : ElapsedInstant)
  (boot : str) (plan : RecoveryPlan) (s : S) : result ReconciliationError (RecoveryPlan * S) :=
  let job := rec_job record in
  if job_is_terminal (job_state job) then Err (RC_TerminalJobLoaded (job_id job)) else
  if job_is_active (job_state job) then Ok (reconcile_active record boot plan s) else
  if is_some (rec_active_run record) then Err (RC_UnexpectedActiveRun (job_id job)) else
  plan ← reconcile_waiting record wall_now elapsed_now plan;
  Ok (plan, s).

Fixpoint plan_loop (records : list RecoveryRecord) (wall_now : UtcTimestamp) (elapsed_now : ElapsedInstant)
  (boot : str) (plan : RecoveryPlan) (s : S) : result ReconciliationError (RecoveryPlan * S) :=
  match records with
  | [] => Ok (plan, s)
  | record :: records =>
    '(plan, s) ← plan_record record wall_now elapsed_now boot plan s;
    plan_loop records wall_now elapsed_now boot plan s
  end.

(** The order of the keys of the two sorts. *)
Definition deadline_le (a b : RecoveredDeadline) : Prop :=
  rd_elapsed_due a < rd_elapsed_due b \/
  (rd_elapsed_due a = rd_elapsed_due b /\ job_uuid (rd_job_id a) <= job_uuid (rd_job_id b)).
Definition run_id_le (a b : RunId) : Prop := run_uuid a <= run_uuid b.
#[export] Instance deadline_le_dec a b : Decision (deadline_le a b).
Proof. unfold deadline_le. apply _. Defined.
#[export] Instance run_id_le_dec a b : Decision (run_id_le a b).
Proof. unfold run_id_le. apply _. Defined.

(** [sort_unstable]: some sorted permutation; a merge sort gives one. *)
Definition plan_sorted (plan : RecoveryPlan) : RecoveryPlan :=
  mk_plan (merge_sort deadline_le (plan_deadlines plan)) (merge_sort run_id_le (plan_preserved plan))
    (plan_actions plan).

Definition plan_recovery (records : list RecoveryRecord) (wall_now : UtcTimestamp) (elapsed_now : ElapsedInstant)
  (boot : str) (s : S) : result ReconciliationError (RecoveryPlan * S) :=
  if is_empty boot || contains_nul boot then Err RC_InvalidBootIdentity else
  '(plan, s) ← plan_loop records wall_now elapsed_now boot plan_empty s;
  Ok (plan_sorted plan, s).

(** ** Specification: the verdict on one job *)

(** The plan's three lists, for one record. *)
Definition Verdict : Type := list RecoveredDeadline * list RunId * list RecoveryAction.

(** A live monitor of this boot owns the run. *)
Definition owned (boot : str) (run : Run) : Prop :=
  (run_state run = RS_Running \/ run_state run = RS_CancelRequested) /\
  exists m s, run_monitor_identity run = Some m /\ boot_identity m = boot /\ (classify m s).1 = Ok IS_Alive.

(** No monitor of this boot owns the run: it has not started, or has no
    monitor of this boot, or that monitor was not found alive. *)
Definition orphaned (boot : str) (run : Run) : Prop :=
  run_state run = RS_Starting \/
  forall m, run_monitor_identity run = Some m -> boot_identity m = boot ->
    exists s, (classify m s).1 <> Ok IS_Alive.

Inductive verdict (wall : UtcTimestamp) (elapsed : ElapsedInstant) (boot : str) (record : RecoveryRecord)
  : Verdict -> Prop :=
| verdict_lost :
    job_is_active (job_state (rec_job record)) = true ->
    opt_Forall (fun run => run_is_terminal (run_state run) = true) (rec_active_run record) ->
    verdict wall elapsed boot record ([], [], [interrupt_action record None CF_Unknown])
| verdict_preserved run :
    job_is_active (job_state (rec_job record)) = true -> rec_active_run record = Some run -> owned boot run ->
    verdict wall elapsed boot record ([], [run_id run], [])
| verdict_interrupted run fate :
    job_is_active (job_state (rec_job record)) = true -> rec_active_run record = Some run ->
    run_is_terminal (run_state run) = false -> orphaned boot run ->
    verdict wall elapsed boot record ([], [], [interrupt_action record (Some (run_id run, run_claim_token run)) fate])
| verdict_resumed due actions :
    job_is_terminal (job_state (rec_job record)) = false -> job_is_active (job_state (rec_job record)) = false ->
    rec_active_run record = None -> wall < due -> elapsed + (due - wall) <= u128_max ->
    (** it keeps its due time, or skips the missed occurrences of its grid *)
    (due = job_next_due (rec_job record) /\ actions = [] \/
     job_next_due (rec_job record) <= wall /\ job_missed_policy (rec_job record) = MP_Skip /\
     (exists interval anchor, job_schedule (rec_job record) = RecurringInterval interval anchor /\
        next_fixed_rate_utc anchor wall interval = Ok due) /\
     actions = [AdvanceRecurring (job_id (rec_job record)) (job_revision (rec_job record)) due]) ->
    verdict wall elapsed boot record
      ([mk_recovered_deadline (job_id (rec_job record)) due (elapsed + (due - wall))], [], actions)
| verdict_run_now actions :
    job_is_terminal (job_state (rec_job record)) = false -> job_is_active (job_state (rec_job record)) = false ->
    rec_active_run record = None -> job_next_due (rec_job record) <= wall ->
    job_missed_policy (rec_job record) = MP_RunLatest ->
    match job_schedule (rec_job record) with
    | RecurringInterval interval anchor => exists next,
        next_fixed_rate_utc anchor wall interval = Ok next /\
        actions = [AdvanceRecurring (job_id (rec_job record)) (job_revision (rec_job record)) next]
    | _ => actions = []
    end ->
    verdict wall elapsed boot record
      ([mk_recovered_deadline (job_id (rec_job record)) (job_next_due (rec_job record)) elapsed], [], actions)
| verdict_missed :
    job_is_terminal (job_state (rec_job record)) = false -> job_is_active (job_state (rec_job record)) = false ->
    rec_active_run record = None -> job_next_due (rec_job record) <= wall ->
    job_missed_policy (rec_job record) <> MP_RunLatest ->
    (is_recurring (job_schedule (rec_job record)) = true -> job_missed_policy (rec_job record) = MP_Hold) ->
    verdict wall elapsed boot record
      ([], [], [MarkMissed (job_id (rec_job record)) (job_revision (rec_job record))]).

Definition plan_add (plan : RecoveryPlan) (v : Verdict) : RecoveryPlan :=
  mk_plan (plan_deadlines plan ++ v.1.1) (plan_preserved plan ++ v.1.2) (plan_actions plan ++ v.2).
End Plan.

(** ** Lemmas: one record *)

(** What planning needs of a job; every stored row ensures it. *)
Definition plannable `{Jiff} (j : Job) : Prop :=
  ts_ok (job_next_due j) /\
  match job_schedule j with
  | RecurringInterval interval anchor => duration_ok interval /\ ts_ok anchor
  | _ => True
  end.

Section PlanLemmas.
Context {S : Type} (classify : ProcessIdentitySnapshot -> S -> result str IdentityStatus * S).
Context `{Jiff}.

Lemma recovered_deadline_spec id due wall elapsed :
  ts_ok due -> ts_ok wall -> elapsed_ok elapsed -> wall < due ->
  recovered_deadline id due wall elapsed =
  if elapsed + (due - wall) <=? u128_max
  then Ok (mk_recovered_deadline id due (elapsed + (due - wall))) else Err RC_DeadlineOverflow.
Proof.
  intros Hd Hw He Hlt. unfold recovered_deadline, ts_ok, elapsed_ok in *.
  destruct ts_span as (Hs1 & Hs2 & Hs3 & Hs4). change (10 ^ 21) with 1000000000000000000000 in *.
  assert (2000000000000000000000 <= u128_max) by done.
  rewrite Z.max_l by lia. rewrite (checked_in 0 u128_max (due - wall)) by lia. cbn [ok_or mbind result_bind].
  destruct (Z.leb_spec (elapsed + (due - wall)) u128_max).
  - by rewrite checked_in by lia.
  - assert (checked_u128 (elapsed + (due - wall)) = None) as -> by (apply checked_None; lia). done.
Qed.

Lemma plan_add_nil plan : plan_add plan ([], [], []) = plan.
Proof. destruct plan. unfold plan_add. simpl. by rewrite !app_nil_r. Qed.

Lemma push_deadline_add plan d : push_deadline d plan = plan_add plan ([d], [], []).
Proof. destruct plan. unfold plan_add, push_deadline. simpl. by rewrite !app_nil_r. Qed.

Lemma push_action_add plan a : push_action a plan = plan_add plan ([], [], [a]).
Proof. destruct plan. unfold plan_add, push_action. simpl. by rewrite !app_nil_r. Qed.

Lemma push_preserved_add plan r : push_preserved r plan = plan_add plan ([], [r], []).
Proof. destruct plan. unfold plan_add, push_preserved. simpl. by rewrite !app_nil_r. Qed.

Lemma push_both_add plan d a : push_action a (push_deadline d plan) = plan_add plan ([d], [], [a]).
Proof. destruct plan. unfold plan_add, push_action, push_deadline. simpl. by rewrite !app_nil_r. Qed.

Lemma push_both_add' plan d a : push_deadline d (push_action a plan) = plan_add plan ([d], [], [a]).
Proof. destruct plan. unfold plan_add, push_action, push_deadline. simpl. by rewrite !app_nil_r. Qed.

Lemma monitor_alive_inv identity boot s b s' :
  monitor_alive classify identity boot s = (b, s') ->
  if b : bool then exists m s0, identity = Some m /\ boot_identity m = boot /\ (classify m s0).1 = Ok IS_Alive
  else forall m, identity = Some m -> boot_identity m = boot -> exists s0, (classify m s0).1 <> Ok IS_Alive.
Proof.
  unfold monitor_alive. destruct identity as [m|]; [|by intros [= <- <-]].
  case_bool_decide as Hb; [|by intros [= <- <-] ? [= <-] ?].
  destruct (classify m s) as [answer s1] eqn:E. intros [= <- <-]. case_bool_decide as Ha.
  - exists m, s. by rewrite E.
  - intros ? [= <-] _. exists s. by rewrite E.
Qed.

Lemma reconcile_active_verdict wall elapsed boot record plan s :
  job_is_active (job_state (rec_job record)) = true ->
  exists v, verdict classify wall elapsed boot record v /\
    (reconcile_active classify record boot plan s).1 = plan_add plan v.
Proof.
  intros Ha. unfold reconcile_active. destruct (rec_active_run record) as [run|] eqn:Er.
  2: { eexists. split; [apply verdict_lost; [done|by rewrite Er]|]. apply push_action_add. }
  destruct (run_is_terminal (run_state run)) eqn:Et.
  { eexists. split; [apply verdict_lost; [done|by rewrite Er]|]. apply push_action_add. }
  destruct (inspect_fate classify (run_command_identity run) boot s) as [fate s1].
  destruct (monitor_alive classify (run_monitor_identity run) boot s1) as [alive s2] eqn:Em.
  apply monitor_alive_inv in Em.
  destruct (alive && _) eqn:E; simpl; eexists; (split; [|first [apply push_preserved_add|apply push_action_add]]).
  - apply andb_true_iff in E as [-> Hst]. eapply verdict_preserved; [done..|]. split; [|done].
    destruct (run_state run); auto; done.
  - eapply verdict_interrupted; [done..|]. unfold orphaned. destruct alive; [|by right]. left.
    by destruct (run_state run).
Qed.

(** What a waiting job contributes, with its due time in range. *)
Lemma reconcile_waiting_verdict record wall elapsed boot plan :
  plannable (rec_job record) -> ts_ok wall -> elapsed_ok elapsed ->
  job_is_terminal (job_state (rec_job record)) = false -> job_is_active (job_state (rec_job record)) = false ->
  rec_active_run record = None ->
  match reconcile_waiting record wall elapsed plan with
  | Ok plan' => exists v, verdict classify wall elapsed boot record v /\ plan' = plan_add plan v
  | Err e => e = RC_DeadlineOverflow /\
      (u128_max < elapsed + (job_next_due (rec_job record) - wall) \/
       exists interval anchor, job_schedule (rec_job record) = RecurringInterval interval anchor /\
         (ts_max < next_grid anchor wall interval \/ u128_max < elapsed + (next_grid anchor wall interval - wall)))
  end.
Proof.
  intros [Hd Hs] Hw He Hterm Hact Hrun.
  unfold reconcile_waiting. destruct (Z.ltb_spec wall (job_next_due (rec_job record))) as [Hlt|Hle].
  { rewrite recovered_deadline_spec by done. destruct (Z.leb_spec (elapsed + (job_next_due (rec_job record) - wall)) u128_max).
    - eexists. split; [|apply push_deadline_add]. apply verdict_resumed; auto.
    - split; [done|]. left. lia. }
  assert (forall interval anchor, job_schedule (rec_job record) = RecurringInterval interval anchor ->
    match recovery_next anchor wall interval with
    | Ok next => next_fixed_rate_utc anchor wall interval = Ok next /\ next = next_grid anchor wall interval /\
                 ts_ok next /\ wall < next
    | Err e => e = RC_DeadlineOverflow /\ ts_max < next_grid anchor wall interval
    end) as Hnext.
  { intros interval anchor Hsch. rewrite Hsch in Hs. destruct Hs as [Hi Ha].
    unfold recovery_next. rewrite next_fixed_rate_utc_eq by done.
    pose proof (next_grid_bounds anchor wall interval Hi) as Hb. unfold ts_checked.
    assert (wall < next_grid anchor wall interval) as Hlt.
    { unfold next_grid in *. destruct (Z.ltb_spec wall anchor); [done|]. lia. }
    destruct (checked ts_min ts_max _) as [next|] eqn:E; simpl.
    - apply checked_Some in E as [-> Hr]. done.
    - apply checked_None in E. split; [done|]. unfold ts_ok in *. lia. }
  destruct (job_missed_policy (rec_job record)) eqn:Ep, (job_schedule (rec_job record)) as [| |interval anchor] eqn:Es;
    try (eexists; split; [|apply push_action_add]; apply verdict_missed; rewrite ?Ep, ?Es; done).
  - eexists. split; [|apply push_deadline_add]. apply verdict_run_now; rewrite ?Es; done.
  - eexists. split; [|apply push_deadline_add]. apply verdict_run_now; rewrite ?Es; done.
  - specialize (Hnext _ _ eq_refl). destruct (recovery_next anchor wall interval) as [next|e]; cbn [mbind result_bind].
    + eexists. split; [|apply push_both_add]. apply verdict_run_now; rewrite ?Es; try done.
      exists next. naive_solver.
    + destruct Hnext as [-> Hm]. split; [done|]. right. eauto.
  - specialize (Hnext _ _ eq_refl). destruct (recovery_next anchor wall interval) as [next|e]; cbn [mbind result_bind].
    + destruct Hnext as (Hn & Hgrid & Hok & Hlt). rewrite recovered_deadline_spec by done.
      destruct (Z.leb_spec (elapsed + (next - wall)) u128_max); cbn [mbind result_bind].
      * eexists. split; [|apply push_both_add']. apply verdict_resumed; try done. right.
        split_and!; try done. by exists interval, anchor.
      * split; [done|]. right. exists interval, anchor. split; [done|]. right. subst. lia.
    + destruct Hnext as [-> Hm]. split; [done|]. right. eauto.
Qed.

(** Why a plan fails. *)
Definition plan_refused (wall : UtcTimestamp) (elapsed : ElapsedInstant) (record : RecoveryRecord)
  (e : ReconciliationError) : Prop :=
  match e with
  | RC_InvalidBootIdentity => False
  | RC_TerminalJobLoaded id => job_id (rec_job record) = id /\ job_is_terminal (job_state (rec_job record)) = true
  | RC_UnexpectedActiveRun id =>
    job_id (rec_job record) = id /\ job_is_terminal (job_state (rec_job record)) = false /\
    job_is_active (job_state (rec_job record)) = false /\ rec_active_run record <> None
  | RC_DeadlineOverflow =>
    u128_max < elapsed + (job_next_due (rec_job record) - wall) \/
    exists interval anchor, job_schedule (rec_job record) = RecurringInterval interval anchor /\
      (ts_max < next_grid anchor wall interval \/ u128_max < elapsed + (next_grid anchor wall interval - wall))
  end.

Lemma plan_record_verdict record wall elapsed boot plan s :
  plannable (rec_job record) -> ts_ok wall -> elapsed_ok elapsed ->
  match plan_record classify record wall elapsed boot plan s with
  | Ok (plan', _) => exists v, verdict classify wall elapsed boot record v /\ plan' = plan_add plan v
  | Err e => plan_refused wall elapsed record e
  end.
Proof.
  intros Hj Hw He. unfold plan_record. destruct (job_is_terminal _) eqn:Et; [done|].
  destruct (job_is_active _) eqn:Ea.
  { destruct (reconcile_active_verdict wall elapsed boot record plan s Ea) as (v & Hv & Hp).
    destruct (reconcile_active _ _ _ _ _). eauto. }
  destruct (rec_active_run record) as [run|] eqn:Er; simpl; [by rewrite Er|].
  pose proof (reconcile_waiting_verdict record wall elapsed boot plan Hj Hw He Et Ea Er) as Hwait.
  destruct (reconcile_waiting _ _ _ _) as [plan'|e]; simpl; [done|]. destruct Hwait as [-> Hwait]. done.
Qed.

Lemma plan_add_app plan d p a d' p' a' :
  plan_add (plan_add plan (d, p, a)) (d', p', a') = plan_add plan (d ++ d', p ++ p', a ++ a').
Proof. unfold plan_add. simpl. by rewrite !app_assoc. Qed.

Definition verdict_sum (vs : list Verdict) : Verdict :=
  (concat ((fun v => v.1.1) <$> vs), concat ((fun v => v.1.2) <$> vs), concat (snd <$> vs)).

Lemma plan_loop_verdicts records wall elapsed boot plan s :
  Forall (fun r => plannable (rec_job r)) records -> ts_ok wall -> elapsed_ok elapsed ->
  match plan_loop classify records wall elapsed boot plan s with
  | Ok (plan', _) => exists vs, Forall2 (verdict classify wall elapsed boot) records vs /\
                                plan' = plan_add plan (verdict_sum vs)
  | Err e => exists record, In record records /\ plan_refused wall elapsed record e
  end.
Proof.
  intros Hj Hw He. revert plan s. induction Hj as [|record records Hrec Hj IH]; intros plan s; simpl.
  - exists []. split; [constructor|]. by rewrite plan_add_nil.
  - pose proof (plan_record_verdict record wall elapsed boot plan s Hrec Hw He) as Hone.
    destruct (plan_record _ _ _ _ _ _ _) as [[plan1 s1]|e]; cbn [mbind result_bind]; [|by eauto].
    destruct Hone as ([[d p] a] & Hv & ->). specialize (IH (plan_add plan (d, p, a)) s1).
    destruct (plan_loop _ _ _ _ _ _ _) as [[plan2 s2]|e].
    + destruct IH as (vs & Hvs & ->). exists ((d, p, a) :: vs). split; [by constructor|].
      unfold verdict_sum. by rewrite plan_add_app.
    + destruct IH as (r & Hr & Href). eauto.
Qed.

#[local] Instance deadline_le_total : Total deadline_le.
Proof. intros a b. unfold deadline_le. lia. Qed.
#[local] Instance run_id_le_total : Total run_id_le.
Proof. intros a b. unfold run_id_le. lia. Qed.

Lemma plan_sorted_ok plan :
  Sorted deadline_le (plan_deadlines (plan_sorted plan)) /\ plan_deadlines (plan_sorted plan) ≡ₚ plan_deadlines plan /\
  Sorted run_id_le (plan_preserved (plan_sorted plan)) /\ plan_preserved (plan_sorted plan) ≡ₚ plan_preserved plan.
Proof.
  unfold plan_sorted. simpl.
  split_and!; first [by apply Sorted_merge_sort, _ | apply merge_sort_Permutation].
Qed.
End PlanLemmas.

(** The whole plan. *)
Lemma plan_recovery_verdicts {S} (classify : ProcessIdentitySnapshot -> S -> result str IdentityStatus * S) `{Jiff}
  records wall elapsed boot s :
  Forall (fun r => plannable (rec_job r)) records -> ts_ok wall -> elapsed_ok elapsed ->
  match plan_recovery classify records wall elapsed boot s with
  | Ok (plan, _) => boot <> [] /\ contains_nul boot = false /\
      exists vs, Forall2 (verdict classify wall elapsed boot) records vs /\
        plan_actions plan = concat (snd <$> vs) /\
        Sorted deadline_le (plan_deadlines plan) /\ plan_deadlines plan ≡ₚ concat ((fun v => v.1.1) <$> vs) /\
        Sorted run_id_le (plan_preserved plan) /\ plan_preserved plan ≡ₚ concat ((fun v => v.1.2) <$> vs)
  | Err RC_InvalidBootIdentity => boot = [] \/ contains_nul boot = true
  | Err e => exists record, In record records /\ plan_refused wall elapsed record e
  end.
Proof.
  intros Hj Hw He. unfold plan_recovery. destruct (is_empty boot || contains_nul boot) eqn:Eb.
  { apply orb_true_iff in Eb as [Eb|Eb]; [left; by destruct boot | by right]. }
  apply orb_false_iff in Eb as [Eb1 Eb2].
  pose proof (plan_loop_verdicts classify records wall elapsed boot plan_empty s Hj Hw He) as Hl.
  destruct (plan_loop _ _ _ _ _ _ _) as [[plan s']|e]; cbn [mbind result_bind].
  - destruct Hl as (vs & Hvs & ->). split; [by destruct boot|]. split; [done|].
    exists vs. split; [done|]. split; [done|]. apply plan_sorted_ok.
  - destruct Hl as (record & Hr & Href). destruct e; [done|eauto..].
Qed.

(** ** Properties *)

(** C13 (functional).  A startup plan, whatever the inspector answers and
    however its answers change: every loaded job gets exactly one verdict
    (its run is owned by a live monitor of this boot and is preserved; it is
    active without such a monitor and is interrupted; it keeps waiting for the
    exact remaining time; it runs now; it skips to its grid; or it is missed),
    the plan is the collection of these verdicts, its actions in the order of
    the records and its deadlines sorted by due time and identifier.  It fails
    only for an invalid boot identity, a terminal job, a waiting job with an
    active run, or a due time past the range of a clock. *)
Theorem plan_recovery_spec {S} (classify : ProcessIdentitySnapshot -> S -> result str IdentityStatus * S) `{Jiff}
  records wall elapsed boot s :
  Forall (fun r => plannable (rec_job r)) records -> ts_ok wall -> elapsed_ok elapsed ->
  match plan_recovery classify records wall elapsed boot s with
  | Ok (plan, _) => boot <> [] /\ contains_nul boot = false /\
      exists vs, Forall2 (verdict classify wall elapsed boot) records vs /\
        plan_actions plan = concat (snd <$> vs) /\
        Sorted deadline_le (plan_deadlines plan) /\ plan_deadlines plan ≡ₚ concat ((fun v => v.1.1) <$> vs) /\
        Sorted run_id_le (plan_preserved plan) /\ plan_preserved plan ≡ₚ concat ((fun v => v.1.2) <$> vs)
  | Err RC_InvalidBootIdentity => boot = [] \/ contains_nul boot = true
  | Err e => exists record, In record records /\ plan_refused wall elapsed record e
  end.
Proof. apply plan_recovery_verdicts. Qed.

(** ** Witnesses *)

Module ReconcileExample.
#[export] Existing Instance JiffModel.jiff.
(** A machine on which every process is alive; it counts the questions. *)
Definition alive (_ : ProcessIdentitySnapshot) (n : nat) : result str IdentityStatus * nat := (Ok IS_Alive, S n).
Definition overdue : RecoveryRecord :=
  mk_recovery_record (example_job 2 (50 * 10 ^ 9) JS_Waiting (100 * 10 ^ 9)) None.
Definition future : RecoveryRecord :=
  mk_recovery_record (example_job 2 (50 * 10 ^ 9) JS_Waiting (220 * 10 ^ 9)) None.
Definition running : RecoveryRecord :=
  mk_recovery_record (example_job 3 (50 * 10 ^ 9) JS_Running (100 * 10 ^ 9)) (Some example_run1).
Definition unclaimed : RecoveryRecord :=
  mk_recovery_record (example_job 3 (50 * 10 ^ 9) JS_Starting (100 * 10 ^ 9)) None.
Definition records0 : list RecoveryRecord := [future; overdue; running; unclaimed].
End ReconcileExample.
Import ReconcileExample.

Lemma example_records_ok : Forall (fun r => plannable (rec_job r)) records0.
Proof. do 4 (apply Forall_cons_2; [split; [by vm_compute|split; by vm_compute]|]). constructor. Qed.

Lemma plan_recovery_spec_witness :
  (Forall (fun r => plannable (rec_job r)) records0 /\ ts_ok (170 * 10 ^ 9) /\ elapsed_ok 1000) /\
  match plan_recovery alive records0 (170 * 10 ^ 9) 1000 (lit "boot") 0%nat with
  | Ok (plan, _) => lit "boot" <> [] /\ contains_nul (lit "boot") = false /\
      exists vs, Forall2 (verdict alive (170 * 10 ^ 9) 1000 (lit "boot")) records0 vs /\
        plan_actions plan = concat (snd <$> vs) /\
        Sorted deadline_le (plan_deadlines plan) /\ plan_deadlines plan ≡ₚ concat ((fun v => v.1.1) <$> vs) /\
        Sorted run_id_le (plan_preserved plan) /\ plan_preserved plan ≡ₚ concat ((fun v => v.1.2) <$> vs)
  | Err RC_InvalidBootIdentity => lit "boot" = [] \/ contains_nul (lit "boot") = true
  | Err e => exists record, In record records0 /\ plan_refused (170 * 10 ^ 9) 1000 record e
  end.
Proof.
  assert (ts_ok (170 * 10 ^ 9)) as Hw by (by vm_compute). assert (elapsed_ok 1000) as He by (by vm_compute).
  split; [exact (conj example_records_ok (conj Hw He))|].
  exact (plan_recovery_spec alive records0 _ _ (lit "boot") 0%nat example_records_ok Hw He).
Defined.

(** The plan itself: the overdue recurring job runs now and moves to its next
    grid point, the other one keeps its remaining 50 seconds, the running one
    is left to its monitor, the claimless one is interrupted. *)
Example plan_recovery_ex :
  plan_recovery alive records0 (170 * 10 ^ 9) 1000 (lit "boot") 0%nat =
  Ok (mk_plan
    [mk_recovered_deadline (mk_job_id 7) (100 * 10 ^ 9) 1000;
     mk_recovered_deadline (mk_job_id 7) (220 * 10 ^ 9) (1000 + 50 * 10 ^ 9)]
    [mk_run_id 1]
    [AdvanceRecurring (mk_job_id 7) 2 (220 * 10 ^ 9); Interrupt (mk_job_id 7) 3 None CF_Unknown], 2%nat).
Proof. vm_compute. reflexivity. Qed.
