(* ===== verification/Retention.v ===== *)
(** [src/infrastructure/sqlite/retention.rs]: log-truncation flags and the
    deletion of old history.

    Cutoffs are compared as text.  The texts of two timestamps are ordered as
    their seconds are; inside one second the comparison is not that of time
    ([1Z] comes after [1.5Z]).  The scan for orphan artifacts exists in test
    builds only. *)

From S2P Require Import Prelude Primitives Identifier States Recurrence Execution JobAgg RunAgg Sqlite JobStore RunStore.

Definition MAX_RETENTION_DAYS : Z := 3650.

Record RetentionPolicy := mk_retention_policy { history_days : Z; terminal_job_days : Z }.
Inductive RetentionError := RT_InvalidDays.

(** [RetentionPolicy::new], on [u16] values. *)
Definition retention_new (history terminal_job : Z) : result RetentionError RetentionPolicy :=
  if (history =? 0) || (MAX_RETENTION_DAYS <? history) || (terminal_job =? 0) || (MAX_RETENTION_DAYS <? terminal_job)
  then Err RT_InvalidDays else Ok (mk_retention_policy history terminal_job).

Record RetentionReport := mk_retention_report { rp_runs : nat; rp_jobs : nat; rp_transitions : nat }.

Definition bool_column (b : bool) : Z := if b then 1 else 0.

Definition truncation_row (stdout_truncated stderr_truncated : bool) (r : RunRow) : RunRow :=
  mk_run_row (rr_id r) (rr_job_id r) (rr_sequence r) (rr_scheduled_for r) (rr_created_at r)
    (rr_started_at r) (rr_finished_at r) (rr_state r) (rr_claim_token r) (rr_monitor_json r)
    (rr_command_json r) (rr_process_group r) (rr_exit_code r) (rr_signal r) (rr_failure r)
    (rr_outcome_json r) (rr_stdout_path r) (rr_stderr_path r)
    (bool_column stdout_truncated) (bool_column stderr_truncated).

Section Retention.
Context `{Serde}.

Definition record_log_truncation (id : RunId) (token : ClaimToken) (stdout_truncated stderr_truncated : bool)
  : Store unit :=
  changed ← execute map_write_error
    (update_runs (run_row_is id token) (truncation_row stdout_truncated stderr_truncated));
  if (changed =? 1)%nat then mret tt else fail SE_InvalidClaim.

Definition cutoff (now : UtcTimestamp) (days : Z) : result StoreError str :=
  seconds ← ok_or (checked (- 2 ^ 63) i64_max (days * (24 * 60 * 60)))
              (SE_Domain (RS_Message (lit "retention interval overflow")));
  timestamp ← ok_or (ts_checked_sub now (seconds * NANOS_PER_SECOND))
              (SE_Domain (RS_Message (lit "retention cutoff overflow")));
  Ok (ts_show timestamp).

(** The three WHERE clauses; a NULL compares as false. *)
Definition expired_run (cutoff : str) (r : RunRow) : bool :=
  text_in (rr_state r) terminal_run_states
  && match rr_finished_at r with Some finished => str_ltb finished cutoff | None => false end.
Definition expired_transition (cutoff : str) (t : TransitionRow) : bool := str_ltb (tw_occurred_at t) cutoff.
Definition expired_job (cutoff : str) (r : JobRow) : bool :=
  text_in (jr_state r) terminal_job_states && str_ltb (jr_updated_at r) cutoff.

Definition cleanup_retention (now : UtcTimestamp) (policy : RetentionPolicy) : Store RetentionReport :=
  history_cutoff ← lift (cutoff now (history_days policy));
  job_cutoff ← lift (cutoff now (terminal_job_days policy));
  transaction (
    runs ← execute map_write_error (delete_runs (expired_run history_cutoff));
    transitions ← execute map_write_error (delete_transitions (expired_transition history_cutoff));
    jobs ← execute map_write_error (delete_jobs (expired_job job_cutoff));
    mret (mk_retention_report runs jobs transitions)).
End Retention.

(** ** Lemmas: what a deletion leaves *)

(** The job of a row is deleted with that row's history. *)
Definition job_gone (p : JobRow -> bool) (db : Db) (id : str) : Prop :=
  exists j, In j (db_jobs db) /\ p j = true /\ jr_id j = id.

Lemma in_filter_negb {A} (p : A -> bool) x l : In x (List.filter (fun y => negb (p y)) l) <-> In x l /\ p x = false.
Proof. rewrite filter_In, negb_true_iff. done. Qed.

(** The same event, whose link to a deleted run may be cleared. *)
Definition same_event (t t' : TransitionRow) : Prop :=
  tw_job_id t' = tw_job_id t /\ tw_from t' = tw_from t /\ tw_to t' = tw_to t /\
  tw_occurred_at t' = tw_occurred_at t /\ tw_actor t' = tw_actor t /\ tw_reason t' = tw_reason t /\
  tw_revision t' = tw_revision t.

Lemma unlink_same_event gone runs t : same_event t (unlink_runs gone runs t).
Proof. unfold unlink_runs, same_event. by destruct (match tw_run_id t with Some _ => _ | None => _ end). Qed.

Lemma same_event_trans t1 t2 t3 : same_event t1 t2 -> same_event t2 t3 -> same_event t1 t3.
Proof. unfold same_event. intros (?&?&?&?&?&?&?) (?&?&?&?&?&?&?). split_and!; congruence. Qed.

(** The contents of the database after the three deletions. *)
Record cleaned (hc jc : str) (db db' : Db) : Prop := {
  cl_jobs : forall j, In j (db_jobs db') <-> In j (db_jobs db) /\ expired_job jc j = false;
  cl_runs : forall r, In r (db_runs db') <->
    In r (db_runs db) /\ expired_run hc r = false /\ ~ job_gone (expired_job jc) db (rr_job_id r);
  cl_kept : forall t', In t' (db_transitions db') ->
    exists t, In t (db_transitions db) /\ same_event t t' /\ expired_transition hc t = false /\
              ~ job_gone (expired_job jc) db (tw_job_id t);
  cl_history : forall t, In t (db_transitions db) -> expired_transition hc t = false ->
    ~ job_gone (expired_job jc) db (tw_job_id t) -> exists t', In t' (db_transitions db') /\ same_event t t'
}.

Lemma cascade_spec p db id :
  existsb (fun r => p r && bool_decide (jr_id r = id)) (db_jobs db) = true <-> job_gone p db id.
Proof.
  rewrite existsb_exists. unfold job_gone. setoid_rewrite andb_true_iff. setoid_rewrite bool_decide_eq_true. done.
Qed.

Lemma cascade_false p db id :
  existsb (fun r => p r && bool_decide (jr_id r = id)) (db_jobs db) = false <-> ~ job_gone p db id.
Proof. rewrite <- cascade_spec. by destruct (existsb _ _). Qed.

Lemma deletions_cleaned hc jc db n1 db1 n2 db2 n3 db3 :
  delete_runs (expired_run hc) db = Ok (n1, db1) ->
  delete_transitions (expired_transition hc) db1 = Ok (n2, db2) ->
  delete_jobs (expired_job jc) db2 = Ok (n3, db3) -> cleaned hc jc db db3.
Proof.
  intros [= _ <-] [= _ <-] [= _ <-].
  assert (forall t g runs, expired_transition hc (unlink_runs g runs t) = expired_transition hc t) as Hexp.
  { intros t g runs. unfold expired_transition. by destruct (unlink_same_event g runs t) as (_ & _ & _ & -> & _). }
  split; cbn.
  - intros j. apply in_filter_negb.
  - intros r. rewrite in_filter_negb, in_filter_negb, cascade_false. tauto.
  - intros t' (t2 & <- & Ht2%in_filter_negb)%in_map_iff. destruct Ht2 as [Ht2 Hgone%cascade_false].
    apply in_filter_negb in Ht2 as [(t & <- & Ht)%in_map_iff He]. rewrite Hexp in He.
    exists t. split_and!; try done; [eapply same_event_trans; apply unlink_same_event|].
    by destruct (unlink_same_event (expired_run hc) (db_runs db) t) as (<- & _).
  - intros t Ht He Hgone. eexists. split; [|eapply same_event_trans; apply unlink_same_event].
    apply in_map, in_filter_negb. split; [|apply cascade_false].
    + apply in_filter_negb. split; [by apply in_map | by rewrite Hexp].
    + by destruct (unlink_same_event (expired_run hc) (db_runs db) t) as (-> & _).
Qed.

Section Cleanup.
Context `{Serde}.

Lemma cutoff_ok now days c :
  0 <= days <= u16_max -> cutoff now days = Ok c ->
  ts_ok (now - days * 86400 * NANOS_PER_SECOND) /\ c = ts_show (now - days * 86400 * NANOS_PER_SECOND).
Proof.
  intros Hd. unfold cutoff. change u16_max with 65535 in Hd.
  intros (s & [-> _]%ok_or_ok%checked_Some & (t & [-> Ht]%ok_or_ok%checked_Some & [= <-])%bind_ok)%bind_ok.
  change (24 * 60 * 60) with 86400 in *. done.
Qed.

Lemma cleanup_inv now policy l w r w' :
  cleanup_retention now policy l w = (r, w') ->
  match r with
  | Ok report => exists hc jc, cutoff now (history_days policy) = Ok hc /\
      cutoff now (terminal_job_days policy) = Ok jc /\ cleaned hc jc (seen l w) (w_db w')
  | Err _ => w_db w' = w_db w \/ w_db w' = seen l w
  end.
Proof.
  intros Hr. apply lift_inv in Hr as [(hc & Hh & Hr)|[-> [e ->]]]; [|by left].
  apply lift_inv in Hr as [(jc & Hj & Hr)|[-> [e ->]]]; [|by left].
  apply transaction_inv in Hr. destruct r as [report|e]; [|by right].
  destruct Hr as (w0 & w1 & Hw0 & Hb & ->). exists hc, jc. split_and!; [done..|].
  apply store_bind_ok in Hb as (n1 & w2 & H1 & Hb). apply store_bind_ok in Hb as (n2 & w3 & H2 & Hb).
  apply store_bind_ok in Hb as (n3 & w4 & H3 & [= _ <-]).
  apply execute_ok in H1, H2, H3. rewrite seen_locked, ?Hw0 in *.
  by eapply deletions_cleaned.
Qed.
End Cleanup.

(** ** The order of timestamp texts *)

(** [jiff] prints a timestamp of the years 0 to 9999 as
    [YYYY-MM-DDThh:mm:ss[.fraction]Z]: texts of different seconds are ordered
    as the seconds. *)
Class TextOrder `{Jiff} := {
  year_zero : Z;
  text_order : forall a b, ts_ok a -> ts_ok b -> year_zero <= a -> year_zero <= b ->
    a / NANOS_PER_SECOND < b / NANOS_PER_SECOND -> str_ltb (ts_show a) (ts_show b) = true
}.

Lemma str_ltb_asym a b : str_ltb a b = true -> str_ltb b a = false.
Proof.
  revert b. induction a as [|x a IH]; intros [|y b]; try done. unfold str_ltb in *. simpl.
  destruct (Z.compare_spec x y) as [->|Hlt|Hgt].
  - rewrite Z.compare_refl. apply IH.
  - intros _. destruct (Z.compare_spec y x); [lia|lia|done].
  - done.
Qed.

(** ** Properties *)

(** C17 (functional).  Retention deletes, in one transaction, exactly the
    terminal runs that finished before the history cutoff, the transitions
    older than it, and the terminal jobs not updated since the job cutoff,
    with the whole history of those jobs; every other job, run and event
    stays, with at most its link to a deleted run cleared.  No live job and no
    live run of a kept job is ever deleted.  A failure deletes nothing. *)
Theorem cleanup_retention_spec `{Serde} now policy l w r w' :
  0 <= history_days policy <= u16_max -> 0 <= terminal_job_days policy <= u16_max ->
  cleanup_retention now policy l w = (r, w') ->
  match r with
  | Err _ => w_db w' = w_db w \/ w_db w' = seen l w
  | Ok report =>
      let hc := now - history_days policy * 86400 * NANOS_PER_SECOND in
      let jc := now - terminal_job_days policy * 86400 * NANOS_PER_SECOND in
      ts_ok hc /\ ts_ok jc /\ cleaned (ts_show hc) (ts_show jc) (seen l w) (w_db w') /\
      (forall j, In j (db_jobs (seen l w)) -> text_in (jr_state j) terminal_job_states = false ->
         In j (db_jobs (w_db w'))) /\
      (forall x, In x (db_runs (seen l w)) -> text_in (rr_state x) terminal_run_states = false ->
         (forall j, In j (db_jobs (seen l w)) -> jr_id j = rr_job_id x ->
            text_in (jr_state j) terminal_job_states = false) -> In x (db_runs (w_db w')))
  end.
Proof.
  intros Hh Hj Hr%cleanup_inv. destruct r as [report|e]; [|done].
  destruct Hr as (hc & jc & Hhc & Hjc & Hc). apply cutoff_ok in Hhc as [Hh' ->]; [|done].
  apply cutoff_ok in Hjc as [Hj' ->]; [|done]. cbv zeta. split_and!; [done..| |].
  - intros j Hin Hlive. apply (cl_jobs _ _ _ _ Hc). split; [done|]. unfold expired_job. by rewrite Hlive.
  - intros x Hin Hlive Hjobs. apply (cl_runs _ _ _ _ Hc). split_and!; [done|by unfold expired_run; rewrite Hlive|].
    intros (j & Hj1 & Hj2 & Hj3). unfold expired_job in Hj2. by rewrite (Hjobs j Hj1 Hj3) in Hj2.
Qed.

(** The window in time, where texts are ordered: a terminal run
    whose finish is a second or more before the history cutoff is deleted;
    one that finished in a later second than the cutoff's stays as long as its
    job does. *)
Theorem cleanup_retention_window `{Serde} `{!TextOrder} now policy l w report w' x finished :
  0 <= history_days policy <= u16_max -> 0 <= terminal_job_days policy <= u16_max ->
  cleanup_retention now policy l w = (Ok report, w') ->
  In x (db_runs (seen l w)) -> text_in (rr_state x) terminal_run_states = true ->
  rr_finished_at x = Some (ts_show finished) -> ts_ok finished -> year_zero <= finished ->
  let cut := now - history_days policy * 86400 * NANOS_PER_SECOND in
  year_zero <= cut ->
  (finished <= cut - NANOS_PER_SECOND -> ~ In x (db_runs (w_db w'))) /\
  (cut + NANOS_PER_SECOND <= finished ->
   (forall j, In j (db_jobs (w_db w')) <-> In j (db_jobs (seen l w))) -> In x (db_runs (w_db w'))).
Proof.
  intros Hh Hj Hr Hin Hterm Hfin Hok Hy cut Hcut. apply cleanup_inv in Hr as (hc & jc & Hhc & Hjc & Hc).
  apply cutoff_ok in Hhc as [Hcok ->]; [|done]. fold cut in Hc, Hcok.
  assert (NANOS_PER_SECOND = 1000000000) as Hn by done. split.
  - intros Hle (_ & Hno & _)%(cl_runs _ _ _ _ Hc). unfold expired_run in Hno. rewrite Hterm, Hfin in Hno.
    rewrite text_order in Hno; try done. rewrite Hn in *. clear -Hle. Z.to_euclidean_division_equations. lia.
  - intros Hle Hjobs. apply (cl_runs _ _ _ _ Hc). split_and!; [done| |].
    + unfold expired_run. rewrite Hterm, Hfin. apply str_ltb_asym, text_order; try done.
      rewrite Hn in *. clear -Hle. Z.to_euclidean_division_equations. lia.
    + intros (j & Hj1 & Hj2 & _). apply Hjobs in Hj1. apply (cl_jobs _ _ _ _ Hc) in Hj1 as [_ Hj1]. congruence.
Qed.

(** ** Witnesses *)

Module RetentionExample.
Export RunStoreExample.
#[export] Program Instance text_order_model : TextOrder := {| year_zero := - 62167219200 * 10 ^ 9 |}.
Next Obligation.
  intros a b _ _ _ _ Hlt. unfold str_ltb. simpl. unfold NANOS_PER_SECOND in Hlt.
  assert (a < b) as Hab%Z.compare_lt_iff by (Z.to_euclidean_division_equations; lia). by rewrite Hab.
Qed.
Definition policy0 : RetentionPolicy := mk_retention_policy 30 30.
Definition finished0 : UtcTimestamp := due0 + 20.
Definition finished_world : World := (finish finished0 running_world).2.
(** 31 days later. *)
Definition later : UtcTimestamp := due0 + 31 * 86400 * 10 ^ 9.
Definition cleanup (w : World) := cleanup_retention later policy0 false w.
End RetentionExample.
Import RetentionExample.

Lemma policy0_range : 0 <= history_days policy0 <= u16_max /\ 0 <= terminal_job_days policy0 <= u16_max.
Proof. by vm_compute. Qed.

Lemma cleanup_retention_spec_witness :
  exists report w', ((0 <= history_days policy0 <= u16_max /\ 0 <= terminal_job_days policy0 <= u16_max) /\
    cleanup finished_world = (Ok report, w')) /\
  let hc := later - history_days policy0 * 86400 * NANOS_PER_SECOND in
  let jc := later - terminal_job_days policy0 * 86400 * NANOS_PER_SECOND in
  ts_ok hc /\ ts_ok jc /\ cleaned (ts_show hc) (ts_show jc) (seen false finished_world) (w_db w') /\
  (forall j, In j (db_jobs (seen false finished_world)) -> text_in (jr_state j) terminal_job_states = false ->
     In j (db_jobs (w_db w'))) /\
  (forall x, In x (db_runs (seen false finished_world)) -> text_in (rr_state x) terminal_run_states = false ->
     (forall j, In j (db_jobs (seen false finished_world)) -> jr_id j = rr_job_id x ->
        text_in (jr_state j) terminal_job_states = false) -> In x (db_runs (w_db w'))).
Proof.
  destruct policy0_range as [H1 H2].
  assert (exists report w', cleanup finished_world = (Ok report, w')) as (report & w' & E)
    by (eexists _, _; vm_compute; reflexivity).
  exists report, w'. split; [exact (conj (conj H1 H2) E)|].
  pose proof (cleanup_retention_spec later policy0 false finished_world (Ok report) w') as X.
  specialize (X H1 H2 E). cbv beta iota in X. exact X.
Defined.

Lemma cleanup_retention_window_witness :
  exists report w' x,
    (cleanup finished_world = (Ok report, w') /\ In x (db_runs (seen false finished_world)) /\
     rr_finished_at x = Some (ts_show finished0)) /\
    let cut := later - history_days policy0 * 86400 * NANOS_PER_SECOND in
    (finished0 <= cut - NANOS_PER_SECOND -> ~ In x (db_runs (w_db w'))) /\
    (cut + NANOS_PER_SECOND <= finished0 ->
     (forall j, In j (db_jobs (w_db w')) <-> In j (db_jobs (seen false finished_world))) -> In x (db_runs (w_db w'))).
Proof.
  destruct policy0_range as [H1 H2].
  assert (ts_ok finished0) as H3 by (by vm_compute). assert (year_zero <= finished0) as H4 by (by vm_compute).
  assert (year_zero <= later - history_days policy0 * 86400 * NANOS_PER_SECOND) as H5 by (by vm_compute).
  assert (exists x, db_runs (seen false finished_world) = [x] /\ text_in (rr_state x) terminal_run_states = true /\
    rr_finished_at x = Some (ts_show finished0)) as (x & Hx & H6 & H7) by (eexists; vm_compute; done).
  assert (exists report w', cleanup finished_world = (Ok report, w')) as (report & w' & E)
    by (eexists _, _; vm_compute; reflexivity).
  assert (In x (db_runs (seen false finished_world))) as Hin by (rewrite Hx; by left).
  exists report, w', x. split; [exact (conj E (conj Hin H7))|].
  pose proof (cleanup_retention_window later policy0 false finished_world report w' x finished0) as X.
  specialize (X H1 H2 E Hin H6 H7 H3 H4 H5). exact X.
Defined.

(** One run and its job's history: the run goes, the live job stays. *)
Example cleanup_ex :
  (cleanup finished_world).1 = Ok (mk_retention_report 1 0 0) /\
  length (db_jobs (w_db (cleanup finished_world).2)) = 1%nat.
Proof. vm_compute. done. Qed.
