(* ===== verification/Progress.v ===== *)
(** The run store without interference: when no statement fails and nobody
    else writes, the updates of a run succeed and keep the table well formed.

    Needed for what the run monitor is there to achieve; the theorems of
    [RunStore] cover interference and failures. *)

From S2P Require Import Prelude Text Primitives Duration Identifier States Recurrence Execution JobAgg RunAgg.
From S2P Require Import Sqlite JobStore RunStore Reconcile Retention.

Section Progress.
Context `{Serde}.

(** The constraints of the table [runs]. *)
Record run_table_ok (db : Db) : Prop := {
  rt_unique : runs_unique (db_runs db);
  rt_checks : Forall (fun r => run_row_check r = true) (db_runs db)
}.

(** No statement of the program rewrites a key. *)
Definition keeps_keys (f : RunRow -> RunRow) : Prop :=
  forall r, rr_id (f r) = rr_id r /\ rr_job_id (f r) = rr_job_id r /\ rr_sequence (f r) = rr_sequence r /\
            rr_scheduled_for (f r) = rr_scheduled_for r /\ rr_claim_token (f r) = rr_claim_token r.

Lemma unique_row l (r s : RunRow) : runs_unique l -> r ∈ l -> s ∈ l -> rr_id r = rr_id s -> r = s.
Proof.
  intros Hu [i Hi]%list_elem_of_lookup [j Hj]%list_elem_of_lookup Hid.
  destruct (decide (i = j)) as [->|Hne]; [congruence|]. destruct (Hu _ _ _ _ Hi Hj Hne) as [Hd _]. done.
Qed.

Lemma runs_unique_map (p : RunRow -> bool) f l :
  keeps_keys f -> runs_unique l -> runs_unique (map (fun r => if p r then f r else r) l).
Proof.
  intros Hf Hu i j r s Hi Hj Hij. change (map ?g ?m) with (g <$> m) in Hi, Hj.
  apply list_lookup_fmap_Some in Hi as (r0 & -> & Hi). apply list_lookup_fmap_Some in Hj as (s0 & -> & Hj).
  pose proof (Hu _ _ _ _ Hi Hj Hij) as Hd.
  assert (forall x, let y := if p x then f x else x in rr_id y = rr_id x /\ rr_job_id y = rr_job_id x /\
    rr_sequence y = rr_sequence x /\ rr_scheduled_for y = rr_scheduled_for x /\ rr_claim_token y = rr_claim_token x) as Hkey.
  { intros x y. unfold y. destruct (p x); [apply Hf|done]. }
  unfold runs_distinct. destruct (Hkey r0) as (-> & -> & -> & -> & ->). destruct (Hkey s0) as (-> & -> & -> & -> & ->). done.
Qed.

Lemma find_run_Some id db row : find_run id db = Some row -> row ∈ db_runs db /\ rr_id row = run_id_to_string id.
Proof.
  unfold find_run. intros ([i r] & Hf & ->)%fmap_Some. apply list_find_Some in Hf as (Hr & Hid & _).
  split; [by eapply list_elem_of_lookup_2|done].
Qed.

Definition run_key (r : RunRow) : str * str * Z * str * list Z :=
  (rr_id r, rr_job_id r, rr_sequence r, rr_scheduled_for r, rr_claim_token r).

(** The jobs are untouched, and so is every run but that one; no key is. *)
Definition only_run (id : RunId) (db db' : Db) : Prop :=
  db_jobs db' = db_jobs db /\
  Forall2 (fun r r' => run_key r' = run_key r /\ (rr_id r <> run_id_to_string id -> r' = r)) (db_runs db) (db_runs db').

Lemma run_key_id r r' : run_key r' = run_key r -> rr_id r' = rr_id r.
Proof. unfold run_key. congruence. Qed.

Lemma only_run_trans id db1 db2 db3 : only_run id db1 db2 -> only_run id db2 db3 -> only_run id db1 db3.
Proof.
  intros [Hj1 H1] [Hj2 H2]. split; [congruence|]. revert H2. generalize (db_runs db3).
  induction H1 as [|r r' l l' [Hk Hr] _ IH]; intros l3 H3; [by apply Forall2_nil_inv_l in H3 as ->|].
  apply Forall2_cons_inv_l in H3 as (r3 & l3' & [Hk3 Hr3] & H3 & ->). constructor; [|by apply IH].
  split; [congruence|]. intros Hne. rewrite <- (Hr Hne). apply Hr3. by rewrite (run_key_id _ _ Hk).
Qed.

Lemma only_run_keys id db db' : only_run id db db' -> run_key <$> db_runs db' = run_key <$> db_runs db.
Proof. intros [_ Hf]. induction Hf as [|r r' l l' [Hk _] _ IH]; [done|]. rewrite !fmap_cons. by rewrite Hk, IH. Qed.

Lemma find_run_only id id' db db' :
  only_run id db db' -> run_id_to_string id' <> run_id_to_string id -> find_run id' db' = find_run id' db.
Proof.
  intros [_ Hf] Hne. unfold find_run. f_equal. induction Hf as [|r r' l l' [Hk Hr] _ IH]; [done|]. cbn [list_find].
  rewrite (run_key_id _ _ Hk). destruct (decide (rr_id r = run_id_to_string id')) as [E|_]; [|by rewrite IH].
  rewrite Hr; [done|]. congruence.
Qed.

Lemma update_progress id token guard f db row :
  run_table_ok db -> find_run id db = Some row -> rr_claim_token row = token_bytes token ->
  guard (rr_state row) = true -> run_row_check (f row) = true -> keeps_keys f ->
  exists db', update_runs (fun r => run_row_is id token r && guard (rr_state r)) f db = Ok (1%nat, db') /\
    run_table_ok db' /\ find_run id db' = Some (f row) /\ only_run id db db'.
Proof.
  intros [Hu Hchk] Hfind Htok Hg Hcheck Hkeys. set (p := fun r : RunRow => run_row_is id token r && guard (rr_state r)). destruct (find_run_Some _ _ _ Hfind) as [Hin Hid].
  assert (p row = true) as Hp by (unfold p, run_row_is; by rewrite Hid, Htok, Hg, !bool_decide_true).
  assert (forall r, r ∈ db_runs db -> p r = true -> r = row) as Honly.
  { intros r Hr [[Hrid%bool_decide_eq_true _]%andb_true_iff _]%andb_true_iff.
    apply (unique_row (db_runs db)); [done..|congruence]. }
  assert (forallb (fun r => negb (p r) || run_row_check (f r)) (db_runs db) = true) as Hall.
  { apply forallb_forall. intros r Hr%list_elem_of_In. destruct (p r) eqn:E; [|done]. by rewrite (Honly r Hr E). }
  assert (length (List.filter p (db_runs db)) = 1%nat) as Hone.
  { pose proof (unique_filter id token guard _ Hu) as Hle. fold p in Hle.
    assert (In row (List.filter p (db_runs db))) as Hf by (apply List.filter_In; split; [by apply list_elem_of_In|done]).
    destruct (List.filter p (db_runs db)) as [|? [|]]; simpl in *; [done|done|lia]. }
  unfold update_runs, update_rows. rewrite Hall, Hone. cbn [mbind result_bind]. eexists. split; [done|].
  cbn [set_runs db_jobs db_runs]. split; [split; cbn [set_runs db_runs]; [by apply runs_unique_map|]|split].
  - rewrite Forall_forall in *. intros r (r0 & -> & Hr)%list_elem_of_fmap. destruct (p r0) eqn:E; [|auto].
    by rewrite (Honly r0 Hr E).
  - unfold find_run in *. cbn [set_runs db_runs]. apply fmap_Some in Hfind as ([i r] & Hf & ->). simpl in *.
    apply list_find_Some in Hf as (Hi & _ & Hmin). apply fmap_Some. exists (i, f r). split; [|done].
    apply list_find_Some. change (map ?g ?m) with (g <$> m). split; [by rewrite list_lookup_fmap, Hi; simpl; rewrite Hp|].
    split; [by rewrite (proj1 (Hkeys r))|]. intros j y Hj Hlt. apply list_lookup_fmap_Some in Hj as (y0 & -> & Hj).
    specialize (Hmin _ _ Hj Hlt). destruct (p y0); [|done]. by rewrite (proj1 (Hkeys y0)).
  - split; [done|]. cbn [set_runs db_runs]. change (map ?g ?m) with (g <$> m). apply Forall2_fmap_r, Forall_Forall2_diag, Forall_forall.
    intros r _. unfold compose. destruct (p r) eqn:E; [|done]. split.
    + unfold run_key. by destruct (Hkeys r) as (-> & -> & -> & -> & ->).
    + intros Hne. unfold p, run_row_is in E. rewrite !andb_true_iff, bool_decide_eq_true in E. by destruct E as [[? _] _].
Qed.

Lemma update_runs_ext p q f db : (forall r, p r = q r) -> update_runs p f db = update_runs q f db.
Proof.
  intros Hpq. unfold update_runs, update_rows. do 2 f_equal.
  assert (forall l, List.filter p l = List.filter q l) as ->.
  { induction l as [|r l IH]; [done|]. simpl. by rewrite Hpq, IH. }
  assert (forallb (fun r => negb (p r) || run_row_check (f r)) (db_runs db) =
          forallb (fun r => negb (q r) || run_row_check (f r)) (db_runs db)) as ->.
  { induction (db_runs db) as [|r l IH]; [done|]. simpl. by rewrite Hpq, IH. }
  assert (map (fun r => if p r then f r else r) (db_runs db) = map (fun r => if q r then f r else r) (db_runs db)) as ->;
    [|done]. apply map_ext. intros r. by rewrite Hpq.
Qed.

(** One statement in a quiet world. *)
Definition quiet_world (db : Db) : World := mk_world db [].

Lemma execute_quiet {A} conv (f : Db -> result SqlFailure (A * Db)) l db a db' :
  f db = Ok (a, db') -> execute conv f l (quiet_world db) = (Ok a, quiet_world db').
Proof. intros Hf. unfold execute, seen. cbn. by rewrite Hf. Qed.
Lemma query_quiet {A} (f : Db -> result StoreError A) l db a :
  f db = Ok a -> query f l (quiet_world db) = (Ok a, quiet_world db).
Proof. intros Hf. unfold query, seen. cbn. by rewrite Hf. Qed.

(** A run and the row that stores it. *)
Definition stored_run (db : Db) (run : Run) : Prop :=
  exists row, find_run (run_id run) db = Some row /\ decode_run_row row = Ok run.

Lemma load_run_quiet db run l : stored_run db run ->
  load_run (run_id run) l (quiet_world db) = (Ok (Some run), quiet_world db).
Proof.
  intros (row & Hf & Hd). apply query_quiet. rewrite Hf. unfold decode_optional. by rewrite Hd.
Qed.

Lemma load_existing_quiet db run l : stored_run db run ->
  load_existing_run (run_id run) l (quiet_world db) = (Ok run, quiet_world db).
Proof. intros Hs. unfold load_existing_run, mbind, store_bind. by rewrite load_run_quiet. Qed.

Lemma stored_row db run row : find_run (run_id run) db = Some row -> decode_run_row row = Ok run ->
  rr_claim_token row = token_bytes (run_claim_token run) /\ rr_state row = encode_run_state (run_state run) /\
  row ∈ db_runs db.
Proof.
  intros Hf Hd%decode_run_row_ok. destruct Hd as (Hrow & _ & _).
  split_and!; [apply (rf_token _ _ Hrow)|apply (rf_state _ _ Hrow)|].
  by apply find_run_Some in Hf as [? _].
Qed.

(** The constraints of a row, field by field. *)
Lemma run_row_check_spec r :
  run_row_check r = true <->
  0 < rr_sequence r /\ text_in (rr_state r) run_states = true /\ length (rr_claim_token r) = 32%nat /\
  json_valid_opt (rr_monitor_json r) = true /\ json_valid_opt (rr_command_json r) = true /\
  json_valid_opt (rr_outcome_json r) = true /\ (rr_stdout_truncated r = 0 \/ rr_stdout_truncated r = 1) /\
  (rr_stderr_truncated r = 0 \/ rr_stderr_truncated r = 1) /\
  (is_some (rr_exit_code r) && is_some (rr_signal r) = false).
Proof.
  unfold run_row_check. rewrite !andb_true_iff, !orb_true_iff, !Z.eqb_eq, Z.ltb_lt, Nat.eqb_eq, negb_true_iff. tauto.
Qed.

Lemma mark_run_running_progress db run t m c out err running :
  run_table_ok db -> stored_run db run -> mark_running run t m c out err = Ok running ->
  ts_ok t -> i32_ok (process_group_id c) ->
  exists db', mark_run_running (run_id run) (run_claim_token run) t m c out err false (quiet_world db)
      = (Ok running, quiet_world db') /\
    run_table_ok db' /\ stored_run db' running /\ only_run (run_id run) db db'.
Proof.
  intros Hok Hst Hm Ht Hc. pose proof Hst as (row & Hf & Hd). pose proof Hm as Hmr.
  apply mark_running_ok in Hmr as (_ & _ & _ & _ & _ & Hstate & Hr).
  destruct (stored_row _ _ _ Hf Hd) as (Htok & Hrs & Hin). rewrite Hstate in Hrs.
  destruct (identity_json_law m) as (mj & Hmj & _ & Hmv). destruct (identity_json_law c) as (cj & Hcj & _ & Hcv).
  set (f := running_row (ts_show t) mj cj (Some (process_group_id c)) out err).
  assert (run_row_check (f row) = true) as Hcheck.
  { pose proof (rt_checks _ Hok) as Hall. rewrite Forall_forall in Hall. apply Hall, run_row_check_spec in Hin.
    apply run_row_check_spec. cbn. naive_solver. }
  destruct (update_progress (run_id run) (run_claim_token run) (fun s => bool_decide (s = lit "starting")) f db row)
    as (db' & Hu & Hok' & Hf' & Hj); [done..|by rewrite Hrs|done|done|].
  exists db'. unfold mark_run_running, mbind, store_bind. rewrite load_existing_quiet by done.
  unfold lift, verify_claim. rewrite bool_decide_true by done. rewrite Hm. cbn [map_err].
  assert (rs_monitor_identity (run_snapshot running) = Some m /\ rs_command_identity (run_snapshot running) = Some c)
    as [-> ->] by (by rewrite Hr).
  cbn [opt_identity_to_json]. rewrite Hmj, Hcj. cbn [corrupt map_err fmap option_fmap option_map].
  fold f. rewrite (execute_quiet _ _ _ _ _ _ Hu). cbn [Nat.eqb negb]. split; [done|]. split; [done|]. split; [|done].
  exists (f row). assert (run_id running = run_id run) as -> by (by rewrite Hr). split; [done|].
  destruct (decode_run_row_ok _ _ Hd) as (Hrow & Hsh & _).
  rewrite (decode_run_row_fields _ (run_snapshot running)) by (by eapply row_fields_running).
  apply corrupt_ok, run_rehydrate_snapshot. by eapply mark_running_decodes.
Qed.

Lemma outcome_columns_exclusive o : is_some (outcome_columns o).1.1 && is_some (outcome_columns o).1.2 = false.
Proof. by destruct o. Qed.

Lemma encode_run_state_valid s : text_in (encode_run_state s) run_states = true.
Proof. by destruct s. Qed.

Lemma record_run_terminal_progress db run t o completed :
  run_table_ok db -> stored_run db run -> with_outcome run t o = Ok completed -> ts_ok t ->
  columns_i32 (outcome_columns o) -> opt_Forall (fun started => started <= t) (run_started_at run) ->
  exists db', record_run_terminal (run_id run) (run_claim_token run) t o false (quiet_world db)
      = (Ok completed, quiet_world db') /\
    run_table_ok db' /\ stored_run db' completed /\ only_run (run_id run) db db'.
Proof.
  intros Hok Hst Hm Ht Hc Hclock. pose proof Hst as (row & Hf & Hd). pose proof Hm as Hmr.
  apply with_outcome_ok in Hmr as (Hno & _ & Hlegal & Hr).
  destruct (stored_row _ _ _ Hf Hd) as (Htok & Hrs & Hin).
  assert (run_is_terminal (run_state run) = false) as Hlive by (by destruct (run_state run)).
  assert (text_in (rr_state row) active_states = true) as Hactive by (rewrite Hrs; by destruct (run_state run)).
  destruct (outcome_json_law o) as (oj & Hoj & _ & Hov).
  set (f := terminal_row (ts_show t) (encode_run_state (outcome_state o)) (outcome_columns o) oj).
  assert (run_row_check (f row) = true) as Hcheck.
  { pose proof (rt_checks _ Hok) as Hall. rewrite Forall_forall in Hall. apply Hall, run_row_check_spec in Hin.
    pose proof (outcome_columns_exclusive o) as Hex. pose proof (encode_run_state_valid (outcome_state o)) as Hv.
    apply run_row_check_spec. unfold f, terminal_row. destruct (outcome_columns o) as [[ec sg] fl]. cbn in *. naive_solver. }
  assert (keeps_keys f) as Hkeys.
  { intros r. unfold f, terminal_row. by destruct (outcome_columns o) as [[? ?] ?]. }
  destruct (update_progress (run_id run) (run_claim_token run) (fun s => text_in s active_states) f db row)
    as (db' & Hu & Hok' & Hf' & Hj); [done..|].
  exists db'. unfold record_run_terminal, mbind, store_bind. rewrite load_existing_quiet by done.
  unfold lift, verify_claim. rewrite bool_decide_true, Hlive by done. rewrite Hm. cbn [map_err].
  assert (rs_outcome (run_snapshot completed) = Some o /\ rs_state (run_snapshot completed) = outcome_state o)
    as [-> ->] by (by rewrite Hr).
  cbn [ok_or]. rewrite Hoj. cbn [corrupt map_err]. fold f. rewrite (execute_quiet _ _ _ _ _ _ Hu).
  cbn [Nat.eqb negb]. split; [done|]. split; [done|]. split; [|done].
  exists (f row). assert (run_id completed = run_id run) as -> by (by rewrite Hr). split; [done|].
  destruct (decode_run_row_ok _ _ Hd) as (Hrow & Hsh & _).
  rewrite (decode_run_row_fields _ (run_snapshot completed)) by (by eapply row_fields_terminal).
  rewrite (run_outcome_decodes _ _ _ _ Hsh Hm). destruct (run_started_at run) as [started|]; [|done]. simpl in *.
  by destruct (Z.ltb_spec t started); [lia|].
Qed.

Lemma record_log_truncation_progress db run out err :
  run_table_ok db -> stored_run db run ->
  exists db', record_log_truncation (run_id run) (run_claim_token run) out err false (quiet_world db)
      = (Ok tt, quiet_world db') /\
    run_table_ok db' /\ stored_run db' run /\ only_run (run_id run) db db'.
Proof.
  intros Hok (row & Hf & Hd). destruct (stored_row _ _ _ Hf Hd) as (Htok & _ & Hin).
  assert (run_row_check (truncation_row out err row) = true) as Hcheck.
  { pose proof (rt_checks _ Hok) as Hall. rewrite Forall_forall in Hall. apply Hall, run_row_check_spec in Hin.
    apply run_row_check_spec. unfold truncation_row, bool_column. destruct out, err; cbn; naive_solver. }
  destruct (update_progress (run_id run) (run_claim_token run) (fun _ => true) (truncation_row out err) db row)
    as (db' & Hu & Hok' & Hf' & Hj); [done..|].
  exists db'. unfold record_log_truncation, mbind, store_bind.
  rewrite (execute_quiet map_write_error (update_runs (run_row_is (run_id run) (run_claim_token run)) (truncation_row out err))
    false db 1%nat db').
  2:{ rewrite <- Hu. apply update_runs_ext. intros r. by rewrite andb_true_r. }
  split; [done|]. split; [done|]. split; [|done]. exists (truncation_row out err row). split; [done|].
  rewrite <- Hd. reflexivity.
Qed.
End Progress.
