(* ===== verification/JobProgress.v ===== *)
(** The job store and the claim of a run without interference: when no
    statement fails and nobody else writes, a transition that the domain
    accepts is stored, a recurring job advances, and a fresh claim succeeds;
    the tables stay well formed.

    The counterpart of [Progress] for the other half of an execution. *)

From S2P Require Import Prelude Text Primitives Duration Identifier States Recurrence Execution JobAgg RunAgg.
From S2P Require Import Sqlite JobStore RunStore Reconcile Retention Progress.

(** ** Quiet transactions *)

Section Quiet.

Lemma bind_quiet {A B} (m : Store A) (k : A -> Store B) l db a db' :
  m l (quiet_world db) = (Ok a, quiet_world db') -> (m ≫= k) l (quiet_world db) = k a l (quiet_world db').
Proof. intros Hm. unfold mbind, store_bind. by rewrite Hm. Qed.

Lemma lift_quiet {A B} (a : A) (k : A -> Store B) l w : (lift (Ok a) ≫= k) l w = k a l w.
Proof. done. Qed.

Lemma execute_bind {A B} conv (f : Db -> result SqlFailure (A * Db)) (k : A -> Store B) l db a db' :
  f db = Ok (a, db') -> (execute conv f ≫= k) l (quiet_world db) = k a l (quiet_world db').
Proof. intros Hf. by apply bind_quiet, execute_quiet. Qed.

Lemma transaction_quiet {A} (body : Store A) l db a db' :
  body true (quiet_world db) = (Ok a, quiet_world db') ->
  transaction body l (quiet_world db) = (Ok a, quiet_world db').
Proof.
  intros Hb. unfold transaction, transaction_with. rewrite (execute_quiet _ nothing _ _ tt db eq_refl).
  erewrite bind_quiet by exact Hb. by rewrite (execute_bind _ nothing _ _ _ tt db' eq_refl).
Qed.
End Quiet.

Section Jobs.
Context `{Serde} `{ExecutionJson}.

(** The constraints of the table [jobs]. *)
Record job_table_ok (db : Db) : Prop := {
  jt_unique : NoDup (jr_id <$> db_jobs db);
  jt_checks : Forall (fun r => job_row_check r = true) (db_jobs db)
}.

(** A job and the row that stores it. *)
Definition stored_job (db : Db) (job : Job) : Prop :=
  exists row, find_job (job_id job) db = Some row /\ decode_job_row row = Ok job.

Lemma stored_job_inv db job : stored_job db job ->
  exists l1 row l2, find_job (job_id job) db = Some row /\ row_decodes row job /\ db_jobs db = l1 ++ row :: l2 /\
    jr_id row = job_id_to_string (job_id job) /\ Forall (fun r => jr_id r <> job_id_to_string (job_id job)) l1.
Proof.
  intros (row & Hf & Hd%decode_job_row_ok). destruct (find_job_split _ _ _ Hf) as (l1 & l2 & Hl & Hid & Hl1).
  by exists l1, row, l2.
Qed.

Lemma stored_job_revision db job : stored_job db job -> counter_ok (job_revision job).
Proof. by intros (row & _ & [<- ?]%decode_job_row_ok%rd_revision). Qed.

Lemma load_job_quiet db job l : stored_job db job ->
  load_job (job_id job) l (quiet_world db) = (Ok (Some job), quiet_world db).
Proof. intros (row & Hf & Hd). apply query_quiet. rewrite Hf. unfold decode_optional. by rewrite Hd. Qed.

Lemma load_existing_job_quiet db job l : stored_job db job ->
  load_existing (job_id job) l (quiet_world db) = (Ok job, quiet_world db).
Proof. intros Hs. unfold load_existing. by rewrite (bind_quiet _ _ _ _ _ _ (load_job_quiet _ _ _ Hs)). Qed.

Lemma stored_job_exists db job : stored_job db job -> job_exists db (job_id_to_string (job_id job)) = true.
Proof.
  intros (l1 & row & l2 & _ & _ & Hl & Hid & _)%stored_job_inv. unfold job_exists. rewrite Hl.
  apply existsb_exists. exists row. split; [apply in_or_app; right; by left|]. by apply bool_decide_eq_true.
Qed.

(** The keys are unique, so the guard of an update selects one row. *)
Lemma job_guard_one l1 row l2 id revision (f : JobRow -> JobRow) :
  NoDup (jr_id <$> l1 ++ row :: l2) -> jr_id row = job_id_to_string id -> jr_revision row = revision ->
  List.filter (job_row_is id revision) (l1 ++ row :: l2) = [row] /\
  map (fun r => if job_row_is id revision r then f r else r) (l1 ++ row :: l2) = l1 ++ f row :: l2.
Proof.
  intros Hnd Hid Hrev. rewrite fmap_app, fmap_cons in Hnd. apply NoDup_app in Hnd as (_ & Hl1 & [Hl2 _]%NoDup_cons).
  assert (forall r, In r l1 \/ In r l2 -> job_row_is id revision r = false) as Hno.
  { intros r Hr. unfold job_row_is. apply andb_false_iff. left. apply bool_decide_eq_false. intros E.
    destruct Hr as [Hr|Hr]; apply list_elem_of_In in Hr.
    - apply (Hl1 (jr_id r)); [apply list_elem_of_fmap; eauto|]. rewrite Hid, <- E. by left.
    - apply Hl2. rewrite Hid, <- E. apply list_elem_of_fmap; eauto. }
  assert (job_row_is id revision row = true) as Hyes.
  { unfold job_row_is. rewrite Hid, bool_decide_true by done. by apply Z.eqb_eq. }
  assert (forall l, (forall r, In r l -> job_row_is id revision r = false) ->
    List.filter (job_row_is id revision) l = [] /\ map (fun r => if job_row_is id revision r then f r else r) l = l) as Hskip.
  { clear. induction l as [|r l IH]; intros Hl; [done|]. simpl. rewrite (Hl r) by (by left).
    destruct IH as [-> ->]; [|done]. intros r' ?. apply Hl. by right. }
  destruct (Hskip l1) as [Ef1 Em1]; [auto|]. destruct (Hskip l2) as [Ef2 Em2]; [auto|].
  rewrite List.filter_app, map_app. cbn [List.filter map]. by rewrite Hyes, Ef1, Ef2, Em1, Em2.
Qed.

(** The common end of the two updates: the row of the job is rewritten and the
    audit row appended. *)
Lemma save_transition_progress db job row job' t now due :
  job_table_ok db -> find_job (job_id job) db = Some row -> row_decodes row job ->
  job_revision job' <= i64_max -> job_revision job <= i64_max -> 0 < job_revision job' -> reason_ok (tr_reason t) = true ->
  let row' := job_row_update (job_revision job') (job_state_text (job_state job')) (ts_show now) (ts_show <$> due) row in
  exists db', save_transition (job_id job) (job_revision job) job' t now due true (quiet_world db) = (Ok tt, quiet_world db') /\
    job_table_ok db' /\ find_job (job_id job) db' = Some row' /\ db_runs db' = db_runs db.
Proof.
  intros [Hnd Hchk] Hf Hrow Hmax' Hmax Hpos Hreason row'. destruct (find_job_split _ _ _ Hf) as (l1 & l2 & Hl & Hid & Hl1).
  set (db1 := set_jobs db (l1 ++ row' :: l2)).
  assert (job_row_check row' = true) as Hcheck.
  { rewrite Forall_forall in Hchk. specialize (Hchk row). rewrite Hl in Hchk. specialize (Hchk ltac:(set_solver)).
    unfold job_row_check, row' in *. cbn. rewrite !andb_true_iff in *.
    destruct Hchk as [[[[[[[_ _] ?] ?] ?] ?] ?] ?]. split_and!; try done; [by apply Z.ltb_lt|by destruct (job_state job')]. }
  rewrite Hl in Hnd.
  destruct (job_guard_one l1 row l2 (job_id job) (job_revision job)
    (job_row_update (job_revision job') (job_state_text (job_state job')) (ts_show now) (ts_show <$> due)) Hnd Hid)
    as [Hfilter Hmap]; [by destruct (rd_revision _ _ Hrow)|].
  assert (update_jobs (job_row_is (job_id job) (job_revision job))
    (job_row_update (job_revision job') (job_state_text (job_state job')) (ts_show now) (ts_show <$> due)) db = Ok (1%nat, db1)) as Hu.
  { unfold update_jobs, update_rows. rewrite Hl, Hfilter, Hmap. 
    assert (forallb (fun r => negb (job_row_is (job_id job) (job_revision job) r) || job_row_check
      (job_row_update (job_revision job') (job_state_text (job_state job')) (ts_show now) (ts_show <$> due) r)) (l1 ++ row :: l2) = true) as ->.
    { apply forallb_forall. intros r Hr. destruct (job_row_is _ _ r) eqn:E; [|done]. cbn [negb orb].
      assert (In r (List.filter (job_row_is (job_id job) (job_revision job)) (l1 ++ row :: l2))) as Hin by (by apply List.filter_In).
      rewrite Hfilter in Hin. destruct Hin as [<-|[]]. exact Hcheck. }
    done. }
  set (audit := mk_transition_row (job_id_to_string (job_id job)) None (job_state_text (tr_from t)) (job_state_text (tr_to t))
     (ts_show now) (actor_text (tr_actor t)) (tr_reason t) (job_revision job')).
  assert (insert_transition audit db1 = Ok (1%nat, set_transitions db1 (db_transitions db1 ++ [audit]))) as Hi.
  { unfold insert_transition, reason_ok in *. cbn [audit tw_reason tw_revision tw_job_id tw_run_id].
    assert (job_exists db1 (job_id_to_string (job_id job)) = true) as ->.
    { unfold job_exists. apply existsb_exists. exists row'. split; [apply in_or_app; right; by left|]. by apply bool_decide_eq_true. }
    rewrite (proj2 (Z.ltb_lt _ _) Hpos), !andb_true_r. rewrite negb_orb in Hreason. apply andb_true_iff in Hreason as [-> ->]. done. }
  exists (set_transitions db1 (db_transitions db1 ++ [audit])).
  unfold save_transition. rewrite (proj2 (to_sql_u64_ok _ _) (conj eq_refl Hmax')), lift_quiet.
  rewrite (proj2 (to_sql_u64_ok _ _) (conj eq_refl Hmax)), lift_quiet.
  rewrite (execute_bind _ _ _ _ _ _ _ Hu). cbn [Nat.eqb negb]. fold audit. rewrite (execute_bind _ _ _ _ _ _ _ Hi).
  split; [done|]. split; [split|split; [|done]].
  - cbn [set_transitions set_jobs db_jobs db1]. rewrite fmap_app, fmap_cons in *. exact Hnd.
  - cbn [set_transitions set_jobs db_jobs db1]. rewrite Hl in Hchk. rewrite Forall_app, Forall_cons in *. naive_solver.
  - by apply find_job_app.
Qed.

(** The two transactions, with the step of the domain. *)
Lemma guarded_update_progress db job now (step : Job -> result StoreError (Job * Transition JobState))
    (due : Job -> option UtcTimestamp) job' t :
  job_table_ok db -> stored_job db job -> step job = Ok (job', t) -> job_revision job' <= i64_max ->
  0 < job_revision job' -> job_revision job <= i64_max -> reason_ok (tr_reason t) = true ->
  job_id job' = job_id job ->
  (forall row, row_decodes row job ->
     row_decodes (job_row_update (job_revision job') (job_state_text (job_state job')) (ts_show now) (ts_show <$> due job') row) job') ->
  exists db', transaction (
      job' ← load_existing (job_id job);
      if negb (job_revision job' =? job_revision job) then fail SE_Conflict else
      '(job', t) ← lift (step job');
      _ ← save_transition (job_id job) (job_revision job) job' t now (due job');
      mret job') false (quiet_world db) = (Ok job', quiet_world db') /\
    job_table_ok db' /\ stored_job db' job' /\ db_runs db' = db_runs db.
Proof.
  intros Hok Hst Hstep Hmax' Hpos Hmax Hreason Hid Hrow'. pose proof Hst as (row & Hf & Hd%decode_job_row_ok).
  destruct (save_transition_progress db job row job' t now (due job') Hok Hf Hd Hmax' Hmax Hpos Hreason)
    as (db' & Hs & Hok' & Hf' & Hruns).
  exists db'. split; [|split; [done|]; split; [|done]].
  - apply transaction_quiet. rewrite (bind_quiet _ _ _ _ _ _ (load_existing_job_quiet _ _ _ Hst)).
    rewrite Z.eqb_refl. cbn [negb]. rewrite Hstep, lift_quiet. by rewrite (bind_quiet _ _ _ _ _ _ Hs).
  - eexists. rewrite Hid. split; [exact Hf'|]. by apply decode_job_row_ok, Hrow'.
Qed.

Lemma transition_job_progress db job to recurring actor reason now :
  job_table_ok db -> stored_job db job -> ts_ok now -> job_updated_at job <= now -> job_revision job + 1 <= i64_max ->
  job_one_shot_legal (job_state job) to || recurring && job_recurring_legal (job_state job) to = true ->
  reason_ok reason = true ->
  let job' := job_set_state job (job_revision job + 1) to now in
  exists db', transition_job (job_id job) (job_revision job) to recurring actor reason now false (quiet_world db)
      = (Ok job', quiet_world db') /\
    job_table_ok db' /\ stored_job db' job' /\ db_runs db' = db_runs db.
Proof.
  intros Hok Hst Hn Hle Hmax Hlegal Hreason job'. pose proof (stored_job_revision _ _ Hst) as Hc. unfold counter_ok in Hc.
  assert (i64_max < u64_max) as Hlt by (vm_compute; done).
  assert (job_do_transition job to recurring actor reason now = Ok (job', mk_transition (job_state job) to actor reason)) as Hstep.
  { apply job_do_transition_ok. split; [done|]. split.
    - unfold job_transition. apply transition_ok. by rewrite Hlegal, Hreason.
    - exists (job_revision job + 1). split; [|done]. rewrite revision_next_spec by done.
      destruct (Z.eqb_spec (job_revision job) u64_max); [lia|done]. }
  apply (guarded_update_progress db job now
    (fun job => map_err (fun e => SE_Domain (RS_JobError e)) (job_do_transition job to recurring actor reason now))
    (fun _ => None) job' (mk_transition (job_state job) to actor reason)); try done.
  - by rewrite Hstep.
  - simpl. lia.
  - lia.
  - intros row Hrow. apply row_decodes_update; [done..|]. unfold counter_ok. lia.
Qed.

Lemma advance_recurring_progress db job interval anchor next now :
  job_table_ok db -> stored_job db job -> ts_ok now -> job_updated_at job <= now -> job_revision job + 1 <= i64_max ->
  job_schedule job = RecurringInterval interval anchor -> next_fixed_rate_utc anchor now interval = Ok next -> ts_ok next ->
  job_recurring_legal (job_state job) JS_Waiting = true ->
  let job' := job_set_next_due (job_set_state job (job_revision job + 1) JS_Waiting now) next in
  exists db', advance_recurring_job (job_id job) (job_revision job) now false (quiet_world db) = (Ok job', quiet_world db') /\
    job_table_ok db' /\ stored_job db' job' /\ db_runs db' = db_runs db.
Proof.
  intros Hok Hst Hn Hle Hmax Hsched Hnext Hts Hlegal job'. pose proof (stored_job_revision _ _ Hst) as Hc. unfold counter_ok in Hc.
  assert (i64_max < u64_max) as Hlt by (vm_compute; done).
  set (t := mk_transition (job_state job) JS_Waiting TA_Monitor (lit "next fixed-rate occurrence")).
  assert (job_advance_recurring job TA_Monitor (lit "next fixed-rate occurrence") now = Ok (job', t)) as Hstep.
  { apply job_advance_recurring_ok. exists interval, anchor, next, (job_set_state job (job_revision job + 1) JS_Waiting now).
    split_and!; try done. apply job_do_transition_ok. split; [done|]. split.
    - unfold job_transition. apply transition_ok. split_and!; [|done|done]. cbn [andb]. by rewrite Hlegal, orb_true_r.
    - exists (job_revision job + 1). split; [|done]. rewrite revision_next_spec by done.
      destruct (Z.eqb_spec (job_revision job) u64_max); [lia|done]. }
  apply (guarded_update_progress db job now
    (fun job => map_err (fun e => SE_Domain (RS_JobError e)) (job_advance_recurring job TA_Monitor (lit "next fixed-rate occurrence") now))
    (fun job => Some (job_next_due job)) job' t); try done.
  - by rewrite Hstep.
  - simpl. lia.
  - lia.
  - intros row Hrow. apply row_decodes_advance; [done..|]. unfold counter_ok. lia.
Qed.
End Jobs.

(** ** The claim of a run *)

Section ClaimProgress.
Context `{Serde}.

Lemma last_sequence_max job db x :
  In x (db_runs db) -> rr_job_id x = job_id_to_string job -> rr_sequence x <= last_sequence job db.
Proof.
  intros Hin Hj. unfold last_sequence. set (l := List.filter _ _).
  assert (In x l) as Hl by (apply List.filter_In; split; [done|by apply bool_decide_eq_true]). clearbody l.
  induction l as [|y l IH]; [done|]. cbn [fmap list_fmap foldr]. destruct Hl as [->|Hl]; [lia|]. specialize (IH Hl). cbn [fmap list_fmap foldr] in IH. etrans; [exact IH|apply Z.le_max_r].
Qed.

(** The identifier and the token are drawn at random: no run has them. *)
Definition fresh_claim (db : Db) (fresh : RunId) (token : list Z) : Prop :=
  uuid_ok (run_uuid fresh) /\ length token = 32%nat /\
  Forall (fun x => rr_id x <> run_id_to_string fresh /\ rr_claim_token x <> token) (db_runs db).

(** The key of the row that a claim inserts. *)
Definition claim_key (run : Run) : str * str * Z * str * list Z :=
  (run_id_to_string (run_id run), job_id_to_string (run_job_id run), run_sequence run, ts_show (run_scheduled_for run),
   token_bytes (run_claim_token run)).

Lemma find_run_app id db db' row row' :
  find_run id db = Some row -> db_runs db' = db_runs db ++ [row'] -> find_run id db' = Some row.
Proof.
  unfold find_run. intros ([i r] & Hf & ->)%fmap_Some ->. apply fmap_Some. exists (i, r). split; [|done].
  by apply list_find_app_Some; left.
Qed.

Lemma claim_run_progress db fresh token job due now :
  run_table_ok db -> job_exists db (job_id_to_string job) = true -> uuid_ok (job_uuid job) -> ts_ok due -> ts_ok now ->
  occurrence_claimed job due db = false -> last_sequence job db + 1 <= i64_max -> fresh_claim db fresh token ->
  let run := run_new fresh job (last_sequence job db + 1) due now (mk_claim_token token) in
  exists db', claim_run fresh (Ok token) job due now false (quiet_world db) = (Ok run, quiet_world db') /\
    run_table_ok db' /\ stored_run db' run /\ db_jobs db' = db_jobs db /\
    exists row, db_runs db' = db_runs db ++ [row] /\ run_key row = claim_key run.
Proof.
  intros [Hu Hchk] Hex Hj Hd Hn Hfree Hmax (Hf & Hlen & Hfresh) run.
  pose proof (last_sequence_nonneg job db) as H0s. assert (i64_max < u64_max) as Hlt by (vm_compute; done).
  set (row := claim_row (run_snapshot run) (last_sequence job db + 1)).
  assert (run_row_check row = true) as Hcheck.
  { apply run_row_check_spec. assert (0 < last_sequence job db + 1) as Hpos by lia. unfold row. clear -Hpos Hlen.
    revert Hpos. generalize (last_sequence job db + 1). intros z Hpos. cbn. split_and!; try done; by left. }
  assert (run_row_unique (db_runs db) row = true) as Huniq.
  { apply run_row_unique_spec. rewrite Forall_forall in *. intros x Hx. destruct (Hfresh x Hx) as [Hxi Hxt].
    unfold runs_distinct. cbn. split_and!; [done..|]. intros Hxj. apply list_elem_of_In in Hx. split.
    - pose proof (last_sequence_max job db x Hx Hxj). lia.
    - intros E. revert Hfree. apply not_false_iff_true. unfold occurrence_claimed. apply existsb_exists. exists x.
      split; [done|]. by rewrite !bool_decide_true. }
  set (db' := set_runs db (db_runs db ++ [row])).
  assert (insert_run row db = Ok (1%nat, db')) as Hi.
  { unfold insert_run. change (rr_job_id row) with (job_id_to_string job). by rewrite Hcheck, Huniq, Hex. }
  exists db'. split; [|split; [|split; [|split; [done|]]]].
  - apply transaction_quiet. rewrite (execute_bind _ _ _ _ _ (occurrence_claimed job due db) db eq_refl), Hfree.
    rewrite (execute_bind _ _ _ _ _ (last_sequence job db) db eq_refl).
    rewrite checked_in by lia. cbn [mbind option_bind]. rewrite checked_in by lia. cbn [ok_or]. rewrite lift_quiet.
    assert (sequence_new (last_sequence job db + 1) = Ok (last_sequence job db + 1)) as -> by (apply counter_new_ok; lia).
    cbn [map_err]. rewrite !lift_quiet. fold run. cbn [run_snapshot rs_sequence run run_new run_sequence].
    rewrite (proj2 (to_sql_u64_ok _ _) (conj eq_refl Hmax)), lift_quiet. fold row.
    by rewrite (execute_bind _ _ _ _ _ _ _ Hi).
  - split; cbn [db' set_runs db_runs].
    + apply runs_unique_app; [done|]. by apply run_row_unique_spec.
    + apply Forall_app. by rewrite Forall_singleton.
  - exists row. split.
    + unfold find_run. cbn [db' set_runs db_runs]. rewrite list_find_app_r; [done| |done].
      eapply Forall_impl; [exact Hfresh|]. intros x [? _]. done.
    + rewrite (decode_run_row_fields _ (run_snapshot run)).
      * apply corrupt_ok, run_rehydrate_snapshot. split; [apply run_new_shape|done].
      * apply claim_row_fields; try done. unfold counter_ok. lia.
  - by exists row.
Qed.
End ClaimProgress.
