(* ===== verification/Recovery.v ===== *)
(** [src/infrastructure/sqlite/reconcile.rs] and [reconcile_startup] of
    [src/application/reconcile.rs]: startup recovery against the database.

    Loading is two queries without a transaction; the actions of a plan are
    applied in one transaction. *)

From S2P Require Import Prelude Text Primitives Duration Identifier States Recurrence Execution JobAgg RunAgg.
From S2P Require Import Sqlite JobStore RunStore Reconcile Retention.

Definition MAX_RECOVERY_RECORDS : Z := 100000.

Definition nonterminal_job_states : list str := [lit "scheduled"; lit "waiting"] ++ active_states.
Definition waiting_job_states : list str := [lit "scheduled"; lit "waiting"].

(** [interruption_reason] *)
Definition interruption_reason (fate : CommandFate) : str :=
  match fate with
  | CF_Alive => lit "run monitor disappeared while command remains alive"
  | CF_Dead => lit "run monitor and command are no longer alive"
  | CF_Changed => lit "stored process identity no longer matches"
  | CF_Unknown => lit "run outcome and process identity are unknown"
  end.
Definition missed_reason : str := lit "deadline passed while no supervisor owned the job".

(** [revision_i64] *)
Definition revision_i64 (revision : Revision) : result StoreError Z :=
  ok_or (checked (- 2 ^ 63) i64_max revision) (SE_Corrupt (RS_Message (lit "revision exceeds SQLite i64"))).

(** [next_revision] *)
Definition next_revision_i64 (revision : Revision) : result StoreError Z :=
  next ← map_err (fun e => SE_Domain (RS_PrimitiveError e)) (revision_next revision);
  revision_i64 next.

Definition interrupted_row (now reason outcome_json : str) (r : RunRow) : RunRow :=
  mk_run_row (rr_id r) (rr_job_id r) (rr_sequence r) (rr_scheduled_for r) (rr_created_at r)
    (rr_started_at r) (Some now) (lit "interrupted") (rr_claim_token r) (rr_monitor_json r)
    (rr_command_json r) (rr_process_group r) (rr_exit_code r) (rr_signal r) (Some reason) (Some outcome_json)
    (rr_stdout_path r) (rr_stderr_path r) (rr_stdout_truncated r) (rr_stderr_truncated r).

(** [UPDATE jobs SET revision, updated_at_utc, next_due_utc] *)
Definition advanced_row (revision : Z) (now next_due : str) (r : JobRow) : JobRow :=
  job_row_update revision (jr_state r) now (Some next_due) r.

Section Recovery.
Context `{Serde} `{ExecutionJson}.

(** The loop over the active runs, with the errors as they are before
    [map_read_error] ([query] applies it; it keeps [Corrupt]). *)
Fixpoint active_runs_loop (rows : list RunRow) (active : gmap JobId Run) : result StoreError (gmap JobId Run) :=
  match rows with
  | [] => Ok active
  | row :: rows =>
    run ← decode_run_row row;
    if is_some (active !! run_job_id run)
    then Err (SE_Corrupt (RS_Message (lit "job has more than one active run"))) else
    let active := <[run_job_id run := run]> active in
    if MAX_RECOVERY_RECORDS <? Z.of_nat (size active)
    then Err (SE_Corrupt (RS_Message (lit "too many active runs to reconcile"))) else
    active_runs_loop rows active
  end.

Fixpoint jobs_loop (rows : list JobRow) (active : gmap JobId Run) (records : list RecoveryRecord)
  : result StoreError (list RecoveryRecord * gmap JobId Run) :=
  match rows with
  | [] => Ok (records, active)
  | row :: rows =>
    job ← decode_job_row row;
    let records := records ++ [mk_recovery_record job (active !! job_id job)] in
    if MAX_RECOVERY_RECORDS <? len records
    then Err (SE_Corrupt (RS_Message (lit "too many jobs to reconcile"))) else
    jobs_loop rows (delete (job_id job) active) records
  end.

Definition select_active_runs (db : Db) : list RunRow :=
  limit (MAX_RECOVERY_RECORDS + 1) (List.filter (fun r => text_in (rr_state r) active_states) (db_runs db)).
Definition select_nonterminal_jobs (db : Db) : list JobRow :=
  limit (MAX_RECOVERY_RECORDS + 1)
    (order_by jr_id (List.filter (fun r => text_in (jr_state r) nonterminal_job_states) (db_jobs db))).

Definition load_nonterminal : Store (list RecoveryRecord) :=
  active ← query (fun db => active_runs_loop (select_active_runs db) ∅);
  '(records, active) ← query (fun db => jobs_loop (select_nonterminal_jobs db) active []);
  if negb (bool_decide (active = ∅))
  then fail (SE_Corrupt (RS_Message (lit "active run belongs to a terminal or missing job")))
  else mret records.

Definition job_in_state (id : JobId) (revision : Z) (state : str) (r : JobRow) : bool :=
  job_row_is id revision r && bool_decide (jr_state r = state).

(** [transition_job] of this file. *)
Definition recover_transition (id : JobId) (expected : Revision) (target : str) (now : UtcTimestamp)
  (reason : str) (allowed : list str) : Store unit :=
  expected_sql ← lift (revision_i64 expected);
  current ← query (fun db => Ok (jr_state <$> List.find (job_row_is id expected_sql) (db_jobs db)));
  current ← lift (ok_or current SE_Conflict);
  if negb (text_in current allowed) then fail SE_Conflict else
  revision ← lift (next_revision_i64 expected);
  changed ← execute map_write_error
    (update_jobs (job_in_state id expected_sql current) (job_row_update revision target (ts_show now) None));
  if negb (changed =? 1)%nat then fail SE_Conflict else
  _ ← execute map_write_error
    (insert_transition (mk_transition_row (job_id_to_string id) None current target (ts_show now)
       (lit "recovery") reason revision));
  mret tt.

(** One iteration of the loop of [apply_recovery]. *)
Definition apply_action (now : UtcTimestamp) (action : RecoveryAction) : Store unit :=
  match action with
  | Interrupt id expected run fate =>
    let reason := interruption_reason fate in
    _ ← match run with
        | Some (run_id, token) =>
          outcome_json ← lift (corrupt RS_Json (outcome_to_json (RO_Interrupted reason)));
          changed ← execute map_write_error
            (update_runs (fun r => run_row_is run_id token r && text_in (rr_state r) active_states)
               (interrupted_row (ts_show now) reason outcome_json));
          if negb (changed =? 1)%nat then fail SE_Conflict else mret tt
        | None => mret tt
        end;
    recover_transition id expected (lit "interrupted") now reason active_states
  | MarkMissed id expected =>
    recover_transition id expected (lit "missed") now missed_reason waiting_job_states
  | AdvanceRecurring id expected next_due =>
    next_revision ← lift (next_revision_i64 expected);
    expected_sql ← lift (revision_i64 expected);
    changed ← execute map_write_error
      (update_jobs (fun r => job_row_is id expected_sql r && text_in (jr_state r) waiting_job_states)
         (advanced_row next_revision (ts_show now) (ts_show next_due)));
    if negb (changed =? 1)%nat then fail SE_Conflict else mret tt
  end.

Fixpoint apply_actions (now : UtcTimestamp) (actions : list RecoveryAction) : Store unit :=
  match actions with
  | [] => mret tt
  | action :: actions => _ ← apply_action now action; apply_actions now actions
  end.

Definition apply_recovery (actions : list RecoveryAction) (now : UtcTimestamp) : Store unit :=
  transaction (apply_actions now actions).

(** [reconcile_startup] with the SQLite store and its retention policy. *)
Inductive StartupReconciliationError :=
| SR_Plan (e : ReconciliationError)
| SR_Store (e : StoreError).

Definition reconcile_startup {S} (classify : ProcessIdentitySnapshot -> S -> result str IdentityStatus * S)
  (policy : RetentionPolicy) (wall_now : UtcTimestamp) (elapsed_now : ElapsedInstant) (boot : str) (s : S)
  (w : World) : result StartupReconciliationError (RecoveryPlan * S) * World :=
  match load_nonterminal false w with
  | (Err e, w) => (Err (SR_Store e), w)
  | (Ok records, w) =>
    match plan_recovery classify records wall_now elapsed_now boot s with
    | Err e => (Err (SR_Plan e), w)
    | Ok (plan, s) =>
      match apply_recovery (plan_actions plan) wall_now false w with
      | (Err e, w) => (Err (SR_Store e), w)
      | (Ok _, w) =>
        match cleanup_retention wall_now policy false w with
        | (Err e, w) => (Err (SR_Store e), w)
        | (Ok _, w) => (Ok (plan, s), w)
        end
      end
    end
  end.
End Recovery.

(** ** Lemmas: the effect of one action *)

(** Exactly one row of [jobs], of that identifier and revision and in an
    allowed state, is rewritten; [audit] is appended to the history. *)
Definition one_job_changed (id : JobId) (revision : Z) (allowed : list str) (f : JobRow -> JobRow)
  (audit : JobRow -> list TransitionRow) (db db' : Db) : Prop :=
  exists l1 row l2, db_jobs db = l1 ++ row :: l2 /\ db_jobs db' = l1 ++ f row :: l2 /\
    jr_id row = job_id_to_string id /\ jr_revision row = revision /\ text_in (jr_state row) allowed = true /\
    db_runs db' = db_runs db /\ db_transitions db' = db_transitions db ++ audit row.

Definition recovery_audit (id : JobId) (target : str) (now : UtcTimestamp) `{Jiff} (reason : str) (revision : Z)
  (row : JobRow) : list TransitionRow :=
  [mk_transition_row (job_id_to_string id) None (jr_state row) target (ts_show now) (lit "recovery") reason revision].

Definition action_revision (action : RecoveryAction) : Revision :=
  match action with Interrupt _ r _ _ | MarkMissed _ r | AdvanceRecurring _ r _ => r end.

(** The specification of one action on the database. *)
Definition action_applied `{Serde} (now : UtcTimestamp) (action : RecoveryAction) (db db' : Db) : Prop :=
  action_revision action + 1 <= i64_max /\
  match action with
  | Interrupt id expected run fate => exists db1 : Db,
      match run with
      | Some (run_id, token) => exists json, outcome_to_json (RO_Interrupted (interruption_reason fate)) = Ok json /\
          one_run_changed run_id token (fun s => text_in s active_states)
            (interrupted_row (ts_show now) (interruption_reason fate) json) db db1
      | None => db1 = db
      end /\
      one_job_changed id expected active_states
        (job_row_update (expected + 1) (lit "interrupted") (ts_show now) None)
        (recovery_audit id (lit "interrupted") now (interruption_reason fate) (expected + 1)) db1 db'
  | MarkMissed id expected =>
      one_job_changed id expected waiting_job_states
        (job_row_update (expected + 1) (lit "missed") (ts_show now) None)
        (recovery_audit id (lit "missed") now missed_reason (expected + 1)) db db'
  | AdvanceRecurring id expected next_due =>
      one_job_changed id expected waiting_job_states (advanced_row (expected + 1) (ts_show now) (ts_show next_due))
        (fun _ => []) db db'
  end.

Inductive recovered `{Serde} (now : UtcTimestamp) : list RecoveryAction -> Db -> Db -> Prop :=
| recovered_nil db : recovered now [] db db
| recovered_cons action actions db db1 db2 :
    action_applied now action db db1 -> recovered now actions db1 db2 -> recovered now (action :: actions) db db2.

Lemma revision_i64_ok r z : revision_i64 r = Ok z -> z = r /\ r <= i64_max.
Proof. unfold revision_i64. by intros [-> [_ ?]]%ok_or_ok%checked_Some. Qed.

Lemma next_revision_i64_ok r z : next_revision_i64 r = Ok z -> z = r + 1 /\ r + 1 <= i64_max.
Proof.
  unfold next_revision_i64, revision_next. intros (n & Hn%map_err_ok & [-> Hmax]%revision_i64_ok)%bind_ok.
  by apply bind_ok in Hn as (v & [-> _]%ok_or_ok%checked_Some & [-> _]%counter_new_ok).
Qed.

Section Actions.
Context `{Serde}.

Lemma update_jobs_one (p : JobRow -> bool) f db n db' :
  update_jobs p f db = Ok (n, db') -> n = 1%nat ->
  exists l1 row l2, db_jobs db = l1 ++ row :: l2 /\ db_jobs db' = l1 ++ f row :: l2 /\ p row = true /\
    db_runs db' = db_runs db /\ db_transitions db' = db_transitions db.
Proof.
  unfold update_jobs, update_rows. destruct (forallb _ _); [|done]. cbn [mbind result_bind].
  intros [= Hn <-] ->. destruct (filter_single _ _ Hn) as (l1 & row & l2 & Hl & Hp & H1 & H2).
  exists l1, row, l2. cbn. rewrite Hl, map_app. cbn [map]. rewrite Hp. by rewrite !map_if_none.
Qed.

Lemma recover_transition_ok id expected target now reason allowed w w' :
  recover_transition id expected target now reason allowed true w = (Ok tt, w') ->
  expected + 1 <= i64_max /\
  one_job_changed id expected allowed (job_row_update (expected + 1) target (ts_show now) None)
    (recovery_audit id target now reason (expected + 1)) (w_db w) (w_db w').
Proof.
  intros Hr. apply lift_inv in Hr as [(e & [-> _]%revision_i64_ok & Hr)|[_ [e ?]]]; [|done].
  apply store_bind_ok in Hr as (cur & w1 & [Hc Hw1]%query_ok & Hr). rewrite seen_locked in Hc, Hw1.
  injection Hc as Hc. apply lift_inv in Hr as [(state & Hs%ok_or_ok & Hr)|[_ [e ?]]]; [|done]. subst cur.
  destruct (text_in state allowed) eqn:Ea; [|done]. cbn [negb] in Hr.
  apply lift_inv in Hr as [(rev & [-> Hmax]%next_revision_i64_ok & Hr)|[_ [e ?]]]; [|done].
  apply store_bind_ok in Hr as (n & w2 & Hu & Hr). apply execute_ok in Hu. rewrite seen_locked, Hw1 in Hu.
  destruct (Nat.eqb_spec n 1) as [->|]; [|done]. cbn [negb] in Hr.
  apply store_bind_ok in Hr as (m & w3 & Hi & [= ->]). apply execute_ok in Hi. rewrite seen_locked in Hi.
  destruct (update_jobs_one _ _ _ _ _ Hu eq_refl) as (l1 & row & l2 & Hl & Hl' & Hp & Hruns & Hts).
  unfold job_in_state, job_row_is in Hp. rewrite !andb_true_iff, !bool_decide_eq_true, Z.eqb_eq in Hp.
  destruct Hp as [[Hid Hrev] Hst]. unfold insert_transition in Hi. destruct (_ && _); [|done].
  injection Hi as _ Hdb. split; [done|]. exists l1, row, l2. rewrite <- Hdb. unfold recovery_audit. rewrite Hst.
  cbn [set_transitions db_jobs db_runs db_transitions]. by rewrite Hts.
Qed.

Lemma apply_action_ok now action w w' :
  apply_action now action true w = (Ok tt, w') -> action_applied now action (w_db w) (w_db w').
Proof.
  destruct action as [id expected run fate|id expected|id expected next_due]; simpl.
  - intros Hr. apply store_bind_ok in Hr as ([] & w1 & Hrun & Hr). apply recover_transition_ok in Hr as [Hmax Hr].
    split; [done|]. exists (w_db w1). split; [|done]. destruct run as [[run_id token]|]; [|by injection Hrun as ->].
    apply lift_inv in Hrun as [(json & Hj%corrupt_ok & Hrun)|[_ [e ?]]]; [|done]. exists json. split; [done|].
    apply store_bind_ok in Hrun as (n & w2 & Hu & Hrun). apply execute_ok in Hu. rewrite seen_locked in Hu.
    destruct (Nat.eqb_spec n 1) as [Hn|]; [|done]. injection Hrun as ->.
    by apply (update_runs_one run_id token (fun s => text_in s active_states)) in Hu.
  - apply recover_transition_ok.
  - intros Hr. apply lift_inv in Hr as [(next & [-> Hmax]%next_revision_i64_ok & Hr)|[_ [e ?]]]; [|done].
    apply lift_inv in Hr as [(e & [-> _]%revision_i64_ok & Hr)|[_ [e ?]]]; [|done].
    apply store_bind_ok in Hr as (n & w2 & Hu & Hr). apply execute_ok in Hu. rewrite seen_locked in Hu.
    destruct (Nat.eqb_spec n 1) as [Hn|]; [|done]. injection Hr as ->.
    destruct (update_jobs_one _ _ _ _ _ Hu Hn) as (l1 & row & l2 & Hl & Hl' & Hp & Hruns & Hts).
    unfold job_row_is in Hp. rewrite !andb_true_iff, bool_decide_eq_true, Z.eqb_eq in Hp.
    destruct Hp as [[Hid Hrev] Hst]. split; [done|]. exists l1, row, l2. rewrite app_nil_r. done.
Qed.

Lemma apply_actions_ok now actions w w' :
  apply_actions now actions true w = (Ok tt, w') -> recovered now actions (w_db w) (w_db w').
Proof.
  revert w. induction actions as [|a actions IH]; intros w; simpl.
  - intros [= ->]. constructor.
  - intros ([] & w1 & Ha & Hr)%store_bind_ok. econstructor; [by apply apply_action_ok | by apply IH].
Qed.

Lemma consumes_recover_transition id expected target now reason allowed :
  consumes (recover_transition id expected target now reason allowed).
Proof.
  unfold recover_transition. apply consumes_bind; [auto with store|]. intros e.
  apply consumes_bind; [auto with store|]. intros c. apply consumes_bind; [auto with store|]. intros st.
  destruct (negb _); [auto with store|]. apply consumes_bind; [auto with store|]. intros r.
  apply consumes_bind; [auto with store|]. intros n. destruct (negb _); auto with store.
Qed.
#[local] Hint Resolve consumes_recover_transition : store.

Lemma consumes_apply_action now a : consumes (apply_action now a).
Proof.
  destruct a as [id e run fate|id e|id e next]; simpl; [|auto with store|].
  - apply consumes_bind; [|auto with store]. destruct run as [[rid tok]|]; [|auto with store].
    apply consumes_bind; [auto with store|]. intros j. apply consumes_bind; [auto with store|].
    intros n. destruct (negb _); auto with store.
  - apply consumes_bind; [auto with store|]. intros n. apply consumes_bind; [auto with store|].
    intros m. apply consumes_bind; [auto with store|]. intros c. destruct (negb _); auto with store.
Qed.

Lemma consumes_apply_recovery now actions : consumes (apply_recovery actions now).
Proof.
  apply consumes_transaction. induction actions as [|a actions IH]; simpl; [auto with store|].
  apply consumes_bind; [apply consumes_apply_action|auto].
Qed.
End Actions.

(** ** Lemmas: loading *)

Lemma limit_all {A} n (l : list A) : len (limit n l) < n -> limit n l = l.
Proof.
  revert n. induction l as [|x l IH]; intros n; [done|]. cbn [limit]. destruct (Z.leb_spec n 0); cbn [length]; [lia|].
  intros Hlen. f_equal. apply IH. lia.
Qed.

Lemma order_by_perm {A} (key : A -> str) l : order_by key l ≡ₚ l.
Proof. apply merge_sort_Permutation. Qed.

Lemma text_in_In s l : text_in s l = true <-> In s l.
Proof.
  unfold text_in. rewrite existsb_exists. setoid_rewrite bool_decide_eq_true. split; [by intros (? & ? & ->)|eauto].
Qed.

Section Loading.
Context `{Serde} `{ExecutionJson}.

(** A run that some loaded row decodes to. *)
Definition run_of_rows (rows : list RunRow) (id : JobId) (run : Run) : Prop :=
  exists row, In row rows /\ decode_run_row row = Ok run /\ run_job_id run = id.

Lemma active_runs_loop_ok rows active active' :
  active_runs_loop rows active = Ok active' ->
  forall id run, active' !! id = Some run -> active !! id = Some run \/ run_of_rows rows id run.
Proof.
  revert active. induction rows as [|row rows IH]; intros active; cbn [active_runs_loop].
  - intros [= ->]. by left.
  - intros (run & Hd & Hr)%bind_ok. destruct (is_some _); [done|]. destruct (_ <? _); [done|].
    intros id r Hid. destruct (IH _ Hr id r Hid) as [Hi|(row' & ? & ? & ?)].
    + apply lookup_insert_Some in Hi as [[<- <-]|[_ Hi]]; [|by left]. right. exists row. split_and!; [by left|done..].
    + right. exists row'. split_and!; [by right|done..].
Qed.

(** A record and the row it was read from. *)
Definition record_of (active : gmap JobId Run) (row : JobRow) (record : RecoveryRecord) : Prop :=
  decode_job_row row = Ok (rec_job record) /\
  opt_Forall (fun run => active !! job_id (rec_job record) = Some run) (rec_active_run record).

Lemma jobs_loop_ok rows active records records' active' :
  len records <= MAX_RECOVERY_RECORDS ->
  jobs_loop rows active records = Ok (records', active') ->
  len records' <= MAX_RECOVERY_RECORDS /\
  exists new, records' = records ++ new /\ Forall2 (record_of active) rows new.
Proof.
  revert active records. induction rows as [|row rows IH]; intros active records Hlen; cbn [jobs_loop].
  - intros [= -> ->]. split; [done|]. exists []. by rewrite app_nil_r.
  - intros (job & Hd & Hr)%bind_ok.
    destruct (Z.ltb_spec MAX_RECOVERY_RECORDS (len (records ++ [mk_recovery_record job (active !! job_id job)])));
      [done|].
    apply IH in Hr as [Hmax (new & -> & Hnew)]; [|done]. split; [done|].
    exists (mk_recovery_record job (active !! job_id job) :: new). split; [by rewrite <- app_assoc|].
    constructor.
    + split; [done|]. simpl. by destruct (active !! job_id job).
    + eapply Forall2_impl; [exact Hnew|]. intros r rec [Hr Hact]. split; [done|].
      destruct (rec_active_run rec); [|done]. simpl in *. by apply lookup_delete_Some in Hact as [_ ?].
Qed.

(** Other processes may act, but not on the jobs. *)
Definition jobs_untouched (w : World) : Prop :=
  Forall (fun s => forall db, db_jobs (step_env s db) = db_jobs db) (w_schedule w).

Lemma jobs_untouched_suffix w w' : w_schedule w' `suffix_of` w_schedule w -> jobs_untouched w -> jobs_untouched w'.
Proof. unfold jobs_untouched. intros [k ->] [_ ?]%Forall_app. done. Qed.

Lemma jobs_seen l w : jobs_untouched w -> db_jobs (seen l w) = db_jobs (w_db w).
Proof.
  unfold jobs_untouched, seen. destruct (w_schedule w) as [|s rest]; [done|].
  intros [Hs _]%Forall_cons. by destruct l.
Qed.

(** The record of a row: its decoded job, and an active run of that job among
    the runs that were read. *)
Definition loaded_record (runs : list RunRow) (row : JobRow) (record : RecoveryRecord) : Prop :=
  decode_job_row row = Ok (rec_job record) /\
  opt_Forall (run_of_rows runs (job_id (rec_job record))) (rec_active_run record).

Lemma load_nonterminal_ok l w records w' :
  load_nonterminal l w = (Ok records, w') -> jobs_untouched w ->
  db_jobs (w_db w') = db_jobs (w_db w) /\ w_schedule w' `suffix_of` w_schedule w /\
  exists rows, Forall2 (loaded_record (select_active_runs (seen l w))) rows records /\
    forall row, In row rows <-> In row (db_jobs (w_db w)) /\ text_in (jr_state row) nonterminal_job_states = true.
Proof.
  intros Hl Hq. assert (w_schedule w' `suffix_of` w_schedule w) as Hsuf.
  { assert (consumes load_nonterminal) as Hc; [|specialize (Hc l w); by rewrite Hl in Hc].
    unfold load_nonterminal. apply consumes_bind; [auto with store|]. intros a.
    apply consumes_bind; [auto with store|]. intros [rs act]. destruct (negb _); auto with store. }
  unfold load_nonterminal in Hl. apply store_bind_ok in Hl as (active & w1 & Ha & Hl).
  assert (jobs_untouched w1) as Hq1.
  { eapply jobs_untouched_suffix; [|exact Hq]. pose proof (consumes_query (fun db => active_runs_loop (select_active_runs db) ∅) l w) as Hc.
    by rewrite Ha in Hc. }
  apply query_ok in Ha as [Ha Hw1]. apply store_bind_ok in Hl as ([rs act] & w2 & Hj & Hl).
  apply query_ok in Hj as [Hj Hw2]. destruct (negb _); [done|]. injection Hl as <- <-.
  assert (db_jobs (seen l w1) = db_jobs (w_db w)) as Hjobs.
  { rewrite jobs_seen by done. rewrite Hw1. by apply jobs_seen. }
  split; [by rewrite Hw2|]. split; [done|]. exists (select_nonterminal_jobs (seen l w1)).
  apply jobs_loop_ok in Hj as [Hmax (new & -> & Hnew)]; [|done]. simpl in *. split.
  - eapply Forall2_impl; [exact Hnew|]. intros row rec [Hd Hact]. split; [done|].
    destruct (rec_active_run rec) as [run|]; [|done]. simpl in *.
    destruct (active_runs_loop_ok _ _ _ Ha _ _ Hact) as [Hno|Hok]; [|done]. by rewrite lookup_empty in Hno.
  - intros row. unfold select_nonterminal_jobs. rewrite limit_all.
    + rewrite <- Hjobs.
      rewrite <- (filter_In (fun r => text_in (jr_state r) nonterminal_job_states)).
      by split; apply Permutation_in; [|symmetry]; apply order_by_perm.
    + apply Forall2_length in Hnew. unfold select_nonterminal_jobs in Hnew. rewrite Hnew. lia.
Qed.
End Loading.

(** ** Lemmas: which rows an applied plan leaves active *)

Section Tracking.
Context `{Serde} `{ExecutionJson}.

Definition is_active_row (r : JobRow) : Prop := text_in (jr_state r) active_states = true.

Lemma waiting_not_active s : text_in s waiting_job_states = true -> text_in s active_states = true -> False.
Proof. rewrite text_in_In. intros [<-|[<-|[]]]; by vm_compute. Qed.

Lemma one_job_changed_ids id revision allowed f audit db db' :
  one_job_changed id revision allowed f audit db db' -> (forall r, jr_id (f r) = jr_id r) ->
  jr_id <$> db_jobs db' = jr_id <$> db_jobs db.
Proof.
  intros (l1 & row & l2 & -> & -> & _) Hf. rewrite !fmap_app, !fmap_cons. by rewrite Hf.
Qed.

(** If the update leaves no row active, the active rows are untouched, and
    the addressed row is not among them. *)
Lemma one_job_changed_active id revision allowed f audit db db' row' :
  one_job_changed id revision allowed f audit db db' -> (forall r, jr_id (f r) = jr_id r) ->
  (forall r, text_in (jr_state r) allowed = true -> ~ is_active_row (f r)) ->
  NoDup (jr_id <$> db_jobs db) -> In row' (db_jobs db') -> is_active_row row' ->
  In row' (db_jobs db) /\ jr_id row' <> job_id_to_string id.
Proof.
  intros (l1 & row & l2 & Hl & Hl' & Hid & _ & Hallowed & _) Hf Hact Hdup Hin Ha. rewrite Hl' in Hin. rewrite Hl in *.
  rewrite fmap_app, fmap_cons in Hdup. apply NoDup_app in Hdup as (_ & Hd1 & [Hd2 _]%NoDup_cons).
  rewrite Hid in *. apply in_app_or in Hin as [Hin|[<-|Hin]].
  - split; [apply in_or_app; by left|]. intros E. apply (Hd1 (jr_id row')); [|rewrite E; by left].
    apply list_elem_of_fmap_2. by apply list_elem_of_In.
  - by apply Hact in Ha.
  - split; [apply in_or_app; by right; right|]. intros E. apply Hd2. rewrite <- E.
    apply list_elem_of_fmap_2. by apply list_elem_of_In.
Qed.

Lemma action_applied_active now action db db' row' :
  action_applied now action db db' -> NoDup (jr_id <$> db_jobs db) ->
  jr_id <$> db_jobs db' = jr_id <$> db_jobs db /\
  (In row' (db_jobs db') -> is_active_row row' ->
   In row' (db_jobs db) /\
   match action with Interrupt id _ _ _ => jr_id row' <> job_id_to_string id | _ => True end).
Proof.
  intros [_ Ha] Hdup. destruct action as [id expected run fate|id expected|id expected next_due].
  - destruct Ha as (db1 & Hrun & Hj).
    assert (db_jobs db1 = db_jobs db) as Hjobs.
    { destruct run as [[run_id token]|]; [|by subst]. by destruct Hrun as (j & _ & ? & ? & ? & _ & _ & _ & _ & _ & ? & _). }
    rewrite <- Hjobs in *. split; [by eapply one_job_changed_ids|]. intros Hin Hact.
    by eapply one_job_changed_active; [exact Hj|..].
  - split; [by eapply one_job_changed_ids|]. intros Hin Hact.
    destruct (one_job_changed_active _ _ _ _ _ _ _ row' Ha) as [? _]; done.
  - split; [by eapply one_job_changed_ids|]. intros Hin Hact.
    destruct (one_job_changed_active _ _ _ _ _ _ _ row' Ha) as [? _]; try done.
    intros r Hr Hbad. by apply (waiting_not_active (jr_state r)).
Qed.

Lemma recovered_active now actions db db' row' :
  recovered now actions db db' -> NoDup (jr_id <$> db_jobs db) ->
  jr_id <$> db_jobs db' = jr_id <$> db_jobs db /\
  (In row' (db_jobs db') -> is_active_row row' ->
   In row' (db_jobs db) /\
   forall id expected run fate, In (Interrupt id expected run fate) actions -> jr_id row' <> job_id_to_string id).
Proof.
  induction 1 as [db|action actions db db1 db2 Ha Hr IH]; intros Hdup; [done|].
  destruct (action_applied_active _ _ _ _ row' Ha Hdup) as [Hids1 Hone]. rewrite <- Hids1 in Hdup.
  destruct (IH Hdup) as [Hids2 Hrest]. split; [congruence|]. intros Hin Hact.
  destruct (Hrest Hin Hact) as [Hin1 Hno]. destruct (Hone Hin1 Hact) as [Hin0 Hno1]. split; [done|].
  intros id expected run fate [->|Hi]; [done|by eapply Hno].
Qed.

Lemma active_row_state r j :
  row_decodes r j -> is_active_row r <-> job_is_active (job_state j) = true.
Proof. intros Hr. unfold is_active_row. rewrite (rd_state _ _ Hr). by destruct (job_state j). Qed.

Lemma decoded_plannable r j : decode_job_row r = Ok j -> plannable j.
Proof.
  intros Hr%decode_job_row_ok. split.
  - destruct (rd_next_due _ _ Hr) as (s & _ & Hs). by eapply utc_from_str_ok.
  - pose proof (schedule_range_law _ _ (rd_schedule _ _ Hr)) as Hs. by destruct (job_schedule j).
Qed.
End Tracking.

(** The keys of [jobs]: distinct, and written by the program. *)
Definition jobs_keyed (db : Db) : Prop :=
  NoDup (jr_id <$> db_jobs db) /\
  Forall (fun r => exists id, uuid_ok (job_uuid id) /\ jr_id r = job_id_to_string id) (db_jobs db).

Lemma keyed_row_id db row id : jobs_keyed db -> In row (db_jobs db) ->
  job_id_from_str (jr_id row) = Ok id -> jr_id row = job_id_to_string id.
Proof.
  intros [_ Hall] Hin Hid. rewrite Forall_forall in Hall.
  destruct (Hall row) as (id' & Hu & E); [by apply list_elem_of_In|].
  rewrite E, job_id_text in Hid by done. congruence.
Qed.

Lemma verdict_in {S} (classify : ProcessIdentitySnapshot -> S -> result str IdentityStatus * S) `{Jiff}
  wall elapsed boot records vs record :
  Forall2 (verdict classify wall elapsed boot) records vs -> In record records ->
  exists v, verdict classify wall elapsed boot record v /\ incl v.1.2 (concat ((fun v => v.1.2) <$> vs)) /\
            incl v.2 (concat (snd <$> vs)).
Proof.
  induction 1 as [|r v records vs Hv Hvs IH]; [done|]. intros [->|Hin].
  - exists v. split; [done|]. split; intros x Hx; simpl; apply in_or_app; by left.
  - destruct (IH Hin) as (v' & Hv' & H1 & H2). exists v'. split; [done|].
    split; intros x Hx; simpl; apply in_or_app; right; auto.
Qed.

(** The row that a guarded UPDATE writes, read back: [rehydrate] still compares
    the times. *)
Definition rewritten_job (j : Job) (to : JobState) (now : UtcTimestamp) (due : option UtcTimestamp) : Job :=
  match due with
  | Some d => job_set_next_due (job_set_state j (job_revision j + 1) to now) d
  | None => job_set_state j (job_revision j + 1) to now
  end.

Lemma rewritten_row_decodes `{Serde} `{ExecutionJson} row j to now due :
  decode_job_row row = Ok j -> ts_ok now -> opt_Forall ts_ok due -> job_revision j + 1 <= i64_max ->
  decode_job_row (job_row_update (job_revision j + 1) (job_state_text to) (ts_show now) (ts_show <$> due) row) =
  if now <? job_created_at j then Err (SE_Corrupt (RS_JobError JE_CorruptSnapshot))
  else Ok (rewritten_job j to now due).
Proof.
  intros Hd%decode_job_row_ok Hn Hdue Hmax.
  assert (counter_ok (job_revision j + 1)) as Hcount.
  { destruct (rd_revision _ _ Hd) as [-> Hc]. unfold counter_ok in *.
    change i64_max with 9223372036854775807 in Hmax. change u64_max with 18446744073709551615 in *. lia. }
  pose proof (rd_tzdb_ok _ _ Hd) as [Htz1 Htz2]. apply row_decodes_fields in Hd.
  rewrite (decode_job_row_fields _ (rewritten_job j to now due)).
  - destruct (Z.ltb_spec now (job_created_at j)) as [Hlt|Hle].
    + unfold job_rehydrate. destruct due;
        cbn [rewritten_job job_set_next_due job_set_state job_snapshot js_updated_at js_created_at job_updated_at
             job_created_at]; by rewrite (proj2 (Z.ltb_lt _ _) Hlt).
    + apply corrupt_ok, job_rehydrate_ok. by destruct due.
  - destruct Hd, due as [d|]; split; cbn; try done; try (by apply utc_from_str_show).
    eexists. split; [done|]. by apply utc_from_str_show.
Qed.

Lemma recovered_row_decodes `{Serde} `{ExecutionJson} row j to now :
  decode_job_row row = Ok j -> ts_ok now -> job_revision j + 1 <= i64_max ->
  decode_job_row (job_row_update (job_revision j + 1) (job_state_text to) (ts_show now) None row) =
  if now <? job_created_at j then Err (SE_Corrupt (RS_JobError JE_CorruptSnapshot))
  else Ok (job_set_state j (job_revision j + 1) to now).
Proof. intros Hd Hn Hmax. by apply (rewritten_row_decodes row j to now None). Qed.

Lemma one_job_changed_find id revision allowed f audit db db' row :
  one_job_changed id revision allowed f audit db db' -> NoDup (jr_id <$> db_jobs db) ->
  (forall r, jr_id (f r) = jr_id r) -> find_job id db = Some row ->
  find_job id db' = Some (f row) /\ jr_revision row = revision.
Proof.
  intros (l1 & row1 & l2 & Hl & Hl' & Hid & Hrev & _) Hdup Hf (m1 & m2 & Hm & Hrow & Hm1)%find_job_split.
  assert (Forall (fun r => jr_id r <> job_id_to_string id) l1) as Hl1.
  { rewrite Hl, fmap_app, fmap_cons in Hdup. apply NoDup_app in Hdup as (_ & Hd & _).
    apply Forall_forall. intros r Hr E. apply (Hd (jr_id r)); [by apply list_elem_of_fmap_2|].
    rewrite E, Hid. by left. }
  assert (row1 = row) as ->.
  { assert (find_job id db = Some row1) as H1 by (destruct db; simpl in *; subst; by apply find_job_app).
    assert (find_job id db = Some row) as H2 by (destruct db; simpl in *; subst; rewrite Hm; by apply find_job_app).
    congruence. }
  split; [|done]. destruct db' as [jobs runs ts]. simpl in Hl'. subst jobs. apply find_job_app; [done|].
  by rewrite Hf.
Qed.

(** Every job still active after a successful recovery is owned. *)
Lemma startup_active_owned `{Serde} `{ExecutionJson} {S}
  (classify : ProcessIdentitySnapshot -> S -> result str IdentityStatus * S)
  policy wall elapsed boot s w plan s' w' :
  jobs_untouched w -> jobs_keyed (w_db w) -> ts_ok wall -> elapsed_ok elapsed ->
  reconcile_startup classify policy wall elapsed boot s w = (Ok (plan, s'), w') ->
  forall row, In row (db_jobs (w_db w')) -> is_active_row row ->
  In row (db_jobs (w_db w)) /\
  exists job run, decode_job_row row = Ok job /\
    run_of_rows (select_active_runs (seen false w)) (job_id job) run /\
    owned classify boot run /\ In (run_id run) (plan_preserved plan).
Proof.
  intros Hq Hkeys Hwall Hel Hr row Hin Hact. unfold reconcile_startup in Hr.
  destruct (load_nonterminal false w) as [[records|] w1] eqn:El; [|done].
  apply load_nonterminal_ok in El as (Hjobs1 & Hsuf1 & rows & Hrecs & Hrows); [|done].
  assert (jobs_untouched w1) as Hq1 by (by eapply jobs_untouched_suffix).
  destruct (plan_recovery classify records wall elapsed boot s) as [[p s1]|] eqn:Ep; [|done].
  destruct (apply_recovery (plan_actions p) wall false w1) as [[[]|] w2] eqn:Ea; [|done].
  assert (w_schedule w2 `suffix_of` w_schedule w1) as Hsuf2.
  { pose proof (consumes_apply_recovery wall (plan_actions p) false w1) as Hc. by rewrite Ea in Hc. }
  assert (jobs_untouched w2) as Hq2 by (by eapply jobs_untouched_suffix).
  destruct (cleanup_retention wall policy false w2) as [[report|] w3] eqn:Ec; [|done].
  injection Hr as -> -> ->. apply cleanup_inv in Ec as (hc & jc & _ & _ & Hc).
  apply (cl_jobs _ _ _ _ Hc) in Hin as [Hin _]. rewrite jobs_seen in Hin by done.
  apply transaction_inv in Ea as (w4 & w5 & Hw4 & Hb & Hw5). apply apply_actions_ok in Hb. rewrite Hw4, <- Hw5 in Hb.
  assert (db_jobs (seen false w1) = db_jobs (w_db w)) as Hjobs by (by rewrite jobs_seen).
  destruct (recovered_active _ _ _ _ row Hb) as [_ Htrack]; [rewrite Hjobs; apply Hkeys|].
  destruct (Htrack Hin Hact) as [Hin0 Hno]. rewrite Hjobs in Hin0. split; [done|].
  assert (Forall (fun r => plannable (rec_job r)) records) as Hplan.
  { clear -Hrecs. induction Hrecs as [|row rec rows recs [Hd _] _ IH]; constructor; [by eapply decoded_plannable|done]. }
  pose proof (plan_recovery_verdicts classify records wall elapsed boot s Hplan Hwall Hel) as Hspec.
  rewrite Ep in Hspec. destruct Hspec as (_ & _ & vs & Hvs & Hactions & _ & _ & _ & Hpres).
  assert (In row rows) as Hrow.
  { apply Hrows. split; [done|]. apply text_in_In. apply text_in_In in Hact. right. by right. }
  assert (exists rec, In rec records /\ loaded_record (select_active_runs (seen false w)) row rec) as (rec & Hrec & Hd & Hrun).
  { clear -Hrecs Hrow. induction Hrecs as [|r rec rows recs Hr _ IH]; [done|].
    destruct Hrow as [->|Hrow]; [exists rec; split; [by left|done]|]. destruct (IH Hrow) as (x & ? & ?). exists x. split; [by right|done]. }
  pose proof (proj1 (decode_job_row_ok _ _) Hd) as Hdec.
  destruct (verdict_in _ _ _ _ _ _ _ Hvs Hrec) as (v & Hv & Hv1 & Hv2).
  assert (forall run fate, ~ In (interrupt_action rec run fate) v.2) as Hnone.
  { intros run fate Hi. apply Hv2 in Hi. rewrite <- Hactions in Hi. apply Hno in Hi. apply Hi.
    apply (keyed_row_id (w_db w)); [done..|]. exact (rd_id _ _ Hdec). }
  apply (active_row_state _ _ Hdec) in Hact.
  destruct Hv as [| run Ha Hr Hown | run fate | | |]; try congruence; try (exfalso; eapply Hnone; by left).
  exists (rec_job rec), run. rewrite Hr in Hrun. split_and!; try done.
  eapply Permutation_in; [symmetry; exact Hpres|]. apply Hv1. by left.
Qed.

(** ** Properties *)

(** C7 (refinement).  The actions of a plan are applied all or not at all, for
    every schedule of failures and interference: on success each action, in
    order, changed exactly the one job of its identifier and revision (and the
    one active run of its claim), raised the revision by one and, but for a
    move along the grid, appended its reason to the history; on failure
    nothing changed. *)
Theorem apply_recovery_spec `{Serde} actions now l w r w' :
  apply_recovery actions now l w = (r, w') ->
  match r with
  | Ok _ => recovered now actions (seen l w) (w_db w')
  | Err _ => w_db w' = seen l w
  end.
Proof.
  intros Hr%transaction_inv. destruct r as [[]|]; [|done].
  destruct Hr as (w0 & w1 & <- & Hb & ->). by apply apply_actions_ok.
Qed.

(** No orphan survives startup: when recovery succeeds while no
    other process changes jobs, every job still active afterwards was left as
    it was, and has an active run whose live monitor of this boot was seen and
    which the plan preserves. *)
Theorem startup_leaves_no_orphan `{Serde} `{ExecutionJson} {S}
  (classify : ProcessIdentitySnapshot -> S -> result str IdentityStatus * S)
  policy wall elapsed boot s w plan s' w' :
  jobs_untouched w -> jobs_keyed (w_db w) -> ts_ok wall -> elapsed_ok elapsed ->
  reconcile_startup classify policy wall elapsed boot s w = (Ok (plan, s'), w') ->
  forall row, In row (db_jobs (w_db w')) -> is_active_row row ->
  In row (db_jobs (w_db w)) /\
  exists job run, decode_job_row row = Ok job /\
    run_of_rows (select_active_runs (seen false w)) (job_id job) run /\
    owned classify boot run /\ In (run_id run) (plan_preserved plan).
Proof. apply startup_active_owned. Qed.

(** Recovery writes its own wall-clock time without comparing it
    with the times already stored.  If the clock at startup is behind the
    creation of an interrupted job, the transaction commits and the row of
    that job is refused as corrupt by every later read; otherwise it decodes
    to the interrupted job. *)
Theorem recovery_clock `{Serde} `{ExecutionJson} id revision run fate now l w w' row j :
  apply_recovery [Interrupt id revision run fate] now l w = (Ok tt, w') ->
  jobs_keyed (seen l w) -> ts_ok now -> find_job id (seen l w) = Some row -> decode_job_row row = Ok j ->
  exists row', find_job id (w_db w') = Some row' /\
    decode_job_row row' =
      if now <? job_created_at j then Err (SE_Corrupt (RS_JobError JE_CorruptSnapshot))
      else Ok (job_set_state j (revision + 1) JS_Interrupted now).
Proof.
  intros (w0 & w1 & Hw0 & Hb & Hw1)%transaction_inv Hkeys Hn Hf Hd. apply apply_actions_ok in Hb.
  rewrite Hw0, <- Hw1 in Hb. inversion Hb as [|? ? ? db1 ? Ha Hr]; subst. inversion Hr; subst. clear Hb Hr.
  destruct Ha as [Hmax (db1 & Hrun & Hj)].
  assert (db_jobs db1 = db_jobs (seen l w)) as Hjobs.
  { destruct run as [[run_id token]|]; [|by subst]. by destruct Hrun as (x & _ & ? & ? & ? & _ & _ & _ & _ & _ & ? & _). }
  destruct (one_job_changed_find _ _ _ _ _ _ _ row Hj) as [Hf' Hrev]; [rewrite Hjobs; apply Hkeys|done| |].
  { unfold find_job in *. by rewrite Hjobs. }
  eexists. split; [exact Hf'|]. cbn in Hmax.
  assert (jr_revision row = job_revision j) as Hrow by (apply decode_job_row_ok in Hd; apply (rd_revision _ _ Hd)).
  rewrite Hrow in Hrev. subst revision. by apply (recovered_row_decodes row j JS_Interrupted now).
Qed.

(** ** Witnesses *)

Module RecoveryExample.
Export RetentionExample.
Definition moved (r : result StoreError Job * World) : World := r.2.
Definition step_to (revision : Z) (to : JobState) (w : World) : World :=
  (transition_job (job_id job0) revision to false TA_Supervisor (lit "due") due0 false w).2.
(** A running job with its running run. *)
Definition active_world : World :=
  step_to 3 JS_Running (step_to 2 JS_Starting (step_to 1 JS_Waiting running_world)).
Definition dead (_ : ProcessIdentitySnapshot) (n : nat) : result str IdentityStatus * nat := (Ok IS_Dead, S n).
Definition startup (classify : ProcessIdentitySnapshot -> nat -> result str IdentityStatus * nat) (w : World) :=
  reconcile_startup classify policy0 (due0 + 50) 1000 (lit "boot") 0%nat w.
Definition interrupt0 : RecoveryAction := Interrupt (job_id job0) 4 (Some (run_id0, token0)) CF_Dead.
End RecoveryExample.
Import RecoveryExample.

Lemma active_world_keyed : jobs_keyed (w_db active_world).
Proof.
  assert (uuid_ok (job_uuid (job_id job0))) as Hu by (by vm_compute).
  assert (jr_id <$> db_jobs (w_db active_world) = [job_id_to_string (job_id job0)]) as Hids by (vm_compute; reflexivity).
  split; [rewrite Hids; apply NoDup_singleton|].
  apply Forall_forall. intros r Hr%(list_elem_of_fmap_2 jr_id). rewrite Hids in Hr.
  apply list_elem_of_singleton in Hr. exact (ex_intro _ (job_id job0) (conj Hu Hr)).
Qed.

Lemma active_seen_keyed : jobs_keyed (seen false active_world).
Proof.
  assert (seen false active_world = w_db active_world) as -> by (vm_compute; reflexivity).
  exact active_world_keyed.
Qed.

Lemma apply_recovery_spec_witness :
  exists w', apply_recovery [interrupt0] (due0 + 50) false active_world = (Ok tt, w') /\
  recovered (due0 + 50) [interrupt0] (seen false active_world) (w_db w').
Proof.
  assert (exists w', apply_recovery [interrupt0] (due0 + 50) false active_world = (Ok tt, w')) as (w' & E)
    by (eexists; vm_compute; reflexivity).
  exists w'. split; [exact E|]. exact (apply_recovery_spec _ _ _ _ _ _ E).
Defined.

Lemma startup_leaves_no_orphan_witness :
  exists plan s' w', reconcile_startup ReconcileExample.alive policy0 (due0 + 50) 1000 (lit "boot") 0%nat active_world =
    (Ok (plan, s'), w') /\
  forall row, In row (db_jobs (w_db w')) -> is_active_row row ->
  In row (db_jobs (w_db active_world)) /\
  exists job run, decode_job_row row = Ok job /\
    run_of_rows (select_active_runs (seen false active_world)) (job_id job) run /\
    owned ReconcileExample.alive (lit "boot") run /\ In (run_id run) (plan_preserved plan).
Proof.
  assert (jobs_untouched active_world) as H1 by (vm_compute; constructor).
  assert (ts_ok (due0 + 50)) as H2 by (by vm_compute). assert (elapsed_ok 1000) as H3 by (by vm_compute).
  assert (exists plan s' w', reconcile_startup ReconcileExample.alive policy0 (due0 + 50) 1000 (lit "boot") 0%nat active_world =
    (Ok (plan, s'), w')) as (plan & s' & w' & E)
    by (eexists _, _, _; vm_compute; reflexivity).
  exists plan, s', w'. split; [exact E|].
  pose proof (startup_leaves_no_orphan ReconcileExample.alive policy0 (due0 + 50) 1000 (lit "boot") 0%nat
    active_world plan s' w') as X.
  specialize (X H1 active_world_keyed H2 H3 E). exact X.
Defined.

(** The clock at startup is behind the creation of the job. *)
Lemma recovery_clock_witness :
  exists w' row j,
    (apply_recovery [interrupt0] (10 * 10 ^ 9) false active_world = (Ok tt, w') /\
     find_job (job_id job0) (seen false active_world) = Some row /\ decode_job_row row = Ok j /\
     10 * 10 ^ 9 < job_created_at j) /\
  exists row', find_job (job_id job0) (w_db w') = Some row' /\
    decode_job_row row' =
      if 10 * 10 ^ 9 <? job_created_at j then Err (SE_Corrupt (RS_JobError JE_CorruptSnapshot))
      else Ok (job_set_state j (4 + 1) JS_Interrupted (10 * 10 ^ 9)).
Proof.
  assert (ts_ok (10 * 10 ^ 9)) as H2 by (by vm_compute).
  assert (exists row, find_job (job_id job0) (seen false active_world) = Some row /\
    exists j, decode_job_row row = Ok j /\ 10 * 10 ^ 9 < job_created_at j) as (row & Hf & j & Hd & Hlt).
  { eexists. split; [vm_compute; reflexivity|]. eexists. split; [vm_compute; reflexivity|]. by vm_compute. }
  assert (exists w', apply_recovery [interrupt0] (10 * 10 ^ 9) false active_world = (Ok tt, w')) as (w' & E)
    by (eexists; vm_compute; reflexivity).
  exists w', row, j. split; [exact (conj E (conj Hf (conj Hd Hlt)))|].
  pose proof (recovery_clock (job_id job0) 4 (Some (run_id0, token0)) CF_Dead (10 * 10 ^ 9) false active_world
    w' row j) as X.
  specialize (X E active_seen_keyed H2 Hf Hd). exact X.
Defined.

(** With a dead monitor the job and the run are interrupted. *)
Example startup_dead_ex :
  jr_state <$> db_jobs (w_db (startup dead active_world).2) = [lit "interrupted"] /\
  rr_state <$> db_runs (w_db (startup dead active_world).2) = [lit "interrupted"].
Proof. vm_compute. done. Qed.
