(* ===== verification/Loop.v ===== *)
(** [src/supervisor/loop_driver.rs] and [src/supervisor/recovery.rs]: the
    supervisor's event loop.

    One turn of the loop reads the clock, pops the due jobs and either hands
    them over or waits for an event.  What the outside supplies in a turn (two
    clock readings and what [recv] returns) is a [Turn]; the loop is a
    function of the list of its turns. *)

From S2P Require Import Prelude Primitives Identifier Recurrence JobAgg RunAgg Reconcile Heap.

(** [Duration] values are nanoseconds. *)
Abbreviation Duration := Z.

Inductive SupervisorEvent :=
| SV_Schedule (job_id : JobId) (deadline : ElapsedInstant)
| SV_Shutdown.

(** [recv_timeout] and [recv]. *)
Inductive Received := RV_Event (e : SupervisorEvent) | RV_Timeout | RV_Disconnected.

Record Turn := mk_turn {
  turn_now : ElapsedInstant;
  turn_wait_now : ElapsedInstant;
  turn_received : Received
}.

Definition wait_until (now : ElapsedInstant) (deadline : option ElapsedInstant) (idle_timeout : option Duration)
  : option Duration :=
  match deadline with
  | None => idle_timeout
  | Some deadline =>
    let nanos := Z.max (deadline - now) 0 in
    let deadline_wait := default u64_max (checked_u64 nanos) in
    Some (match idle_timeout with Some idle => Z.min deadline_wait idle | None => deadline_wait end)
  end.

(** What a turn did: the batch given to [on_due], or the wait and its end. *)
Inductive Outcome :=
| OC_Fired (now : ElapsedInstant) (jobs : list JobId)
| OC_Waited (wait : option Duration) (received : Received).

(** One iteration; the flag is the [break]. *)
Definition run_turn (idle_timeout : option Duration) (heap : DeadlineHeap) (t : Turn)
  : option (Outcome * DeadlineHeap * bool) :=
  '(due, heap) ← pop_due heap (turn_now t);
  if negb (is_empty due) then Some (OC_Fired (turn_now t) due, heap, false) else
  let empty := heap_is_empty heap in
  let wait := wait_until (turn_wait_now t) (next_deadline heap) idle_timeout in
  let outcome := OC_Waited wait (turn_received t) in
  match turn_received t with
  | RV_Event (SV_Schedule job_id deadline) =>
    heap ← upsert heap job_id deadline;
    Some (outcome, heap, false)
  | RV_Event SV_Shutdown | RV_Disconnected => Some (outcome, heap, true)
  | RV_Timeout => Some (outcome, heap, empty)
  end.

Fixpoint run_loop (idle_timeout : option Duration) (heap : DeadlineHeap) (turns : list Turn)
  : option (list Outcome * DeadlineHeap * bool) :=
  match turns with
  | [] => Some ([], heap, false)
  | t :: turns =>
    '(outcome, heap, stop) ← run_turn idle_timeout heap t;
    if stop : bool then Some ([outcome], heap, true) else
    '(outcomes, heap, stop) ← run_loop idle_timeout heap turns;
    Some (outcome :: outcomes, heap, stop)
  end.

Inductive DeadlineReconciliationError := DR_Overflow.

Definition reconcile_wall_schedule (wall_now : UtcTimestamp) (elapsed_now : ElapsedInstant) (due_utc : UtcTimestamp)
  : result DeadlineReconciliationError ElapsedInstant :=
  let remaining := due_utc - wall_now in
  if remaining <=? 0 then Ok elapsed_now else
  remaining ← ok_or (checked_u128 remaining) DR_Overflow;
  ok_or (checked_u128 (elapsed_now + remaining)) DR_Overflow.

(** [rebuild_deadline_heap] *)
Definition rebuild_deadline_heap (plan : RecoveryPlan) : option DeadlineHeap :=
  foldl (fun heap d => heap ← heap; upsert heap (rd_job_id d) (rd_elapsed_due d)) (Some heap_empty)
    (plan_deadlines plan).

(** ** Specification: the ledger of pending deadlines *)

Abbreviation Ledger := (gmap JobId ElapsedInstant).

Definition ledger_step (m : Ledger) (o : Outcome) : Ledger :=
  match o with
  | OC_Fired _ jobs => foldr delete m jobs
  | OC_Waited _ (RV_Event (SV_Schedule job_id deadline)) => <[job_id := deadline]> m
  | OC_Waited _ _ => m
  end.

(** What one outcome means for the deadlines pending before it. *)
Definition outcome_ok (idle_timeout : option Duration) (m : Ledger) (t : Turn) (o : Outcome) : Prop :=
  match o with
  | OC_Fired now jobs =>
      now = turn_now t /\ jobs <> [] /\ NoDup jobs /\
      (forall j, j ∈ jobs <-> exists d, m !! j = Some d /\ d <= now) /\
      StronglySorted (fun a b => exists da db, m !! a = Some da /\ m !! b = Some db /\
                                 entry_le (mk_entry da a) (mk_entry db b)) jobs
  | OC_Waited wait received =>
      received = turn_received t /\ (forall j d, m !! j = Some d -> turn_now t < d) /\
      match wait with
      | Some w => (forall j d, m !! j = Some d -> w <= Z.max (d - turn_wait_now t) 0) /\
                  opt_Forall (fun idle => w <= idle) idle_timeout
      | None => m = ∅ /\ idle_timeout = None
      end
  end.

(** The loop ends at a shutdown, a closed channel, or an idle timeout with
    nothing pending. *)
Definition ends (m : Ledger) (o : Outcome) : Prop :=
  match o with
  | OC_Waited _ (RV_Event SV_Shutdown) | OC_Waited _ RV_Disconnected => True
  | OC_Waited _ RV_Timeout => m = ∅
  | _ => False
  end.

Inductive loop_ok (idle_timeout : option Duration) : Ledger -> list Turn -> list Outcome -> Ledger -> bool -> Prop :=
| loop_open m : loop_ok idle_timeout m [] [] m false
| loop_turn m t o turns outcomes m' stop :
    outcome_ok idle_timeout m t o -> ~ ends m o ->
    loop_ok idle_timeout (ledger_step m o) turns outcomes m' stop ->
    loop_ok idle_timeout m (t :: turns) (o :: outcomes) m' stop
| loop_end m t o turns :
    outcome_ok idle_timeout m t o -> ends m o ->
    loop_ok idle_timeout m (t :: turns) [o] (ledger_step m o) true.

(** ** Lemmas *)

(** What [heap.rs] promises to its client: the operations of a finite map with
    minimum, on a well-formed heap. *)
Class DeadlineQueue (wf : DeadlineHeap -> Prop) (pending : DeadlineHeap -> Ledger) := {
  queue_empty : wf heap_empty /\ pending heap_empty = ∅;
  queue_upsert h j d : wf h -> exists h', upsert h j d = Some h' /\ wf h' /\ pending h' = <[j := d]> (pending h);
  queue_pop h now : wf h -> exists es h', pop_due h now = Some (entry_job <$> es, h') /\ wf h' /\
    StronglySorted entry_le es /\ NoDup (entry_job <$> es) /\
    (forall e, e ∈ es <-> pending h !! entry_job e = Some (entry_due e) /\ entry_due e <= now) /\
    (forall j d, pending h' !! j = Some d <-> pending h !! j = Some d /\ now < d);
  queue_next h : wf h -> match next_deadline h with
    | Some d => (exists j, pending h !! j = Some d) /\ forall j d', pending h !! j = Some d' -> d <= d'
    | None => pending h = ∅
    end;
  queue_is_empty h : wf h -> heap_is_empty h = true <-> pending h = ∅
}.

#[export] Instance heap_queue : DeadlineQueue heap_wf abs.
Proof.
  split.
  - split; [apply heap_empty_wf | reflexivity].
  - intros h j d. apply upsert_wf.
  - intros h now Hwf. destruct (pop_due_loop_ok (S (length (entries h))) h now [] Hwf) as (es & h' & Hr & Hp); [lia|].
    exists es, h'. by destruct Hp as (? & ? & ? & ? & ?).
  - intros h Hwf. by apply heap_minimum.
  - intros h Hwf. by apply heap_is_empty_spec.
Qed.

Section LoopLemmas.
Context {wf : DeadlineHeap -> Prop} {pending : DeadlineHeap -> Ledger} `{!DeadlineQueue wf pending}.

Lemma wait_until_ok now (m : Ledger) next idle :
  match next with
  | Some d => (exists j, m !! j = Some d) /\ forall j d', m !! j = Some d' -> d <= d'
  | None => m = ∅
  end ->
  match wait_until now next idle with
  | Some w => (forall j d, m !! j = Some d -> w <= Z.max (d - now) 0) /\ opt_Forall (fun i => w <= i) idle
  | None => m = ∅ /\ idle = None
  end.
Proof.
  unfold wait_until. destruct next as [d|].
  - intros [_ Hmin]. assert (default u64_max (checked_u64 (Z.max (d - now) 0)) <= Z.max (d - now) 0) as Hw.
    { destruct (checked_u64 _) eqn:E; simpl.
      - apply checked_Some in E as [-> _]. done.
      - apply checked_None in E. lia. }
    split.
    + intros j d' Hj. specialize (Hmin _ _ Hj). destruct idle; lia.
    + destruct idle; simpl; [lia|done].
  - intros ->. destruct idle as [i|]; [|done]. split; [|simpl; lia]. intros j d Hj. by rewrite lookup_empty in Hj.
Qed.

Lemma foldr_delete_lookup (m : Ledger) jobs j :
  foldr delete m jobs !! j = if decide (j ∈ jobs) then None else m !! j.
Proof.
  induction jobs as [|x jobs IH]; simpl; [done|]. destruct (decide (j = x)) as [->|Hne].
  - rewrite lookup_delete_eq. rewrite decide_True; [done|by left].
  - rewrite lookup_delete_ne by done. rewrite IH. destruct (decide (j ∈ jobs)).
    + rewrite decide_True; [done|by right].
    + rewrite decide_False; [done|]. by intros [?|?]%elem_of_cons.
Qed.

Lemma popped_sorted (m : Ledger) es :
  (forall e, e ∈ es -> m !! entry_job e = Some (entry_due e)) -> StronglySorted entry_le es ->
  StronglySorted (fun a b => exists da db, m !! a = Some da /\ m !! b = Some db /\
                             entry_le (mk_entry da a) (mk_entry db b)) (entry_job <$> es).
Proof.
  intros Hm Hs. induction Hs as [|e es Hs IH Hall]; simpl; [constructor|]. constructor.
  - apply IH. intros x Hx. apply Hm. by right.
  - apply Forall_fmap, Forall_forall. intros x Hx. rewrite Forall_forall in Hall.
    exists (entry_due e), (entry_due x). split_and!; [apply Hm; by left | apply Hm; by right |].
    specialize (Hall x Hx). by destruct e, x.
Qed.

Lemma run_turn_ok idle h t :
  wf h -> exists o h' stop, run_turn idle h t = Some (o, h', stop) /\ wf h' /\
    pending h' = ledger_step (pending h) o /\ outcome_ok idle (pending h) t o /\
    (stop = true <-> ends (pending h) o).
Proof.
  intros Hwf. unfold run_turn.
  destruct (queue_pop h (turn_now t) Hwf) as (es & h1 & -> & Hwf1 & Hsort & Hdup & Hin & Hrest).
  cbn [mbind option_bind]. destruct es as [|e es].
  - cbn [fmap list_fmap is_empty negb].
    assert (pending h1 = pending h) as Hp.
    { apply map_eq. intros j. apply option_eq. intros d. rewrite Hrest. split; [tauto|]. intros Hj. split; [done|].
      destruct (Z.lt_ge_cases (turn_now t) d) as [|Hle]; [done|].
      assert (mk_entry d j ∈ ([] : list Entry)) as Hbad by (by apply Hin). by apply elem_of_nil in Hbad. }
    assert (forall j d, pending h !! j = Some d -> turn_now t < d) as Hnone by (intros j d; rewrite <- Hp; by intros [_ ?]%Hrest).
    pose proof (wait_until_ok (turn_wait_now t) _ _ idle (queue_next h1 Hwf1)) as Hwait. rewrite Hp in Hwait.
    pose proof (queue_is_empty h1 Hwf1) as Hempty. rewrite Hp in Hempty.
    destruct (turn_received t) as [[j d|]| |] eqn:Er.
    + destruct (queue_upsert h1 j d Hwf1) as (h2 & -> & Hwf2 & Hp2). cbn [mbind option_bind].
      eexists _, h2, false. split_and!; [done|done|by rewrite Hp2, Hp| |done]. by rewrite <- Er.
    + eexists _, h1, true. split_and!; [done|done|done| |done]. by rewrite <- Er.
    + eexists _, h1, _. split_and!; [done|done|done| |done]. by rewrite <- Er.
    + eexists _, h1, true. split_and!; [done|done|done| |done]. by rewrite <- Er.
  - cbn [fmap list_fmap is_empty negb]. eexists _, h1, false.
    assert (forall j, j ∈ entry_job <$> e :: es <-> exists d, pending h !! j = Some d /\ d <= turn_now t) as Hjobs.
    { intros j. rewrite list_elem_of_fmap. split.
      - intros (x & -> & [Hx Hle]%Hin). eauto.
      - intros (d & Hj & Hle). exists (mk_entry d j). split; [done|]. by apply Hin. }
    split_and!; [done|done| |split_and!; [done|done|done|exact Hjobs|]|done].
    + change (pending h1 = foldr delete (pending h) (entry_job <$> e :: es)).
      apply map_eq. intros j. rewrite foldr_delete_lookup. apply option_eq. intros d. rewrite Hrest.
      destruct (decide (j ∈ entry_job <$> e :: es)) as [Hj|Hj]; rewrite Hjobs in Hj.
      * split; [|done]. intros [Hd Hlt]. destruct Hj as (d' & Hd' & Hle). rewrite Hd in Hd'. injection Hd' as <-. lia.
      * split; [tauto|]. intros Hd. split; [done|]. destruct (Z.lt_ge_cases (turn_now t) d); [done|].
        exfalso. apply Hj. eauto.
    + apply (popped_sorted (pending h) (e :: es)); [|done]. intros x Hx%Hin. tauto.
Qed.
End LoopLemmas.

Section LoopRuns.
Context {wf : DeadlineHeap -> Prop} {pending : DeadlineHeap -> Ledger} `{!DeadlineQueue wf pending}.

Lemma run_loop_ok idle turns h :
  wf h -> exists outcomes h' stop, run_loop idle h turns = Some (outcomes, h', stop) /\ wf h' /\
    loop_ok idle (pending h) turns outcomes (pending h') stop.
Proof.
  revert h. induction turns as [|t turns IH]; intros h Hwf; cbn [run_loop].
  - exists [], h, false. split_and!; [done|done|constructor].
  - destruct (run_turn_ok idle h t Hwf) as (o & h1 & stop & -> & Hwf1 & Hp & Ho & Hstop). cbn [mbind option_bind].
    destruct stop.
    + exists [o], h1, true. split_and!; [done|done|]. rewrite Hp. constructor; [done|by apply Hstop].
    + destruct (IH h1 Hwf1) as (outs & h2 & stop & -> & Hwf2 & Hok). cbn [mbind option_bind].
      exists (o :: outs), h2, stop. split_and!; [done|done|]. rewrite Hp in Hok.
      constructor; [done| |done]. by intros ?%Hstop.
Qed.

Definition plan_ledger (plan : RecoveryPlan) : Ledger :=
  foldl (fun m d => <[rd_job_id d := rd_elapsed_due d]> m) ∅ (plan_deadlines plan).

Lemma rebuild_ok plan : exists h, rebuild_deadline_heap plan = Some h /\ wf h /\ pending h = plan_ledger plan.
Proof.
  unfold rebuild_deadline_heap, plan_ledger. destruct queue_empty as [Hwf Hp].
  revert Hwf Hp. generalize heap_empty, (∅ : Ledger). induction (plan_deadlines plan) as [|d ds IH]; intros h m Hwf Hp.
  - exists h. done.
  - cbn [foldl mbind option_bind]. destruct (queue_upsert h (rd_job_id d) (rd_elapsed_due d) Hwf) as (h' & -> & Hwf' & Hp').
    apply IH; [done|]. by rewrite Hp', Hp.
Qed.
End LoopRuns.

(** ** Properties *)

(** C9 (refinement).  The supervisor's loop, for every sequence of clock
    readings and events: started from the heap rebuilt from any plan it never
    panics, and it behaves as a loop over the ledger of pending deadlines (the
    plan's, the later ones replacing the earlier ones of the same job).  A
    turn hands over exactly the jobs due at its clock reading, each once, in
    the order of deadline and identifier, so no job fires early and none is
    lost; with nothing due it waits, never past a pending deadline nor longer
    than the idle timeout, and without limit only if there is neither.  It
    ends at a shutdown, a closed channel, or an idle timeout with nothing
    pending. *)
Theorem supervisor_loop_spec plan idle turns :
  exists h0 outcomes h stop,
    rebuild_deadline_heap plan = Some h0 /\ heap_wf h0 /\ abs h0 = plan_ledger plan /\
    run_loop idle h0 turns = Some (outcomes, h, stop) /\ heap_wf h /\
    loop_ok idle (plan_ledger plan) turns outcomes (abs h) stop.
Proof.
  destruct (rebuild_ok (wf := heap_wf) plan) as (h0 & Hr & Hwf0 & Hp0).
  destruct (run_loop_ok idle turns h0 Hwf0) as (outs & h & stop & Hl & Hwf & Hok).
  exists h0, outs, h, stop. rewrite <- Hp0. done.
Qed.

(** Two jobs of a plan, one rescheduled while waiting. *)
Example supervisor_loop_ex :
  let plan := mk_plan [mk_recovered_deadline (mk_job_id 1) 0 5; mk_recovered_deadline (mk_job_id 2) 0 9] [] [] in
  (h ← rebuild_deadline_heap plan;
   '(outcomes, h, stop) ← run_loop (Some 30) h
     [mk_turn 3 3 (RV_Event (SV_Schedule (mk_job_id 2) 4)); mk_turn 6 6 RV_Timeout; mk_turn 7 7 RV_Timeout];
   Some (outcomes, heap_is_empty h, stop)) =
  Some ([OC_Waited (Some 2) (RV_Event (SV_Schedule (mk_job_id 2) 4)); OC_Fired 6 [mk_job_id 2; mk_job_id 1];
         OC_Waited (Some 30) RV_Timeout], true, true).
Proof. vm_compute. reflexivity. Qed.
