(* ===== verification/Capture.v ===== *)
(** [src/run_monitor/capture.rs]: the bounded capture of one output stream.

    A reader is the list of what its calls to [read] give, then end of file; a
    writer has what it has accepted and the list of what its next calls to
    [write] do, after which it accepts all it is offered.  The two streams are
    drained by two threads that share nothing. *)

From S2P Require Import Prelude.

Definition BUFFER_SIZE : Z := 16 * 1024.
Abbreviation usize_max := u64_max.

(** ** The budget *)

Record CaptureBudget := mk_budget { cb_cap : Z; cb_written : Z; cb_discarded : Z }.
Inductive CaptureBudgetError := capture_budget_error.

Definition budget_new (cap : Z) : result CaptureBudgetError CaptureBudget :=
  if cap =? 0 then Err capture_budget_error else Ok (mk_budget cap 0 0).

(** [saturating_sub], [saturating_add] on [usize] *)
Definition saturating_sub (a b : Z) : Z := Z.max 0 (a - b).
Definition saturating_add (a b : Z) : Z := Z.min usize_max (a + b).

Definition remaining (b : CaptureBudget) : Z := saturating_sub (cb_cap b) (cb_written b).
Definition record_chunk (b : CaptureBudget) (written consumed : Z) : CaptureBudget :=
  mk_budget (cb_cap b) (saturating_add (cb_written b) written)
    (saturating_add (cb_discarded b) (saturating_sub consumed written)).

(** ** Readers and writers *)

Inductive IoError := IO_WriteZero | IO_Other (message : str).

(** What a [read] of at most [BUFFER_SIZE] bytes gives. *)
Abbreviation Reader := (list (result IoError str)).

(** A call of [write] accepts at most so many bytes of what it is offered. *)
Record Writer := mk_writer {
  wr_accepted : str;
  wr_calls : list (result IoError nat);
  wr_flush : result IoError unit
}.

Definition write (w : Writer) (bytes : str) : result IoError nat * Writer :=
  match wr_calls w with
  | [] => (Ok (length bytes), mk_writer (wr_accepted w ++ bytes) [] (wr_flush w))
  | Ok n :: calls =>
    let n := Nat.min n (length bytes) in
    (Ok n, mk_writer (wr_accepted w ++ take n bytes) calls (wr_flush w))
  | Err e :: calls => (Err e, mk_writer (wr_accepted w) calls (wr_flush w))
  end.

Record StreamCaptureSummary := mk_summary { ss_written : Z; ss_discarded : Z }.
Definition truncated (s : StreamCaptureSummary) : bool := 0 <? ss_discarded s.

Record CapturedStream := mk_captured {
  cs_writer : Writer;
  cs_summary : StreamCaptureSummary;
  cs_error : option IoError
}.

(** ** [drain_stream] *)

(** [while written < allowed]: [bytes] is [buffer[written..allowed]]; [fuel] is
    its length, since every turn that goes on has written at least one byte. *)
Fixpoint write_all (fuel : nat) (w : Writer) (bytes : str) : nat * option IoError * Writer :=
  match bytes, fuel with
  | [], _ | _, O => (O, None, w)
  | _, S fuel =>
    match write w bytes with
    | (Ok O, w) => (O, Some IO_WriteZero, w)
    | (Ok count, w) =>
      let '(written, error, w) := write_all fuel w (drop count bytes) in ((count + written)%nat, error, w)
    | (Err e, w) => (O, Some e, w)
    end
  end.

Fixpoint drain_loop (reader : Reader) (w : Writer) (budget : CaptureBudget) (first_error : option IoError)
  : Writer * CaptureBudget * option IoError :=
  match reader with
  | [] | Ok [] :: _ => (w, budget, first_error)
  | Err error :: _ => (w, budget, Some error)
  | Ok chunk :: reader =>
    let allowed := if is_some first_error then O else Z.to_nat (Z.min (remaining budget) (len chunk)) in
    let '(written, error, w) := write_all allowed w (take allowed chunk) in
    let first_error := match error with Some e => Some e | None => first_error end in
    drain_loop reader w (record_chunk budget (Z.of_nat written) (len chunk)) first_error
  end.

Definition drain_stream (reader : Reader) (w : Writer) (budget : CaptureBudget) : CapturedStream :=
  let '(w, budget, first_error) := drain_loop reader w budget None in
  let first_error :=
    match wr_flush w with
    | Err error => match first_error with None => Some error | e => e end
    | Ok _ => first_error
    end in
  mk_captured w (mk_summary (cb_written budget) (cb_discarded budget)) first_error.

Inductive CaptureError := CX_InvalidCap | CX_ThreadPanicked.

Definition capture_streams (stdout stderr : Reader) (stdout_writer stderr_writer : Writer) (cap : Z)
  : result CaptureError (CapturedStream * CapturedStream) :=
  stdout_budget ← map_err (fun _ => CX_InvalidCap) (budget_new cap);
  stderr_budget ← map_err (fun _ => CX_InvalidCap) (budget_new cap);
  Ok (drain_stream stdout stdout_writer stdout_budget, drain_stream stderr stderr_writer stderr_budget).

(** ** The reference *)

(** The bytes a reader delivers before its end or its error. *)
Fixpoint delivered (reader : Reader) : str :=
  match reader with
  | [] | Ok [] :: _ | Err _ :: _ => []
  | Ok chunk :: reader => chunk ++ delivered reader
  end.

(** ** Lemmas *)

Lemma write_all_spec fuel w bytes n e w' :
  (length bytes <= fuel)%nat -> write_all fuel w bytes = (n, e, w') ->
  (n <= length bytes)%nat /\ wr_accepted w' = wr_accepted w ++ take n bytes /\ wr_flush w' = wr_flush w /\
  (e = None -> n = length bytes) /\ (wr_calls w = [] -> e = None /\ wr_calls w' = []).
Proof.
  revert w bytes n. induction fuel as [|fuel IH]; intros w bytes n Hlen; destruct bytes as [|b bytes]; cbn [write_all].
  1-3: try (intros [= <- <- <-]; rewrite app_nil_r; split_and!; simpl in *; (done || lia)).
  destruct (write w (b :: bytes)) as [[c|err] w1] eqn:Ew; unfold write in Ew.
  2: { intros [= <- <- <-]. destruct (wr_calls w) as [|[m|er] calls] eqn:Ec; simplify_eq; simpl.
       rewrite app_nil_r. split_and!; [lia|done..]. }
  assert ((c <= length (b :: bytes))%nat /\ wr_accepted w1 = wr_accepted w ++ take c (b :: bytes) /\
          wr_flush w1 = wr_flush w /\ (wr_calls w = [] -> c = length (b :: bytes) /\ wr_calls w1 = [])) as (Hc & Ha & Hf & Hs).
  { destruct (wr_calls w) as [|[m|er] calls] eqn:Ec; simplify_eq; cbn [wr_accepted wr_flush wr_calls].
    - split_and!; [done| |done|done]. f_equal. symmetry. exact (firstn_all (b :: bytes)).
    - split_and!; [apply Nat.le_min_r|done..]. }
  destruct c as [|c].
  { intros [= <- <- <-]. rewrite take_0, app_nil_r in *. split_and!; [lia|done..|]. by intros [? _]%Hs. }
  destruct (write_all fuel w1 (drop (S c) (b :: bytes))) as [[n1 e1] w2] eqn:E. intros [= <- <- <-].
  apply IH in E as (Hn & Ha2 & Hf2 & Hd & Hs2); [|rewrite length_drop; simpl in *; lia].
  rewrite length_drop in Hn, Hd. split_and!; [lia| |by rewrite Hf2| |].
  - rewrite Ha2, Ha, <- app_assoc. f_equal. apply take_take_drop.
  - intros He. specialize (Hd He). lia.
  - intros Hcalls. destruct (Hs Hcalls) as [_ Hc1]. by apply Hs2.
Qed.

(** The loop without saturation. *)
Record drained (reader : Reader) (w : Writer) (b : CaptureBudget) (e : option IoError)
  (w' : Writer) (b' : CaptureBudget) (e' : option IoError) : Prop := {
  dr_cap : cb_cap b' = cb_cap b;
  dr_written : 0 <= cb_written b' - cb_written b <= len (delivered reader);
  dr_bytes : wr_accepted w' = wr_accepted w ++ take (Z.to_nat (cb_written b' - cb_written b)) (delivered reader);
  dr_bound : cb_written b' <= cb_cap b;
  dr_total : cb_written b' + cb_discarded b' = cb_written b + cb_discarded b + len (delivered reader);
  dr_flush : wr_flush w' = wr_flush w;
  dr_stopped : is_some e = true -> cb_written b' = cb_written b /\ is_some e' = true;
  dr_complete : e' = None -> Z.min (cb_cap b) (cb_written b + len (delivered reader)) <= cb_written b'
}.

Lemma drain_loop_spec reader w b e w' b' e' :
  drain_loop reader w b e = (w', b', e') -> 0 <= cb_written b <= cb_cap b -> 0 <= cb_discarded b ->
  cb_written b + cb_discarded b + len (delivered reader) <= usize_max -> drained reader w b e w' b' e'.
Proof.
  revert w b e. induction reader as [|[[|x chunk]|err] reader IH]; intros w b e; cbn [drain_loop delivered].
  1, 2, 4: intros [= <- <- <-] ? ? ?; split; rewrite ?Z.sub_diag, ?app_nil_r; simpl; (done || lia || naive_solver lia).
  set (c := x :: chunk). set (allowed := if is_some e then O else _).
  destruct (write_all allowed w (take allowed c)) as [[n er] w1] eqn:Ew. intros Hrest Hw Hd Hmax.
  rewrite length_app, Nat2Z.inj_add in Hmax.
  assert ((allowed <= length c)%nat /\ cb_written b + Z.of_nat allowed <= cb_cap b /\
    (e = None -> Z.min (cb_cap b) (cb_written b + len c) <= cb_written b + Z.of_nat allowed) /\
    (is_some e = true -> allowed = O)) as (Ha & Hab & Hac & Hae).
  { unfold allowed, remaining, saturating_sub. destruct e; simpl; [split_and!; naive_solver lia|]. split_and!; [lia..|done]. }
  apply write_all_spec in Ew as (Hn & Hacc & Hfl & Hfull & _); [|rewrite length_take; apply Nat.le_min_l].
  rewrite length_take in Hn, Hfull. rewrite take_take in Hacc. replace (n `min` allowed)%nat with n in Hacc by lia.
  replace (allowed `min` length c)%nat with allowed in Hn, Hfull by lia.
  assert (record_chunk b (Z.of_nat n) (len c) =
          mk_budget (cb_cap b) (cb_written b + Z.of_nat n) (cb_discarded b + (len c - Z.of_nat n))) as Hb.
  { unfold record_chunk, saturating_add, saturating_sub. f_equal; lia. }
  rewrite Hb in Hrest. apply IH in Hrest; [|cbn [cb_written cb_discarded cb_cap]; lia..].
  destruct Hrest as [R1 R2 R3 R4 R5 R6 R7 R8]. cbn [cb_cap cb_written cb_discarded] in *.
  set (first := match er with Some x => Some x | None => e end) in *.
  assert (n = length c \/ cb_written b' = cb_written b + Z.of_nat n) as Hlast.
  { destruct (is_some first) eqn:Ef; [right; by apply R7|].
    assert (er = None /\ e = None) as [-> ->] by (unfold first in Ef; by destruct er, e).
    specialize (Hfull eq_refl). specialize (Hac eq_refl). lia. }
  split; change (delivered (Ok c :: reader)) with (c ++ delivered reader); rewrite ?length_app, ?Nat2Z.inj_add; [done|lia| |done|lia|congruence| |].
  - rewrite R3, Hacc, <- app_assoc. f_equal. destruct Hlast as [->|Hlast].
    + rewrite firstn_all, take_app_ge by lia. do 2 f_equal. lia.
    + rewrite Hlast. replace (_ - (cb_written b + _)) with 0 by lia. rewrite app_nil_r, take_app_le by lia.
      f_equal. lia.
  - intros He. specialize (Hae He). assert (is_some first = true) as Hf by (unfold first; by destruct er).
    destruct (R7 Hf) as [-> ?]. split; [lia|done].
  - intros He'. specialize (R8 He'). destruct (is_some first) eqn:Ef; [destruct (R7 eq_refl); by subst|].
    assert (er = None /\ e = None) as [-> ->] by (unfold first in Ef; by destruct er, e).
    specialize (Hfull eq_refl). specialize (Hac eq_refl). lia.
Qed.

(** A stream whose reads and writes do not fail. *)
Fixpoint reads_well (reader : Reader) : Prop :=
  match reader with
  | [] | Ok [] :: _ => True
  | Ok _ :: reader => reads_well reader
  | Err _ :: _ => False
  end.
Definition writes_well (w : Writer) : Prop := wr_calls w = [] /\ wr_flush w = Ok tt.

Lemma drain_loop_well reader w b w' b' e' :
  drain_loop reader w b None = (w', b', e') -> reads_well reader -> wr_calls w = [] -> wr_calls w' = [] /\ e' = None.
Proof.
  revert w b. induction reader as [|[[|x chunk]|err] reader IH]; intros w b; cbn [drain_loop reads_well is_some].
  1-2: intros [= <- <- <-]; done.
  2: done.
  destruct (write_all _ w _) as [[n er] w1] eqn:Ew. intros Hrest Hr Hc.
  apply write_all_spec in Ew as (_ & _ & _ & _ & Hs); [|rewrite length_take; apply Nat.le_min_l].
  destruct (Hs Hc) as [-> Hc1]. by eapply IH.
Qed.

(** What one stream is worth: the first [cap] bytes of what was delivered, and
    the number of the others. *)
Definition capture_reference (reader : Reader) (w : Writer) (cap : Z) : CapturedStream :=
  let all := delivered reader in
  let kept := Z.min cap (len all) in
  mk_captured (mk_writer (wr_accepted w ++ take (Z.to_nat cap) all) [] (Ok tt)) (mk_summary kept (len all - kept)) None.

Record captured (reader : Reader) (w : Writer) (cap : Z) (c : CapturedStream) : Prop := {
  ct_bound : 0 <= ss_written (cs_summary c) <= Z.min cap (len (delivered reader));
  ct_prefix : wr_accepted (cs_writer c) =
              wr_accepted w ++ take (Z.to_nat (ss_written (cs_summary c))) (delivered reader);
  ct_total : ss_written (cs_summary c) + ss_discarded (cs_summary c) = len (delivered reader);
  ct_complete : cs_error c = None -> ss_written (cs_summary c) = Z.min cap (len (delivered reader));
  ct_truncated : cs_error c = None -> truncated (cs_summary c) = (cap <? len (delivered reader));
  ct_reference : reads_well reader -> writes_well w -> c = capture_reference reader w cap
}.

Lemma drain_stream_captured reader w cap :
  0 < cap -> len (delivered reader) <= usize_max -> captured reader w cap (drain_stream reader w (mk_budget cap 0 0)).
Proof.
  intros Hcap Hlen. unfold drain_stream. destruct (drain_loop reader w (mk_budget cap 0 0) None) as [[w' b'] e'] eqn:E.
  pose proof (drain_loop_spec _ _ _ _ _ _ _ E) as Hd. cbn [cb_cap cb_written cb_discarded] in Hd.
  destruct Hd as [H1 H2 H3 H4 H5 H6 _ H8]; [lia..|]. cbn [cb_cap cb_written cb_discarded] in *. rewrite Z.sub_0_r in *.
  assert ((match wr_flush w' with Err er => match e' with None => Some er | Some _ => e' end | Ok _ => e' end) = None ->
          e' = None) as He by (by destruct (wr_flush w'), e').
  assert (e' = None -> cb_written b' = Z.min cap (len (delivered reader))) as Hw by (intros Hn; specialize (H8 Hn); lia).
  split; cbn [cs_summary cs_writer cs_error ss_written ss_discarded].
  - lia.
  - done.
  - lia.
  - auto.
  - intros Hn. specialize (Hw (He Hn)). unfold truncated. cbn.
    destruct (Z.ltb_spec 0 (cb_discarded b')), (Z.ltb_spec cap (len (delivered reader))); try done; lia.
  - intros Hr [Hc Hf]. destruct (drain_loop_well _ _ _ _ _ _ E Hr Hc) as [Hc' ->]. specialize (Hw eq_refl).
    assert (take (Z.to_nat (Z.min cap (len (delivered reader)))) (delivered reader) =
            take (Z.to_nat cap) (delivered reader)) as Htake.
    { destruct (Z.le_gt_cases cap (len (delivered reader))); [by rewrite Z.min_l|]. rewrite !take_ge; (done || lia). }
    unfold capture_reference. destruct w' as [acc calls fl]. cbn in *. subst calls fl. rewrite Hf, H3, Hw, Htake.
    by replace (cb_discarded b') with (len (delivered reader) - Z.min cap (len (delivered reader))) by lia.
Qed.

(** ** Properties *)


(** ** Witness: a full log and a failing one *)

Module CaptureExample.
Definition stdout0 : Reader := [Ok (lit "hello "); Ok (lit "world")].
(** A write accepts two bytes, the next one fails. *)
Definition failing : Writer := mk_writer [] [Ok 2%nat; Err (IO_Other (lit "disk full"))] (Ok tt).
Definition healthy : Writer := mk_writer [] [] (Ok tt).
End CaptureExample.
Import CaptureExample.


Example capture_ex :
  capture_streams stdout0 stdout0 healthy failing 8 =
  Ok (mk_captured (mk_writer (lit "hello wo") [] (Ok tt)) (mk_summary 8 3) None,
      mk_captured (mk_writer (lit "he") [] (Ok tt)) (mk_summary 2 9) (Some (IO_Other (lit "disk full")))).
Proof. reflexivity. Qed.
