(* ===== verification/Config.v ===== *)
(** [src/infrastructure/config/mod.rs]: the configuration and its layers.

    [toml] and the zone database are arguments;
    paths are byte strings.  The overrides of the command line have the fields
    of the raw configuration, which [From] copies. *)

From S2P Require Import Prelude Text Lossy Duration States Recurrence Retention Capture.

Definition DEFAULT_TIMEZONE : str := lit "local".
Definition DEFAULT_SHELL : str := lit "/bin/sh".
Definition DEFAULT_CANCEL_GRACE : str := lit "10s".
Definition DEFAULT_HISTORY_DAYS : Z := 30.
Definition DEFAULT_TERMINAL_JOB_DAYS : Z := 30.
Definition DEFAULT_MAX_LOG_BYTES : Z := 10 * 1024 * 1024.
Definition MAX_RETENTION_DAYS : Z := 3650.
Definition MAX_LOG_BYTES : Z := 1024 * 1024 * 1024.

Inductive ColorMode := CM_Auto | CM_Always | CM_Never.
Inductive Verbosity := VB_Quiet | VB_Normal | VB_Verbose.

Inductive ConfigError :=
| CFE_Toml (message : str)
| CFE_Read (message : str)
| CFE_UnknownEnvironment (name : str)
| CFE_InvalidEnvironment (name : str)
| CFE_InvalidField (field : str).

Record RawConfig := mk_raw_config {
  rc_timezone : option str;
  rc_runtime : option RuntimeTier;
  rc_shell : option str;
  rc_cancel_grace : option str;
  rc_history_days : option Z;
  rc_terminal_job_days : option Z;
  rc_max_log_bytes : option Z;
  rc_color : option ColorMode;
  rc_verbosity : option Verbosity
}.
Definition raw_default : RawConfig := mk_raw_config None None None None None None None None None.

Record Config := mk_config {
  cf_timezone : str;
  cf_runtime : RuntimeTier;
  cf_shell : str;
  cf_cancel_grace : DurationSeconds;
  cf_history_days : Z;
  cf_terminal_job_days : Z;
  cf_max_log_bytes : Z;
  cf_color : ColorMode;
  cf_verbosity : Verbosity
}.

(** [redacted]: the grace as its text. *)
Definition redacted (c : Config) : str * RuntimeTier * str * str * Z * Z * Z * ColorMode * Verbosity :=
  (cf_timezone c, cf_runtime c, cf_shell c, duration_to_string (cf_cancel_grace c), cf_history_days c,
   cf_terminal_job_days c, cf_max_log_bytes c, cf_color c, cf_verbosity c).

(** [replace_some!] on one field *)
Definition replace {A} (self other : option A) : option A := if is_some other then other else self.

Definition apply (self other : RawConfig) : RawConfig :=
  mk_raw_config (replace (rc_timezone self) (rc_timezone other)) (replace (rc_runtime self) (rc_runtime other))
    (replace (rc_shell self) (rc_shell other)) (replace (rc_cancel_grace self) (rc_cancel_grace other))
    (replace (rc_history_days self) (rc_history_days other))
    (replace (rc_terminal_job_days self) (rc_terminal_job_days other))
    (replace (rc_max_log_bytes self) (rc_max_log_bytes other)) (replace (rc_color self) (rc_color other))
    (replace (rc_verbosity self) (rc_verbosity other)).

(** ** The environment *)

Definition parse_env (hi : Z) (value key : str) : result ConfigError Z :=
  ok_or (parse_uint hi value) (CFE_InvalidEnvironment key).

Definition parse_runtime (value key : str) : result ConfigError RuntimeTier :=
  if bool_decide (value = lit "session") then Ok RT_Session else
  if bool_decide (value = lit "durable") then Ok RT_Durable else Err (CFE_InvalidEnvironment key).

Definition parse_color (value key : str) : result ConfigError ColorMode :=
  if bool_decide (value = lit "auto") then Ok CM_Auto else
  if bool_decide (value = lit "always") then Ok CM_Always else
  if bool_decide (value = lit "never") then Ok CM_Never else Err (CFE_InvalidEnvironment key).

Definition parse_verbosity (value key : str) : result ConfigError Verbosity :=
  if bool_decide (value = lit "quiet") then Ok VB_Quiet else
  if bool_decide (value = lit "normal") then Ok VB_Normal else
  if bool_decide (value = lit "verbose") then Ok VB_Verbose else Err (CFE_InvalidEnvironment key).

Definition is_atx (key : str) : bool := bool_decide (take 4 key = lit "ATX_").

(** One turn of the loop of [environment_layer]. *)
Definition environment_step (raw : RawConfig) (key value : str) : result ConfigError RawConfig :=
  let '(mk_raw_config tz rt sh cg hd td ml co vb) := raw in
  if bool_decide (key = lit "ATX_DEFAULT_TIMEZONE") then Ok (mk_raw_config (Some value) rt sh cg hd td ml co vb) else
  if bool_decide (key = lit "ATX_DEFAULT_RUNTIME") then
    rt ← parse_runtime value key; Ok (mk_raw_config tz (Some rt) sh cg hd td ml co vb) else
  if bool_decide (key = lit "ATX_DEFAULT_SHELL") then Ok (mk_raw_config tz rt (Some value) cg hd td ml co vb) else
  if bool_decide (key = lit "ATX_CANCEL_GRACE") then Ok (mk_raw_config tz rt sh (Some value) hd td ml co vb) else
  if bool_decide (key = lit "ATX_HISTORY_DAYS") then
    hd ← parse_env u16_max value key; Ok (mk_raw_config tz rt sh cg (Some hd) td ml co vb) else
  if bool_decide (key = lit "ATX_TERMINAL_JOB_DAYS") then
    td ← parse_env u16_max value key; Ok (mk_raw_config tz rt sh cg hd (Some td) ml co vb) else
  if bool_decide (key = lit "ATX_MAX_LOG_BYTES_PER_STREAM") then
    ml ← parse_env u64_max value key; Ok (mk_raw_config tz rt sh cg hd td (Some ml) co vb) else
  if bool_decide (key = lit "ATX_COLOR") then
    co ← parse_color value key; Ok (mk_raw_config tz rt sh cg hd td ml (Some co) vb) else
  if bool_decide (key = lit "ATX_VERBOSITY") then
    vb ← parse_verbosity value key; Ok (mk_raw_config tz rt sh cg hd td ml co (Some vb)) else
  if is_atx key then Err (CFE_UnknownEnvironment key) else Ok raw.

Fixpoint environment_loop (raw : RawConfig) (environment : list (str * str)) : result ConfigError RawConfig :=
  match environment with
  | [] => Ok raw
  | (key, value) :: environment => raw ← environment_step raw key value; environment_loop raw environment
  end.
Definition environment_layer (environment : list (str * str)) : result ConfigError RawConfig :=
  environment_loop raw_default environment.

(** ** Validation *)

Definition checked_days (value : Z) : result ConfigError Z :=
  if in_range 1 MAX_RETENTION_DAYS value then Ok value else Err (CFE_InvalidField (lit "retention_days")).

Definition unwrap_or {A} (o : option A) (d : A) : A := match o with Some a => a | None => d end.

Section Config.
(** [toml::from_str], [TimeZone::get] *)
Variable toml : str -> result str RawConfig.
Variable tz_known : str -> bool.

Definition validate (raw : RawConfig) : result ConfigError Config :=
  let default_timezone := unwrap_or (rc_timezone raw) DEFAULT_TIMEZONE in
  if negb (bool_decide (default_timezone = lit "local")) && negb (tz_known default_timezone)
  then Err (CFE_InvalidField (lit "default_timezone")) else
  let default_shell := unwrap_or (rc_shell raw) DEFAULT_SHELL in
  if negb (is_absolute default_shell) || contains_byte 0 default_shell
  then Err (CFE_InvalidField (lit "default_shell")) else
  cancel_grace ← map_err (fun _ => CFE_InvalidField (lit "cancel_grace"))
                   (duration_from_str (unwrap_or (rc_cancel_grace raw) DEFAULT_CANCEL_GRACE));
  history_days ← checked_days (unwrap_or (rc_history_days raw) DEFAULT_HISTORY_DAYS);
  terminal_job_days ← checked_days (unwrap_or (rc_terminal_job_days raw) DEFAULT_TERMINAL_JOB_DAYS);
  let max_log_bytes := unwrap_or (rc_max_log_bytes raw) DEFAULT_MAX_LOG_BYTES in
  if negb (in_range 1 MAX_LOG_BYTES max_log_bytes) then Err (CFE_InvalidField (lit "max_log_bytes_per_stream")) else
  Ok (mk_config default_timezone (unwrap_or (rc_runtime raw) RT_Session) default_shell cancel_grace history_days
        terminal_job_days max_log_bytes (unwrap_or (rc_color raw) CM_Auto) (unwrap_or (rc_verbosity raw) VB_Normal)).

Definition file_layer (file : option str) : result ConfigError RawConfig :=
  match file with
  | Some text => map_err CFE_Toml (toml text)
  | None => Ok raw_default
  end.

Definition load_config (file : option str) (environment : list (str * str)) (overrides : RawConfig)
  : result ConfigError Config :=
  raw ← file_layer file;
  layer ← environment_layer environment;
  validate (apply (apply raw layer) overrides).

(** The variables of the process: only the names that start with [ATX_]
    cross, and they have to be UTF-8. *)
Fixpoint process_environment (vars : list (str * str)) : result ConfigError (list (str * str)) :=
  match vars with
  | [] => Ok []
  | (key, value) :: vars =>
    if negb (is_atx key) then process_environment vars else
    if negb (valid_utf8 key) then
      Err (CFE_Read (lit "environment variable name is not valid UTF-8: " ++ from_utf8_lossy key)) else
    if negb (valid_utf8 value) then
      Err (CFE_Read (lit "environment variable " ++ key ++ lit " is not valid UTF-8")) else
    rest ← process_environment vars; Ok ((key, value) :: rest)
  end.

(** [load_process_config]: the file is absent ([Ok None]), read, or not. *)
Definition load_process_config (config_path : str) (read : result str (option str)) (vars : list (str * str))
  : result ConfigError Config :=
  file ← map_err (fun error => CFE_Read (lit "cannot read " ++ config_path ++ lit ": " ++ error)) read;
  environment ← process_environment vars;
  load_config file environment raw_default.
End Config.

(** ** Lemmas *)

(** The value that the environment gives to a variable: its last binding. *)
Fixpoint last_value (name : str) (environment : list (str * str)) : option str :=
  match environment with
  | [] => None
  | (key, value) :: environment =>
    match last_value name environment with
    | Some v => Some v
    | None => if bool_decide (key = name) then Some value else None
    end
  end.

Definition result_ok {E A} (r : result E A) : option A := match r with Ok a => Some a | Err _ => None end.

(** A field after the environment, with the parser of its variable. *)
Definition field {A} (parse : str -> option A) (name : str) (environment : list (str * str)) (before : option A) : option A :=
  match last_value name environment with Some v => parse v | None => before end.

(** [after] is that field, and the value parses. *)
Definition sets {A} (parse : str -> option A) (name : str) (environment : list (str * str)) (before after : option A) : Prop :=
  after = field parse name environment before /\
  forall v, last_value name environment = Some v -> is_some (parse v) = true.

Lemma sets_nil {A} (parse : str -> option A) name before : sets parse name [] before before.
Proof. done. Qed.
Lemma sets_cons {A} (parse : str -> option A) name e environment before mid after :
  sets parse name [e] before mid -> sets parse name environment mid after -> sets parse name (e :: environment) before after.
Proof.
  unfold sets, field. destruct e as [k v]. cbn [last_value]. intros [-> Hv] [-> Hrest].
  destruct (last_value name environment); [by eauto|]. by destruct (bool_decide (k = name)); eauto.
Qed.
Lemma sets_other {A} (parse : str -> option A) name key value before :
  key <> name -> sets parse name [(key, value)] before before.
Proof. intros Hne. unfold sets, field. cbn. by rewrite bool_decide_false. Qed.
Lemma sets_same {A} (parse : str -> option A) name value before a :
  parse value = Some a -> sets parse name [(name, value)] before (Some a).
Proof.
  intros Hp. unfold sets, field. cbn [last_value]. rewrite bool_decide_true by done. split; [done|].
  intros v [= <-]. by rewrite Hp.
Qed.

Definition env_names : list str :=
  [lit "ATX_DEFAULT_TIMEZONE"; lit "ATX_DEFAULT_RUNTIME"; lit "ATX_DEFAULT_SHELL"; lit "ATX_CANCEL_GRACE";
   lit "ATX_HISTORY_DAYS"; lit "ATX_TERMINAL_JOB_DAYS"; lit "ATX_MAX_LOG_BYTES_PER_STREAM"; lit "ATX_COLOR";
   lit "ATX_VERBOSITY"].

Definition runtime_of (v : str) : option RuntimeTier := result_ok (parse_runtime v []).
Definition color_of (v : str) : option ColorMode := result_ok (parse_color v []).
Definition verbosity_of (v : str) : option Verbosity := result_ok (parse_verbosity v []).

Record env_applied (before : RawConfig) (environment : list (str * str)) (after : RawConfig) : Prop := {
  ea_timezone : sets Some (lit "ATX_DEFAULT_TIMEZONE") environment (rc_timezone before) (rc_timezone after);
  ea_runtime : sets runtime_of (lit "ATX_DEFAULT_RUNTIME") environment (rc_runtime before) (rc_runtime after);
  ea_shell : sets Some (lit "ATX_DEFAULT_SHELL") environment (rc_shell before) (rc_shell after);
  ea_grace : sets Some (lit "ATX_CANCEL_GRACE") environment (rc_cancel_grace before) (rc_cancel_grace after);
  ea_history : sets (parse_uint u16_max) (lit "ATX_HISTORY_DAYS") environment (rc_history_days before) (rc_history_days after);
  ea_terminal : sets (parse_uint u16_max) (lit "ATX_TERMINAL_JOB_DAYS") environment (rc_terminal_job_days before)
    (rc_terminal_job_days after);
  ea_log : sets (parse_uint u64_max) (lit "ATX_MAX_LOG_BYTES_PER_STREAM") environment (rc_max_log_bytes before)
    (rc_max_log_bytes after);
  ea_color : sets color_of (lit "ATX_COLOR") environment (rc_color before) (rc_color after);
  ea_verbosity : sets verbosity_of (lit "ATX_VERBOSITY") environment (rc_verbosity before) (rc_verbosity after);
  ea_known : Forall (fun e => is_atx e.1 = true -> In e.1 env_names) environment
}.

Lemma env_applied_cons before e mid environment after :
  env_applied before [e] mid -> env_applied mid environment after -> env_applied before (e :: environment) after.
Proof.
  intros Ha Hb. pose proof Ha as []. pose proof Hb as []. split; try (eapply sets_cons; eassumption).
  apply List.Forall_cons; [exact (List.Forall_inv (ea_known _ _ _ Ha))|exact (ea_known _ _ _ Hb)].
Qed.

Lemma parse_key_irrelevant value key :
  result_ok (parse_runtime value key) = runtime_of value /\ result_ok (parse_color value key) = color_of value /\
  result_ok (parse_verbosity value key) = verbosity_of value.
Proof.
  unfold runtime_of, color_of, verbosity_of, parse_runtime, parse_color, parse_verbosity.
  split_and!; by repeat case_bool_decide.
Qed.

Ltac names_differ := let E := fresh in intros E; vm_compute in E; discriminate.
(** One variable is set: its field is parsed, the others stay. *)
Ltac env_one Hx :=
  split; cbn [rc_timezone rc_runtime rc_shell rc_cancel_grace rc_history_days rc_terminal_job_days rc_max_log_bytes rc_color
    rc_verbosity];
  first [by apply sets_other; names_differ | by apply sets_same, Hx | apply Forall_singleton; intros _; cbn; tauto].
Ltac next_name :=
  match goal with
  | |- context [bool_decide (?key = ?name)] =>
    destruct (decide (key = name)) as [->|?];
      [rewrite (bool_decide_true (name = name)) by done | rewrite (bool_decide_false (key = name)) by done]
  end.

Lemma environment_step_applied raw key value raw' :
  environment_step raw key value = Ok raw' -> env_applied raw [(key, value)] raw'.
Proof.
  destruct (parse_key_irrelevant value key) as (Hrt & Hco & Hvb). destruct raw as [tz rt sh cg hd td ml co vb].
  unfold environment_step.
  next_name; [intros [= <-]; env_one (eq_refl (Some value))|].
  next_name; [intros (x & Hx & [= <-])%bind_ok; rewrite Hx in Hrt; env_one (eq_sym Hrt)|].
  next_name; [intros [= <-]; env_one (eq_refl (Some value))|].
  next_name; [intros [= <-]; env_one (eq_refl (Some value))|].
  next_name; [intros (x & Hx%ok_or_ok & [= <-])%bind_ok; env_one Hx|].
  next_name; [intros (x & Hx%ok_or_ok & [= <-])%bind_ok; env_one Hx|].
  next_name; [intros (x & Hx%ok_or_ok & [= <-])%bind_ok; env_one Hx|].
  next_name; [intros (x & Hx & [= <-])%bind_ok; rewrite Hx in Hco; env_one (eq_sym Hco)|].
  next_name; [intros (x & Hx & [= <-])%bind_ok; rewrite Hx in Hvb; env_one (eq_sym Hvb)|].
  destruct (is_atx key) eqn:Ek; [done|]. intros [= <-].
  split; cbn [rc_timezone rc_runtime rc_shell rc_cancel_grace rc_history_days rc_terminal_job_days rc_max_log_bytes rc_color
    rc_verbosity]; try by apply sets_other. apply Forall_singleton. cbn. by rewrite Ek.
Qed.

Lemma environment_loop_applied environment : forall raw raw',
  environment_loop raw environment = Ok raw' -> env_applied raw environment raw'.
Proof.
  induction environment as [|[key value] environment IH]; intros raw raw'.
  - intros [= <-]. by split.
  - intros (mid & Hs%environment_step_applied & Hl%IH)%bind_ok. by eapply env_applied_cons.
Qed.

(** The value of a field: the command line, then the environment, then the
    file, then the default. *)
Definition layered {A} (override : option A) (parse : str -> option A) (name : str) (environment : list (str * str))
  (file : option A) (default : A) : A :=
  unwrap_or (match override with Some v => Some v | None => field parse name environment file end) default.

Lemma layered_replace {A} (a b c : option A) (parse : str -> option A) name environment (d : A) :
  sets parse name environment None b -> unwrap_or (replace (replace a b) c) d = layered c parse name environment a d.
Proof.
  intros [-> Hp]. unfold replace, layered, field. destruct c; [done|]. cbn.
  destruct (last_value name environment) as [v|]; [|done]. specialize (Hp v eq_refl). by destruct (parse v).
Qed.

Lemma duration_from_str_ok input d : duration_from_str input = Ok d -> duration_ok d.
Proof.
  unfold duration_from_str. destruct (is_empty (trim input)); [done|].
  rewrite parse_loop_spec by (done || lia). by intros (n & _ & _ & Hd).
Qed.

(** What the rest of the program relies on. *)
Record config_ok (tz_known : str -> bool) (c : Config) : Prop := {
  co_timezone : cf_timezone c = lit "local" \/ tz_known (cf_timezone c) = true;
  co_shell : is_absolute (cf_shell c) = true /\ contains_byte 0 (cf_shell c) = false;
  co_grace : duration_ok (cf_cancel_grace c);
  co_retention : is_ok (retention_new (cf_history_days c) (cf_terminal_job_days c)) = true;
  co_capture : is_ok (budget_new (cf_max_log_bytes c)) = true /\ cf_max_log_bytes c <= MAX_LOG_BYTES
}.

Lemma validate_ok tz_known raw c :
  validate tz_known raw = Ok c ->
  config_ok tz_known c /\
  cf_timezone c = unwrap_or (rc_timezone raw) DEFAULT_TIMEZONE /\ cf_runtime c = unwrap_or (rc_runtime raw) RT_Session /\
  cf_shell c = unwrap_or (rc_shell raw) DEFAULT_SHELL /\
  duration_from_str (unwrap_or (rc_cancel_grace raw) DEFAULT_CANCEL_GRACE) = Ok (cf_cancel_grace c) /\
  cf_history_days c = unwrap_or (rc_history_days raw) DEFAULT_HISTORY_DAYS /\
  cf_terminal_job_days c = unwrap_or (rc_terminal_job_days raw) DEFAULT_TERMINAL_JOB_DAYS /\
  cf_max_log_bytes c = unwrap_or (rc_max_log_bytes raw) DEFAULT_MAX_LOG_BYTES /\
  cf_color c = unwrap_or (rc_color raw) CM_Auto /\ cf_verbosity c = unwrap_or (rc_verbosity raw) VB_Normal.
Proof.
  unfold validate. destruct (negb _ && negb _) eqn:Etz; [done|]. destruct (negb _ || _) eqn:Esh; [done|].
  intros (grace & Hg%map_err_ok & (h & Hh & (t & Ht & Hc)%bind_ok)%bind_ok)%bind_ok.
  unfold checked_days in Hh, Ht. destruct (in_range 1 MAX_RETENTION_DAYS _) eqn:Eh in Hh; [injection Hh as <-|done].
  destruct (in_range 1 MAX_RETENTION_DAYS _) eqn:Et in Ht; [injection Ht as <-|done].
  destruct (in_range 1 MAX_LOG_BYTES _) eqn:El; [|done]. cbn [negb] in Hc. injection Hc as <-.
  rewrite in_range_spec in Eh, Et, El. split; [|by split_and!]. split; cbn [cf_timezone cf_shell cf_cancel_grace
    cf_history_days cf_terminal_job_days cf_max_log_bytes].
  - destruct (bool_decide_reflect (unwrap_or (rc_timezone raw) DEFAULT_TIMEZONE = lit "local")); [by left|right].
    by destruct (tz_known _).
  - apply orb_false_iff in Esh as [Ha%negb_false_iff Hz]. done.
  - by eapply duration_from_str_ok.
  - unfold retention_new, Retention.MAX_RETENTION_DAYS. unfold MAX_RETENTION_DAYS in *.
    repeat match goal with
    | |- context [?a =? 0] => destruct (Z.eqb_spec a 0); [lia|]
    | |- context [3650 <? ?a] => destruct (Z.ltb_spec 3650 a); [lia|]
    end. done.
  - unfold budget_new. destruct (Z.eqb_spec (unwrap_or (rc_max_log_bytes raw) DEFAULT_MAX_LOG_BYTES) 0); [lia|]. split; [done|lia].
Qed.

(** ** Properties *)

(** C28 (type).  A configuration that loads, from whatever file, environment
    and command line, is well formed: its time zone exists, its shell is an
    absolute path, its grace a valid duration, and the retention policy and the
    output budgets that the supervisor and the monitors build from it are always
    accepted.  Each field has the value of the highest layer that sets it, the
    last binding counting in the environment, and no unknown [ATX_] variable is
    let through. *)
Theorem load_config_spec toml tz_known file environment ov c :
  load_config toml tz_known file environment ov = Ok c ->
  config_ok tz_known c /\ Forall (fun e => is_atx e.1 = true -> In e.1 env_names) environment /\
  exists f, file_layer toml file = Ok f /\
  cf_timezone c = layered (rc_timezone ov) Some (lit "ATX_DEFAULT_TIMEZONE") environment (rc_timezone f) (lit "local") /\
  cf_runtime c = layered (rc_runtime ov) runtime_of (lit "ATX_DEFAULT_RUNTIME") environment (rc_runtime f) RT_Session /\
  cf_shell c = layered (rc_shell ov) Some (lit "ATX_DEFAULT_SHELL") environment (rc_shell f) (lit "/bin/sh") /\
  duration_from_str (layered (rc_cancel_grace ov) Some (lit "ATX_CANCEL_GRACE") environment (rc_cancel_grace f) (lit "10s")) =
    Ok (cf_cancel_grace c) /\
  cf_history_days c =
    layered (rc_history_days ov) (parse_uint u16_max) (lit "ATX_HISTORY_DAYS") environment (rc_history_days f) 30 /\
  cf_terminal_job_days c =
    layered (rc_terminal_job_days ov) (parse_uint u16_max) (lit "ATX_TERMINAL_JOB_DAYS") environment (rc_terminal_job_days f) 30 /\
  cf_max_log_bytes c =
    layered (rc_max_log_bytes ov) (parse_uint u64_max) (lit "ATX_MAX_LOG_BYTES_PER_STREAM") environment (rc_max_log_bytes f)
      10485760 /\
  cf_color c = layered (rc_color ov) color_of (lit "ATX_COLOR") environment (rc_color f) CM_Auto /\
  cf_verbosity c = layered (rc_verbosity ov) verbosity_of (lit "ATX_VERBOSITY") environment (rc_verbosity f) VB_Normal.
Proof.
  intros (f & Hf & (layer & Hl%environment_loop_applied & Hv)%bind_ok)%bind_ok.
  apply validate_ok in Hv as (Hok & Htz & Hrt & Hsh & Hg & Hh & Ht & Hm & Hc & Hb). unfold apply in *.
  cbn [rc_timezone rc_runtime rc_shell rc_cancel_grace rc_history_days rc_terminal_job_days rc_max_log_bytes rc_color
    rc_verbosity] in *.
  split; [done|]. split; [exact (ea_known _ _ _ Hl)|]. exists f. split; [done|]. destruct Hl as [].
  split_and!; first [etransitivity; [eassumption|by apply layered_replace]|idtac].
  rewrite <- Hg. f_equal. symmetry. by apply layered_replace.
Qed.

Module ConfigExample.
(** A file that sets the color and the time zone, an environment that sets the
    time zone twice, and a command line that sets the color. *)
Definition toml0 (_ : str) : result str RawConfig :=
  Ok (mk_raw_config (Some (lit "UTC")) None None (Some (lit "1m")) None None None (Some CM_Never) None).
Definition environment0 : list (str * str) :=
  [(lit "ATX_DEFAULT_TIMEZONE", lit "UTC"); (lit "HOME", lit "/root"); (lit "ATX_DEFAULT_TIMEZONE", lit "local");
   (lit "ATX_HISTORY_DAYS", lit "7")].
Definition overrides0 : RawConfig := mk_raw_config None None None None None None None (Some CM_Always) None.
Definition known0 (name : str) : bool := bool_decide (name = lit "UTC").
Definition config0 : Config :=
  mk_config (lit "local") RT_Session (lit "/bin/sh") (mk_duration 60) 7 30 10485760 CM_Always VB_Normal.
End ConfigExample.
Import ConfigExample.

Lemma load_config_spec_witness :
  load_config toml0 known0 (Some []) environment0 overrides0 = Ok config0 /\
  config_ok known0 config0 /\ Forall (fun e => is_atx e.1 = true -> In e.1 env_names) environment0 /\
  exists f, file_layer toml0 (Some []) = Ok f /\
  cf_timezone config0 = layered (rc_timezone overrides0) Some (lit "ATX_DEFAULT_TIMEZONE") environment0 (rc_timezone f) (lit "local") /\
  cf_runtime config0 = layered (rc_runtime overrides0) runtime_of (lit "ATX_DEFAULT_RUNTIME") environment0 (rc_runtime f) RT_Session /\
  cf_shell config0 = layered (rc_shell overrides0) Some (lit "ATX_DEFAULT_SHELL") environment0 (rc_shell f) (lit "/bin/sh") /\
  duration_from_str (layered (rc_cancel_grace overrides0) Some (lit "ATX_CANCEL_GRACE") environment0 (rc_cancel_grace f) (lit "10s")) =
    Ok (cf_cancel_grace config0) /\
  cf_history_days config0 =
    layered (rc_history_days overrides0) (parse_uint u16_max) (lit "ATX_HISTORY_DAYS") environment0 (rc_history_days f) 30 /\
  cf_terminal_job_days config0 =
    layered (rc_terminal_job_days overrides0) (parse_uint u16_max) (lit "ATX_TERMINAL_JOB_DAYS") environment0 (rc_terminal_job_days f) 30 /\
  cf_max_log_bytes config0 =
    layered (rc_max_log_bytes overrides0) (parse_uint u64_max) (lit "ATX_MAX_LOG_BYTES_PER_STREAM") environment0 (rc_max_log_bytes f)
      10485760 /\
  cf_color config0 = layered (rc_color overrides0) color_of (lit "ATX_COLOR") environment0 (rc_color f) CM_Auto /\
  cf_verbosity config0 = layered (rc_verbosity overrides0) verbosity_of (lit "ATX_VERBOSITY") environment0 (rc_verbosity f) VB_Normal.
Proof.
  assert (load_config toml0 known0 (Some []) environment0 overrides0 = Ok config0) as E by (vm_compute; reflexivity).
  split; [exact E|]. exact (load_config_spec toml0 known0 (Some []) environment0 overrides0 config0 E).
Defined.
