(* ===== verification/Process.v ===== *)
(** [src/infrastructure/process/mod.rs] (Linux) and [cancel.rs]: the identity
    of a process read from [/proc], and the validated cancellation of a process
    group.

    What the kernel answers (the text of [/proc/<pid>/stat], the results of
    the kills, the monotonic clock) is an argument. *)

From S2P Require Import Prelude Text Primitives Duration Identifier States Recurrence Execution JobAgg RunAgg.

(** ** Identities *)

Module Identity.

Inductive IdentityStatus := Alive | Dead | Reused.
#[export] Instance IdentityStatus_eq_dec : EqDecision IdentityStatus. Proof. solve_decision. Defined.

(** The fields of [ProcessError] that Linux knows. *)
Inductive ProcessError := InvalidIdentity | Malformed | PermissionDenied | Io (message : str).
#[export] Instance ProcessError_eq_dec : EqDecision ProcessError. Proof. solve_decision. Defined.

Record LinuxProcess := mk_linux_process { lp_identity : ProcessIdentitySnapshot; lp_state : Z }.

Definition validate_snapshot (identity : ProcessIdentitySnapshot) : result ProcessError unit :=
  if is_empty (boot_identity identity) || contains_nul (boot_identity identity) || (pid identity =? 0)
     || (start_token identity =? 0) || (process_group_id identity <=? 0)
  then Err InvalidIdentity else Ok tt.

Definition classify_identity (expected : ProcessIdentitySnapshot) (current : option ProcessIdentitySnapshot)
  : IdentityStatus :=
  match current with
  | None => Dead
  | Some current => if bool_decide (current = expected) then Alive else Reused
  end.

(** A zombie is dead: states [Z], [X] and [x]. *)
Definition classify_linux_process (expected : ProcessIdentitySnapshot) (current : option LinuxProcess)
  : IdentityStatus :=
  match current with
  | None => Dead
  | Some process =>
    if (lp_state process =? 90) || (lp_state process =? 88) || (lp_state process =? 120) then Dead
    else classify_identity expected (Some (lp_identity process))
  end.

(** [str::find] and [str::rfind] of one byte. *)
Fixpoint find_byte (b : Z) (s : str) : option nat :=
  match s with
  | [] => None
  | c :: s => if c =? b then Some O else S <$> find_byte b s
  end.
Fixpoint rfind_byte (b : Z) (s : str) : option nat :=
  match s with
  | [] => None
  | c :: s =>
    match rfind_byte b s with
    | Some i => Some (S i)
    | None => if c =? b then Some O else None
    end
  end.

(** [str::split_whitespace]; [fuel] is the length: a step drops at least one
    byte.  [word] is the current word, reversed. *)
Definition emit (word : str) (words : list str) : list str :=
  if is_empty word then words else reverse word :: words.
Fixpoint split_ws (fuel : nat) (s : str) (word : str) : list str :=
  match fuel, s with
  | S fuel, b :: s' =>
    match ws_len s with
    | O => split_ws fuel s' (b :: word)
    | n => emit word (split_ws fuel (drop n s) [])
    end
  | _, _ => emit word []
  end.
Definition split_whitespace (s : str) : list str := split_ws (length s) s [].

(** [str::parse::<i32>()]: an optional sign, then at least one digit. *)
Definition parse_i32 (s : str) : option Z :=
  let '(sign, ds) := match s with 45 :: r => (-1, r) | 43 :: r => (1, r) | _ => (1, s) end in
  if is_empty ds || negb (forallb is_ascii_digit ds) then None
  else checked (- 2 ^ 31) (2 ^ 31 - 1) (sign * dec_value ds).

Definition next (fields : list str) : result ProcessError (str * list str) :=
  match fields with f :: fields => Ok (f, fields) | [] => Err Malformed end.

Definition parse_linux_process (stat : str) (boot : str) : result ProcessError LinuxProcess :=
  opening ← ok_or (find_byte 40 stat) Malformed;
  closing ← ok_or (rfind_byte 41 stat) Malformed;
  if (opening =? 0)%nat || (closing <=? opening)%nat then Err Malformed else
  pid ← ok_or (parse_uint u32_max (trim (take opening stat))) Malformed;
  '(state, fields) ← next (split_whitespace (drop (closing + 1) stat));
  if negb (length state =? 1)%nat then Err Malformed else
  '(_, fields) ← next fields;
  '(group, fields) ← next fields;
  process_group_id ← ok_or (parse_i32 group) Malformed;
  '(start, _) ← next (drop 16 fields);
  start_token ← ok_or (parse_uint u64_max start) Malformed;
  let snapshot := mk_process_identity boot pid start_token process_group_id in
  _ ← validate_snapshot snapshot;
  Ok (mk_linux_process snapshot (default 0 (head state))).

(** [io::Error] as [inspect_linux_process] looks at it. *)
Inductive ErrorKind := EK_NotFound | EK_PermissionDenied | EK_Other.
#[export] Instance ErrorKind_eq_dec : EqDecision ErrorKind. Proof. solve_decision. Defined.
Record SysError := mk_sys_error { se_kind : ErrorKind; se_raw_os_error : option Z; se_text : str }.
Definition ESRCH : Z := 3.

Definition proc_entry_vanished (error : SysError) : bool :=
  bool_decide (se_kind error = EK_NotFound) || bool_decide (se_raw_os_error error = Some ESRCH).

Definition map_inspection_error (error : SysError) : ProcessError :=
  if bool_decide (se_kind error = EK_PermissionDenied) then PermissionDenied else Io (se_text error).

(** [read] is what reading [/proc/<pid>/stat] gives. *)
Definition inspect_linux_process (read : result SysError str) (boot : str) : result ProcessError (option LinuxProcess) :=
  match read with
  | Ok stat => process ← parse_linux_process stat boot; Ok (Some process)
  | Err error => if proc_entry_vanished error then Ok None else Err (map_inspection_error error)
  end.

(** [NativeProcessInspector::inspect] and [classify]. *)
Definition inspect_platform (read : result SysError str) (boot : str) : result ProcessError (option ProcessIdentitySnapshot) :=
  process ← inspect_linux_process read boot;
  Ok (option_map lp_identity process).

Definition inspect (boot : str) (read : Z -> result SysError str) (p : Z)
  : result ProcessError (option ProcessIdentitySnapshot) :=
  if p =? 0 then Err InvalidIdentity else inspect_platform (read p) boot.

Definition classify (boot : str) (read : Z -> result SysError str) (expected : ProcessIdentitySnapshot)
  : result ProcessError IdentityStatus :=
  _ ← validate_snapshot expected;
  current ← inspect_linux_process (read (pid expected)) boot;
  Ok (classify_linux_process expected current).
End Identity.
Import Identity.

(** ** Cancellation of a group: [cancel.rs] *)

Inductive Signal := SIG_TERM | SIG_KILL.
Inductive Errno := ERR_SRCH | ERR_Other (code : Z).
#[export] Instance Errno_eq_dec : EqDecision Errno. Proof. solve_decision. Defined.

Inductive CancellationResult := AlreadyDead | IdentityChanged | TerminatedDuringGrace | KilledAfterGrace.
Inductive CancellationError :=
| CX_Inspection (e : ProcessError)
| CX_InvalidProcessGroup
| CX_InvalidGrace
| CX_Signal (e : Errno).

(** What is observed and done, in order. *)
Inductive GroupEvent := GE_Classified (status : IdentityStatus) | GE_Signal (signal : Signal).

(** The answers of the system to one cancellation: the classification before
    the signals, the result of TERM, the clock, then for each turn of the
    grace loop a classification and a clock reading, and the last two steps. *)
Record GroupOracle := mk_group_oracle {
  go_first : result ProcessError IdentityStatus;
  go_term : result Errno unit;
  go_start : Z;
  go_polls : list (result ProcessError IdentityStatus * Z);
  go_last : result ProcessError IdentityStatus;
  go_kill : result Errno unit
}.

(** The largest [Instant], in nanoseconds: [checked_add] fails beyond. *)
Definition instant_max : Z := i64_max * 10 ^ 9 + 999999999.

Inductive GraceEnd := GR_Done (r : result CancellationError CancellationResult) | GR_Deadline.

(** The grace loop; [None] when the readings run out before it ends. *)
Fixpoint grace_loop (deadline : Z) (polls : list (result ProcessError IdentityStatus * Z))
  : option (list GroupEvent * GraceEnd) :=
  match polls with
  | [] => None
  | (Err e, _) :: _ => Some ([], GR_Done (Err (CX_Inspection e)))
  | (Ok Dead, _) :: _ => Some ([GE_Classified Dead], GR_Done (Ok TerminatedDuringGrace))
  | (Ok Reused, _) :: _ => Some ([GE_Classified Reused], GR_Done (Ok IdentityChanged))
  | (Ok Alive, now) :: polls =>
    if deadline <=? now then Some ([GE_Classified Alive], GR_Deadline) else
    '(events, r) ← grace_loop deadline polls;
    Some (GE_Classified Alive :: events, r)
  end.

Definition cancel_validated_group (oracle : GroupOracle) (expected : ProcessIdentitySnapshot) (grace : Z)
  : option (list GroupEvent * result CancellationError CancellationResult) :=
  match go_first oracle with
  | Err e => Some ([], Err (CX_Inspection e))
  | Ok Dead => Some ([GE_Classified Dead], Ok AlreadyDead)
  | Ok Reused => Some ([GE_Classified Reused], Ok IdentityChanged)
  | Ok Alive =>
    if process_group_id expected =? 0 then Some ([GE_Classified Alive], Err CX_InvalidProcessGroup) else
    let sent := [GE_Classified Alive; GE_Signal SIG_TERM] in
    match go_term oracle with
    | Err ERR_SRCH => Some (sent, Ok AlreadyDead)
    | Err e => Some (sent, Err (CX_Signal e))
    | Ok _ =>
      if instant_max <? go_start oracle + grace then Some (sent, Err CX_InvalidGrace) else
      '(events, r) ← grace_loop (go_start oracle + grace) (go_polls oracle);
      let events := sent ++ events in
      match r with
      | GR_Done r => Some (events, r)
      | GR_Deadline =>
        match go_last oracle with
        | Err e => Some (events, Err (CX_Inspection e))
        | Ok Dead => Some (events ++ [GE_Classified Dead], Ok TerminatedDuringGrace)
        | Ok Reused => Some (events ++ [GE_Classified Reused], Ok IdentityChanged)
        | Ok Alive =>
          Some (events ++ [GE_Classified Alive; GE_Signal SIG_KILL],
                match go_kill oracle with
                | Ok _ => Ok KilledAfterGrace
                | Err ERR_SRCH => Ok TerminatedDuringGrace
                | Err e => Err (CX_Signal e)
                end)
        end
      end
    end
  end.

(** ** Lemmas: the grace loop *)

Definition is_classified (e : GroupEvent) : Prop := exists s, e = GE_Classified s.

(** Every signal directly follows a classification [Alive]. *)
Definition validated (events : list GroupEvent) : Prop :=
  forall i s, events !! i = Some (GE_Signal s) -> exists j, i = S j /\ events !! j = Some (GE_Classified Alive).

Lemma classified_no_signal events i s : Forall is_classified events -> events !! i <> Some (GE_Signal s).
Proof. intros Hall Hi. rewrite Forall_lookup in Hall. by destruct (Hall _ _ Hi). Qed.

Lemma grace_loop_events deadline polls events r :
  grace_loop deadline polls = Some (events, r) ->
  Forall is_classified events /\
  match r with
  | GR_Deadline => exists now, In (Ok Alive, now) polls /\ deadline <= now
  | GR_Done r => r <> Ok KilledAfterGrace /\ r <> Ok AlreadyDead /\
      (r = Ok TerminatedDuringGrace -> last events = Some (GE_Classified Dead)) /\
      (r = Ok IdentityChanged -> last events = Some (GE_Classified Reused))
  end.
Proof.
  revert events. induction polls as [|[[[]|e] now] polls IH]; intros events; cbn [grace_loop]; try done.
  2-4: intros [= <- <-]; split; [repeat constructor; by eexists|done].
  destruct (Z.leb_spec deadline now) as [Hle|Hlt].
  { intros [= <- <-]. split; [repeat constructor; by eexists|]. exists now. split; [by left|done]. }
  intros ([events' r'] & E & [= <- <-])%bind_Some. destruct (IH _ E) as [Hall Hr].
  split; [constructor; [by eexists|done]|]. destruct r' as [r'|].
  - destruct Hr as (? & ? & Hd & Hc). split_and!; [done..| |]; intros Hr; rewrite last_cons.
    + by rewrite (Hd Hr).
    + by rewrite (Hc Hr).
  - destruct Hr as (now' & Hin & ?). exists now'. split; [by right|done].
Qed.

Lemma grace_loop_ends deadline polls :
  (exists status now, In (status, now) polls /\ deadline <= now) -> exists events r, grace_loop deadline polls = Some (events, r).
Proof.
  intros (status & now & Hin & Hle). induction polls as [|[[[]|e] n] polls IH]; cbn [grace_loop]; [done| |eauto..].
  destruct (Z.leb_spec deadline n); [eauto|]. destruct Hin as [[= _ ->]|Hin]; [lia|].
  destruct (IH Hin) as (events & r & ->). simpl. eauto.
Qed.

Lemma validated_two events : Forall is_classified events -> validated ([GE_Classified Alive; GE_Signal SIG_TERM] ++ events).
Proof.
  intros Hall [|[|i]] s; simpl; intros E; [done|by exists O|]. by apply classified_no_signal in E.
Qed.

Lemma validated_kill events :
  Forall is_classified events ->
  validated (([GE_Classified Alive; GE_Signal SIG_TERM] ++ events) ++ [GE_Classified Alive; GE_Signal SIG_KILL]).
Proof.
  intros Hall i s [Hi|[Hlen Hi]]%lookup_app_Some.
  - destruct (validated_two _ Hall _ _ Hi) as (j & -> & Hj). exists j. split; [done|]. by apply lookup_app_l_Some.
  - destruct (i - _)%nat as [|[|k]] eqn:Ei; try done. exists (length ([GE_Classified Alive; GE_Signal SIG_TERM] ++ events)).
    split; [lia|]. rewrite lookup_app_r by lia. by rewrite Nat.sub_diag.
Qed.

(** ** Lemmas: the text of [/proc/<pid>/stat] *)

(** A field: nonempty, graphic ASCII, no closing parenthesis. *)
Definition plain_byte (b : Z) : bool := ascii_graphic b && negb (b =? 41).
Definition plain (w : str) : Prop := w <> [] /\ Forall (fun b => plain_byte b = true) w.

(** What the kernel writes after the name: each field after a space. *)
Fixpoint spaced (fields : list str) : str :=
  match fields with [] => [] | f :: fields => 32 :: f ++ spaced fields end.

Lemma rfind_none b s : Forall (fun c => c <> b) s -> rfind_byte b s = None.
Proof.
  induction 1 as [|c s Hc Hs IH]; [done|]. simpl. rewrite IH. by destruct (Z.eqb_spec c b).
Qed.
Lemma rfind_last b s t : Forall (fun c => c <> b) t -> rfind_byte b (s ++ b :: t) = Some (length s).
Proof.
  intros Ht. induction s as [|c s IH]; simpl; [by rewrite rfind_none, Z.eqb_refl|]. by rewrite IH.
Qed.
Lemma find_first b s t : Forall (fun c => c <> b) s -> find_byte b (s ++ b :: t) = Some (length s).
Proof.
  induction 1 as [|c s Hc Hs IH]; simpl; [by rewrite Z.eqb_refl|]. destruct (Z.eqb_spec c b); [done|]. by rewrite IH.
Qed.

Lemma plain_graphic b : plain_byte b = true -> ascii_graphic b = true.
Proof. unfold plain_byte. by intros [? _]%andb_true_iff. Qed.

Lemma split_word w rest fuel word :
  Forall (fun b => plain_byte b = true) w -> (length w + length rest <= fuel)%nat ->
  split_ws fuel (w ++ rest) word = split_ws (fuel - length w) rest (reverse w ++ word).
Proof.
  intros Hw. revert fuel word. induction Hw as [|b w Hb Hw IH]; intros fuel word Hf; simpl.
  - by rewrite Nat.sub_0_r.
  - simpl in Hf. destruct fuel as [|fuel]; [lia|]. cbn [split_ws].
    rewrite (ws_len_graphic b) by (by apply plain_graphic). rewrite IH by lia. simpl.
    by rewrite reverse_cons, <- app_assoc.
Qed.

(** The line ends with a newline. *)
Lemma split_spaced fields fuel :
  Forall plain fields -> (length (spaced fields ++ [10%Z]) <= fuel)%nat ->
  split_ws fuel (spaced fields ++ [10]) [] = fields.
Proof.
  intros Hf. revert fuel. induction Hf as [|f fields [Hne Hp] _ IH]; intros fuel Hlen.
  { destruct fuel as [|[|fuel]]; simpl in Hlen; [lia|done|done]. }
  assert (forall words, emit (reverse f) words = f :: words) as Hemit.
  { intros words. unfold emit. rewrite reverse_involutive. destruct f as [|b f]; [done|]. rewrite reverse_cons.
    by destruct (reverse f). }
  assert (forall k, (length (spaced fields ++ [10%Z]) <= k)%nat ->
    split_ws k (spaced fields ++ [10]) (reverse f) = f :: fields) as Hgo.
  { intros k Hk. specialize (IH k Hk). destruct k as [|k]; [rewrite length_app in Hk; simpl in Hk; lia|].
    destruct fields as [|g fields]; cbn [spaced app split_ws] in *.
    - change (ws_len [10]) with 1%nat in *. cbv iota in *. rewrite Hemit. f_equal. exact IH.
    - change (ws_len (32 :: _)) with 1%nat in *. cbv iota in *. rewrite Hemit. f_equal. exact IH. }
  cbn [spaced app] in *. simpl in Hlen. destruct fuel as [|fuel]; [lia|]. cbn [split_ws].
  change (ws_len (32 :: _)) with 1%nat. cbv iota. unfold emit. cbn [is_empty drop]. rewrite drop_0.
  rewrite <- app_assoc in *. rewrite length_app in Hlen. rewrite split_word; [|done|lia].
  rewrite app_nil_r. apply Hgo. lia.
Qed.

Lemma parse_i32_show n : 0 <= n <= 2 ^ 31 - 1 -> parse_i32 (show_dec n) = Some n.
Proof.
  intros Hn. unfold parse_i32. pose proof (show_dec_digits n) as Hd. pose proof (show_dec_nonempty n) as Hne.
  pose proof (show_dec_value n ltac:(unfold u128_max; lia)) as Hv.
  assert (match show_dec n with 45 :: r => (-1, r) | 43 :: r => (1, r) | _ => (1, show_dec n) end = (1, show_dec n)) as ->.
  { destruct (show_dec n) as [|b r]; [done|]. inversion Hd as [|? ? Hb ?]; subst.
    apply in_range_spec in Hb. repeat (case_match; try lia; try done). }
  replace (is_empty (show_dec n)) with false by (by destruct (show_dec n)).
  replace (forallb is_ascii_digit (show_dec n)) with true by (symmetry; by apply forallb_Forall).
  cbn [negb orb]. rewrite Hv, Z.mul_1_l. apply checked_in. lia.
Qed.

Lemma show_dec_plain n : plain (show_dec n).
Proof.
  split; [apply show_dec_nonempty|]. eapply Forall_impl; [apply show_dec_digits|]. intros b Hb%in_range_spec.
  unfold plain_byte, ascii_graphic. apply andb_true_iff. split; [apply in_range_spec; lia|].
  apply negb_true_iff, Z.eqb_neq. lia.
Qed.

Lemma trim_plain_space w : plain w -> trim (w ++ [32]) = w.
Proof.
  intros [Hne Hw]. assert (Forall (fun b => ascii_graphic b = true) w) as Hg.
  { eapply Forall_impl; [exact Hw|]. by apply plain_graphic. }
  unfold trim, trim_start. rewrite strip_id.
  2:{ destruct Hg; [done|]. by apply ws_len_graphic. }
  unfold trim_end. rewrite reverse_app, length_app. simpl. rewrite Nat.add_comm. simpl.
  change (ws_len_rev (32 :: _)) with 1%nat. cbv iota. cbn [drop]. rewrite drop_0, strip_id; [apply reverse_involutive|].
  destruct w as [|b w _] using rev_ind; [done|]. rewrite reverse_snoc. apply Forall_app in Hg as [_ [Hb _]%Forall_cons].
  by apply ws_len_rev_graphic.
Qed.

(** Where the parser finds the parts of the line. *)
Lemma stat_shape p name state ppid group skipped start rest :
  Forall plain ([state] :: ppid :: skipped ++ rest) ->
  let fields := [state] :: ppid :: show_dec group :: skipped ++ show_dec start :: rest in
  let stat := show_dec p ++ [32; 40] ++ name ++ 41 :: spaced fields ++ [10] in
  let closing := (length (show_dec p) + 2 + length name)%nat in
  find_byte 40 stat = Some (length (show_dec p) + 1)%nat /\ rfind_byte 41 stat = Some closing /\
  trim (take (length (show_dec p) + 1) stat) = show_dec p /\
  split_whitespace (drop (closing + 1) stat) = fields.
Proof.
  intros Hplain fields stat closing.
  assert (Forall plain fields) as Hall.
  { unfold fields. pose proof show_dec_plain. rewrite !Forall_cons, !Forall_app, ?Forall_cons in *. naive_solver. }
  assert (Forall (fun c => c <> 41) (spaced fields ++ [10])) as Hsp.
  { apply Forall_app. split; [|by repeat constructor]. clear -Hall. induction Hall as [|f fields [_ Hf] _ IH]; [constructor|].
    cbn [spaced]. constructor; [done|]. apply Forall_app. split; [|done]. eapply Forall_impl; [exact Hf|].
    unfold plain_byte. by intros b Hb ->. }
  assert (stat = (show_dec p ++ [32]) ++ 40 :: name ++ 41 :: spaced fields ++ [10]) as Hs1
    by (unfold stat; by rewrite <- !app_assoc).
  assert (stat = (show_dec p ++ [32; 40] ++ name) ++ 41 :: spaced fields ++ [10]) as Hs2
    by (unfold stat; by rewrite <- !app_assoc).
  split_and!.
  - rewrite Hs1, find_first; [by rewrite length_app|]. apply Forall_app. split; [|by repeat constructor].
    eapply Forall_impl; [apply show_dec_digits|]. intros b Hb%in_range_spec. lia.
  - rewrite Hs2, rfind_last by done. f_equal. rewrite !length_app. simpl. unfold closing. lia.
  - rewrite Hs1. replace (length (show_dec p) + 1)%nat with (length (show_dec p ++ [32])) by (by rewrite length_app).
    rewrite take_app_length. apply trim_plain_space, show_dec_plain.
  - rewrite Hs2. replace (closing + 1)%nat with (length (show_dec p ++ [32%Z; 40%Z] ++ name) + 1)%nat
      by (rewrite !length_app; unfold closing; simpl; lia).
    rewrite <- drop_drop with (n1 := 1%nat). rewrite drop_app_length.
    change (drop 1 (41 :: spaced fields ++ [10])) with (spaced fields ++ [10]). by apply split_spaced.
Qed.

(** ** Properties *)


(** Whatever its owner wrote into the name of the process,
    parentheses, spaces and newlines included, the identity read from the
    kernel's line is made of the kernel's own fields. *)
Theorem linux_stat_roundtrip boot p name state ppid group skipped start rest :
  Forall plain ([state] :: ppid :: skipped ++ rest) -> length skipped = 16%nat ->
  boot <> [] -> contains_nul boot = false -> 0 < p <= u32_max -> 0 < group <= 2 ^ 31 - 1 -> 0 < start <= u64_max ->
  parse_linux_process
    (show_dec p ++ [32; 40] ++ name ++ 41 :: spaced ([state] :: ppid :: show_dec group :: skipped ++ show_dec start :: rest)
     ++ [10]) boot = Ok (mk_linux_process (mk_process_identity boot p start group) state).
Proof.
  intros Hplain Hskip Hboot Hnul Hp Hgroup Hstart. destruct (stat_shape p name state ppid group skipped start rest Hplain)
    as (Hopen & Hclose & Hpid & Hfields). cbv zeta in *.
  set (stat := show_dec p ++ _) in *. unfold parse_linux_process. rewrite Hopen, Hclose. cbn [ok_or mbind result_bind].
  pose proof (show_dec_nonempty p) as Hne.
  destruct (Nat.eqb_spec (length (show_dec p) + 1) 0); [lia|].
  destruct (Nat.leb_spec (length (show_dec p) + 2 + length name) (length (show_dec p) + 1)); [lia|].
  cbn [orb]. rewrite Hpid, parse_show_dec by (unfold u32_max, u128_max in *; lia). cbn [ok_or mbind result_bind].
  rewrite Hfields. cbn [next mbind result_bind length Nat.eqb negb].
  rewrite (parse_i32_show group) by lia. cbn [ok_or mbind result_bind].
  rewrite <- Hskip, drop_app_length. cbn [next mbind result_bind].
  rewrite parse_show_dec by (unfold u64_max, u128_max in *; lia). cbn [ok_or mbind result_bind].
  unfold validate_snapshot. cbn [boot_identity pid start_token process_group_id]. rewrite Hnul.
  destruct boot; [done|]. cbn [is_empty orb].
  destruct (Z.eqb_spec p 0), (Z.eqb_spec start 0), (Z.leb_spec group 0); try lia. done.
Qed.

(** ** Witnesses *)

Module ProcessExample.
(** Alive until the grace is over. *)
Definition stubborn : GroupOracle :=
  mk_group_oracle (Ok Alive) (Ok tt) 100 [(Ok Alive, 150); (Ok Alive, 700)] (Ok Alive) (Ok tt).
Definition skipped0 : list str := replicate 16 (lit "0").
(** A name that imitates the end of the field. *)
Definition name0 : str := lit "x) Z 1 (y".
End ProcessExample.
Import ProcessExample.

Example stubborn_ex :
  cancel_validated_group stubborn example_identity 500 =
  Some ([GE_Classified Alive; GE_Signal SIG_TERM; GE_Classified Alive; GE_Classified Alive; GE_Classified Alive;
         GE_Signal SIG_KILL], Ok KilledAfterGrace).
Proof. reflexivity. Qed.

Lemma linux_stat_roundtrip_witness :
  (Forall plain ([83] :: lit "1" :: skipped0 ++ []) /\ length skipped0 = 16%nat /\ lit "boot" <> [] /\
   contains_nul (lit "boot") = false /\ 0 < 10 <= u32_max /\ 0 < 10 <= 2 ^ 31 - 1 /\ 0 < 20 <= u64_max) /\
  parse_linux_process
    (show_dec 10 ++ [32; 40] ++ name0 ++ 41 :: spaced ([83] :: lit "1" :: show_dec 10 :: skipped0 ++ show_dec 20 :: [])
     ++ [10]) (lit "boot") = Ok (mk_linux_process (mk_process_identity (lit "boot") 10 20 10) 83).
Proof.
  assert (Forall plain ([83] :: lit "1" :: skipped0 ++ [])) as Hf by (repeat constructor; done).
  assert (0 < 10 <= u32_max) as H1 by (vm_compute; done). assert (0 < 10 <= 2 ^ 31 - 1) as H2 by lia.
  assert (0 < 20 <= u64_max) as H3 by (vm_compute; done).
  split; [split_and!; done|].
  exact (linux_stat_roundtrip (lit "boot") 10 name0 83 (lit "1") 10 skipped0 20 [] Hf eq_refl ltac:(done) eq_refl H1 H2 H3).
Defined.
