(* ===== verification/Management.v ===== *)
(** [src/infrastructure/sqlite/management.rs]: the queries of the management
    commands, the removal of a job and its explicit rerun.

    Each query is one statement; [hide_job] reads before its transaction and
    [prepare_rerun] reads after it, as the source does. *)

From S2P Require Import Prelude Text Primitives Duration Identifier States Recurrence Execution JobAgg RunAgg.
From S2P Require Import Sqlite JobStore RunStore Reconcile Retention Recovery.

(** [encode_job_state] *)
Definition encode_job_state (state : JobState) : str :=
  match state with
  | JS_Scheduled => lit "scheduled" | JS_Waiting => lit "waiting" | JS_Starting => lit "starting"
  | JS_Running => lit "running" | JS_CancelRequested => lit "cancel_requested"
  | JS_Succeeded => lit "succeeded" | JS_Failed => lit "failed" | JS_Cancelled => lit "cancelled"
  | JS_Interrupted => lit "interrupted" | JS_Missed => lit "missed"
  end.

(** SQLite's [substr(text, 1, n)]: the first [n] characters. *)
Fixpoint substr (n : Z) (s : str) : str :=
  match s with
  | [] => []
  | b :: s => if in_range 128 191 b then b :: substr n s else if n <=? 0 then [] else b :: substr (n - 1) s
  end.

(** [i64::try_from] of a [usize]. *)
Definition to_i64 (what : str) (n : Z) : result StoreError Z :=
  if n <=? i64_max then Ok n else Err (SE_Domain (RS_Message what)).
Definition limit_overflow : str := lit "result limit overflow".

(** [ORDER BY created_at_utc, id] *)
Definition run_key_le (a b : RunRow) : bool :=
  match str_compare (rr_created_at a) (rr_created_at b) with
  | Lt => true
  | Gt => false
  | Eq => str_le (rr_id a) (rr_id b)
  end.
Definition oldest_first (l : list RunRow) : list RunRow := merge_sort (fun a b => Is_true (run_key_le a b)) l.
Definition newest_first (l : list RunRow) : list RunRow := merge_sort (fun a b => Is_true (run_key_le b a)) l.

(** [ORDER BY sequence DESC LIMIT 1] *)
Definition last_run (l : list RunRow) : option RunRow :=
  head (merge_sort (fun a b => Is_true (rr_sequence b <=? rr_sequence a)) l).

Section Management.
Context `{Serde} `{ExecutionJson}.

(** The WHERE clause of [list_jobs], its empty text standing for no cursor. *)
Definition job_listed (state : option JobState) (after : option JobId) (r : JobRow) : bool :=
  (jr_hidden r =? 0)
  && (let after := match after with Some id => job_id_to_string id | None => [] end in
      bool_decide (after = []) || str_ltb after (jr_id r))
  && match state with Some s => bool_decide (jr_state r = encode_job_state s) | None => true end.

Definition select_jobs (state : option JobState) (after : option JobId) (n : Z) (db : Db) : list JobRow :=
  limit n (order_by jr_id (List.filter (job_listed state after) (db_jobs db))).

Definition list_jobs (state : option JobState) (after : option JobId) (n : Z) : Store (list Job) :=
  n ← lift (to_i64 limit_overflow n);
  query (fun db => map_result decode_job_row (select_jobs state after n db)).

Definition select_jobs_by_prefix (prefix : str) (n : Z) (db : Db) : list JobRow :=
  limit n (order_by jr_id (List.filter
    (fun r => (jr_hidden r =? 0) && bool_decide (substr (len prefix) (jr_id r) = prefix)) (db_jobs db))).

Definition find_jobs_by_prefix (prefix : str) (n : Z) : Store (list Job) :=
  let prefix := map to_ascii_lowercase prefix in
  _ ← lift (to_i64 (lit "prefix length overflow") (len prefix));
  n ← lift (to_i64 limit_overflow n);
  query (fun db => map_result decode_job_row (select_jobs_by_prefix prefix n db)).

Definition select_runs (job : option JobId) (n : Z) (db : Db) : list RunRow :=
  limit n (newest_first (List.filter
    (fun r => match job with Some id => bool_decide (rr_job_id r = job_id_to_string id) | None => true end)
    (db_runs db))).

Definition list_runs (job : option JobId) (n : Z) : Store (list Run) :=
  n ← lift (to_i64 limit_overflow n);
  query (fun db => map_result decode_run_row (select_runs job n db)).

Definition active_runs : Store (list Run) :=
  runs ← query (fun db => map_result decode_run_row
    (limit 1001 (oldest_first (List.filter (fun r => text_in (rr_state r) active_states) (db_runs db)))));
  if 1000 <? len runs
  then fail (SE_Corrupt (RS_Message (lit "more than 1000 active runs need inspection")))
  else mret runs.

Definition latest_active_run (job : JobId) : Store (option Run) :=
  query (fun db => decode_optional decode_run_row
    (last_run (List.filter
      (fun r => bool_decide (rr_job_id r = job_id_to_string job) && text_in (rr_state r) active_states) (db_runs db)))).

(** [UPDATE jobs SET hidden = 1] *)
Definition hidden_row (r : JobRow) : JobRow :=
  mk_job_row (jr_id r) (jr_revision r) (jr_name r) (jr_description r) (jr_created_at r) (jr_updated_at r)
    (jr_state r) (jr_runtime_tier r) (jr_schedule_json r) (jr_missed_policy r) (jr_execution_json r)
    (jr_next_due r) (jr_tzdb_version r) (jr_owner_uid r) 1.
Definition job_hideable (id : JobId) (revision : Z) (r : JobRow) : bool :=
  job_row_is id revision r && (jr_hidden r =? 0) && text_in (jr_state r) terminal_job_states.

(** [if !keep_history]: the completed-run history of the job. *)
Definition drop_history (id : JobId) (keep_history : bool) : Store nat :=
  if keep_history then mret 0%nat
  else execute map_write_error (delete_runs (fun r => bool_decide (rr_job_id r = job_id_to_string id))).

Definition hide_job (id : JobId) (expected : Revision) (keep_history : bool) : Store Job :=
  job ← load_existing id;
  transaction (
    _ ← drop_history id keep_history;
    expected_sql ← lift (revision_i64 expected);
    changed ← execute map_write_error (update_jobs (job_hideable id expected_sql) hidden_row);
    if (changed =? 1)%nat then mret job else fail SE_Conflict).

(** [UPDATE jobs SET revision, state, updated_at_utc, next_due_utc] *)
Definition rerun_row (revision : Z) (now : str) (r : JobRow) : JobRow :=
  job_row_update revision (lit "waiting") now (Some now) r.
Definition rerun_reason : str := lit "explicit rerun requested".

Definition prepare_rerun (id : JobId) (expected : Revision) (now : UtcTimestamp) : Store Job :=
  _ ← transaction (
    expected_sql ← lift (revision_i64 expected);
    current ← query (fun db => Ok (jr_state <$>
                List.find (fun r => job_row_is id expected_sql r && (jr_hidden r =? 0)) (db_jobs db)));
    current ← lift (ok_or current SE_Conflict);
    if negb (text_in current terminal_job_states) then fail SE_Conflict else
    next ← lift (map_err (fun e => SE_Domain (RS_PrimitiveError e)) (revision_next expected));
    next_sql ← lift (revision_i64 next);
    _ ← execute map_write_error
      (update_jobs (job_in_state id expected_sql current) (rerun_row next_sql (ts_show now)));
    _ ← execute map_write_error
      (insert_transition (mk_transition_row (job_id_to_string id) None current (lit "waiting") (ts_show now)
         (lit "cli") rerun_reason next_sql));
    mret tt);
  load_existing id.

(** ** [RunOutputStore] *)

Definition select_runs_by_prefix (prefix : str) (n : Z) (db : Db) : list RunRow :=
  limit n (order_by rr_id (List.filter (fun r => bool_decide (substr (len prefix) (rr_id r) = prefix)) (db_runs db))).

Definition find_runs_by_prefix (prefix : str) (n : Z) : Store (list Run) :=
  let prefix := map to_ascii_lowercase prefix in
  _ ← lift (to_i64 (lit "prefix length overflow") (len prefix));
  n ← lift (to_i64 limit_overflow n);
  query (fun db => map_result decode_run_row (select_runs_by_prefix prefix n db)).

Definition latest_run (job : JobId) : Store (option Run) :=
  query (fun db => decode_optional decode_run_row
    (last_run (List.filter (fun r => bool_decide (rr_job_id r = job_id_to_string job)) (db_runs db)))).

Definition read_truncation_flag (id : RunId) (column : RunRow -> Z) : Store bool :=
  flag ← query (fun db => Ok ((fun r => negb (column r =? 0)) <$> find_run id db));
  lift (ok_or flag (SE_Domain (RS_Message (lit "run row vanished")))).
Definition stdout_truncated (id : RunId) : Store bool := read_truncation_flag id rr_stdout_truncated.
Definition stderr_truncated (id : RunId) : Store bool := read_truncation_flag id rr_stderr_truncated.
End Management.

(** ** Lemmas: removal and rerun *)

Section Lemmas.
Context `{Serde} `{ExecutionJson}.

Lemma load_existing_inv id l w r w' :
  load_existing id l w = (r, w') ->
  w' = after_read l w /\
  match r with
  | Ok job => exists row, find_job id (seen l w) = Some row /\ decode_job_row row = Ok job
  | Err _ => True
  end.
Proof.
  unfold load_existing, load_job, mbind, store_bind, query. fold (after_read l w).
  destruct (fault w); [by intros [= <- <-]|]. unfold decode_optional.
  destruct (find_job id (seen l w)) as [row|]; simpl; [|by intros [= <- <-]].
  destruct (decode_job_row row) as [job|] eqn:E; simpl; intros [= <- <-]; [|done]. split; [done|]. eauto.
Qed.

(** The rows of a hidden job: its runs go, unless the history is kept, and the
    audit trail stays, without its references to them. *)
Definition history_dropped (id : JobId) (keep_history : bool) (db db' : Db) : Prop :=
  let gone (r : RunRow) := bool_decide (rr_job_id r = job_id_to_string id) in
  if keep_history then db_runs db' = db_runs db /\ db_transitions db' = db_transitions db
  else db_runs db' = List.filter (fun r => negb (gone r)) (db_runs db) /\
       db_transitions db' = map (unlink_runs gone (db_runs db)) (db_transitions db).

Definition job_hidden (id : JobId) (revision : Z) (db db' : Db) : Prop :=
  exists l1 row l2, db_jobs db = l1 ++ row :: l2 /\ db_jobs db' = l1 ++ hidden_row row :: l2 /\
    jr_id row = job_id_to_string id /\ jr_revision row = revision /\ jr_hidden row = 0 /\
    text_in (jr_state row) terminal_job_states = true.

Lemma hide_body_ok id expected keep (job : Job) w r w' :
  (drop_history id keep ≫= fun _ =>
   expected_sql ← lift (revision_i64 expected);
   changed ← execute map_write_error (update_jobs (job_hideable id expected_sql) hidden_row);
   if (changed =? 1)%nat then mret job else fail SE_Conflict) true w = (Ok r, w') ->
  r = job /\ job_hidden id expected (w_db w) (w_db w') /\ history_dropped id keep (w_db w) (w_db w').
Proof.
  intros (k & w1 & Hdel & Hb)%store_bind_ok.
  assert (db_jobs (w_db w1) = db_jobs (w_db w) /\ history_dropped id keep (w_db w) (w_db w1)) as [Hj Hh].
  { unfold history_dropped, drop_history in *. destruct keep; [by injection Hdel as _ <-|]. apply execute_ok in Hdel.
    rewrite seen_locked in Hdel. unfold delete_runs in Hdel. by injection Hdel as _ <-. }
  apply lift_inv in Hb as [(rev & [-> _]%revision_i64_ok & Hb)|[_ [e ?]]]; [|done].
  apply store_bind_ok in Hb as (n & w2 & Hu & Hb). apply execute_ok in Hu. rewrite seen_locked in Hu.
  destruct (Nat.eqb_spec n 1) as [->|]; [|done]. injection Hb as <- <-. split; [done|].
  destruct (update_jobs_one _ _ _ _ _ Hu eq_refl) as (l1 & row & l2 & Hl & Hl' & Hp & Hruns & Hts).
  unfold job_hideable, job_row_is in Hp. rewrite !andb_true_iff, bool_decide_eq_true, !Z.eqb_eq in Hp.
  destruct Hp as [[[Hid Hrev] Hhid] Hst]. split.
  - exists l1, row, l2. by rewrite <- Hj.
  - unfold history_dropped in *. by rewrite Hruns, Hts.
Qed.

(** An UPDATE that does not look at the number of rows changes the one row of
    that identifier. *)
Lemma update_jobs_keyed id p f db n db' row :
  update_jobs p f db = Ok (n, db') -> NoDup (jr_id <$> db_jobs db) ->
  (forall r, p r = true -> jr_id r = job_id_to_string id) -> In row (db_jobs db) -> p row = true ->
  exists l1 l2, db_jobs db = l1 ++ row :: l2 /\ db_jobs db' = l1 ++ f row :: l2 /\
    db_runs db' = db_runs db /\ db_transitions db' = db_transitions db.
Proof.
  unfold update_jobs, update_rows. destruct (forallb _ _); [|done]. cbn [mbind result_bind].
  intros [= _ <-] Hdup Hp (l1 & l2 & Hl)%in_split Hrow. exists l1, l2. split; [done|].
  rewrite Hl in Hdup |- *. rewrite fmap_app, fmap_cons in Hdup.
  apply NoDup_app in Hdup as (_ & Hd1 & [Hd2 _]%NoDup_cons).
  assert (Forall (fun r => p r = false) l1 /\ Forall (fun r => p r = false) l2) as [Hn1 Hn2].
  { split; apply Forall_forall; intros r Hr; destruct (p r) eqn:E; try done; exfalso;
      apply (Hp row) in Hrow as Hrid; apply (Hp r) in E as Hid.
    - apply (Hd1 (jr_id r)); [by apply list_elem_of_fmap_2|]. rewrite Hid, <- Hrid. by left.
    - apply Hd2. rewrite Hrid, <- Hid. by apply list_elem_of_fmap_2. }
  cbn. rewrite map_app. cbn [map]. rewrite Hrow. by rewrite !map_if_none.
Qed.

Definition rerun_audit (id : JobId) (now : UtcTimestamp) (revision : Z) (row : JobRow) : list TransitionRow :=
  [mk_transition_row (job_id_to_string id) None (jr_state row) (lit "waiting") (ts_show now) (lit "cli") rerun_reason
     revision].
End Lemmas.

(** ** Properties: removal and rerun *)

(** Removing a job, under every schedule: it either returns an
    error and its transaction changes nothing, or exactly one row, terminal,
    visible and of the expected revision, becomes hidden; its runs are deleted
    in the same transaction unless the history is kept, and no other run, job
    or audit row is. *)
Theorem hide_job_spec `{Serde} `{ExecutionJson} id expected keep l w r w' :
  hide_job id expected keep l w = (r, w') ->
  match r with
  | Err _ => w_db w' = seen l w \/ w_db w' = seen l (after_read l w)
  | Ok job =>
      (exists row, find_job id (seen l w) = Some row /\ decode_job_row row = Ok job) /\
      job_hidden id expected (seen l (after_read l w)) (w_db w') /\
      history_dropped id keep (seen l (after_read l w)) (w_db w')
  end.
Proof.
  unfold hide_job. intros Hh. unfold mbind at 1, store_bind at 1 in Hh.
  destruct (load_existing id l w) as [[job|e] w1] eqn:El; apply load_existing_inv in El as [-> Hrow].
  - apply transaction_inv in Hh. destruct r as [job'|e]; [|by right].
    destruct Hh as (w0 & w2 & Hw0 & Hbody & ->). apply hide_body_ok in Hbody as (-> & Hhid & Hd). rewrite Hw0 in *.
    done.
  - injection Hh as <- <-. by left.
Qed.



(** ** Witnesses: an interrupted job is removed, and run again *)

Module ManagementExample.
Export Recovery.RecoveryExample.
(** The job of [active_world] after a startup that found its command dead. *)
Definition interrupted_world : World := (apply_recovery [interrupt0] (due0 + 50) false active_world).2.
End ManagementExample.
Import ManagementExample.

Lemma hide_job_spec_witness :
  exists job w', hide_job (job_id job0) 5 false false interrupted_world = (Ok job, w') /\
  (exists row, find_job (job_id job0) (seen false interrupted_world) = Some row /\ decode_job_row row = Ok job) /\
  job_hidden (job_id job0) 5 (seen false (after_read false interrupted_world)) (w_db w') /\
  history_dropped (job_id job0) false (seen false (after_read false interrupted_world)) (w_db w').
Proof.
  assert (exists job w', hide_job (job_id job0) 5 false false interrupted_world = (Ok job, w')) as (job & w' & E) by (eexists _, _; vm_compute; reflexivity).
  exists job, w'. split; [exact E|].
  pose proof (hide_job_spec (job_id job0) 5 false false interrupted_world (Ok job) w') as X. specialize (X E). exact X.
Defined.

(** The second clock is behind the creation of the job at 40 s: the rerun
    reports the row it has just committed as corrupt. *)
Example rerun_clock_ex :
  (prepare_rerun (job_id job0) 5 (39 * 10 ^ 9) false interrupted_world).1 =
    Err (SE_Corrupt (RS_JobError JE_CorruptSnapshot)).
Proof. vm_compute. reflexivity. Qed.

