(* ===== verification/Services.v ===== *)
(** [src/application/list.rs], [submit.rs], [cancel.rs],
    [service.rs] and [doctor.rs]: the application services over their ports.

    A port is a class of operations on the state of its implementation; the
    SQLite stores are instances.  What a service needs of a port is a class of
    laws, proved for the instance. *)

From S2P Require Import Prelude Text Primitives Duration Identifier States Recurrence Execution JobAgg RunAgg.
From S2P Require Import Sqlite JobStore RunStore Reconcile Retention Recovery Management.

(** ** Computations over the state of a port *)

Definition Port (S E A : Type) : Type := S -> result E A * S.
#[export] Instance port_ret S E : MRet (Port S E) := fun A a s => (Ok a, s).
#[export] Instance port_bind S E : MBind (Port S E) := fun A B f m s =>
  match m s with
  | (Ok a, s') => f a s'
  | (Err e, s') => (Err e, s')
  end.
Definition port_fail {S E A} (e : E) : Port S E A := fun s => (Err e, s).
(** [map_err] and the conversions of [?] *)
Definition port_err {S E F A} (f : E -> F) (m : Port S E A) : Port S F A := fun s =>
  let '(r, s) := m s in (map_err f r, s).

Section Ports.
Context {S : Type}.
Lemma port_bind_inv {E A B} (m : Port S E A) (f : A -> Port S E B) s r s' :
  (m ≫= f) s = (r, s') ->
  (exists a s1, m s = (Ok a, s1) /\ f a s1 = (r, s')) \/ (exists e, m s = (Err e, s') /\ r = Err e).
Proof.
  unfold mbind, port_bind. destruct (m s) as [[a|e] s1]; intros Heq; [left|right]; [eauto|]. injection Heq as <- <-. eauto.
Qed.
Lemma port_bind_ok {E A B} (m : Port S E A) (f : A -> Port S E B) s b s' :
  (m ≫= f) s = (Ok b, s') -> exists a s1, m s = (Ok a, s1) /\ f a s1 = (Ok b, s').
Proof. by intros [?|(e & _ & ?)]%port_bind_inv. Qed.
Lemma port_err_run {E F A} (f : E -> F) (m : Port S E A) s : port_err f m s = (map_err f (m s).1, (m s).2).
Proof. unfold port_err. by destruct (m s). Qed.
Lemma port_err_ok {E F A} (f : E -> F) (m : Port S E A) s (a : A) s' : port_err f m s = (Ok a, s') -> m s = (Ok a, s').
Proof. unfold port_err. destruct (m s) as [[x|e] s1]; [|done]. by intros [= -> ->]. Qed.
End Ports.

(** ** Management: [list.rs] *)

Definition MAX_MANAGEMENT_RESULTS : Z := 1000.

(** [ClockError] of [clock.rs] *)
Inductive ClockError := CE_Unavailable | CE_OutOfRange.

Inductive CancelRunError :=
| CE_NotFound
| CE_InvalidClaim
| CE_Store (e : StoreError)
| CE_Process (message : str).

(** The source keeps the text of the error of the store, of the clock or of
    the cancellation; the model keeps the error. *)
Inductive ManagementStoreError :=
| mk_management_error (cause : StoreError)
| management_clock_error (cause : ClockError)
| management_cancel_error (cause : CancelRunError).
Inductive ManagementError :=
| ME_NotFound
| ME_Ambiguous (ids : list JobId)
| ME_InvalidPrefix
| ME_InvalidLimit
| ME_StateConflict (message : str)
| ME_ConfirmationRequired
| ME_Store (e : ManagementStoreError).

Class ManagementStore (S : Type) := {
  ms_list_jobs : option JobState -> option JobId -> Z -> Port S ManagementStoreError (list Job);
  ms_find_jobs_by_prefix : str -> Z -> Port S ManagementStoreError (list Job);
  ms_list_runs : option JobId -> Z -> Port S ManagementStoreError (list Run);
  ms_active_runs : Port S ManagementStoreError (list Run);
  ms_latest_active_run : JobId -> Port S ManagementStoreError (option Run);
  ms_hide_job : JobId -> Revision -> bool -> Port S ManagementStoreError Job;
  ms_prepare_rerun : JobId -> Revision -> UtcTimestamp -> Port S ManagementStoreError Job
}.

(** [impl ManagementStore for JobStore] *)
#[export] Instance sqlite_management `{Serde} `{ExecutionJson} : ManagementStore World := {|
  ms_list_jobs state after n := port_err mk_management_error (Management.list_jobs state after n false);
  ms_find_jobs_by_prefix prefix n := port_err mk_management_error (find_jobs_by_prefix prefix n false);
  ms_list_runs job n := port_err mk_management_error (Management.list_runs job n false);
  ms_active_runs := port_err mk_management_error (active_runs false);
  ms_latest_active_run job := port_err mk_management_error (latest_active_run job false);
  ms_hide_job id revision keep := port_err mk_management_error (hide_job id revision keep false);
  ms_prepare_rerun id revision now := port_err mk_management_error (prepare_rerun id revision now false)
|}.

Definition validate_limit (n : Z) : result ManagementError unit :=
  if in_range 1 MAX_MANAGEMENT_RESULTS n then Ok tt else Err ME_InvalidLimit.

(** [is_identifier_byte] *)
Definition is_identifier_byte (byte : Z) : bool :=
  contains_byte (to_ascii_lowercase byte) (lit "0123456789abcdefghjkmnpqrstvwxyz").

Section Management.
Context {S : Type} `{ManagementStore S}.

Definition list_jobs (state : option JobState) (after : option JobId) (n : Z) : Port S ManagementError (list Job) :=
  _ ← (fun s => (validate_limit n, s));
  port_err ME_Store (ms_list_jobs state after n).

Definition list_runs (job : option JobId) (n : Z) : Port S ManagementError (list Run) :=
  _ ← (fun s => (validate_limit n, s));
  port_err ME_Store (ms_list_runs job n).

Definition prefix_valid (prefix : str) : bool :=
  negb (is_empty prefix || (26 <? len prefix) || negb (forallb is_identifier_byte prefix)).

Definition resolve_job (prefix : str) : Port S ManagementError Job :=
  if negb (prefix_valid prefix) then port_fail ME_InvalidPrefix else
  matches ← port_err ME_Store (ms_find_jobs_by_prefix prefix 2);
  match matches with
  | [] => port_fail ME_NotFound
  | [job] => mret job
  | _ => port_fail (ME_Ambiguous (job_id <$> matches))
  end.

Definition remove_job (prefix : str) (keep_history : bool) : Port S ManagementError Job :=
  job ← resolve_job prefix;
  if negb (job_is_terminal (job_state job))
  then port_fail (ME_StateConflict (lit "only terminal jobs can be removed")) else
  port_err ME_Store (ms_hide_job (job_id job) (job_revision job) keep_history).

Definition rerun_job (prefix : str) (confirm_interrupted : bool) (now : UtcTimestamp) : Port S ManagementError Job :=
  job ← resolve_job prefix;
  if negb (job_is_terminal (job_state job))
  then port_fail (ME_StateConflict (lit "only terminal jobs can be run again")) else
  if bool_decide (job_state job = JS_Interrupted) && negb confirm_interrupted
  then port_fail ME_ConfirmationRequired else
  port_err ME_Store (ms_prepare_rerun (job_id job) (job_revision job) now).
End Management.

(** ** Submission: [submit.rs] *)

Inductive SupervisorAckError :=
| AE_Rejected (reason : str)
| AE_SocketSubstitution
| AE_InvalidAcknowledgement
| AE_Unavailable (reason : str).

(** An error of the store, or a text of the command. *)
Inductive SubmissionStoreError := mk_submission_error (cause : StoreError) | submission_boundary (message : str).
Inductive SubmitError := SUE_Store (e : SubmissionStoreError).

Inductive SubmissionOutcome :=
| SO_DryRun (job : Job)
| SO_Supervised (job : Job)
| SO_CommittedUnsupervised (job : Job) (error : SupervisorAckError).

Definition outcome_job (o : SubmissionOutcome) : Job :=
  match o with SO_DryRun job | SO_Supervised job | SO_CommittedUnsupervised job _ => job end.
Definition is_supervised (o : SubmissionOutcome) : bool :=
  match o with SO_Supervised _ => true | _ => false end.
Definition is_dry_run (o : SubmissionOutcome) : bool :=
  match o with SO_DryRun _ => true | _ => false end.

(** The two ports of the submission, on one state: the wake happens in the
    world that the store has left. *)
Class SubmissionPorts (S : Type) := {
  sp_create_job : Job -> Port S SubmissionStoreError unit;
  sp_acknowledge : JobId -> Revision -> Port S Empty_set (result SupervisorAckError unit)
}.

Definition submit_job {S} `{SubmissionPorts S} (job : Job) (dry_run : bool) : Port S SubmitError SubmissionOutcome :=
  if dry_run then mret (SO_DryRun job) else
  _ ← port_err SUE_Store (sp_create_job job);
  ack ← port_err (fun e : Empty_set => match e with end) (sp_acknowledge (job_id job) (job_revision job));
  match ack with
  | Ok _ => mret (SO_Supervised job)
  | Err error => mret (SO_CommittedUnsupervised job error)
  end.

(** ** Cancellation: [cancel.rs] *)

Inductive GroupCancellation := GC_AlreadyDead | GC_IdentityChanged | GC_TerminatedDuringGrace | GC_KilledAfterGrace.
#[export] Instance GroupCancellation_eq_dec : EqDecision GroupCancellation. Proof. solve_decision. Defined.

Inductive CancelRunResult :=
| CR_AlreadyTerminal (run : Run)
| CR_CommittedBeforeSpawn (run : Run)
| CR_Signalled (run : Run) (result : GroupCancellation).

Class CancellationPorts (S : Type) := {
  cp_load_for_cancellation : RunId -> Port S StoreError (option Run);
  cp_commit_cancellation : RunId -> ClaimToken -> Port S StoreError Run;
  cp_cancel_group : Run -> Port S str GroupCancellation
}.

Definition cancel_claimed_run {S} `{CancellationPorts S} (id : RunId) (token : ClaimToken)
  : Port S CancelRunError CancelRunResult :=
  current ← port_err CE_Store (cp_load_for_cancellation id);
  match current with
  | None => port_fail CE_NotFound
  | Some current =>
    if negb (bool_decide (run_claim_token current = token)) then port_fail CE_InvalidClaim else
    if run_is_terminal (run_state current) then mret (CR_AlreadyTerminal current) else
    committed ← port_err CE_Store (cp_commit_cancellation id token);
    if negb (is_some (run_command_identity committed)) then mret (CR_CommittedBeforeSpawn committed) else
    result ← port_err CE_Process (cp_cancel_group committed);
    mret (CR_Signalled committed result)
  end.

(** ** The durable service: [service.rs] *)

Inductive ServiceAvailability := SA_Available | SA_Unavailable.
#[export] Instance ServiceAvailability_eq_dec : EqDecision ServiceAvailability. Proof. solve_decision. Defined.

Record ServiceStatus := mk_service_status {
  sv_manager : str;
  sv_availability : ServiceAvailability;
  sv_installed : bool;
  sv_running : bool;
  sv_files : list str;
  sv_guarantee : str;
  sv_detail : str
}.
Record ServiceChange := mk_service_change { sc_changed : bool; sc_status : ServiceStatus }.

Inductive ServiceManagerError := mk_service_manager_error (message : str).
Definition manager_message (e : ServiceManagerError) : str := let '(mk_service_manager_error m) := e in m.

Inductive ServiceLifecycleError :=
| SL_Manager (e : ServiceManagerError)
| SL_Unavailable (detail : str)
| SL_Install (e : ServiceManagerError)
| SL_IncompleteInstall (detail : str)
| SL_InstallRollback (install rollback : str)
| SL_IncompleteUninstall (detail : str).

Class ServiceManager (S : Type) := {
  sm_status : Port S ServiceManagerError ServiceStatus;
  sm_install : Port S ServiceManagerError unit;
  sm_uninstall : Port S ServiceManagerError unit
}.

Section Service.
Context {S : Type} `{ServiceManager S}.

Definition require_available (status : ServiceStatus) : result ServiceLifecycleError unit :=
  if bool_decide (sv_availability status = SA_Available) then Ok tt else Err (SL_Unavailable (sv_detail status)).

(** Both rollbacks of the installation. *)
Definition rollback_install (error : ServiceLifecycleError) (install : str) : Port S ServiceLifecycleError ServiceChange :=
  fun s =>
  match sm_uninstall s with
  | (Ok _, s) => (Err error, s)
  | (Err rollback, s) => (Err (SL_InstallRollback install (manager_message rollback)), s)
  end.

Definition install_service : Port S ServiceLifecycleError ServiceChange :=
  before ← port_err SL_Manager sm_status;
  _ ← (fun s => (require_available before, s));
  if sv_installed before && sv_running before then mret (mk_service_change false before) else
  fun s =>
  match sm_install s with
  | (Err e, s) => rollback_install (SL_Install e) (manager_message e) s
  | (Ok _, s) =>
    (status ← port_err SL_Manager sm_status;
     if negb (sv_installed status) || negb (sv_running status)
     then rollback_install (SL_IncompleteInstall (sv_detail status)) (sv_detail status)
     else mret (mk_service_change true status)) s
  end.

Definition uninstall_service : Port S ServiceLifecycleError ServiceChange :=
  before ← port_err SL_Manager sm_status;
  _ ← (fun s => (require_available before, s));
  if negb (sv_installed before) then mret (mk_service_change false before) else
  _ ← port_err SL_Manager sm_uninstall;
  status ← port_err SL_Manager sm_status;
  if sv_installed status || sv_running status
  then port_fail (SL_IncompleteUninstall (sv_detail status))
  else mret (mk_service_change true status).
End Service.

(** ** Diagnostics: [doctor.rs] *)

Inductive DiagnosticStatus := DS_Pass | DS_Warning | DS_Fail.
#[export] Instance DiagnosticStatus_eq_dec : EqDecision DiagnosticStatus. Proof. solve_decision. Defined.

Record DiagnosticCheck := mk_diagnostic {
  dc_name : str; dc_status : DiagnosticStatus; dc_message : str; dc_remediation : option str
}.
Record DoctorReport (Config : Type) := mk_doctor_report {
  dr_healthy : bool;
  dr_checks : list DiagnosticCheck;
  dr_tzdb_version : str;
  dr_schema_version : option Z;
  dr_durable_available : bool;
  dr_config : Config
}.
Arguments mk_doctor_report {Config}.
Abbreviation DoctorReportBuilder := (list DiagnosticCheck).

Definition push_check (checks : DoctorReportBuilder) (name : str) (status : DiagnosticStatus) (message : str)
  (remediation : option str) : DoctorReportBuilder :=
  checks ++ [mk_diagnostic name status message remediation].

Definition finish_report {Config} (checks : DoctorReportBuilder) (tzdb_version : str) (schema_version : option Z)
  (durable_available : bool) (config : Config) : DoctorReport Config :=
  mk_doctor_report (negb (existsb (fun check => bool_decide (dc_status check = DS_Fail)) checks)) checks tzdb_version
    schema_version durable_available config.

(** ** The promise of the management port *)

(** A lookup by prefix returns visible jobs with that prefix, each once, and
    all of them when there are fewer than asked for. *)
Class ManagementLaws (S : Type) `{ManagementStore S} := {
  ml_valid : S -> Prop;
  ml_visible : S -> JobId -> Prop;
  ml_find : forall prefix n s jobs s',
    0 <= n -> ms_find_jobs_by_prefix prefix n s = (Ok jobs, s') -> ml_valid s' ->
    let matching id := ml_visible s' id /\ map to_ascii_lowercase prefix `prefix_of` job_id_to_string id in
    NoDup (job_id <$> jobs) /\ len jobs <= n /\ (forall id, id ∈ job_id <$> jobs -> matching id) /\
    (len jobs < n -> forall id, matching id -> id ∈ job_id <$> jobs)
}.

(** Identifier texts are ASCII, so SQLite's characters are bytes there. *)
Lemma digit_of_ascii b d : digit_of b = Some d -> in_range 128 191 b = false.
Proof.
  intros [Hd Hb]%digit_of_spec. apply in_range_false.
  assert (forallb (fun d => match digit_byte d with Some b => b <? 128 | None => false end) (seqZ 0 32) = true) as Hall
    by (vm_compute; done).
  apply forallb_forall with (x := d) in Hall; [|apply list_elem_of_In, elem_of_seqZ; lia].
  rewrite Hb in Hall. apply Z.ltb_lt in Hall. unfold to_ascii_lowercase in Hall. destruct (is_ascii_upper b); lia.
Qed.

Lemma decode_ascii s v : decode s = Ok v -> Forall (fun b => in_range 128 191 b = false) s.
Proof.
  unfold decode. destruct (negb _); [done|]. generalize 0 as a. induction s as [|b s IH]; intros a; [constructor|].
  intros (d & Hd & _ & _ & Hs)%decode_fold_cons. constructor; [by eapply digit_of_ascii | by eapply IH].
Qed.

Lemma substr_take n s : Forall (fun b => in_range 128 191 b = false) s -> substr (Z.of_nat n) s = take n s.
Proof.
  intros Hs. revert n. induction Hs as [|b s Hb Hs IH]; intros n; [by rewrite firstn_nil|].
  cbn [substr]. rewrite Hb. destruct n as [|n]; [done|]. destruct (Z.leb_spec (Z.of_nat (S n)) 0); [lia|].
  replace (Z.of_nat (S n) - 1) with (Z.of_nat n) by lia. by rewrite IH.
Qed.

Lemma take_prefix {A} (p s : list A) : take (length p) s = p <-> p `prefix_of` s.
Proof.
  split; [|intros [k ->]; apply take_app_length]. intros <-. exists (drop (length p) s). by rewrite take_drop.
Qed.

Lemma substr_prefix p id : uuid_ok (job_uuid id) ->
  substr (len p) (job_id_to_string id) = p <-> p `prefix_of` job_id_to_string id.
Proof.
  intros Hid. rewrite <- take_prefix, substr_take; [done|]. by eapply decode_ascii, id_text_decode.
Qed.

Section SqliteLaws.
Context `{Serde} `{ExecutionJson}.

Definition job_visible (w : World) (id : JobId) : Prop :=
  exists row, In row (db_jobs (w_db w)) /\ jr_hidden row = 0 /\ jr_id row = job_id_to_string id /\ uuid_ok (job_uuid id).

Lemma limit_sublist {A} n (l : list A) : sublist (limit n l) l.
Proof.
  revert n. induction l as [|x l IH]; intros n; [constructor|]. simpl.
  destruct (n <=? 0); [apply sublist_nil_l|]. by constructor.
Qed.
Lemma limit_length {A} n (l : list A) : 0 <= n -> len (limit n l) <= n.
Proof.
  revert n. induction l as [|x l IH]; intros n Hn; [done|]. cbn [limit].
  destruct (Z.leb_spec n 0); cbn [length]; [lia|]. specialize (IH (n - 1)). lia.
Qed.

Lemma filter_In_iff {A} (p : A -> bool) l x : In x (List.filter p l) <-> In x l /\ p x = true.
Proof. apply List.filter_In. Qed.

(** The rows that a query with a WHERE clause, an order and a limit returns. *)
Lemma selected_rows (p : JobRow -> bool) n rows :
  NoDup (jr_id <$> rows) -> 0 <= n ->
  let chosen := limit n (order_by jr_id (List.filter p rows)) in
  NoDup (jr_id <$> chosen) /\ len chosen <= n /\ (forall r, In r chosen -> In r rows /\ p r = true) /\
  (len chosen < n -> forall r, In r rows -> p r = true -> In r chosen).
Proof.
  intros Hdup Hn chosen. assert (forall r, In r (order_by jr_id (List.filter p rows)) <-> In r rows /\ p r = true) as Hin.
  { intros r. rewrite <- filter_In_iff. split; apply Permutation_in; [|symmetry]; apply order_by_perm. }
  split_and!.
  - apply (sublist_NoDup _ (jr_id <$> order_by jr_id (List.filter p rows))); [|by apply fmap_sublist, limit_sublist].
    rewrite order_by_perm. eapply sublist_NoDup; [exact Hdup|]. apply fmap_sublist. clear. induction rows as [|r rows IH].
    { constructor. } simpl. by destruct (p r); constructor.
  - by apply limit_length.
  - intros r Hr. apply Hin. apply list_elem_of_In. eapply elem_of_sublist; [|apply (limit_sublist n)].
    by apply list_elem_of_In.
  - intros Hlen r Hr Hp. unfold chosen in *. rewrite limit_all by done. by apply Hin.
Qed.

Lemma to_i64_ok what n m : to_i64 what n = Ok m <-> m = n /\ n <= i64_max.
Proof. unfold to_i64. destruct (Z.leb_spec n i64_max); naive_solver lia. Qed.

(** The identifiers of decoded rows are those of the rows. *)
Lemma decoded_ids db rows jobs :
  jobs_keyed db -> (forall r, In r rows -> In r (db_jobs db)) -> map_result decode_job_row rows = Ok jobs ->
  Forall2 (fun r j => jr_id r = job_id_to_string (job_id j) /\ uuid_ok (job_uuid (job_id j))) rows jobs.
Proof.
  intros Hk Hin Hd%map_result_ok. induction Hd as [|r j rows jobs Hj _ IH]; constructor; [|apply IH; intros; apply Hin; by right].
  apply decode_job_row_ok, rd_id in Hj. split; [|by apply fmap_ok in Hj as (v & (_ & ? & _)%decode_canonical & ->)].
  eapply keyed_row_id; [exact Hk| |exact Hj]. apply Hin. by left.
Qed.

Lemma job_id_text_inj a b : uuid_ok (job_uuid a) -> uuid_ok (job_uuid b) ->
  job_id_to_string a = job_id_to_string b -> a = b.
Proof.
  unfold job_id_to_string. intros Ha Hb E. apply id_text_decode in Ha, Hb. rewrite E, Hb in Ha.
  destruct a, b. simpl in *. congruence.
Qed.

#[export] Program Instance sqlite_laws : ManagementLaws World :=
  {| ml_valid w := jobs_keyed (w_db w); ml_visible := job_visible |}.
Next Obligation.
  intros prefix n w jobs w' Hn Hf Hk matching. cbn [ms_find_jobs_by_prefix sqlite_management] in Hf.
  unfold port_err in Hf. destruct (find_jobs_by_prefix prefix n false w) as [[jobs'|e] w1] eqn:E; [|done].
  injection Hf as -> ->. unfold find_jobs_by_prefix in E. cbv zeta in E.
  apply lift_inv in E as [(u & _ & E)|[_ [e ?]]]; [|done].
  apply lift_inv in E as [(m & [-> _]%to_i64_ok & E)|[_ [e ?]]]; [|done]. apply query_ok in E as [Hrows Hw].
  rewrite <- Hw in Hrows. destruct (selected_rows
    (fun r => (jr_hidden r =? 0) && bool_decide (substr (len (map to_ascii_lowercase prefix)) (jr_id r) =
       map to_ascii_lowercase prefix)) n (db_jobs (w_db w')) (proj1 Hk) Hn) as (Hdup & Hlen & Hin & Hall).
  fold (select_jobs_by_prefix (map to_ascii_lowercase prefix) n (w_db w')) in Hdup, Hlen, Hin, Hall.
  pose proof (decoded_ids _ _ _ Hk (fun r Hr => proj1 (Hin r Hr)) Hrows) as Hids.
  assert (jr_id <$> select_jobs_by_prefix (map to_ascii_lowercase prefix) n (w_db w') =
          job_id_to_string <$> (job_id <$> jobs)) as Htexts.
  { clear -Hids. induction Hids as [|r j rows jobs [Hr _] _ IH]; [done|]. cbn. by rewrite Hr, IH. }
  assert (forall r, (jr_hidden r =? 0) && bool_decide (substr (len (map to_ascii_lowercase prefix)) (jr_id r) =
            map to_ascii_lowercase prefix) = true <-> jr_hidden r = 0 /\
            substr (len (map to_ascii_lowercase prefix)) (jr_id r) = map to_ascii_lowercase prefix) as Hp.
  { intros r. by rewrite andb_true_iff, Z.eqb_eq, bool_decide_eq_true. }
  split_and!.
  - rewrite Htexts in Hdup. by apply NoDup_fmap_1 in Hdup.
  - by rewrite <- (Forall2_length _ _ _ Hids).
  - intros id (j & -> & Hj)%list_elem_of_fmap. apply list_elem_of_lookup in Hj as [i Hj].
    destruct (Forall2_lookup_r _ _ _ _ _ Hids Hj) as (r & Hr & Hrid & Hu).
    apply list_elem_of_lookup_2, list_elem_of_In in Hr. destruct (Hin r Hr) as [Hdb [Hhid Hsub]%Hp].
    split; [by exists r|]. rewrite Hrid in Hsub. by apply substr_prefix.
  - intros Hlt id [(r & Hdb & Hhid & Hrid & Hu) Hpre]. rewrite <- (Forall2_length _ _ _ Hids) in Hlt.
    specialize (Hall Hlt r Hdb). rewrite Hp, Hrid in Hall. apply substr_prefix in Hpre; [|done].
    specialize (Hall (conj Hhid Hpre)). apply list_elem_of_In, list_elem_of_lookup in Hall as [i Hr].
    destruct (Forall2_lookup_l _ _ _ _ _ Hids Hr) as (j & Hj & Hrj & Huj).
    rewrite (job_id_text_inj id (job_id j)); [|done|done|congruence].
    by apply list_elem_of_fmap_2, list_elem_of_lookup_2 with (i := i).
Qed.
End SqliteLaws.

(** ** Properties *)

(** C26 (functional).  Resolving a job prefix, for any management port that
    keeps its promise: the job returned is the only visible one whose
    identifier starts with the prefix, whatever its letter case; no match, two
    matches and a malformed prefix are told apart. *)
Theorem resolve_job_spec {S} `{ManagementLaws S} prefix s r s' :
  resolve_job prefix s = (r, s') -> ml_valid s' ->
  let matching id := ml_visible s' id /\ map to_ascii_lowercase prefix `prefix_of` job_id_to_string id in
  match r with
  | Ok job => prefix_valid prefix = true /\ matching (job_id job) /\ forall id, matching id -> id = job_id job
  | Err ME_NotFound => prefix_valid prefix = true /\ forall id, ~ matching id
  | Err (ME_Ambiguous ids) => exists a b, ids = [a; b] /\ a <> b /\ matching a /\ matching b
  | Err ME_InvalidPrefix => prefix_valid prefix = false /\ s' = s
  | Err (ME_Store _) => prefix_valid prefix = true
  | Err _ => False
  end.
Proof.
  intros Hr Hv matching. unfold resolve_job in Hr.
  destruct (prefix_valid prefix) eqn:Ep; cbn [negb] in Hr; [|by injection Hr as <- <-].
  unfold mbind, port_bind, port_err in Hr.
  destruct (ms_find_jobs_by_prefix prefix 2 s) as [[jobs|e] s1] eqn:E; simpl in Hr; [|by injection Hr as <- <-].
  assert (s1 = s') as -> by (destruct jobs as [|? [|]]; by injection Hr).
  apply ml_find in E as (Hdup & Hlen & Hin & Hall); [|lia|done]. fold matching in Hin, Hall.
  destruct jobs as [|a [|b [|c jobs]]]; simpl in Hr; injection Hr as <-; cbn in *.
  - split; [done|]. intros id Hid. specialize (Hall ltac:(lia) id Hid). by apply elem_of_nil in Hall.
  - split_and!; [done|apply Hin; by left|]. intros id Hid. specialize (Hall ltac:(lia) id Hid).
    by apply list_elem_of_singleton in Hall.
  - exists (job_id a), (job_id b). apply NoDup_cons in Hdup as [Hne _].
    split_and!; [done| |apply Hin; by left|apply Hin; right; by left]. intros E'. apply Hne. rewrite E'. by left.
  - lia.
Qed.

(** ** Witnesses *)

Module ServicesExample.
Export RecoveryExample.
Definition prefix0 : str := lit "00000".
End ServicesExample.
Import ServicesExample.

Lemma resolve_job_spec_witness :
  exists job w', (resolve_job prefix0 active_world = (Ok job, w') /\ ml_valid w') /\
  prefix_valid prefix0 = true /\
  (ml_visible w' (job_id job) /\ map to_ascii_lowercase prefix0 `prefix_of` job_id_to_string (job_id job)) /\
  forall id, ml_visible w' id /\ map to_ascii_lowercase prefix0 `prefix_of` job_id_to_string id -> id = job_id job.
Proof.
  assert (exists job, resolve_job prefix0 active_world = (Ok job, active_world)) as (job & E)
    by (eexists; vm_compute; reflexivity).
  exists job, active_world. split; [exact (conj E active_world_keyed)|].
  pose proof (resolve_job_spec prefix0 active_world (Ok job) active_world) as X.
  specialize (X E active_world_keyed). cbv beta iota zeta in X. exact X.
Defined.
