(* ===== verification/Terminal.v ===== *)
(** [src/run_monitor/tty.rs]: the bounded echo of a run's output on the
    terminal that submitted it, with the abstract statement of what may reach
    that terminal.

    The answers of the system are arguments: what opening the terminal and the
    logs gives, and for each write how much of it the terminal takes. *)

From S2P Require Import Prelude Text Lossy Services.

Definition ECHO_LIMIT : nat := 8 * 1024.

(** [fstat] of the terminal and [is_terminal]. *)
Record TtyFile := mk_tty_file { tf_char_device : bool; tf_owner : Z; tf_mode : Z; tf_is_terminal : bool }.
(** [fstat] of an open log, and what reading it from the sought position on gives. *)
Record LogFile := mk_log_file { lf_regular : bool; lf_len : Z; lf_content : str; lf_read : option str }.
Record LogTail := mk_log_tail { lt_bytes : str; lt_truncated : bool }.

(** The terminal: what it shows, and for the writes to come the bytes it takes
    when one fails; no answer left is a write that succeeds. *)
Record Screen := mk_screen { sc_shown : str; sc_writes : list (option (nat * str)) }.
Abbreviation Echo := (Port Screen str).

Definition terminal_write_all (bytes : str) : Echo unit := fun s =>
  match sc_writes s with
  | Some (taken, error) :: writes => (Err error, mk_screen (sc_shown s ++ take taken bytes) writes)
  | None :: writes => (Ok tt, mk_screen (sc_shown s ++ bytes) writes)
  | [] => (Ok tt, mk_screen (sc_shown s ++ bytes) [])
  end.

Definition tty_attributes_allowed (char_device : bool) (owner mode effective_uid : Z) : bool :=
  char_device && (owner =? effective_uid) && (Z.land mode 2 =? 0).

Definition open_tty (opened : result str TtyFile) (euid : Z) : result str unit :=
  file ← opened;
  if negb (tty_attributes_allowed (tf_char_device file) (tf_owner file) (tf_mode file) euid) || negb (tf_is_terminal file)
  then Err (lit "saved terminal is not an owned, non-world-writable TTY") else Ok tt.

Definition read_tail (opened : result str LogFile) : result str LogTail :=
  file ← opened;
  if negb (lf_regular file) then Err (lit "captured log is not a regular file") else
  match lf_read file with
  | Some error => Err error
  | None =>
    let start := Z.to_nat (lf_len file - Z.of_nat ECHO_LIMIT) in
    Ok (mk_log_tail (take ECHO_LIMIT (drop start (lf_content file))) (Z.of_nat ECHO_LIMIT <? lf_len file))
  end.

(** The [while] loop: to the next boundary; [fuel] is the length, which is one. *)
Fixpoint next_boundary (fuel : nat) (text : str) (start : nat) : nat :=
  match fuel with
  | O => start
  | S fuel => if is_char_boundary text start then start else next_boundary fuel text (S start)
  end.

Definition kept_char (c : str) : bool := negb (is_control c) || bool_decide (c = [10]) || bool_decide (c = [9]).

Definition sanitize_tail (bytes : str) : str :=
  let bytes := drop (length bytes - ECHO_LIMIT) bytes in
  let text := concat (List.filter kept_char (chars (from_utf8_lossy bytes))) in
  drop (next_boundary (length text) text (length text - ECHO_LIMIT)) text.

Definition CAPTURE_MARKER : str := lit "[atx: output truncated at capture cap]" ++ [10].
Definition ECHO_MARKER : str := lit "[atx: terminal echo limited to last 8 KiB per stream]" ++ [10].

Definition echo_tty (tty : result str TtyFile) (euid : Z) (stdout_log stderr_log : result str LogFile)
  (captured_truncated : bool) : Echo unit :=
  _ ← (fun s => (open_tty tty euid, s)) : Echo unit;
  stdout ← (fun s => (read_tail stdout_log, s)) : Echo LogTail;
  let stderr := read_tail stderr_log in
  _ ← (if captured_truncated then terminal_write_all CAPTURE_MARKER else mret tt) : Echo unit;
  _ ← (if lt_truncated stdout || match stderr with Ok tail => lt_truncated tail | Err _ => false end
       then terminal_write_all ECHO_MARKER else mret tt) : Echo unit;
  _ ← terminal_write_all [10];
  _ ← terminal_write_all (sanitize_tail (lt_bytes stdout));
  stderr ← (fun s => (stderr, s)) : Echo LogTail;
  terminal_write_all (sanitize_tail (lt_bytes stderr)).

Example sanitize_ex :
  map sanitize_tail [lit "done" ++ [10]; [27; 91; 50; 74; 65]; [194; 155; 66; 9]; [255; 127; 13]]
  = [lit "done" ++ [10]; [91; 50; 74; 65]; [66; 9]; REPLACEMENT].
Proof. reflexivity. Qed.

(** ** What a terminal may be sent

    Text of whole characters none of which controls the terminal, and at most
    8 KiB of it. *)
Record echo_text (s : str) : Prop := {
  et_valid : valid_utf8 s = true;
  et_kept : Forall (fun c => kept_char c = true) (chars s);
  et_bound : (length s <= ECHO_LIMIT)%nat
}.

(** The bytes that start no control sequence. *)
Definition plain_byte (b : Z) : bool := negb (in_range 0 31 b || (b =? 127)) || (b =? 10) || (b =? 9).

Lemma boundary_end text : is_char_boundary text (length text) = true.
Proof.
  unfold is_char_boundary. destruct (length text =? 0)%nat eqn:E; [done|].
  rewrite (proj2 (lookup_ge_None text (length text))) by lia. by rewrite Nat.eqb_refl.
Qed.

Lemma next_boundary_spec fuel text start :
  (start <= length text <= start + fuel)%nat ->
  let i := next_boundary fuel text start in
  (start <= i <= length text)%nat /\ is_char_boundary text i = true.
Proof.
  revert start. induction fuel as [|fuel IH]; intros start H; simpl.
  { replace start with (length text) by lia. split; [lia | apply boundary_end]. }
  destruct (is_char_boundary text start) eqn:E; [split; [lia | done]|].
  destruct (decide (start = length text)) as [->|]; [by rewrite boundary_end in E|].
  destruct (IH (S start)) as [? ?]; [lia|]. split; [lia | done].
Qed.

Lemma sanitize_tail_text bytes : echo_text (sanitize_tail bytes).
Proof.
  unfold sanitize_tail. set (kept := List.filter kept_char _).
  assert (Forall is_char kept /\ Forall (fun c => kept_char c = true) kept) as [Hc Hk].
  { split; apply Forall_forall; intros c [Hin Hkc]%list_elem_of_In%List.filter_In; [|done].
    unfold from_utf8_lossy in Hin. rewrite chars_concat in Hin by apply lossy_chars.
    pose proof (lossy_chars (length (drop (length bytes - ECHO_LIMIT) bytes)) (drop (length bytes - ECHO_LIMIT) bytes)) as Hl.
    rewrite Forall_forall in Hl. by apply Hl, list_elem_of_In. }
  set (text := concat kept). pose proof (next_boundary_spec (length text) text (length text - ECHO_LIMIT)) as Hn.
  cbv zeta in Hn. destruct Hn as [[Hge Hle] Hb]; [lia|].
  destruct (boundary_drop kept _ Hc Hb Hle) as [n En]. fold text in En. rewrite En.
  split; [apply valid_concat; by apply Forall_drop| rewrite chars_concat; by apply Forall_drop|].
  rewrite <- En, length_drop. lia.
Qed.

(** A tail that needs nothing done is echoed as it is. *)
Lemma next_boundary_here fuel text start : is_char_boundary text start = true -> next_boundary fuel text start = start.
Proof. intros H. destruct fuel; [done|]. simpl. by rewrite H. Qed.

Lemma chars_valid s : valid_utf8 s = true -> Forall is_char (chars s) /\ concat (chars s) = s.
Proof.
  intros H. rewrite <- (from_utf8_lossy_id s H). unfold from_utf8_lossy.
  pose proof (lossy_chars (length s) s) as Hl. by rewrite (chars_concat _ Hl).
Qed.

Lemma sanitize_tail_id s : echo_text s -> sanitize_tail s = s.
Proof.
  intros [Hv Hk Hb]. unfold sanitize_tail. rewrite (proj2 (Nat.sub_0_le _ _)) by done. rewrite drop_0, from_utf8_lossy_id by done.
  rewrite forallb_filter_id.
  - rewrite (proj2 (chars_valid s Hv)), (proj2 (Nat.sub_0_le _ _)) by done. by rewrite next_boundary_here, drop_0.
  - apply forallb_Forall, Hk.
Qed.

Lemma char_plain c : is_char c -> kept_char c = true -> Forall (fun b => plain_byte b = true) c.
Proof.
  intros [_ (a & k & -> & Hk & [[-> Ha]|[Hne Ha]])]%is_char_inv; unfold kept_char, plain_byte.
  - rewrite !orb_true_iff, !bool_decide_eq_true. cbn [is_control]. intros H. constructor; [|done].
    rewrite !orb_true_iff, !Z.eqb_eq. naive_solver.
  - intros _. assert (forall b, 128 <= b -> negb (in_range 0 31 b || (b =? 127)) || (b =? 10) || (b =? 9) = true) as Hb.
    { intros b Hb. rewrite (proj2 (in_range_false 0 31 b)), (proj2 (Z.eqb_neq b 127)) by lia. done. }
    constructor; [apply Hb; lia|]. eapply Forall_impl; [done|]. intros b Hbk%in_range_spec. apply Hb. lia.
Qed.

Lemma echo_text_plain s : echo_text s -> Forall (fun b => plain_byte b = true) s.
Proof.
  intros [Hv Hk _]. destruct (chars_valid s Hv) as [Hc Hs]. rewrite <- Hs. clear Hs. induction Hc as [|c cs Hc Hcs IH].
  - constructor.
  - inversion Hk as [|?? Hkc Hkcs]; subst. apply Forall_app. split; [by apply char_plain | by apply IH].
Qed.

(** ** The writes *)

Fixpoint write_list (buffers : list str) : Echo unit :=
  match buffers with [] => mret tt | b :: bs => _ ← terminal_write_all b; write_list bs end.

(** What the echo writes, when nothing fails. *)
Definition echo_script (stdout : LogTail) (stderr : result str LogTail) (captured_truncated : bool) : list str :=
  (if captured_truncated then [CAPTURE_MARKER] else [])
  ++ (if lt_truncated stdout || match stderr with Ok tail => lt_truncated tail | Err _ => false end then [ECHO_MARKER] else [])
  ++ [[10]; sanitize_tail (lt_bytes stdout)]
  ++ match stderr with Ok tail => [sanitize_tail (lt_bytes tail)] | Err _ => [] end.

Lemma write_all_prefix b s r s' :
  terminal_write_all b s = (r, s') ->
  exists out, sc_shown s' = sc_shown s ++ out /\ out `prefix_of` b /\ (r = Ok tt -> out = b).
Proof.
  unfold terminal_write_all. destruct (sc_writes s) as [|[[n e]|] ws]; intros [= <- <-]; cbn [sc_shown].
  - by exists b.
  - exists (take n b). split_and!; [done|apply prefix_take|done].
  - by exists b.
Qed.

Lemma write_list_prefix bs s r s' :
  write_list bs s = (r, s') ->
  exists out, sc_shown s' = sc_shown s ++ out /\ out `prefix_of` concat bs /\ (r = Ok tt -> out = concat bs).
Proof.
  revert s. induction bs as [|b bs IH]; intros s; cbn [write_list concat].
  { intros [= <- <-]. exists []. by rewrite app_nil_r. }
  intros [([] & s1 & E1 & E2)|(e & E1 & ->)]%port_bind_inv.
  - destruct (write_all_prefix _ _ _ _ E1) as (o1 & H1 & _ & ->%(fun f => f eq_refl)).
    destruct (IH _ E2) as (o2 & H2 & Hp & Ho). exists (b ++ o2). rewrite H2, H1, app_assoc. split; [done|].
    split; [by apply prefix_app|]. intros ?. by rewrite Ho.
  - destruct (write_all_prefix _ _ _ _ E1) as (o1 & H1 & Hp & _). exists o1. split_and!; [done|by apply prefix_app_r|done].
Qed.

(** The echo is the writing of its script, once the terminal is the user's
    own and the log of the standard output is readable. *)
Definition echo_marks (stdout : LogTail) (stderr : result str LogTail) : bool :=
  lt_truncated stdout || match stderr with Ok tail => lt_truncated tail | Err _ => false end.

Lemma echo_tty_script tty euid so se cap s :
  echo_tty tty euid so se cap s =
  match open_tty tty euid, read_tail so with
  | Ok _, Ok out =>
    match write_list (echo_script out (read_tail se) cap) s, read_tail se with
    | (Ok _, s'), Err e => (Err e, s')
    | (r, s'), _ => (r, s')
    end
  | Err e, _ | _, Err e => (Err e, s)
  end.
Proof.
  unfold echo_tty, echo_script, mbind, port_bind. destruct (open_tty tty euid) as [u|e]; [|done].
  destruct (read_tail so) as [out|e]; [|done]. fold (echo_marks out (read_tail se)).
  destruct (echo_marks _ _), (read_tail se) as [err|e], cap; cbn [app write_list];
  unfold mbind, port_bind, mret, port_ret; cbn beta iota;
  repeat (match goal with |- context[terminal_write_all ?b ?t] => destruct (terminal_write_all b t) as [[[]|] ?] end; try done).
Qed.

Lemma echo_script_plain out err cap : Forall (fun b => plain_byte b = true) (concat (echo_script out err cap)).
Proof.
  unfold echo_script. rewrite !concat_app, !Forall_app. split_and!.
  - destruct cap; [|done]. cbn [concat]. rewrite app_nil_r. apply forallb_Forall. reflexivity.
  - case_match; [|done]. cbn [concat]. rewrite app_nil_r. apply forallb_Forall. reflexivity.
  - cbn [concat]. rewrite app_nil_r. constructor; [done|]. apply echo_text_plain, sanitize_tail_text.
  - destruct err; [|done]. cbn [concat]. rewrite app_nil_r. apply echo_text_plain, sanitize_tail_text.
Qed.

Lemma echo_script_bound out err cap : (length (concat (echo_script out err cap)) <= 2 * ECHO_LIMIT + 94)%nat.
Proof.
  unfold echo_script. rewrite !concat_app, !length_app.
  assert (forall (b : bool) (s : str), (length (concat (if b then [s] else [])) <= length s)%nat) as Hif.
  { intros [] s; cbn [concat]; rewrite ?app_nil_r; simpl; lia. }
  pose proof (Hif cap CAPTURE_MARKER) as H1. pose proof (Hif (echo_marks out err) ECHO_MARKER) as H2.
  unfold echo_marks in H2. change (length CAPTURE_MARKER) with 39%nat in H1. change (length ECHO_MARKER) with 54%nat in H2.
  pose proof (et_bound _ (sanitize_tail_text (lt_bytes out))) as H3.
  assert (length (concat match err with Ok tail => [sanitize_tail (lt_bytes tail)] | Err _ => [] end) <= ECHO_LIMIT)%nat as H4.
  { destruct err as [tail|]; cbn [concat]; [|simpl; lia]. rewrite app_nil_r. apply et_bound, sanitize_tail_text. }
  assert (length (concat [[10]; sanitize_tail (lt_bytes out)]) = S (length (sanitize_tail (lt_bytes out)))) as ->.
  { cbn [concat]. by rewrite app_nil_r. }
  lia.
Qed.

(** The echo: see the property below. *)
Lemma echo_contained tty euid so se cap s r s' :
  echo_tty tty euid so se cap s = (r, s') ->
  exists shown, sc_shown s' = sc_shown s ++ shown /\
    Forall (fun b => plain_byte b = true) shown /\ (length shown <= 2 * ECHO_LIMIT + 94)%nat /\
    (shown <> [] -> exists f, tty = Ok f /\ tf_char_device f = true /\ tf_owner f = euid /\
       Z.land (tf_mode f) 2 = 0 /\ tf_is_terminal f = true) /\
    (r = Ok tt -> exists out err, read_tail so = Ok out /\ read_tail se = Ok err /\
       shown = concat (echo_script out (Ok err) cap) /\
       echo_text (sanitize_tail (lt_bytes out)) /\ echo_text (sanitize_tail (lt_bytes err))).
Proof.
  rewrite echo_tty_script. intros H. destruct (open_tty tty euid) as [u|e] eqn:Et.
  2:{ injection H as <- <-. exists []. rewrite app_nil_r. split_and!; done || (simpl; lia). }
  destruct (read_tail so) as [out|e]; [|injection H as <- <-; exists []; rewrite app_nil_r; split_and!; done || (simpl; lia)].
  destruct (write_list (echo_script out (read_tail se) cap) s) as [r1 s1] eqn:E.
  destruct (write_list_prefix _ _ _ _ E) as (shown & Hs & [rest Hp] & Ho).
  assert (s' = s1) as -> by (destruct r1 as [|], (read_tail se); by injection H as <- <-).
  exists shown. split; [done|].
  pose proof (echo_script_plain out (read_tail se) cap) as Hplain. pose proof (echo_script_bound out (read_tail se) cap) as Hb.
  rewrite Hp in Hplain, Hb. apply Forall_app in Hplain as [Hplain _]. rewrite length_app in Hb.
  split_and!; [done|lia| |].
  - intros _. unfold open_tty in Et. destruct tty as [f|]; [|done]. exists f. cbn in Et.
    destruct (negb _ || _) eqn:Ea; [done|]. apply orb_false_iff in Ea as [Ea%negb_false_iff Eb%negb_false_iff].
    unfold tty_attributes_allowed in Ea. rewrite !andb_true_iff, !Z.eqb_eq in Ea. destruct Ea as [[Ea1 Ea2] Ea3]. exact (conj eq_refl (conj Ea1 (conj Ea2 (conj Ea3 Eb)))).
  - intros ->. destruct (read_tail se) as [err|e]; [|by destruct r1].
    exists out, err. split; [done|]. split; [done|].
    split; [apply Ho; destruct r1 as [[]|]; [done | discriminate]|]. split; apply sanitize_tail_text.
Qed.


