(* ===== verification/Clock.v ===== *)
(** [src/infrastructure/time/mod.rs]: the suspend-aware clock and the boot
    identity, on Linux and on macOS.

    The system calls are arguments: the two fields of a [timespec], the text of
    [/proc/sys/kernel/random/boot_id], the answers of [mach_timebase_info] and
    of [sysctlbyname]. *)

From S2P Require Import Prelude Text Primitives Duration Identifier States Recurrence Execution JobAgg RunAgg.
From S2P Require Import Process Services.

Definition NANOS_PER_SECOND : Z := 1000000000.

Definition elapsed_from_parts (seconds nanoseconds : Z) : result ClockError ElapsedInstant :=
  if (seconds <? 0) || negb (in_range 0 999999999 nanoseconds) then Err CE_OutOfRange else
  seconds ← ok_or (checked_u128 seconds) CE_OutOfRange;
  nanoseconds ← ok_or (checked_u128 nanoseconds) CE_OutOfRange;
  ok_or (value ← checked_u128 (seconds * NANOS_PER_SECOND); checked_u128 (value + nanoseconds)) CE_OutOfRange.

Definition ticks_to_nanos (ticks numerator denominator : Z) : result ClockError Z :=
  if denominator =? 0 then Err CE_Unavailable else
  ok_or (value ← checked_u128 (ticks * numerator); Some (value / denominator)) CE_OutOfRange.

(** *** Linux *)

Definition is_ascii_hexdigit (b : Z) : bool := is_ascii_digit b || in_range 97 102 b || in_range 65 70 b.

Definition platform_boot_identity (read : option str) : result ClockError str :=
  identity ← ok_or read CE_Unavailable;
  let identity := trim identity in
  if negb (length identity =? 36)%nat || negb (forallb (fun byte => is_ascii_hexdigit byte || (byte =? 45)) identity)
  then Err CE_Unavailable else Ok identity.

(** *** macOS *)

Record MachTimebaseInfo := mk_timebase { tb_numerator : Z; tb_denominator : Z }.

Definition elapsed_from_mach (status ticks : Z) (info : MachTimebaseInfo) : result ClockError ElapsedInstant :=
  if negb (status =? 0) then Err CE_Unavailable else
  ticks_to_nanos ticks (tb_numerator info) (tb_denominator info).

(** [size_of::<libc::timeval>()]: two words of eight bytes. *)
Definition TIMEVAL_SIZE : Z := 16.
Definition boot_identity_from_timeval (status size tv_sec tv_usec : Z) : result ClockError str :=
  if negb (status =? 0) || negb (size =? TIMEVAL_SIZE) || (tv_sec <=? 0) || (tv_usec <? 0) then Err CE_Unavailable else
  Ok (lit "macos:" ++ show_int tv_sec ++ lit ":" ++ show_int tv_usec).

Example clock_ex :
  (elapsed_from_parts 2 3, elapsed_from_parts (-1) 0, ticks_to_nanos 3 2 1, ticks_to_nanos 1 1 0)
    = (Ok 2000000003, Err CE_OutOfRange, Ok 6, Err CE_Unavailable) /\
  boot_identity_from_timeval 0 16 1700000000 42 = Ok (lit "macos:1700000000:42").
Proof. split; reflexivity. Qed.

(** ** The clock of a running system *)

Definition timespec_ok (seconds nanoseconds : Z) : Prop := 0 <= seconds <= i64_max /\ 0 <= nanoseconds <= 999999999.

Lemma elapsed_from_parts_spec seconds nanoseconds :
  elapsed_from_parts seconds nanoseconds =
  if (0 <=? seconds) && in_range 0 999999999 nanoseconds && (seconds * NANOS_PER_SECOND + nanoseconds <=? u128_max)
  then Ok (seconds * NANOS_PER_SECOND + nanoseconds) else Err CE_OutOfRange.
Proof.
  unfold elapsed_from_parts, NANOS_PER_SECOND. destruct (Z.ltb_spec seconds 0), (Z.leb_spec 0 seconds); try lia; [done|].
  destruct (in_range 0 999999999 nanoseconds) eqn:E; [|done]. apply in_range_spec in E. cbn [orb negb andb].
  assert (999999999 < u128_max) by (by vm_compute).
  destruct (Z.leb_spec (seconds * 1000000000 + nanoseconds) u128_max) as [Hle|Hgt].
  - rewrite (checked_in 0 u128_max seconds), (checked_in 0 u128_max nanoseconds) by lia. cbn.
    rewrite (checked_in 0 u128_max (seconds * 1000000000)) by lia. cbn. by rewrite checked_in by lia.
  - destruct (checked_u128 seconds) as [s|] eqn:Es; [|done]. apply checked_Some in Es as [-> ?].
    rewrite (checked_in 0 u128_max nanoseconds) by lia. cbn.
    destruct (checked_u128 (seconds * 1000000000)) as [v|] eqn:Ev; [|done]. apply checked_Some in Ev as [-> ?]. cbn.
    by rewrite (proj2 (checked_None 0 u128_max _)) by lia.
Qed.

Lemma ticks_to_nanos_spec ticks numerator denominator :
  0 <= ticks <= u64_max -> 0 <= numerator <= u32_max -> 0 < denominator ->
  ticks_to_nanos ticks numerator denominator = Ok (ticks * numerator / denominator).
Proof.
  intros Ht Hn Hd. unfold ticks_to_nanos. rewrite (proj2 (Z.eqb_neq denominator 0)) by lia.
  rewrite checked_in; [done|]. split; [nia|]. transitivity (u64_max * u32_max); [nia | by vm_compute].
Qed.



(** ** The boot identity names a boot

    Every identity that the clock gives passes the validation of a process
    identity ([Process.Identity.validate_snapshot]), so that inspection never
    fails because of it. *)
Lemma boot_identity_accepted b :
  (exists read, platform_boot_identity read = Ok b) \/ (exists status size sec usec, boot_identity_from_timeval status size sec usec = Ok b) ->
  forall p start group, p <> 0 -> start <> 0 -> 0 < group ->
  Identity.validate_snapshot (mk_process_identity b p start group) = Ok tt.
Proof.
  intros Hb p start group Hp Hs Hg. unfold Identity.validate_snapshot. cbn [boot_identity pid start_token process_group_id].
  rewrite (proj2 (Z.eqb_neq p 0)), (proj2 (Z.eqb_neq start 0)), (proj2 (Z.leb_gt group 0)) by done.
  assert (is_empty b = false /\ contains_nul b = false) as [-> ->]; [|done].
  destruct Hb as [(read & E)|(status & size & sec & usec & E)].
  - unfold platform_boot_identity in E. destruct read as [s|]; [|done]. cbn in E.
    destruct (negb (length (trim s) =? 36)%nat || _) eqn:Eb; [done|]. injection E as <-.
    apply orb_false_iff in Eb as [El%negb_false_iff%Nat.eqb_eq Ef%negb_false_iff].
    split; [by destruct (trim s)|]. apply forallb_Forall in Ef. clear El. induction Ef as [|c l Hc Hl IH]; [done|].
    unfold contains_byte in *. cbn [existsb]. rewrite IH, orb_false_r. apply Z.eqb_neq. intros <-. by vm_compute in Hc.
  - unfold boot_identity_from_timeval in E. destruct (_ || _); [done|]. apply ok_inj in E as <-.
    rewrite !contains_byte_app, !show_int_no_nul. done.
Qed.
