(* ===== verification/Spawn.v ===== *)
(** [src/infrastructure/process/spawn.rs]: starting the command of a run in a
    process group of its own; and the macOS inspection of a process
    ([inspect_platform] and [inspect_zombie_via_sysctl] of
    [infrastructure/process/mod.rs]).

    The kernel is an argument: what [Command::spawn] answers, what each
    inspection of the child answers, the structures [proc_pidinfo] and
    [sysctl] fill.  What is done to the child is recorded. *)

From S2P Require Import Prelude Text Primitives Duration Identifier States Recurrence Execution JobAgg RunAgg.
From S2P Require Import Process Services.

Definition INSPECTION_ATTEMPTS : nat := 20.

(** [std::process::Command] as it is built; the three streams are null, piped
    and piped. *)
Record Command := mk_command {
  cm_program : str;
  cm_args : list str;
  cm_current_dir : str;
  cm_env : list (str * str);
  cm_process_group : Z
}.

Inductive SpawnError :=
| SPE_InvalidShellConfiguration | SPE_Io (message : str) | SPE_ExitedBeforeInspection
| SPE_Inspection (e : Identity.ProcessError) | SPE_ProcessGroupSetup | SPE_MissingPipe
(** the indexing of an empty argument vector *)
| SPE_Panic.

Inductive SpawnEvent := SV_Started (c : Command) (p : Z) | SV_Inspected | SV_Slept | SV_Killed (p : Z) | SV_Waited (p : Z).
Abbreviation Spawning := (Port (list SpawnEvent) SpawnError).
Definition did (e : SpawnEvent) : Spawning unit := fun s => (Ok tt, s ++ [e]).

Definition build_command (e : ExecutionSpec) : result SpawnError Command :=
  '(program, args) ←
    match mode e with
    | EM_Direct =>
      match argv e with program :: args => Ok (program, args) | [] => Err SPE_Panic end
    | EM_Shell =>
      shell ← ok_or (shell_path e) SPE_InvalidShellConfiguration;
      match argv e with script :: _ => Ok (shell, [lit "-c"; script]) | [] => Err SPE_Panic end
    end;
  Ok (mk_command program args (working_directory e) (map (fun '(key, value) => (key, expose value)) (btree_iter (environment e))) 0).

Section Spawn.
(** [command.spawn()]: the identifier of the child. *)
Variable spawn_child : Command -> result str Z.
(** What the inspection number [n] answers. *)
Variable inspect_at : nat -> Z -> result Identity.ProcessError (option ProcessIdentitySnapshot).

Definition reap_failed_spawn (child : Z) : Spawning unit := _ ← did (SV_Killed child); did (SV_Waited child).

(** The labelled loop, with [attempts_left] going down to 0. *)
Fixpoint inspection_loop (child : Z) (attempt attempts_left : nat) : Spawning ProcessIdentitySnapshot :=
  _ ← did SV_Inspected;
  match inspect_at attempt child with
  | Ok (Some identity) => mret identity
  | Ok None =>
    match attempts_left with
    | O => _ ← reap_failed_spawn child; port_fail SPE_ExitedBeforeInspection
    | S attempts_left => _ ← did SV_Slept; inspection_loop child (S attempt) attempts_left
    end
  | Err error => _ ← reap_failed_spawn child; port_fail (SPE_Inspection error)
  end.

Definition spawn (execution : ExecutionSpec) : Spawning (Z * ProcessIdentitySnapshot) :=
  command ← (fun s => (build_command execution, s)) : Spawning Command;
  child ← (fun s => (map_err SPE_Io (spawn_child command), s)) : Spawning Z;
  _ ← did (SV_Started command child);
  identity ← inspection_loop child 0 (INSPECTION_ATTEMPTS - 1);
  if negb (bool_decide (checked (- 2 ^ 31) (2 ^ 31 - 1) (pid identity) = Some (process_group_id identity)))
  then _ ← reap_failed_spawn child; port_fail SPE_ProcessGroupSetup
  else mret (child, identity).

(** ** Lemmas *)

Definition loop_events (child : Z) (n : nat) (r : result SpawnError ProcessIdentitySnapshot) : list SpawnEvent :=
  concat (repeat [SV_Inspected; SV_Slept] n) ++ [SV_Inspected]
  ++ match r with Ok _ => [] | Err _ => [SV_Killed child; SV_Waited child] end.

Lemma inspection_loop_spec child attempt remaining s :
  exists n r, inspection_loop child attempt remaining s = (r, s ++ loop_events child n r) /\ (n <= remaining)%nat /\
    match r with
    | Ok identity => inspect_at (attempt + n) child = Ok (Some identity)
    | Err e => e = SPE_ExitedBeforeInspection /\ n = remaining /\ inspect_at (attempt + n) child = Ok None
               \/ exists e', e = SPE_Inspection e' /\ inspect_at (attempt + n) child = Err e'
    end.
Proof.
  revert attempt s. induction remaining as [|remaining IH]; intros attempt s; cbn [inspection_loop];
  unfold mbind, port_bind, did, reap_failed_spawn, port_fail, mret, port_ret; cbn beta iota.
  - exists O. rewrite Nat.add_0_r. destruct (inspect_at attempt child) as [[id|]|e] eqn:E.
    + by exists (Ok id).
    + exists (Err SPE_ExitedBeforeInspection). unfold loop_events, did, mbind, port_bind. rewrite <- !app_assoc.
      split; [done|]. split; [lia|]. by left.
    + exists (Err (SPE_Inspection e)). unfold loop_events, did, mbind, port_bind. rewrite <- !app_assoc.
      split; [done|]. split; [lia|]. right. by exists e.
  - destruct (inspect_at attempt child) as [[id|]|e] eqn:E.
    + exists O, (Ok id). rewrite Nat.add_0_r. split; [done|]. split; [lia | done].
    + destruct (IH (S attempt) ((s ++ [SV_Inspected]) ++ [SV_Slept])) as (n & r & -> & Hn & Hr).
      exists (S n), r. unfold loop_events. cbn [repeat concat]. rewrite <- !app_assoc. split; [done|]. split; [lia|].
      rewrite <- Nat.add_succ_comm. destruct r as [|x]; [done|]. destruct Hr as [(? & -> & ?)|?]; [by left | by right].
    + exists O, (Err (SPE_Inspection e)). rewrite Nat.add_0_r. unfold loop_events, did, mbind, port_bind. rewrite <- !app_assoc.
      split; [done|]. split; [lia|]. right. by exists e.
Qed.
End Spawn.

(** What the kernel is left with: the children started and not yet waited
    for. *)
Fixpoint unreaped (events : list SpawnEvent) (live : gset Z) : gset Z :=
  match events with
  | [] => live
  | SV_Started _ p :: l => unreaped l ({[p]} ∪ live)
  | SV_Waited p :: l => unreaped l (live ∖ {[p]})
  | _ :: l => unreaped l live
  end.

Lemma unreaped_app l1 l2 live : unreaped (l1 ++ l2) live = unreaped l2 (unreaped l1 live).
Proof. revert live. induction l1 as [|[] l1 IH]; intros live; cbn [unreaped app]; by rewrite ?IH. Qed.

Lemma unreaped_loop child n r live :
  unreaped (loop_events child n r) live = match r with Ok _ => live | Err _ => live ∖ {[child]} end.
Proof.
  unfold loop_events. rewrite !unreaped_app.
  replace (unreaped (concat (repeat [SV_Inspected; SV_Slept] n)) live) with live.
  - by destruct r.
  - induction n as [|n IH]; [done|]. cbn [repeat concat]. by rewrite unreaped_app.
Qed.

(** ** The contract of a spawn *)

(** The command is the one that was specified, with the specified environment
    and nothing else; only a shell command goes through a shell. *)
Definition command_of (e : ExecutionSpec) (c : Command) : Prop :=
  cm_current_dir c = working_directory e /\ cm_process_group c = 0 /\
  cm_env c = map (fun '(key, value) => (key, expose value)) (btree_iter (environment e)) /\
  match mode e with
  | EM_Direct => cm_program c :: cm_args c = argv e
  | EM_Shell => Some (cm_program c) = shell_path e /\ exists script, argv e = [script] /\ cm_args c = [lit "-c"; script]
  end.

Lemma build_command_ok e : execution_ok e -> exists c, build_command e = Ok c /\ command_of e c.
Proof.
  intros [[Hne _] Hlen Hsh _ _ _ _]. unfold build_command, command_of. destruct (mode e).
  - destruct (argv e) as [|a l]; [done|]. eexists. split; [reflexivity|]. done.
  - specialize (Hlen eq_refl). destruct (shell_path e) as [sh|]; [|done]. destruct (argv e) as [|a [|]]; try done.
    eexists. split; [reflexivity|]. cbn. split_and!; try done. by exists a.
Qed.

(** The contract of a spawn: see the property below. *)
Lemma spawn_owned spawn_child inspect_at e s r s' :
  execution_ok e -> spawn spawn_child inspect_at e s = (r, s') ->
  exists c events, build_command e = Ok c /\ command_of e c /\ s' = s ++ events /\
    match spawn_child c with
    | Err message => r = Err (SPE_Io message) /\ events = []
    | Ok child =>
      (length (List.filter (fun v => match v with SV_Inspected => true | _ => false end) events) <= INSPECTION_ATTEMPTS)%nat /\
      match r with
      | Ok (p, identity) => p = child /\ pid identity = process_group_id identity /\
          (exists n, inspect_at n child = Ok (Some identity)) /\ unreaped events ∅ = {[child]}
      | Err _ => unreaped events ∅ = ∅ /\ exists before, events = before ++ [SV_Killed child; SV_Waited child]
      end
    end.
Proof.
  intros He H. destruct (build_command_ok e He) as (c & Hc & Hcommand). exists c. unfold spawn in H.
  unfold mbind at 1, port_bind at 1 in H. rewrite Hc in H. unfold mbind at 1, port_bind at 1 in H.
  destruct (spawn_child c) as [child|m] eqn:Ec; cbn [map_err] in H.
  2:{ injection H as <- <-. exists []. by rewrite app_nil_r. }
  unfold mbind at 1, port_bind at 1 in H. cbn [did] in H. unfold mbind at 1, port_bind at 1 in H.
  destruct (inspection_loop_spec inspect_at child 0 (INSPECTION_ATTEMPTS - 1) (s ++ [SV_Started c child]))
    as (n & r1 & E & Hn & Hr1). rewrite E in H.
  assert (forall tail : list SpawnEvent, List.filter (fun v => match v with SV_Inspected => true | _ => false end) tail = [] ->
    (length (List.filter (fun v => match v with SV_Inspected => true | _ => false end) (SV_Started c child :: loop_events child n r1 ++ tail))
       <= INSPECTION_ATTEMPTS)%nat) as Hcount.
  { intros tail Ht. cbn [List.filter]. unfold loop_events. rewrite !List.filter_app, Ht, app_nil_r, !length_app.
    replace (length (List.filter _ (concat _))) with n; [|clear; induction n as [|n IH]; [done|cbn; by rewrite <- IH]].
    destruct r1; cbn; unfold INSPECTION_ATTEMPTS in *; lia. }
  destruct r1 as [identity|error].
  2:{ injection H as <- <-. exists (SV_Started c child :: loop_events child n (Err error)).
      rewrite <- app_assoc. split; [done|]. split; [done|]. split; [done|].
      specialize (Hcount [] eq_refl). rewrite app_nil_r in Hcount. split; [done|]. split.
      - cbn [unreaped]. rewrite unreaped_loop. set_solver.
      - exists (SV_Started c child :: concat (repeat [SV_Inspected; SV_Slept] n) ++ [SV_Inspected]).
        unfold loop_events. cbn [app]. by rewrite <- app_assoc. }
  case_bool_decide as Hg; cbn [negb] in H.
  - injection H as <- <-. exists (SV_Started c child :: loop_events child n (Ok identity)).
    rewrite <- app_assoc. split; [done|]. split; [done|]. split; [done|].
    specialize (Hcount [] eq_refl). rewrite app_nil_r in Hcount. split; [done|]. apply checked_Some in Hg as [Hg _].
    split; [done|]. split; [by symmetry|]. split; [by exists n|]. cbn [unreaped]. rewrite unreaped_loop. set_solver.
  - injection H as <- <-. exists (SV_Started c child :: loop_events child n (Ok identity) ++ [SV_Killed child; SV_Waited child]).
    rewrite <- !app_assoc. split; [done|]. split; [done|]. split; [done|].
    split; [by apply Hcount|]. split.
    + cbn [unreaped]. rewrite unreaped_app, unreaped_loop. cbn [unreaped]. set_solver.
    + eexists. by rewrite app_comm_cons.
Qed.

(** C30 (safety).  Starting the command of a valid specification runs exactly
    that command: in direct mode the arguments as they are, without a shell,
    in shell mode one script, with the specified environment only, in a group
    of its own.  When it succeeds the child runs, is known by an identity that
    an inspection gave, and leads its group, so that a later signal to the
    group reaches this command and nothing else.  When it fails, be it because
    every one of the 20 inspections missed the child, an inspection failed, or
    the child is in another group, the child has been killed and waited for:
    no process and no zombie is left behind. *)
Theorem spawn_owns_child spawn_child inspect_at e s r s' :
  execution_ok e -> spawn spawn_child inspect_at e s = (r, s') ->
  exists c events, build_command e = Ok c /\ command_of e c /\ s' = s ++ events /\
    match spawn_child c with
    | Err message => r = Err (SPE_Io message) /\ events = []
    | Ok child =>
      (length (List.filter (fun v => match v with SV_Inspected => true | _ => false end) events) <= INSPECTION_ATTEMPTS)%nat /\
      match r with
      | Ok (p, identity) => p = child /\ pid identity = process_group_id identity /\
          (exists n, inspect_at n child = Ok (Some identity)) /\ unreaped events ∅ = {[child]}
      | Err _ => unreaped events ∅ = ∅ /\ exists before, events = before ++ [SV_Killed child; SV_Waited child]
      end
    end.
Proof. apply spawn_owned. Qed.

(** A command that nobody can inspect in time, and one in the wrong group. *)
Lemma spawn_owns_child_witness :
  execution_ok example_direct /\
  exists s', spawn (fun _ => Ok 77) (fun _ _ => Ok None) example_direct [] = (Err SPE_ExitedBeforeInspection, s') /\
    exists before, s' = before ++ [SV_Killed 77; SV_Waited 77].
Proof.
  split; [exact example_direct_ok|].
  destruct (spawn (fun _ => Ok 77) (fun _ _ => Ok None) example_direct []) as [r s'] eqn:E.
  destruct (spawn_owns_child (fun _ => Ok 77) (fun _ _ => Ok None) example_direct [] r s' example_direct_ok E)
    as (c & events & _ & _ & Hs & _ & Hr).
  exists s'. destruct r as [[p id]|e]; [vm_compute in E; discriminate|]. destruct Hr as [_ [before Hb]].
  split; [|exists before; exact (eq_trans Hs Hb)]. vm_compute in E. by injection E as <- <-.
Defined.
