(* ===== verification/Native.v ===== *)
(** [NativeProcessInspector] on Linux as the other components use it: the
    inspector of the startup recovery ([IdentityInspector for
    NativeProcessInspector] of [infrastructure/process/mod.rs]) and of the
    start of a command ([spawn.rs]), over what reading [/proc/<pid>/stat]
    gives at each question.

    The name of a process is whatever its executable is called, cut by the
    kernel to 15 bytes: [unreadable_name] is what that does to the reading of
    the line as text. *)

From S2P Require Import Prelude Text Primitives Duration Identifier States Recurrence Execution JobAgg RunAgg.
From S2P Require Import Sqlite JobStore RunStore Lossy Reconcile Retention Recovery Process Services Spawn.
Import Process.Identity.

(** The answers of [/proc], by the number of the question and by process. *)
Definition ProcReads : Type := nat -> Z -> result SysError str.

(** ** The inspector of the recovery *)

(** [Display] of [ProcessError]. *)
Definition process_error_text (e : ProcessError) : str :=
  match e with
  | InvalidIdentity => lit "process identity must include boot, PID, start token, and process group"
  | Malformed => lit "process information is malformed"
  | PermissionDenied => lit "permission denied while inspecting process"
  | Io message => lit "process inspection failed: " ++ message
  end.

Definition recovery_status (status : Identity.IdentityStatus) : Reconcile.IdentityStatus :=
  match status with Alive => IS_Alive | Dead => IS_Dead | Reused => IS_Changed end.

Definition native_classify (boot : str) (reads : ProcReads) (identity : ProcessIdentitySnapshot) (question : nat)
  : result str Reconcile.IdentityStatus * nat :=
  (map_err process_error_text (status ← classify boot (reads question) identity; Ok (recovery_status status)), S question).

(** ** Specification: a process that [/proc] lists *)

(** The states of a process that has ended. *)
Definition ended (state : Z) : bool := (state =? 90) || (state =? 88) || (state =? 120).

(** The kernel's line for process [p]: its name is arbitrary. *)
Definition stat_line (p : Z) (name : str) (state group start : Z) (line : str) : Prop :=
  exists ppid skipped rest,
    Forall plain ([state] :: ppid :: skipped ++ rest) /\ length skipped = 16%nat /\
    0 < p <= u32_max /\ 0 < group <= 2 ^ 31 - 1 /\ 0 < start <= u64_max /\
    line = show_dec p ++ [32; 40] ++ name ++ 41
           :: spaced ([state] :: ppid :: show_dec group :: skipped ++ show_dec start :: rest) ++ [10].

(** [/proc] says of the recorded process that it runs. *)
Definition runs (boot : str) (read : Z -> result SysError str) (i : ProcessIdentitySnapshot) : Prop :=
  boot_identity i = boot /\
  exists name state line, stat_line (pid i) name state (process_group_id i) (start_token i) line /\
    ended state = false /\ read (pid i) = Ok line.

(** [/proc] says that it does not: no entry, an ended process, or another
    process under its number. *)
Definition gone (boot : str) (read : Z -> result SysError str) (i : ProcessIdentitySnapshot) : Prop :=
  (exists error, read (pid i) = Err error /\ proc_entry_vanished error = true) \/
  exists name state group start line, stat_line (pid i) name state group start line /\ read (pid i) = Ok line /\
    (ended state = true \/ mk_process_identity boot (pid i) start group <> i).

(** ** Lemmas *)

Lemma classify_line boot read i name state group start line :
  validate_snapshot i = Ok tt -> boot <> [] -> contains_nul boot = false ->
  stat_line (pid i) name state group start line -> read (pid i) = Ok line ->
  classify boot read i =
  Ok (if ended state then Dead
      else if bool_decide (mk_process_identity boot (pid i) start group = i) then Alive else Reused).
Proof.
  intros Hi Hb Hn (ppid & skipped & rest & Hp & Hs & H1 & H2 & H3 & ->) Hr. unfold classify. rewrite Hi.
  cbn [mbind result_bind]. rewrite Hr. unfold inspect_linux_process.
  rewrite linux_stat_roundtrip by done. reflexivity.
Qed.

Lemma validate_runs boot read i : boot <> [] -> contains_nul boot = false -> runs boot read i -> validate_snapshot i = Ok tt.
Proof.
  intros Hb Hn (Hi & name & state & line & (? & ? & ? & _ & _ & Hp & Hg & Hs & _) & _). unfold validate_snapshot. rewrite Hi, Hn.
  destruct boot; [done|]. cbn [is_empty orb].
  destruct (Z.eqb_spec (pid i) 0), (Z.eqb_spec (start_token i) 0), (Z.leb_spec (process_group_id i) 0); try lia. done.
Qed.

Lemma classify_runs boot read i :
  boot <> [] -> contains_nul boot = false -> runs boot read i -> classify boot read i = Ok Alive.
Proof.
  intros Hb Hn Hr. pose proof (validate_runs _ _ _ Hb Hn Hr) as Hv. destruct Hr as (Hi & name & state & line & Hl & He & Hr).
  erewrite classify_line by done. rewrite He. rewrite bool_decide_eq_true_2; [done|]. destruct i. simpl in *. by subst.
Qed.

Lemma classify_gone boot read i :
  validate_snapshot i = Ok tt -> boot <> [] -> contains_nul boot = false -> gone boot read i ->
  exists status, classify boot read i = Ok status /\ status <> Alive.
Proof.
  intros Hv Hb Hn [(error & Hr & Hvan)|(name & state & group & start & line & Hl & Hr & Ho)].
  - exists Dead. unfold classify. rewrite Hv. cbn [mbind result_bind]. rewrite Hr. cbn [inspect_linux_process].
    by rewrite Hvan.
  - erewrite classify_line by done. eexists. split; [done|]. destruct (ended state); [done|].
    destruct Ho as [|Ho]; [done|]. by rewrite bool_decide_eq_false_2.
Qed.

(** An answer [Alive] was read in [/proc]. *)
Lemma native_alive boot reads i n :
  (native_classify boot reads i n).1 = Ok IS_Alive ->
  exists stat process, reads n (pid i) = Ok stat /\ parse_linux_process stat boot = Ok process /\
    lp_identity process = i /\ ended (lp_state process) = false.
Proof.
  unfold native_classify, classify. cbn [fst]. destruct (validate_snapshot i); [|done]. cbn [mbind result_bind].
  destruct (reads n (pid i)) as [stat|error]; cbn [inspect_linux_process].
  2: { by destruct (proc_entry_vanished error). }
  destruct (parse_linux_process stat boot) as [process|] eqn:Ep; [|done]. cbn [mbind result_bind classify_linux_process].
  intros Ha. exists stat, process. fold (ended (lp_state process)) in Ha. destruct (ended (lp_state process)) eqn:Ee; [done|].
  unfold classify_identity in Ha. case_bool_decide; done.
Qed.

(** The question about a monitor that runs, and about one that is gone. *)
Lemma monitor_alive_native boot reads m s b s' :
  monitor_alive (native_classify boot reads) (Some m) boot s = (b, s') -> boot_identity m = boot ->
  boot <> [] -> contains_nul boot = false ->
  (runs boot (reads s) m -> b = true) /\ (validate_snapshot m = Ok tt -> gone boot (reads s) m -> b = false).
Proof.
  unfold monitor_alive. intros E Hm Hb Hn. rewrite bool_decide_eq_true_2 in E by done. unfold native_classify in E.
  injection E as <- _. split.
  - intros Hr. by rewrite (classify_runs _ _ _ Hb Hn Hr).
  - intros Hv Hg. destruct (classify_gone _ _ _ Hv Hb Hn Hg) as (status & -> & Hs). by destruct status.
Qed.

(** ** A name that is not text *)

(** [std::fs::read_to_string] on a file of these bytes. *)
Definition read_to_string (bytes : str) : result SysError str :=
  if valid_utf8 bytes then Ok bytes else Err (mk_sys_error EK_Other None (lit "stream did not contain valid UTF-8")).

Lemma stat_line_utf8 p name state group start line :
  stat_line p name state group start line -> valid_utf8 line = true -> valid_utf8 name = true.
Proof.
  intros (ppid & skipped & rest & _ & _ & _ & _ & _ & ->). rewrite valid_ascii_app.
  2:{ eapply Forall_impl; [apply show_dec_digits|]. intros b Hb%in_range_spec. apply in_range_spec. lia. }
  rewrite valid_ascii_app by (by repeat constructor). by apply valid_before_ascii.
Qed.

Lemma inspect_unreadable boot read p name state group start line :
  stat_line p name state group start line -> valid_utf8 name = false -> read p = read_to_string line ->
  inspect_linux_process (read p) boot = Err (Io (lit "stream did not contain valid UTF-8")).
Proof.
  intros Hl Hn Hr. rewrite Hr. unfold read_to_string. destruct (valid_utf8 line) eqn:E; [|done].
  by rewrite (stat_line_utf8 _ _ _ _ _ _ Hl E) in Hn.
Qed.

(** The command that [atx] starts, its inspections answered by [/proc]. *)
Definition native_spawn (boot : str) (spawn_child : Command -> result str Z) (reads : ProcReads) (e : ExecutionSpec)
  : Spawning (Z * ProcessIdentitySnapshot) :=
  spawn spawn_child (fun n => inspect boot (reads n)) e.

(** ** Properties *)

(** C6 (safety).  Startup recovery on Linux.  When it succeeds while no other
    process changes jobs, every job still active afterwards was left as it
    was, and has an active run whose monitor was seen in [/proc] during the
    recovery: the entry of its process number was read and parsed, names the
    recorded boot, group and start time, and is of a process that has not
    ended.  Dead monitors, zombies and processes that reuse a number keep no
    job alive. *)
Theorem linux_startup `{Serde} `{ExecutionJson} boot reads policy wall elapsed n w plan n' w' :
  jobs_untouched w -> jobs_keyed (w_db w) -> ts_ok wall -> elapsed_ok elapsed ->
  reconcile_startup (native_classify boot reads) policy wall elapsed boot n w = (Ok (plan, n'), w') ->
  forall row, In row (db_jobs (w_db w')) -> is_active_row row ->
  In row (db_jobs (w_db w)) /\
  exists job run m question stat process, decode_job_row row = Ok job /\
    run_of_rows (select_active_runs (seen false w)) (job_id job) run /\ In (run_id run) (plan_preserved plan) /\
    (run_state run = RS_Running \/ run_state run = RS_CancelRequested) /\
    run_monitor_identity run = Some m /\ boot_identity m = boot /\
    reads question (pid m) = Ok stat /\ parse_linux_process stat boot = Ok process /\
    lp_identity process = m /\ ended (lp_state process) = false.
Proof.
  intros Hq Hk Hw He Hr row Hin Hact.
  destruct (startup_active_owned _ _ _ _ _ _ _ _ _ _ Hq Hk Hw He Hr row Hin Hact)
    as (Hin0 & job & run & Hd & Hrun & [Hst (m & question & Hm & Hb & Ha)] & Hp).
  apply native_alive in Ha as (stat & process & ? & ? & ? & ?). split; [done|].
  by exists job, run, m, question, stat, process.
Qed.

(** The verdict on the job of a running command: while [/proc] shows its
    monitor, the run is preserved and nothing is done to it; once the monitor
    is gone, ended or its number reused, the run is interrupted, with its
    token.  Between the two, an unreadable entry is not taken for life. *)
Theorem linux_verdict boot reads record run m plan n :
  rec_active_run record = Some run -> run_state run = RS_Running \/ run_state run = RS_CancelRequested ->
  run_monitor_identity run = Some m -> boot_identity m = boot -> boot <> [] -> contains_nul boot = false ->
  validate_snapshot m = Ok tt ->
  ((forall k, runs boot (reads k) m) ->
   (reconcile_active (native_classify boot reads) record boot plan n).1 = push_preserved (run_id run) plan) /\
  ((forall k, gone boot (reads k) m) ->
   exists fate, (reconcile_active (native_classify boot reads) record boot plan n).1 =
     push_action (interrupt_action record (Some (run_id run, run_claim_token run)) fate) plan).
Proof.
  intros Hrun Hst Hm Hb Hne Hnul Hv. unfold reconcile_active. rewrite Hrun, Hm.
  assert (run_is_terminal (run_state run) = false) as -> by (by destruct Hst as [-> | ->]).
  destruct (inspect_fate _ _ _ _) as [fate n1]. destruct (monitor_alive _ _ _ n1) as [alive n2] eqn:Ea.
  destruct (monitor_alive_native _ _ _ _ _ _ Ea Hb Hne Hnul) as [Hyes Hno].
  assert (match run_state run with RS_Running | RS_CancelRequested => true | _ => false end = true) as ->
    by (by destruct Hst as [-> | ->]).
  split.
  - intros Hall. by rewrite (Hyes (Hall n1)).
  - intros Hall. rewrite (Hno Hv (Hall n1)). by exists fate.
Qed.

(** A command whose process name is not UTF-8 cannot run: the
    first inspection fails, the command that has just been started is killed,
    and no cancellation or recovery could classify it. *)
Theorem unreadable_name boot spawn_child reads e c p name state group start line identity s :
  execution_ok e -> build_command e = Ok c -> spawn_child c = Ok p ->
  stat_line p name state group start line -> valid_utf8 name = false -> (forall n, reads n p = read_to_string line) ->
  native_spawn boot spawn_child reads e s =
    (Err (SPE_Inspection (Io (lit "stream did not contain valid UTF-8"))),
     s ++ [SV_Started c p; SV_Inspected; SV_Killed p; SV_Waited p]) /\
  (pid identity = p -> forall n, exists error, classify boot (reads n) identity = Err error).
Proof.
  intros He Hc Hs Hl Hn Hr. pose proof (fun n => inspect_unreadable boot (reads n) _ _ _ _ _ _ Hl Hn (Hr n)) as Hi.
  assert ((p =? 0) = false) as Hp by (destruct Hl as (? & ? & ? & _ & _ & Hp & _); apply Z.eqb_neq; lia). split.
  - unfold native_spawn, spawn, mbind, port_bind, did. rewrite Hc, Hs. cbn beta iota zeta delta [map_err].
    change (INSPECTION_ATTEMPTS - 1)%nat with (S 18). cbn [inspection_loop].
    unfold inspect, inspect_platform. rewrite Hp, Hi. unfold reap_failed_spawn, mbind, port_bind, did, port_fail. cbn.
    by rewrite <- !app_assoc.
  - intros <- n. unfold classify. destruct (validate_snapshot identity); [|by eexists]. cbn [mbind result_bind].
    rewrite Hi. by eexists.
Qed.

(** ** Witnesses *)

Module NativeExample.
(** The line of a process in state [S], with start time 20. *)
Definition line_of (p : Z) (name : str) (state : Z) : str :=
  show_dec p ++ [32; 40] ++ name ++ 41
  :: spaced ([state] :: lit "1" :: show_dec p :: replicate 16 (lit "0") ++ [show_dec 20]) ++ [10].
(** The only process is [example_identity]. *)
Definition table (state : Z) : ProcReads := fun _ p =>
  if p =? 10 then Ok (line_of 10 (lit "atx (deleted)") state) else Err (mk_sys_error EK_NotFound (Some 2) []).
(** The name of the command [consommation-hébergement], cut to 15 bytes. *)
Definition cut_name : str := take 15 (lit "consommation-h" ++ [195; 169] ++ lit "bergement").
Definition cut_reads : ProcReads := fun _ _ => read_to_string (line_of 77 cut_name 83).
End NativeExample.
Import RecoveryExample NativeExample.

Lemma line_of_ok p name state :
  0 < p <= 2 ^ 31 - 1 -> plain_byte state = true -> stat_line p name state p 20 (line_of p name state).
Proof.
  intros Hp Hs. exists (lit "1"), (replicate 16 (lit "0")), [].
  assert (0 < 20 <= u64_max) as H20 by (vm_compute; done). assert (2 ^ 31 - 1 <= u32_max) as H31 by (vm_compute; done).
  split; [repeat constructor; done|]. split; [done|]. split; [lia|]. split; [done|]. by split.
Qed.

Lemma linux_startup_witness :
  exists plan n' w', reconcile_startup (native_classify (lit "boot") (table 83)) policy0 (due0 + 50) 1000
      (lit "boot") 0%nat active_world = (Ok (plan, n'), w') /\
  forall row, In row (db_jobs (w_db w')) -> is_active_row row ->
  In row (db_jobs (w_db active_world)) /\
  exists job run m question stat process, decode_job_row row = Ok job /\
    run_of_rows (select_active_runs (seen false active_world)) (job_id job) run /\
    In (run_id run) (plan_preserved plan) /\
    (run_state run = RS_Running \/ run_state run = RS_CancelRequested) /\
    run_monitor_identity run = Some m /\ boot_identity m = lit "boot" /\
    table 83 question (pid m) = Ok stat /\ parse_linux_process stat (lit "boot") = Ok process /\
    lp_identity process = m /\ ended (lp_state process) = false.
Proof.
  assert (jobs_untouched active_world) as H1 by (vm_compute; constructor).
  assert (ts_ok (due0 + 50)) as H2 by (by vm_compute). assert (elapsed_ok 1000) as H3 by (by vm_compute).
  assert (exists plan n' w', reconcile_startup (native_classify (lit "boot") (table 83)) policy0 (due0 + 50)
    1000 (lit "boot") 0%nat active_world = (Ok (plan, n'), w')) as (plan & n' & w' & E)
    by (eexists _, _, _; vm_compute; reflexivity).
  exists plan, n', w'. split; [exact E|].
  pose proof (linux_startup (lit "boot") (table 83) policy0 (due0 + 50) 1000 0%nat
    active_world plan n' w') as X.
  specialize (X H1 active_world_keyed H2 H3 E). exact X.
Defined.

(** The same startup with a live monitor, a zombie and another boot. *)
Example linux_startup_ex :
  map (fun '(state, boot) =>
    match reconcile_startup (native_classify boot (table state)) policy0 (due0 + 50) 1000 boot 0%nat
            active_world with
    | (Ok (plan, _), _) => Some (plan_preserved plan, plan_actions plan)
    | _ => None
    end) [(83, lit "boot"); (90, lit "boot"); (83, lit "other")] =
  [Some ([run_id0], []);
   Some ([], [Interrupt (job_id job0) 4 (Some (run_id0, token0)) CF_Dead]);
   Some ([], [Interrupt (job_id job0) 4 (Some (run_id0, token0)) CF_Changed])].
Proof. vm_compute. reflexivity. Qed.

Lemma linux_verdict_witness :
  (reconcile_active (native_classify (lit "boot") (table 83)) ReconcileExample.running (lit "boot") plan_empty 0%nat).1 =
    push_preserved (run_id example_run1) plan_empty /\
  exists fate, (reconcile_active (native_classify (lit "boot") (table 90)) ReconcileExample.running (lit "boot") plan_empty 0%nat).1 =
    push_action (interrupt_action ReconcileExample.running (Some (run_id example_run1, run_claim_token example_run1)) fate) plan_empty.
Proof.
  assert (lit "boot" <> []) as Hb by done.
  assert (0 < 10 <= 2 ^ 31 - 1) as Hp by (vm_compute; done).
  split.
  - apply (linux_verdict (lit "boot") (table 83) ReconcileExample.running example_run1 example_identity plan_empty 0%nat
      eq_refl (or_introl eq_refl) eq_refl eq_refl Hb eq_refl eq_refl).
    intros k. split; [done|]. exists (lit "atx (deleted)"), 83, (line_of 10 (lit "atx (deleted)") 83).
    split; [|done]. by apply line_of_ok.
  - apply (linux_verdict (lit "boot") (table 90) ReconcileExample.running example_run1 example_identity plan_empty 0%nat
      eq_refl (or_introl eq_refl) eq_refl eq_refl Hb eq_refl eq_refl).
    intros k. right. exists (lit "atx (deleted)"), 90, 10, 20, (line_of 10 (lit "atx (deleted)") 90).
    split; [by apply line_of_ok|]. split; [done|by left].
Defined.

Lemma unreadable_name_witness :
  valid_utf8 cut_name = false /\
  exists c, native_spawn (lit "boot") (fun _ => Ok 77) cut_reads example_direct [] =
    (Err (SPE_Inspection (Io (lit "stream did not contain valid UTF-8"))),
     [SV_Started c 77; SV_Inspected; SV_Killed 77; SV_Waited 77]).
Proof.
  assert (valid_utf8 cut_name = false) as Hn by (vm_compute; done).
  assert (0 < 77 <= 2 ^ 31 - 1) as Hp by (vm_compute; done). split; [exact Hn|].
  assert (exists c, build_command example_direct = Ok c) as [c Hc] by (eexists; vm_compute; reflexivity).
  exists c. exact (proj1 (unreadable_name (lit "boot") (fun _ => Ok 77) cut_reads example_direct c 77 cut_name 83 77 20
    (line_of 77 cut_name 83) example_identity [] example_direct_ok Hc eq_refl (line_of_ok 77 cut_name 83 Hp eq_refl) Hn
    (fun _ => eq_refl))).
Defined.
