(* ===== verification/MacProcess.v ===== *)
(** [src/infrastructure/process/mod.rs] on macOS: [inspect_platform] and its
    [sysctl] fallback for zombies, and that both name a process alike.

    The answers of [proc_pidinfo] and [sysctl] are arguments; the second is
    the bytes of a [kinfo_proc], little-endian as on both architectures. *)

From S2P Require Import Prelude Text Primitives Duration Identifier States Recurrence Execution JobAgg RunAgg Process.

(** The errors of [ProcessError] that macOS knows. *)
Inductive MacProcessError := MP_InvalidIdentity | MP_Malformed | MP_PermissionDenied | MP_Unavailable.

Record BsdInfo := mk_bsd_info { pbi_pid : Z; pbi_pgid : Z; pbi_start_tvsec : Z; pbi_start_tvusec : Z }.
Definition BSD_INFO_SIZE : Z := 136.

(** [proc_pidinfo]: the bytes written; [errno] when none are. *)
Inductive PidInfo := PI_None (errno : option Z) | PI_Written (n : Z) (info : BsdInfo).
(** [sysctl]: a failure, or the size of what was written and the buffer. *)
Inductive SysctlAnswer := SY_Failed | SY_Filled (size : Z) (raw : str).

Definition ESRCH : Z := 3.
Definition EPERM : Z := 1.
Definition EACCES : Z := 13.

Definition mac_validate (identity : ProcessIdentitySnapshot) : result MacProcessError unit :=
  map_err (fun _ => MP_InvalidIdentity) (Identity.validate_snapshot identity).

Definition KINFO_PROC_SIZE : nat := 648.
Definition STARTTIME_SEC_OFFSET : nat := 0.
Definition STARTTIME_USEC_OFFSET : nat := 8.
Definition PID_OFFSET : nat := 40.
Definition PGID_OFFSET : nat := 564.

(** [i32::from_ne_bytes] *)
Definition le_value (bytes : str) : Z := foldr (fun b acc => b + 256 * acc) 0 bytes.
Definition signed32 (u : Z) : Z := if u <? 2 ^ 31 then u else u - 2 ^ 32.
Definition read_i32 (raw : str) (offset : nat) : option Z :=
  if (offset + 4 <=? length raw)%nat then Some (signed32 (le_value (take 4 (drop offset raw)))) else None.

Definition inspect_zombie_via_sysctl (answer : SysctlAnswer) (pid : Z) (boot : str)
  : result MacProcessError (option ProcessIdentitySnapshot) :=
  match answer with
  | SY_Failed => Err MP_Unavailable
  | SY_Filled size raw =>
    if size =? 0 then Ok None else
    if negb (size =? Z.of_nat KINFO_PROC_SIZE) then Err MP_Malformed else
    '(start_sec, usec, recorded, group) ← ok_or (
      start_sec ← read_i32 raw STARTTIME_SEC_OFFSET; usec ← read_i32 raw STARTTIME_USEC_OFFSET;
      recorded ← read_i32 raw PID_OFFSET; group ← read_i32 raw PGID_OFFSET; Some (start_sec, usec, recorded, group)) MP_Malformed;
    if negb (recorded =? pid) then Err MP_Malformed else
    start_token ← ok_or (
      value ← checked (- i64_max - 1) i64_max (start_sec * 1000000); checked (- i64_max - 1) i64_max (value + usec)) MP_Malformed;
    pid ← ok_or (checked 0 u32_max pid) MP_InvalidIdentity;
    start_token ← ok_or (checked_u64 start_token) MP_Malformed;
    let snapshot := mk_process_identity boot pid start_token group in
    _ ← mac_validate snapshot;
    Ok (Some snapshot)
  end.

Definition inspect_platform (info : PidInfo) (answer : SysctlAnswer) (pid : Z) (boot : str)
  : result MacProcessError (option ProcessIdentitySnapshot) :=
  pid ← ok_or (checked (- 2 ^ 31) (2 ^ 31 - 1) pid) MP_InvalidIdentity;
  match info with
  | PI_None errno =>
    match errno with
    | None => inspect_zombie_via_sysctl answer pid boot
    | Some e =>
      if e =? ESRCH then inspect_zombie_via_sysctl answer pid boot else
      if (e =? EPERM) || (e =? EACCES) then Err MP_PermissionDenied else Err MP_Unavailable
    end
  | PI_Written written info =>
    if negb (written =? BSD_INFO_SIZE) then Err MP_Malformed else
    start_token ← ok_or (
      value ← checked_u64 (pbi_start_tvsec info * 1000000); checked_u64 (value + pbi_start_tvusec info)) MP_Malformed;
    group ← ok_or (checked (- 2 ^ 31) (2 ^ 31 - 1) (pbi_pgid info)) MP_Malformed;
    let snapshot := mk_process_identity boot (pbi_pid info) start_token group in
    _ ← mac_validate snapshot;
    Ok (Some snapshot)
  end.

(** [NativeProcessInspector::inspect] and [classify]. *)
Definition mac_inspect (info : PidInfo) (answer : SysctlAnswer) (p : Z) (boot : str)
  : result MacProcessError (option ProcessIdentitySnapshot) :=
  if p =? 0 then Err MP_InvalidIdentity else inspect_platform info answer p boot.
Definition mac_classify (info : PidInfo) (answer : SysctlAnswer) (expected : ProcessIdentitySnapshot) (boot : str)
  : result MacProcessError Identity.IdentityStatus :=
  _ ← mac_validate expected;
  current ← mac_inspect info answer (pid expected) boot;
  Ok (Identity.classify_identity expected current).

(** ** A process and its zombie

    The [kinfo_proc] that the kernel keeps of the process of [info]: the same
    four fields, the seconds in eight bytes. *)
Definition le_bytes (k : nat) (v : Z) : str := map (fun i => v / 256 ^ Z.of_nat i mod 256) (seq 0 k).
Definition field_at (raw : str) (offset k : nat) (v : Z) : Prop := take k (drop offset raw) = le_bytes k v.
Record kinfo_of (raw : str) (info : BsdInfo) : Prop := {
  kp_size : length raw = KINFO_PROC_SIZE;
  kp_sec : field_at raw STARTTIME_SEC_OFFSET 8 (pbi_start_tvsec info);
  kp_usec : field_at raw STARTTIME_USEC_OFFSET 4 (pbi_start_tvusec info);
  kp_pid : field_at raw PID_OFFSET 4 (pbi_pid info);
  kp_pgid : field_at raw PGID_OFFSET 4 (pbi_pgid info)
}.

Lemma le_value_bytes v : 0 <= v -> le_value (le_bytes 4 v) = v mod 2 ^ 32.
Proof.
  intros Hv. cbn. change (256 ^ Z.of_nat 0) with 1. change (256 ^ Z.of_nat 1) with 256.
  change (256 ^ Z.of_nat 2) with 65536. change (256 ^ Z.of_nat 3) with 16777216.
  Z.to_euclidean_division_equations. lia.
Qed.

Lemma read_i32_field raw offset k v :
  (offset + 4 <= length raw)%nat -> (4 <= k)%nat -> 0 <= v -> field_at raw offset k v ->
  read_i32 raw offset = Some (signed32 (v mod 2 ^ 32)).
Proof.
  intros Hl Hk Hv Hf. unfold read_i32. rewrite (proj2 (Nat.leb_le _ _)) by done. f_equal. f_equal.
  assert (take 4 (drop offset raw) = le_bytes 4 v) as ->; [|by apply le_value_bytes].
  unfold field_at in Hf. apply (f_equal (take 4)) in Hf. rewrite take_take, Nat.min_l in Hf by lia. rewrite Hf.
  unfold le_bytes. by do 4 (destruct k as [|k]; [lia|]).
Qed.

Lemma signed32_id v : 0 <= v < 2 ^ 31 -> signed32 (v mod 2 ^ 32) = v.
Proof.
  intros Hv. rewrite Z.mod_small by lia. unfold signed32. by rewrite (proj2 (Z.ltb_lt v (2 ^ 31))) by lia.
Qed.

(** On macOS a process that has become a zombie keeps its
    identity: the [sysctl] fallback reads from its [kinfo_proc] the identity
    that [proc_pidinfo] gave while it ran, error for error, so that a child
    that exits before it is inspected is still recognised.  This holds for a
    process started before the second 2{^31}; from then on, up to the second
    2{^32}, the seconds, of which the fallback reads four bytes, are negative
    and the zombie is refused as malformed. *)
Theorem zombie_same_identity info raw boot p errno other :
  kinfo_of raw info -> pbi_pid info = p -> 0 < p < 2 ^ 31 -> 0 <= pbi_pgid info < 2 ^ 31 ->
  0 <= pbi_start_tvusec info < 1000000 -> errno = None \/ errno = Some ESRCH ->
  (0 <= pbi_start_tvsec info < 2 ^ 31 ->
   mac_inspect (PI_None errno) (SY_Filled (Z.of_nat KINFO_PROC_SIZE) raw) p boot = mac_inspect (PI_Written BSD_INFO_SIZE info) other p boot) /\
  (2 ^ 31 <= pbi_start_tvsec info < 2 ^ 32 ->
   mac_inspect (PI_None errno) (SY_Filled (Z.of_nat KINFO_PROC_SIZE) raw) p boot = Err MP_Malformed).
Proof.
  intros [Hsize Hsec Husec Hpid Hgroup] <- Hp Hg Hu He. assert (u64_max = 18446744073709551615 /\ i64_max = 9223372036854775807) as [Emax Emax']
    by done.
  assert (forall sec, 0 <= sec < 2 ^ 32 -> sec = pbi_start_tvsec info ->
    mac_inspect (PI_None errno) (SY_Filled (Z.of_nat KINFO_PROC_SIZE) raw) (pbi_pid info) boot =
    (start_token ← ok_or (checked_u64 (signed32 sec * 1000000 + pbi_start_tvusec info)) MP_Malformed;
     let snapshot := mk_process_identity boot (pbi_pid info) start_token (pbi_pgid info) in
     _ ← mac_validate snapshot; Ok (Some snapshot))) as Hz.
  { intros sec Hs ->. unfold mac_inspect, inspect_platform. rewrite (proj2 (Z.eqb_neq _ 0)), (checked_in (- 2 ^ 31)) by lia.
    transitivity (inspect_zombie_via_sysctl (SY_Filled (Z.of_nat KINFO_PROC_SIZE) raw) (pbi_pid info) boot).
    { by destruct He as [-> | ->]. }
    unfold inspect_zombie_via_sysctl. change (Z.of_nat KINFO_PROC_SIZE =? 0) with false. rewrite !Z.eqb_refl. cbn [negb].
    rewrite (read_i32_field raw STARTTIME_SEC_OFFSET 8 (pbi_start_tvsec info)) by (lia || done || (rewrite Hsize; by apply Nat.leb_le)).
    rewrite (read_i32_field raw STARTTIME_USEC_OFFSET 4 (pbi_start_tvusec info)) by (lia || done || (rewrite Hsize; by apply Nat.leb_le)).
    rewrite (read_i32_field raw PID_OFFSET 4 (pbi_pid info)) by (lia || done || (rewrite Hsize; by apply Nat.leb_le)).
    rewrite (read_i32_field raw PGID_OFFSET 4 (pbi_pgid info)) by (lia || done || (rewrite Hsize; by apply Nat.leb_le)).
    rewrite (signed32_id (pbi_start_tvusec info)), (signed32_id (pbi_pid info)), (signed32_id (pbi_pgid info)) by lia.
    rewrite Z.mod_small by lia. cbn. rewrite Z.eqb_refl. cbn.
    assert (- 2 ^ 31 <= signed32 (pbi_start_tvsec info) < 2 ^ 31) as Hs32 by (unfold signed32; case_match; lia).
    revert Hs32. generalize (signed32 (pbi_start_tvsec info)). intros start Hs32. assert (u32_max = 4294967295) as Emax32 by done.
    rewrite (checked_in _ _ (start * _)) by lia. cbn [mbind option_bind].
    rewrite (checked_in _ _ (_ + _)) by lia. cbn. by rewrite (checked_in 0 u32_max) by lia. }
  split; intros Hs; rewrite (Hz (pbi_start_tvsec info)) by lia.
  - unfold mac_inspect, inspect_platform. rewrite (proj2 (Z.eqb_neq _ 0)), (checked_in (- 2 ^ 31)) by lia. cbn.
    assert (signed32 (pbi_start_tvsec info) = pbi_start_tvsec info) as ->.
    { unfold signed32. destruct (Z.ltb_spec (pbi_start_tvsec info) (2 ^ 31)); [done | lia]. }
    rewrite (checked_in 0 u64_max (pbi_start_tvsec info * 1000000)) by lia. cbn.
    rewrite (checked_in 0 u64_max (pbi_start_tvsec info * 1000000 + pbi_start_tvusec info)) by lia. cbn.
    by rewrite (checked_in _ _ (pbi_pid info)) by lia.
  - rewrite (proj2 (checked_None 0 u64_max _)); [done|]. unfold signed32. rewrite (proj2 (Z.ltb_ge (pbi_start_tvsec info) (2 ^ 31))) by lia. lia.
Qed.

(** The process 77 of the group 77, started at 1700000000 s 250 us; its
    [kinfo_proc] is zero elsewhere. *)
Definition example_info : BsdInfo := mk_bsd_info 77 77 1700000000 250.
Definition example_raw : str :=
  le_bytes 8 1700000000 ++ le_bytes 4 250 ++ repeat 0 28 ++ le_bytes 4 77 ++ repeat 0 520 ++ le_bytes 4 77 ++ repeat 0 80.

Lemma zombie_same_identity_witness :
  kinfo_of example_raw example_info /\
  mac_inspect (PI_None (Some ESRCH)) (SY_Filled (Z.of_nat KINFO_PROC_SIZE) example_raw) 77 (lit "b") =
  mac_inspect (PI_Written BSD_INFO_SIZE example_info) SY_Failed 77 (lit "b").
Proof.
  assert (kinfo_of example_raw example_info) as H by (by split; vm_compute).
  split; [exact H|].
  destruct (zombie_same_identity example_info example_raw (lit "b") 77 (Some ESRCH) SY_Failed H) as [E _].
  - reflexivity.
  - lia.
  - cbn. lia.
  - cbn. lia.
  - by right.
  - apply E. cbn. lia.
Defined.
