(* ===== verification/History.v ===== *)
(** [src/application/history.rs]: the captured output of one run, read back
    through a port of the store and from under the runs directory.

    The file system is three functions; paths are byte strings. *)

From S2P Require Import Prelude Text Primitives Duration Identifier States Recurrence Execution JobAgg RunAgg.
From S2P Require Import Sqlite JobStore RunStore Reconcile Retention Recovery Management Services.

Record RunStream := mk_run_stream { rs_content : str; rs_truncated : bool }.
Definition stream_empty : RunStream := mk_run_stream [] false.

Record RunOutput := mk_run_output {
  ro_run_id : RunId;
  ro_job_id : JobId;
  ro_state : RunState;
  ro_outcome : option RunOutcome;
  ro_stdout : RunStream;
  ro_stderr : RunStream
}.

Inductive RunOutputError :=
| OE_NotFound | OE_Ambiguous | OE_InvalidPrefix | OE_NoRuns | OE_NotCaptured | OE_MissingLogs
| OE_Read (message : str)
| OE_Store (e : StoreError).

Class RunOutputStore (S : Type) := {
  os_find_runs_by_prefix : str -> Z -> Port S StoreError (list Run);
  os_latest_run : JobId -> Port S StoreError (option Run);
  os_find_jobs_by_prefix : str -> Z -> Port S StoreError (list Job);
  os_stdout_truncated : RunId -> Port S StoreError bool;
  os_stderr_truncated : RunId -> Port S StoreError bool
}.

(** [impl RunOutputStore for JobStore] *)
#[export] Instance sqlite_output `{Serde} `{ExecutionJson} : RunOutputStore World := {|
  os_find_runs_by_prefix prefix n := find_runs_by_prefix prefix n false;
  os_latest_run job := latest_run job false;
  os_find_jobs_by_prefix prefix n := find_jobs_by_prefix prefix n false;
  os_stdout_truncated run := stdout_truncated run false;
  os_stderr_truncated run := stderr_truncated run false
|}.

(** [u8::is_ascii_alphanumeric], the [is_identifier_byte] of this file *)
Definition is_output_prefix_byte (byte : Z) : bool := is_ascii_alphanumeric byte.

#[export] Instance Component_eq_dec : EqDecision Component. Proof. solve_decision. Defined.

(** [Path::starts_with] *)
Definition starts_with (path base : str) : bool :=
  bool_decide (take (length (components base)) (components path) = components base).

Section History.
Context {S : Type} `{RunOutputStore S}.
(** [Path::canonicalize], [metadata(..).is_file()] and [fs::read] *)
Variable canonicalize : str -> option str.
Variable is_file : str -> option bool.
Variable read : str -> result str str.

Definition resolve_job_for_output (prefix : str) : Port S RunOutputError Job :=
  jobs ← port_err OE_Store (os_find_jobs_by_prefix prefix 2);
  match jobs with
  | [] => port_fail OE_NotFound
  | [job] => mret job
  | _ => port_fail OE_Ambiguous
  end.

Definition read_stream (path runs_directory : str) (truncated : bool) : result RunOutputError RunStream :=
  if negb (starts_with path runs_directory) then Err OE_MissingLogs else
  match is_file path with
  | Some true => content ← map_err OE_Read (read path); Ok (mk_run_stream content truncated)
  | _ => Err OE_MissingLogs
  end.

Definition resolve_log (state_directory stored : str) : result RunOutputError str :=
  ok_or (canonicalize (path_join state_directory stored)) OE_MissingLogs.

(** A result in the monad of the port. *)
Definition pure_port {A} (r : result RunOutputError A) : Port S RunOutputError A := fun s => (r, s).

(** The run that a prefix names: itself, or the latest one of a job. *)
Definition find_run_output (prefix : str) : Port S RunOutputError Run :=
  matches ← port_err OE_Store (os_find_runs_by_prefix prefix 2);
  match matches with
  | [] =>
    job ← resolve_job_for_output prefix;
    latest ← port_err OE_Store (os_latest_run (job_id job));
    match latest with Some run => mret run | None => port_fail OE_NoRuns end
  | [run] => mret run
  | _ => port_fail OE_Ambiguous
  end.

Definition run_output (run : Run) (stdout stderr : RunStream) : RunOutput :=
  mk_run_output (run_id run) (run_job_id run) (run_state run) (run_outcome run) stdout stderr.

Definition read_run_output (state_directory prefix : str) : Port S RunOutputError RunOutput :=
  if is_empty prefix || (26 <? len prefix) || negb (forallb is_output_prefix_byte prefix) then port_fail OE_InvalidPrefix else
  run ← find_run_output prefix;
  if run_is_terminal (run_state run) && negb (is_some (run_stdout_path run))
  then mret (run_output run stream_empty stream_empty) else
  match run_stdout_path run, run_stderr_path run with
  | Some stdout_path, Some stderr_path =>
    resolved_runs_directory ← pure_port (resolve_log state_directory (lit "runs"));
    stdout_path ← pure_port (resolve_log state_directory stdout_path);
    stdout_truncated ← port_err OE_Store (os_stdout_truncated (run_id run));
    stdout ← pure_port (read_stream stdout_path resolved_runs_directory stdout_truncated);
    stderr_path ← pure_port (resolve_log state_directory stderr_path);
    stderr_truncated ← port_err OE_Store (os_stderr_truncated (run_id run));
    stderr ← pure_port (read_stream stderr_path resolved_runs_directory stderr_truncated);
    mret (run_output run stdout stderr)
  | _, _ => port_fail OE_NotCaptured
  end.
End History.

(** ** Properties *)

Section Confinement.
Context {S : Type} `{RunOutputStore S}.
Variable canonicalize : str -> option str.
Variable is_file : str -> option bool.
Variable read : str -> result str str.

(** The stream is a regular file whose resolved path is under the resolved
    runs directory. *)
Definition confined (state_directory stored : str) (stream : RunStream) : Prop :=
  exists path runs, canonicalize (path_join state_directory stored) = Some path /\
    canonicalize (path_join state_directory (lit "runs")) = Some runs /\
    components runs `prefix_of` components path /\ is_file path = Some true /\ read path = Ok (rs_content stream).

Lemma pure_port_ok {A} (r : result RunOutputError A) (s : S) (a : A) (s' : S) : pure_port r s = (Ok a, s') -> r = Ok a /\ s' = s.
Proof. unfold pure_port. by intros [= -> <-]. Qed.

Lemma starts_with_prefix path base : starts_with path base = true -> components base `prefix_of` components path.
Proof.
  unfold starts_with. rewrite bool_decide_eq_true. intros E. exists (drop (length (components base)) (components path)).
  by rewrite <- E at 1; rewrite take_drop.
Qed.

Lemma read_stream_confined state_directory stored runs path truncated stream :
  resolve_log canonicalize state_directory (lit "runs") = Ok runs ->
  resolve_log canonicalize state_directory stored = Ok path ->
  read_stream is_file read path runs truncated = Ok stream ->
  confined state_directory stored stream /\ rs_truncated stream = truncated.
Proof.
  unfold resolve_log, read_stream. intros Hr%ok_or_ok Hp%ok_or_ok.
  destruct (starts_with path runs) eqn:Ew; [|done]. destruct (is_file path) as [[]|] eqn:Ef; [|done..].
  intros (content & Hc%map_err_ok & [= <-])%bind_ok. split; [|done]. exists path, runs. split_and!; try done.
  by apply starts_with_prefix.
Qed.

(** The run that the prefix names in that state. *)
Definition named_run (prefix : str) (s : S) (run : Run) : Prop :=
  exists matches s1, os_find_runs_by_prefix prefix 2 s = (Ok matches, s1) /\
  (matches = [run] \/
   matches = [] /\ exists job s2 s3, os_find_jobs_by_prefix prefix 2 s1 = (Ok [job], s2) /\
     os_latest_run (job_id job) s2 = (Ok (Some run), s3)).

Lemma find_run_output_ok prefix s run s' : find_run_output prefix s = (Ok run, s') -> named_run prefix s run.
Proof.
  unfold find_run_output. intros (matches & s1 & Hm%port_err_ok & Hf)%port_bind_ok. exists matches, s1. split; [done|].
  destruct matches as [|r [|]]; [|by injection Hf as -> _; left|done]. right. split; [done|].
  apply port_bind_ok in Hf as (job & s2 & Hj & Hf). unfold resolve_job_for_output in Hj.
  apply port_bind_ok in Hj as (jobs & s2' & Hjobs%port_err_ok & Hj). destruct jobs as [|j [|]]; try done.
  injection Hj as -> ->. apply port_bind_ok in Hf as (latest & s3 & Hl%port_err_ok & Hf).
  destruct latest; [|done]. injection Hf as -> ->. eauto 6.
Qed.
End Confinement.

(** C22 (safety).  The output of a run, whatever the stored paths and the links
    on disk: the run is the only one with the prefix, or the latest run of the
    only job with it; the answer carries its identity, state and outcome; and
    what is read are regular files whose resolved paths lie under the resolved
    runs directory.  A terminal run without logs has empty streams. *)
Theorem read_run_output_confined {S} `{RunOutputStore S} canonicalize is_file read state_directory prefix s output s' :
  read_run_output canonicalize is_file read state_directory prefix s = (Ok output, s') ->
  1 <= len prefix <= 26 /\ exists run, named_run prefix s run /\
  output = run_output run (ro_stdout output) (ro_stderr output) /\
  ((run_is_terminal (run_state run) = true /\ run_stdout_path run = None /\
    ro_stdout output = stream_empty /\ ro_stderr output = stream_empty) \/
   exists stdout_path stderr_path, run_stdout_path run = Some stdout_path /\ run_stderr_path run = Some stderr_path /\
     confined canonicalize is_file read state_directory stdout_path (ro_stdout output) /\
     confined canonicalize is_file read state_directory stderr_path (ro_stderr output)).
Proof.
  unfold read_run_output. destruct (is_empty prefix) eqn:Ee; [done|]. destruct (Z.ltb_spec 26 (len prefix)); [done|].
  destruct (negb (forallb _ prefix)); [done|]. cbn [orb]. intros (run & s1 & Hrun%find_run_output_ok & Hr)%port_bind_ok.
  split. { destruct prefix; [done|]. cbn [length] in *. lia. } exists run. split; [done|].
  destruct (run_is_terminal (run_state run) && negb (is_some (run_stdout_path run))) eqn:Et.
  { injection Hr as <- <-. split; [done|]. left. apply andb_true_iff in Et as [Ht Hn].
    by destruct (run_stdout_path run). }
  destruct (run_stdout_path run) as [out|] eqn:Eo; [|done]. destruct (run_stderr_path run) as [err|] eqn:Ee'; [|done].
  apply port_bind_ok in Hr as (runs & s2 & [Hruns ->]%pure_port_ok & Hr).
  apply port_bind_ok in Hr as (opath & s3 & [Hout ->]%pure_port_ok & Hr).
  apply port_bind_ok in Hr as (ot & s4 & _ & Hr).
  apply port_bind_ok in Hr as (stdout & s5 & [Hs1 ->]%pure_port_ok & Hr).
  apply port_bind_ok in Hr as (epath & s6 & [Herr ->]%pure_port_ok & Hr).
  apply port_bind_ok in Hr as (et & s7 & _ & Hr).
  apply port_bind_ok in Hr as (stderr & s8 & [Hs2 ->]%pure_port_ok & Hr). injection Hr as <- _.
  split; [done|]. right. exists out, err. split; [done|]. split; [done|].
  split; eapply read_stream_confined; eassumption.
Qed.

(** ** Witness: the logs of a running run *)

Module HistoryExample.
Export Recovery.RecoveryExample.
(** Every path but that of the runs directory is a link into it. *)
Definition canonicalize0 (path : str) : option str :=
  Some (if bool_decide (path = lit "/state/runs") then path else lit "/state/runs/1" ++ path).
Definition is_file0 (_ : str) : option bool := Some true.
Definition read0 (path : str) : result str str := Ok (lit "read " ++ path).
Definition state0 : str := lit "/state".
(** The first ten characters of the run's identifier. *)
Definition run_prefix0 : str := take 10 (run_id_to_string run_id0).
End HistoryExample.
Import HistoryExample.

Lemma read_run_output_confined_witness :
  exists output s', read_run_output canonicalize0 is_file0 read0 state0 run_prefix0 running_world = (Ok output, s') /\
  1 <= len run_prefix0 <= 26 /\ exists run, named_run run_prefix0 running_world run /\
  output = run_output run (ro_stdout output) (ro_stderr output) /\
  ((run_is_terminal (run_state run) = true /\ run_stdout_path run = None /\
    ro_stdout output = stream_empty /\ ro_stderr output = stream_empty) \/
   exists stdout_path stderr_path, run_stdout_path run = Some stdout_path /\ run_stderr_path run = Some stderr_path /\
     confined canonicalize0 is_file0 read0 state0 stdout_path (ro_stdout output) /\
     confined canonicalize0 is_file0 read0 state0 stderr_path (ro_stderr output)).
Proof.
  assert (exists output s', read_run_output canonicalize0 is_file0 read0 state0 run_prefix0 running_world = (Ok output, s'))
    as (output & s' & E) by (eexists _, _; vm_compute; reflexivity).
  exists output, s'. split; [exact E|].
  pose proof (read_run_output_confined canonicalize0 is_file0 read0 state0 run_prefix0 running_world output s') as X.
  specialize (X E). exact X.
Defined.
