(* ===== verification/Monitor.v ===== *)
(** [src/run_monitor/lifecycle.rs] and [run_monitor/mod.rs]: the process that
    executes one run and finishes its job.

    What the system answers (the log files, the identities, the spawn, the
    output, the exit status, the clocks) is an argument; the events of the
    child process are recorded. *)

From S2P Require Import Prelude Text Primitives Duration Identifier States Recurrence Execution JobAgg RunAgg.
From S2P Require Import Sqlite JobStore RunStore Reconcile Retention Progress Recovery Management Services Capture.

(** ** One run: [lifecycle.rs] *)

(** [std::process::ExitStatus] on Unix. *)
Record ExitStatus := mk_exit_status { es_code : option Z; es_signal : option Z }.

Definition completion_outcome (status : result str ExitStatus) (capture_failed cancellation_requested : bool)
  : RunOutcome :=
  if capture_failed then RO_Failure (lit "output capture failed") else
  match status with
  | Ok status =>
    match es_code status, es_signal status with
    | Some 0, _ => RO_Exit 0
    | code, signal =>
      if cancellation_requested then RO_Cancelled (lit "cancel request stopped command") else
      match code, signal with
      | Some code, _ => RO_Exit code
      | None, Some signal => RO_Signal signal
      | None, None => RO_Interrupted (lit "unknown child status")
      end
    end
  | Err error => RO_Interrupted (lit "child wait failed: " ++ error)
  end.

Inductive MonitorError :=
| MX_MissingRun | MX_InvalidClaim | MX_AlreadyStarted
| MX_Store (e : StoreError)
| MX_Clock (e : ClockError).

Record MonitorInput := mk_monitor_input {
  mi_artifacts : result str (str * str * Writer * Writer);
  mi_identity : result str (option ProcessIdentitySnapshot);
  mi_spawn : result str ProcessIdentitySnapshot;
  mi_output : result str (Reader * Reader);
  mi_started : result ClockError UtcTimestamp;
  mi_status : result str ExitStatus;
  mi_finished : result ClockError UtcTimestamp;
  (** the clock of [fail_run] *)
  mi_failed : result ClockError UtcTimestamp;
  mi_max_log_bytes : Z;
  mi_notify_tty : bool
}.

(** [Reaped]: by [wait], or by [terminate_and_wait] after a kill. *)
Inductive ChildEvent := Spawned | Killed | Reaped | Echoed (truncated : bool).
#[export] Instance ChildEvent_eq_dec : EqDecision ChildEvent. Proof. solve_decision. Defined.

Record MonitorWorld := mk_monitor_world { mw_world : World; mw_events : list ChildEvent }.
Abbreviation Monitor E := (Port MonitorWorld E).

Definition event {E} (e : ChildEvent) : Monitor E unit := fun s =>
  (Ok tt, mk_monitor_world (mw_world s) (mw_events s ++ [e])).
Definition stored {E A} (conv : StoreError -> E) (m : Store A) : Monitor E A := fun s =>
  let '(r, w) := m false (mw_world s) in (map_err conv r, mk_monitor_world w (mw_events s)).
Definition pure_result {E A} (r : result E A) : Monitor E A := fun s => (r, s).
(** The result of a store operation, to be looked at. *)
Definition attempt {E A} (m : Store A) : Monitor E (result StoreError A) := fun s =>
  let '(r, w) := m false (mw_world s) in (Ok r, mk_monitor_world w (mw_events s)).

Section Monitor.
Context `{Serde} `{ExecutionJson}.

Definition fail_run (input : MonitorInput) (run : Run) (message : str) : Monitor MonitorError Run :=
  finished_at ← pure_result (map_err MX_Clock (mi_failed input));
  stored MX_Store (record_run_terminal (run_id run) (run_claim_token run) finished_at (RO_Failure message)).

(** [SpawnedChild::terminate_and_wait] *)
Definition terminate_and_wait : Monitor MonitorError unit := _ ← event Killed; event Reaped.

(** The end of a started run, from the capture on. *)
Definition finish_run (input : MonitorInput) (running : Run) (stdout stderr : Reader) (stdout_file stderr_file : Writer)
  : Monitor MonitorError Run :=
  let captured := capture_streams stdout stderr stdout_file stderr_file (mi_max_log_bytes input) in
  _ ← event Reaped;
  finished_at ← pure_result (map_err MX_Clock (mi_finished input));
  let '(stdout_truncated, stderr_truncated, capture_failed) :=
    match captured with
    | Ok (out, err) => (truncated (cs_summary out), truncated (cs_summary err), is_some (cs_error out) || is_some (cs_error err))
    | Err _ => (false, false, true)
    end in
  _ ← stored MX_Store (record_log_truncation (run_id running) (run_claim_token running) stdout_truncated stderr_truncated);
  current ← stored MX_Store (load_run (run_id running));
  let cancellation_requested := is_some_and current (fun run => bool_decide (run_state run = RS_CancelRequested)) in
  let outcome := completion_outcome (mi_status input) capture_failed cancellation_requested in
  terminal ← attempt (record_run_terminal (run_id running) (run_claim_token running) finished_at outcome);
  _ ← (if is_ok captured && mi_notify_tty input then event (Echoed (stderr_truncated || stdout_truncated)) else mret tt);
  pure_result (map_err MX_Store terminal).

(** The first part of [execute]: the claim is the one in the database. *)
Definition check_claim (run : Run) : Monitor MonitorError unit :=
  found ← stored MX_Store (load_run (run_id run));
  found ← pure_result (ok_or found MX_MissingRun);
  if negb (bool_decide (run_claim_token found = run_claim_token run)) then port_fail MX_InvalidClaim else
  if bool_decide (run_state found <> RS_Starting) || bool_decide (found <> run) then port_fail MX_AlreadyStarted else
  mret tt.

(** The second part: the logs, the command, its output and its end. *)
Definition execute_claimed (input : MonitorInput) (run : Run) : Monitor MonitorError Run :=
  match mi_artifacts input with
  | Err error => fail_run input run (lit "log setup failed: " ++ error)
  | Ok (stdout_path, stderr_path, stdout_file, stderr_file) =>
    match mi_identity input with
    | Ok None => fail_run input run (lit "monitor identity disappeared")
    | Err error => fail_run input run (lit "monitor identity failed: " ++ error)
    | Ok (Some monitor_identity) =>
      match mi_spawn input with
      | Err error => fail_run input run (lit "spawn failed: " ++ error)
      | Ok command_identity =>
        _ ← event Spawned;
        match mi_output input with
        | Err error => _ ← terminate_and_wait; fail_run input run (lit "output setup failed: " ++ error)
        | Ok (stdout, stderr) =>
          started_at ← pure_result (map_err MX_Clock (mi_started input));
          running ← attempt (mark_run_running (run_id run) (run_claim_token run) started_at monitor_identity
                               command_identity stdout_path stderr_path);
          match running with
          | Err error => _ ← terminate_and_wait; port_fail (MX_Store error)
          | Ok running => finish_run input running stdout stderr stdout_file stderr_file
          end
        end
      end
    end
  end.

Definition execute_run (input : MonitorInput) (run : Run) : Monitor MonitorError Run :=
  _ ← check_claim run;
  execute_claimed input run.

(** ** The process: [mod.rs] *)

Inductive MonitorProcessError :=
| MP_InvalidIdentity | MP_Config (message : str) | MP_MissingJob | MP_MissingRun | MP_IdentityMismatch | MP_NonterminalRun
| MP_Store (e : StoreError)
| MP_Clock (e : ClockError)
| MP_Monitor (e : MonitorError).

Definition finish_job (original : Job) (state : RunState) (clock : result ClockError UtcTimestamp)
  : Monitor MonitorProcessError unit :=
  current ← stored MP_Store (load_job (job_id original));
  current ← pure_result (ok_or current MP_MissingJob);
  if job_is_terminal (job_state current) then mret tt else
  now ← pure_result (map_err MP_Clock clock);
  if bool_decide (job_state current = JS_CancelRequested) || bool_decide (state = RS_Cancelled) then
    _ ← stored MP_Store (transition_job (job_id current) (job_revision current) JS_Cancelled false TA_Monitor
                           (lit "cancelled run finished") now);
    mret tt
  else if is_recurring (job_schedule current) then
    _ ← stored MP_Store (advance_recurring_job (job_id current) (job_revision current) now);
    mret tt
  else
    '(target, reason) ← pure_result
      match state with
      | RS_Succeeded => Ok (JS_Succeeded, lit "command exited successfully")
      | RS_Failed => Ok (JS_Failed, lit "command failed")
      | RS_Interrupted => Ok (JS_Interrupted, lit "command outcome is unknown")
      | RS_Cancelled => Ok (JS_Cancelled, lit "command was cancelled")
      | RS_Starting | RS_Running | RS_CancelRequested => Err MP_NonterminalRun
      end;
    _ ← stored MP_Store (transition_job (job_id current) (job_revision current) target false TA_Monitor reason now);
    mret tt.

Definition with_log_cap (i : MonitorInput) (max_log_bytes : Z) : MonitorInput :=
  mk_monitor_input (mi_artifacts i) (mi_identity i) (mi_spawn i) (mi_output i) (mi_started i) (mi_status i)
    (mi_finished i) (mi_failed i) max_log_bytes (mi_notify_tty i).

(** [run_monitor_process] between the opening of its database and the wake
    of the supervisor; the result is the job to announce, if any. *)
Definition run_monitor_process (input : MonitorInput) (job_text run_text : str) (config : result str Z)
  (clock : result ClockError UtcTimestamp) : Monitor MonitorProcessError (option (JobId * Revision)) :=
  job_id' ← pure_result (map_err (fun _ => MP_InvalidIdentity) (job_id_from_str job_text));
  run_id' ← pure_result (map_err (fun _ => MP_InvalidIdentity) (run_id_from_str run_text));
  job ← stored MP_Store (load_job job_id');
  job ← pure_result (ok_or job MP_MissingJob);
  run ← stored MP_Store (load_run run_id');
  run ← pure_result (ok_or run MP_MissingRun);
  if negb (bool_decide (run_job_id run = job_id job)) then port_fail MP_IdentityMismatch else
  max_log_bytes ← pure_result (map_err MP_Config config);
  completed ← port_err MP_Monitor (execute_run (with_log_cap input max_log_bytes) run);
  _ ← finish_job job (run_state completed) clock;
  if is_recurring (job_schedule job) then
    current ← stored MP_Store (load_job (job_id job));
    current ← pure_result (ok_or current MP_MissingJob);
    mret (if bool_decide (job_state current = JS_Waiting) then Some (job_id current, job_revision current) else None)
  else mret None.
End Monitor.

(** ** Lemmas *)

Lemma with_outcome_progress r t o :
  run_shape r -> run_created_at r <= t -> run_is_terminal (run_state r) = false ->
  complete_run (run_state r) (completion o) = Ok (outcome_state o) ->
  exists r', with_outcome r t o = Ok r' /\ run_id r' = run_id r /\ run_outcome r' = Some o /\
    run_is_terminal (run_state r') = true.
Proof.
  intros Hsh Ht Hlive Hc. pose proof (shape_outcome _ Hsh) as Ho. rewrite Hlive in Ho.
  destruct (run_outcome r) eqn:E; [done|]. unfold with_outcome. rewrite E, Hc.
  destruct (Z.ltb_spec t (run_created_at r)); [lia|]. cbn [map_err mbind result_bind]. eexists. split; [done|].
  cbn. split_and!; [done..|]. by destruct o as [[]| | | |].
Qed.

(** One step of a sequence. *)
Lemma event_step {E A} e (k : unit -> Monitor E A) w ev :
  (event e ≫= k) (mk_monitor_world w ev) = k tt (mk_monitor_world w (ev ++ [e])).
Proof. done. Qed.
Lemma pure_step {E A B} (a : A) (k : A -> Monitor E B) s : (pure_result (Ok a) ≫= k) s = k a s.
Proof. done. Qed.
Lemma stored_step {E A B} (conv : StoreError -> E) (m : Store A) (k : A -> Monitor E B) w ev a w' :
  m false w = (Ok a, w') -> (stored conv m ≫= k) (mk_monitor_world w ev) = k a (mk_monitor_world w' ev).
Proof. intros Hm. unfold mbind, port_bind, stored. cbn [mw_world mw_events]. by rewrite Hm. Qed.
Lemma attempt_step {E A B} (m : Store A) (k : result StoreError A -> Monitor E B) w ev r w' :
  m false w = (r, w') -> (attempt m ≫= k) (mk_monitor_world w ev) = k r (mk_monitor_world w' ev).
Proof. intros Hm. unfold mbind, port_bind, attempt. cbn [mw_world mw_events]. by rewrite Hm. Qed.

Lemma terminate_step {A} (k : unit -> Monitor MonitorError A) w ev :
  (terminate_and_wait ≫= k) (mk_monitor_world w ev) = k tt (mk_monitor_world w (ev ++ [Killed; Reaped])).
Proof. unfold terminate_and_wait, mbind, port_bind, event. cbn [mw_world mw_events]. by rewrite <- app_assoc. Qed.

Section Liveness.
Context `{Serde} `{ExecutionJson}.

(** Some capture failed. *)
Definition capture_failed (input : MonitorInput) (stdout stderr : Reader) (fo fe : Writer) : bool :=
  match capture_streams stdout stderr fo fe (mi_max_log_bytes input) with
  | Ok (out, err) => is_some (cs_error out) || is_some (cs_error err)
  | Err _ => true
  end.

(** The outcome that the answers of the system call for, without a request to
    cancel. *)
Definition monitor_outcome (input : MonitorInput) : RunOutcome :=
  match mi_artifacts input with
  | Err error => RO_Failure (lit "log setup failed: " ++ error)
  | Ok (_, _, fo, fe) =>
    match mi_identity input with
    | Ok None => RO_Failure (lit "monitor identity disappeared")
    | Err error => RO_Failure (lit "monitor identity failed: " ++ error)
    | Ok (Some _) =>
      match mi_spawn input with
      | Err error => RO_Failure (lit "spawn failed: " ++ error)
      | Ok _ =>
        match mi_output input with
        | Err error => RO_Failure (lit "output setup failed: " ++ error)
        | Ok (stdout, stderr) => completion_outcome (mi_status input) (capture_failed input stdout stderr fo fe) false
        end
      end
    end
  end.

(** The clocks go forward, and the system's answers are well formed. *)
Record answers_ok (input : MonitorInput) (run : Run) : Prop := {
  ao_clocks : exists started finished failed,
    mi_started input = Ok started /\ mi_finished input = Ok finished /\ mi_failed input = Ok failed /\
    ts_ok started /\ ts_ok finished /\ ts_ok failed /\
    run_created_at run <= started <= finished /\ run_created_at run <= failed;
  ao_identity : forall m, mi_identity input = Ok (Some m) -> identity_ok m;
  ao_spawn : forall c, mi_spawn input = Ok c -> identity_ok c /\ i32_ok (process_group_id c);
  ao_paths : forall out err fo fe, mi_artifacts input = Ok (out, err, fo, fe) -> log_path_ok out /\ log_path_ok err;
  ao_status : forall s, mi_status input = Ok s -> opt_Forall i32_ok (es_code s) /\ opt_Forall i32_ok (es_signal s)
}.

(** The run has ended, in the store and in the result, with that outcome;
    nothing else has changed. *)
Definition ended (run : Run) (o : RunOutcome) (db db' : Db) (finished : Run) : Prop :=
  run_id finished = run_id run /\ run_is_terminal (run_state finished) = true /\ run_outcome finished = Some o /\
  stored_run db' finished /\ run_table_ok db' /\ only_run (run_id run) db db'.

Lemma stored_shape db run : stored_run db run -> run_shape run.
Proof. by intros (row & _ & (_ & ? & _)%decode_run_row_ok). Qed.

Lemma fail_run_ends input run db events message t :
  run_table_ok db -> stored_run db run -> run_state run = RS_Starting -> mi_failed input = Ok t -> ts_ok t ->
  run_created_at run <= t -> run_started_at run = None ->
  exists finished db', fail_run input run message (mk_monitor_world (quiet_world db) events)
      = (Ok finished, mk_monitor_world (quiet_world db') events) /\ ended run (RO_Failure message) db db' finished.
Proof.
  intros Hok Hst Hs Ht Htok Hle Hns.
  destruct (with_outcome_progress run t (RO_Failure message)) as (finished & Hw & Hid & Ho & Hterm);
    [by eapply stored_shape|done|by rewrite Hs|by rewrite Hs|].
  destruct (record_run_terminal_progress db run t (RO_Failure message) finished) as (db' & Hr & Hok' & Hst' & Hj);
    [done..|by rewrite Hns|]. exists finished, db'. split; [|done].
  unfold fail_run, mbind, port_bind, pure_result, stored. rewrite Ht. cbn [map_err mw_world mw_events]. by rewrite Hr.
Qed.

Lemma completion_outcome_running status failed :
  complete_run RS_Running (completion (completion_outcome status failed false)) =
    Ok (outcome_state (completion_outcome status failed false)).
Proof.
  unfold completion_outcome. destruct failed; [done|]. destruct status as [[[[]|] [sig|]]|]; done.
Qed.

Lemma completion_outcome_columns status failed :
  (forall s, status = Ok s -> opt_Forall i32_ok (es_code s) /\ opt_Forall i32_ok (es_signal s)) ->
  columns_i32 (outcome_columns (completion_outcome status failed false)).
Proof.
  intros Hs. unfold completion_outcome, columns_i32. destruct failed; [done|].
  destruct status as [[code signal]|]; [|done]. destruct (Hs _ eq_refl) as [Hc Hg]. simpl in *.
  destruct code as [[]|], signal; done.
Qed.

Lemma finish_run_ends input running stdout stderr fo fe db events t :
  run_table_ok db -> stored_run db running -> run_state running = RS_Running ->
  mi_finished input = Ok t -> ts_ok t -> run_created_at running <= t ->
  opt_Forall (fun started => started <= t) (run_started_at running) ->
  (forall s, mi_status input = Ok s -> opt_Forall i32_ok (es_code s) /\ opt_Forall i32_ok (es_signal s)) ->
  exists finished db' more,
    finish_run input running stdout stderr fo fe (mk_monitor_world (quiet_world db) events)
      = (Ok finished, mk_monitor_world (quiet_world db') (events ++ Reaped :: more)) /\
    ended running (completion_outcome (mi_status input) (capture_failed input stdout stderr fo fe) false) db db' finished.
Proof.
  intros Hok Hst Hs Ht Htok Hle Hclock Hstatus. set (o := completion_outcome _ _ _).
  set (flags := match capture_streams stdout stderr fo fe (mi_max_log_bytes input) with
    | Ok (out, err) => (truncated (cs_summary out), truncated (cs_summary err)) | Err _ => (false, false) end).
  destruct (record_log_truncation_progress db running flags.1 flags.2) as (db1 & Hl & Hok1 & Hst1 & Hj1); [done..|].
  destruct (with_outcome_progress running t o) as (finished & Hw & Hid & Ho & Hterm);
    [by eapply stored_shape|done|by rewrite Hs|rewrite Hs; apply completion_outcome_running|].
  destruct (record_run_terminal_progress db1 running t o finished) as (db2 & Hr & Hok2 & Hst2 & Hj2);
    [done..|by apply completion_outcome_columns|done|].
  exists finished, db2. unfold finish_run. rewrite event_step, Ht. cbn [map_err]. rewrite pure_step.
  assert (capture_failed input stdout stderr fo fe =
    match capture_streams stdout stderr fo fe (mi_max_log_bytes input) with
    | Ok (out, err) => is_some (cs_error out) || is_some (cs_error err) | Err _ => true end) as Hcf by done.
  assert (is_some_and (Some running) (fun run => bool_decide (run_state run = RS_CancelRequested)) = false) as Hnc
    by (simpl; rewrite Hs; done).
  destruct (capture_streams stdout stderr fo fe (mi_max_log_bytes input)) as [[out err]|e];
    unfold flags in Hl; cbn [fst snd] in Hl; rewrite (stored_step _ _ _ _ _ _ _ Hl);
    (rewrite (stored_step _ _ _ _ _ _ _ (load_run_quiet _ _ _ Hst1))); rewrite Hnc, <- Hcf; fold o;
    rewrite (attempt_step _ _ _ _ _ _ Hr); cbn [is_ok andb].
  - destruct (mi_notify_tty input).
    + eexists. rewrite event_step, <- app_assoc. split; [done|]. split_and!; (done || congruence || by eapply only_run_trans).
    + exists []. split; [done|]. split_and!; (done || congruence || by eapply only_run_trans).
  - exists []. split; [done|]. split_and!; (done || congruence || by eapply only_run_trans).
Qed.
End Liveness.

(** ** Properties *)

(** The command has been started. *)
Definition command_started (input : MonitorInput) : Prop :=
  is_ok (mi_artifacts input) = true /\ (exists m, mi_identity input = Ok (Some m)) /\ is_ok (mi_spawn input) = true.

Lemma check_claim_quiet `{Serde} `{ExecutionJson} db run events :
  stored_run db run -> run_state run = RS_Starting ->
  check_claim run (mk_monitor_world (quiet_world db) events) = (Ok tt, mk_monitor_world (quiet_world db) events).
Proof.
  intros Hst Hs. unfold check_claim. rewrite (stored_step _ _ _ _ _ _ _ (load_run_quiet _ _ _ Hst)). cbn [ok_or].
  rewrite pure_step, bool_decide_true by done. cbn [negb]. rewrite Hs, !bool_decide_false by tauto. done.
Qed.

Lemma execute_claimed_ends `{Serde} `{ExecutionJson} input run db events :
  run_table_ok db -> stored_run db run -> run_state run = RS_Starting -> run_started_at run = None ->
  answers_ok input run ->
  exists finished db' more,
    execute_claimed input run (mk_monitor_world (quiet_world db) events)
      = (Ok finished, mk_monitor_world (quiet_world db') (events ++ more)) /\
    ended run (monitor_outcome input) db db' finished /\ (In Spawned more <-> command_started input) /\ (In Spawned more -> In Reaped more).
Proof.
  intros Hok Hst Hs Hns [(ts & tf & te & Es & Ef & Ee & Hts & Htf & Hte & Hord & Hle) Hid Hsp Hp Hstatus].
  unfold execute_claimed, monitor_outcome, command_started.
  assert (forall (started : Prop) message before,
    (In Spawned before <-> started) -> (In Spawned before -> In Reaped before) ->
    exists finished db' more, fail_run input run message (mk_monitor_world (quiet_world db) (events ++ before))
      = (Ok finished, mk_monitor_world (quiet_world db') (events ++ more)) /\
    ended run (RO_Failure message) db db' finished /\ (In Spawned more <-> started) /\ (In Spawned more -> In Reaped more)) as Hfail.
  { intros started message before Hm1 Hm2. destruct (fail_run_ends input run db (events ++ before) message te)
      as (finished & db' & Hf & He); [done..|]. by exists finished, db', before. }
  assert (forall (started : Prop) message, ~ started ->
    exists finished db' more, fail_run input run message (mk_monitor_world (quiet_world db) events)
      = (Ok finished, mk_monitor_world (quiet_world db') (events ++ more)) /\
    ended run (RO_Failure message) db db' finished /\ (In Spawned more <-> started) /\ (In Spawned more -> In Reaped more)) as Hnone.
  { intros started message Hn. specialize (Hfail started message []). rewrite app_nil_r in Hfail.
    by apply Hfail. }
  destruct (mi_artifacts input) as [[[[out err] fo] fe]|e] eqn:Ea; [|apply Hnone; by intros [? _]].
  destruct (mi_identity input) as [[m|]|e] eqn:Ei; [|apply Hnone; by intros (_ & [? ?] & _)..].
  destruct (mi_spawn input) as [c|e] eqn:Ec; [|apply Hnone; by intros (_ & _ & ?)].
  rewrite event_step. destruct (mi_output input) as [[stdout stderr]|e] eqn:Eo.
  - rewrite Es. cbn [map_err]. rewrite pure_step. destruct (Hsp _ eq_refl) as [Hcid Hc32].
    destruct (Hp _ _ _ _ eq_refl) as [Hpo Hpe].
    assert (exists running, mark_running run ts m c out err = Ok running) as [running Hm].
    { unfold mark_running. destruct (Z.ltb_spec ts (run_created_at run)); [lia|].
      unfold identity_ok, log_path_ok in *. rewrite (Hid m eq_refl), Hcid, Hpo, Hpe, Hs. eexists. reflexivity. }
    destruct (mark_run_running_progress db run ts m c out err running) as (db1 & Hr & Hok1 & Hst1 & Hj1); [done..|].
    rewrite (attempt_step _ _ _ _ _ _ Hr). apply mark_running_ok in Hm as (_ & _ & _ & _ & _ & _ & Heq).
    destruct (finish_run_ends input running stdout stderr fo fe db1 (events ++ [Spawned]) tf)
      as (finished & db2 & more & Hf & Hfid & Hft & Hfo & Hfs & Hfok & Hfj);
      [done|done|by rewrite Heq|done|done|rewrite Heq; cbn; lia|rewrite Heq; cbn; lia|done|].
    exists finished, db2, (Spawned :: Reaped :: more). rewrite Hf, <- app_assoc. split; [done|].
    split; [split_and!; try done; [by rewrite Hfid, Heq|rewrite Heq in Hfj; by eapply only_run_trans]|].
    split; [split; [by eauto|by left]|intros _; by right; left].
  - rewrite terminate_step. rewrite <- app_assoc. apply (Hfail _ _ [Spawned; Killed; Reaped]).
    + split; [by eauto|by left].
    + intros _. by do 2 right; left.
Qed.

(** A monitor ends the run it was started for: when its claim
    is intact, the store works and the clocks go forward, then whatever happens
    to the logs, the spawn, the output, the capture and the command, the run is
    terminal in the result and in the store, with the outcome that what
    happened calls for; the jobs are untouched; and a command that was spawned
    has been reaped. *)
Theorem monitor_ends_run `{Serde} `{ExecutionJson} input run db events :
  run_table_ok db -> stored_run db run -> run_state run = RS_Starting -> run_started_at run = None ->
  answers_ok input run ->
  exists finished db' more,
    execute_run input run (mk_monitor_world (quiet_world db) events)
      = (Ok finished, mk_monitor_world (quiet_world db') (events ++ more)) /\
    ended run (monitor_outcome input) db db' finished /\ (In Spawned more -> In Reaped more).
Proof.
  intros Hok Hst Hs Hns Ha. destruct (execute_claimed_ends input run db events Hok Hst Hs Hns Ha)
    as (finished & db' & more & E & He & _ & Hr).
  exists finished, db', more. unfold execute_run, mbind, port_bind. by rewrite check_claim_quiet.
Qed.

(** ** Witness: the claimed run of the example database *)

Module MonitorExample.
Export RecoveryExample.
Definition claimed_db : Db := w_db claimed_world.
Definition run0 : Run := run_new run_id0 (job_id job0) 1 due0 due0 token0.
Definition blank : Writer := mk_writer [] [] (Ok tt).
Definition answers (status : result str ExitStatus) : MonitorInput :=
  mk_monitor_input (Ok (lit "runs/1/stdout.log", lit "runs/1/stderr.log", blank, blank)) (Ok (Some example_identity))
    (Ok example_identity) (Ok ([Ok (lit "hello")], [])) (Ok (due0 + 10)) status (Ok (due0 + 20)) (Ok (due0 + 30))
    1024 true.
Definition killed_by_9 : MonitorInput := answers (Ok (mk_exit_status None (Some 9))).
Definition succeeded : MonitorInput := answers (Ok (mk_exit_status (Some 0) None)).
End MonitorExample.
Import MonitorExample.

Lemma claimed_table_ok : run_table_ok claimed_db.
Proof.
  split; [apply runs_unique_short; vm_compute; lia|].
  assert (forallb run_row_check (db_runs claimed_db) = true) as Hc by (vm_compute; reflexivity).
  apply forallb_Forall in Hc. exact Hc.
Qed.

Lemma run0_stored : stored_run claimed_db run0.
Proof. eexists. split; [vm_compute; reflexivity|]. vm_compute. reflexivity. Qed.

Lemma killed_answers_ok : answers_ok killed_by_9 run0.
Proof.
  split.
  - exists (due0 + 10), (due0 + 20), (due0 + 30). split_and!; try reflexivity; by vm_compute.
  - intros m [= <-]. reflexivity.
  - intros c [= <-]. split; [reflexivity|by vm_compute].
  - intros out err fo fe [= <- <- _ _]. split; reflexivity.
  - intros s [= <-]. split; [done|]. by vm_compute.
Qed.

Lemma monitor_ends_run_witness :
  (run_table_ok claimed_db /\ stored_run claimed_db run0 /\ run_state run0 = RS_Starting /\
   run_started_at run0 = None /\ answers_ok killed_by_9 run0) /\
  exists finished db' more,
    execute_run killed_by_9 run0 (mk_monitor_world (quiet_world claimed_db) [])
      = (Ok finished, mk_monitor_world (quiet_world db') ([] ++ more)) /\
    ended run0 (monitor_outcome killed_by_9) claimed_db db' finished /\ (In Spawned more -> In Reaped more).
Proof.
  split; [exact (conj claimed_table_ok (conj run0_stored (conj eq_refl (conj eq_refl killed_answers_ok))))|].
  exact (monitor_ends_run killed_by_9 run0 claimed_db [] claimed_table_ok run0_stored eq_refl eq_refl killed_answers_ok).
Defined.

Example monitor_outcome_ex : monitor_outcome killed_by_9 = RO_Signal 9.
Proof. reflexivity. Qed.

(** When the clock fails after the spawn, the command is neither killed nor
    waited for, and the run stays [starting]. *)
Example unreaped_ex :
  let input := mk_monitor_input (mi_artifacts succeeded) (mi_identity succeeded) (mi_spawn succeeded) (mi_output succeeded)
    (Err CE_OutOfRange) (mi_status succeeded) (mi_finished succeeded) (mi_failed succeeded) 1024 false in
  let '(r, s) := execute_run input run0 (mk_monitor_world (quiet_world claimed_db) []) in
  r = Err (MX_Clock CE_OutOfRange) /\ mw_events s = [Spawned] /\ rr_state <$> db_runs (w_db (mw_world s)) = [lit "starting"].
Proof. vm_compute. done. Qed.
