(* ===== verification/Frame.v ===== *)
(** [src/supervisor/frame.rs]: the length-prefixed JSON frames of the wake
    protocol.

    [serde_json] on messages is a class; a writer is what it has accepted and
    what its next steps do, a reader is the bytes still to come. *)

From S2P Require Import Prelude Text Primitives Identifier.

Definition MAX_FRAME_BYTES : Z := 64 * 1024.
Definition PROTOCOL_VERSION : Z := 1.

Inductive IpcMessage :=
| Wake (protocol : Z) (job_id : JobId) (revision : Revision)
| Ack (protocol : Z) (job_id : JobId) (revision : Revision)
| Nack (protocol : Z) (reason : str)
| Shutdown (protocol : Z).
#[export] Instance IpcMessage_eq_dec : EqDecision IpcMessage. Proof. solve_decision. Defined.

Inductive FrameError := FE_FrameTooLarge | FE_Io (message : str) | FE_Json (message : str).
#[export] Instance FrameError_eq_dec : EqDecision FrameError. Proof. solve_decision. Defined.

(** The values of the field types: [u16], [u128], [NonZeroU64]. *)
Definition message_ok (m : IpcMessage) : Prop :=
  match m with
  | Wake p id r | Ack p id r => 0 <= p <= u16_max /\ uuid_ok (job_uuid id) /\ counter_ok r
  | Nack p _ | Shutdown p => 0 <= p <= u16_max
  end.

(** [serde_json::to_vec] and [from_slice] on messages. *)
Class MessageJson := {
  to_vec : IpcMessage -> result str (list Z);
  from_slice : list Z -> result str IpcMessage;
  message_json_law : forall m, message_ok m ->
    exists body, to_vec m = Ok body /\ body <> [] /\ from_slice body = Ok m
}.

(** [u32::to_be_bytes], [u32::from_be_bytes] *)
Definition to_be_bytes (n : Z) : list Z :=
  [Z.land (Z.shiftr n 24) 255; Z.land (Z.shiftr n 16) 255; Z.land (Z.shiftr n 8) 255; Z.land n 255].
Definition from_be_bytes (bytes : list Z) : Z := fold_left (fun acc b => Z.lor (Z.shiftl acc 8) b) bytes 0.

(** ** Readers and writers *)

(** A [write_all] or a [flush]: done, or failed after some bytes. *)
Inductive SinkStep := Accepts | Fails (after : nat) (message : str).
Record Sink := mk_sink { sk_bytes : list Z; sk_steps : list SinkStep }.

Definition sink_write (s : Sink) (bytes : list Z) : result FrameError unit * Sink :=
  match sk_steps s with
  | [] => (Ok tt, mk_sink (sk_bytes s ++ bytes) [])
  | Accepts :: steps => (Ok tt, mk_sink (sk_bytes s ++ bytes) steps)
  | Fails n message :: steps => (Err (FE_Io message), mk_sink (sk_bytes s ++ take n bytes) steps)
  end.

(** [read_exact]: a short stream is an error at its end. *)
Definition read_exact (n : nat) (stream : list Z) : result FrameError (list Z) * list Z :=
  if (length stream <? n)%nat then (Err (FE_Io (lit "failed to fill whole buffer")), [])
  else (Ok (take n stream), drop n stream).

Section Frame.
Context `{MessageJson}.

Definition write_frame (s : Sink) (message : IpcMessage) : result FrameError unit * Sink :=
  match to_vec message with
  | Err e => (Err (FE_Json e), s)
  | Ok body =>
    if MAX_FRAME_BYTES <? len body then (Err FE_FrameTooLarge, s) else
    if u32_max <? len body then (Err FE_FrameTooLarge, s) else
    match sink_write s (to_be_bytes (len body)) with
    | (Err e, s) => (Err e, s)
    | (Ok _, s) =>
      match sink_write s body with
      | (Err e, s) => (Err e, s)
      | (Ok _, s) => sink_write s []
      end
    end
  end.

Definition read_frame (stream : list Z) : result FrameError IpcMessage * list Z :=
  match read_exact 4 stream with
  | (Err e, stream) => (Err e, stream)
  | (Ok bytes, stream) =>
    let length := from_be_bytes bytes in
    if (length =? 0) || (MAX_FRAME_BYTES <? length) then (Err FE_FrameTooLarge, stream) else
    match read_exact (Z.to_nat length) stream with
    | (Err e, stream) => (Err e, stream)
    | (Ok body, stream) => (map_err FE_Json (from_slice body), stream)
    end
  end.

(** ** Lemmas *)

Lemma push_byte a b : 0 <= b < 256 -> Z.lor (Z.shiftl a 8) b = a * 256 + b.
Proof.
  intros Hb. rewrite Z.shiftl_mul_pow2 by lia. change (2 ^ 8) with 256.
  assert (Z.land (a * 256) b = 0) as Hland.
  { change 256 with (2 ^ 8). rewrite <- Z.shiftl_mul_pow2 by lia. apply Z.bits_inj'. intros i Hi.
    rewrite Z.land_spec, Z.bits_0. destruct (Z.ltb_spec i 8).
    - by rewrite Z.shiftl_spec_low.
    - assert (Z.testbit b i = false) as ->; [|by rewrite andb_false_r].
      destruct (Z.eq_dec b 0) as [->|]; [apply Z.bits_0|]. apply Z.bits_above_log2; [lia|].
      assert (Z.log2 b < 8) by (apply Z.log2_lt_pow2; lia). lia. }
  rewrite Z.add_nocarry_lxor by done. by rewrite Z.lxor_lor.
Qed.

Lemma from_to_be n : 0 <= n <= u32_max -> from_be_bytes (to_be_bytes n) = n.
Proof.
  intros Hn. unfold from_be_bytes, to_be_bytes. cbn [fold_left].
  assert (forall k, 0 <= k -> Z.land (Z.shiftr n k) 255 = n / 2 ^ k mod 256) as Hb.
  { intros k Hk. change 255 with (Z.ones 8). rewrite Z.land_ones, Z.shiftr_div_pow2 by lia. done. }
  rewrite !Hb by lia. change 255 with (Z.ones 8). rewrite Z.land_ones by lia. change (2 ^ 8) with 256.
  rewrite !push_byte by (apply Z.mod_pos_bound; lia).
  unfold u32_max in Hn.
  change (2 ^ 24) with 16777216. change (2 ^ 16) with 65536.
  rewrite (Z.mod_small (n / 16777216)) by (split; [apply Z.div_pos; lia|apply Z.div_lt_upper_bound; lia]).
  pose proof (Z.div_mod n 256 ltac:(lia)). pose proof (Z.div_mod (n / 256) 256 ltac:(lia)).
  pose proof (Z.div_mod (n / 65536) 256 ltac:(lia)).
  rewrite (Z.div_div n 256 256) in * by lia. rewrite (Z.div_div n 65536 256) in * by lia.
  change (256 * 256) with 65536 in *. change (65536 * 256) with 16777216 in *. change (2 ^ 8) with 256. lia.
Qed.

Lemma be_bytes_length n : length (to_be_bytes n) = 4%nat.
Proof. done. Qed.

Lemma read_exact_app (bytes rest : list Z) : read_exact (length bytes) (bytes ++ rest) = (Ok bytes, rest).
Proof.
  unfold read_exact. rewrite length_app. destruct (Nat.ltb_spec (length bytes + length rest) (length bytes)); [lia|].
  by rewrite take_app_length, drop_app_length.
Qed.

(** The bytes of one frame, read back. *)
Lemma read_frame_body body m rest :
  body <> [] -> len body <= MAX_FRAME_BYTES -> from_slice body = Ok m ->
  read_frame (to_be_bytes (len body) ++ body ++ rest) = (Ok m, rest).
Proof.
  intros Hne Hlen Hm. unfold read_frame. change 4%nat with (length (to_be_bytes (len body))).
  rewrite read_exact_app, from_to_be by (unfold MAX_FRAME_BYTES, u32_max in *; lia).
  destruct (Z.eqb_spec (len body) 0) as [E|]; [by destruct body|].
  destruct (Z.ltb_spec MAX_FRAME_BYTES (len body)); [lia|]. cbn [orb]. rewrite Nat2Z.id, read_exact_app. by rewrite Hm.
Qed.
End Frame.

(** ** Properties *)

(** A message is written as one frame of at most 64 KiB and
    four bytes, and read back unchanged from a stream that goes on arbitrarily;
    a larger one is refused before a byte is written.  Whatever the stream, a
    length of zero or over the limit is refused without reading the body. *)
Theorem frame_roundtrip `{MessageJson} message :
  message_ok message ->
  exists body, to_vec message = Ok body /\
  (forall s, sk_steps s = [] ->
    write_frame s message =
      if MAX_FRAME_BYTES <? len body then (Err FE_FrameTooLarge, s)
      else (Ok tt, mk_sink (sk_bytes s ++ to_be_bytes (len body) ++ body) [])) /\
  (len body <= MAX_FRAME_BYTES -> forall rest,
    read_frame (to_be_bytes (len body) ++ body ++ rest) = (Ok message, rest)) /\
  (forall n rest, 0 <= n <= u32_max -> n = 0 \/ MAX_FRAME_BYTES < n ->
    read_frame (to_be_bytes n ++ rest) = (Err FE_FrameTooLarge, rest)).
Proof.
  intros Hm. destruct (message_json_law message Hm) as (body & Hv & Hne & Hback). exists body. split_and!; [done|..].
  - intros [bytes steps] Hs. simpl in Hs. subst steps. unfold write_frame. rewrite Hv.
    destruct (Z.ltb_spec MAX_FRAME_BYTES (len body)); [done|].
    destruct (Z.ltb_spec u32_max (len body)); [unfold MAX_FRAME_BYTES, u32_max in *; lia|].
    unfold sink_write. cbn [sk_steps sk_bytes]. by rewrite app_nil_r, <- app_assoc.
  - intros Hlen rest. by apply read_frame_body.
  - intros n rest Hn Hbad. unfold read_frame. change 4%nat with (length (to_be_bytes n)).
    rewrite read_exact_app, from_to_be by done. destruct (Z.eqb_spec n 0); [done|].
    destruct (Z.ltb_spec MAX_FRAME_BYTES n); [done|lia].
Qed.

(** ** A model of the class [MessageJson]: messages encoded as one number *)

Module FrameModel.
Definition message_code (m : IpcMessage) : Z * Z * Z * Z * str :=
  match m with
  | Wake p id r => (0, p, job_uuid id, r, [])
  | Ack p id r => (1, p, job_uuid id, r, [])
  | Nack p reason => (2, p, 0, 0, reason)
  | Shutdown p => (3, p, 0, 0, [])
  end.
Definition code_message (t : Z * Z * Z * Z * str) : IpcMessage :=
  let '(tag, p, id, r, reason) := t in
  if tag =? 0 then Wake p (mk_job_id id) r else if tag =? 1 then Ack p (mk_job_id id) r else
  if tag =? 2 then Nack p reason else Shutdown p.
Definition bytes_of (m : IpcMessage) : list Z := [Z.pos (countable.encode (message_code m))].
Definition message_of (body : list Z) : result str IpcMessage :=
  match body with
  | [Z.pos p] => ok_or (code_message <$> countable.decode p) (lit "json")
  | _ => Err (lit "json")
  end.
#[export] Program Instance json : MessageJson := {| to_vec m := Ok (bytes_of m); from_slice := message_of |}.
Next Obligation.
  intros m _. exists (bytes_of m). split; [done|]. split; [done|]. unfold message_of, bytes_of.
  rewrite countable.decode_encode. cbn. by destruct m as [? []|? []|? ?|?].
Qed.
End FrameModel.

Lemma frame_roundtrip_witness :
  let J := FrameModel.json in let m := Wake 1 (mk_job_id 7) 2 in
  message_ok m /\
  exists body, to_vec m = Ok body /\
  (forall s, sk_steps s = [] ->
    write_frame s m =
      if MAX_FRAME_BYTES <? len body then (Err FE_FrameTooLarge, s)
      else (Ok tt, mk_sink (sk_bytes s ++ to_be_bytes (len body) ++ body) [])) /\
  (len body <= MAX_FRAME_BYTES -> forall rest,
    read_frame (to_be_bytes (len body) ++ body ++ rest) = (Ok m, rest)) /\
  (forall n rest, 0 <= n <= u32_max -> n = 0 \/ MAX_FRAME_BYTES < n ->
    read_frame (to_be_bytes n ++ rest) = (Err FE_FrameTooLarge, rest)).
Proof.
  intros J m. assert (message_ok m) as Hm by (split_and!; by vm_compute).
  split; [exact Hm|]. exact (@frame_roundtrip J m Hm).
Defined.
