(* ===== verification/Daemon.v ===== *)
(** [src/supervisor/daemon.rs]: the execution of due jobs, its retries, and the
    answers to wake messages.

    The database is the world of the stores; what else the outside supplies
    (whether the database opens, the clocks, the fresh run identifier and
    token, whether the monitor process starts) is an argument.  The started
    monitors are recorded in the order in which the source spawns them. *)

From S2P Require Import Prelude Text Primitives Duration Identifier States Recurrence Execution JobAgg RunAgg.
From S2P Require Import Sqlite JobStore RunStore Reconcile Retention Recovery Services Heap Loop.

(** ** Retries: [DueFailureRetries] *)

Definition MAX_ATTEMPTS : Z := 3.

Abbreviation DueFailureRetries := (gmap JobId Z).

Record Backoff := mk_backoff { bo_attempt : Z; bo_seconds : Z }.

(** [+= 1] on a [u32] *)
Definition record_failure (retries : DueFailureRetries) (id : JobId) : option Backoff * DueFailureRetries :=
  let attempt := match retries !! id with Some a => (a + 1) mod 2 ^ 32 | None => 1 end in
  let retries := <[id := attempt]> retries in
  (if MAX_ATTEMPTS <? attempt then None else Some (mk_backoff attempt (attempt * 2)), retries).

Definition forget (retries : DueFailureRetries) (id : JobId) : DueFailureRetries := delete id retries.

(** ** The monad of the daemon *)

Inductive DaemonError :=
| DE_Clock (e : ClockError)
| DE_Store (e : StoreError)
| DE_Recovery (e : DeadlineReconciliationError)
| DE_MissingJob.

Record DaemonWorld := mk_daemon_world { dw_world : World; dw_spawned : list Run }.

Definition Daemon (A : Type) : Type := DaemonWorld -> result DaemonError A * DaemonWorld.
#[export] Instance daemon_ret : MRet Daemon := fun A a w => (Ok a, w).
#[export] Instance daemon_bind : MBind Daemon := fun A B f m w =>
  match m w with
  | (Ok a, w') => f a w'
  | (Err e, w') => (Err e, w')
  end.

Definition from_store {A} (m : Store A) : Daemon A := fun w =>
  let '(r, w') := m false (dw_world w) in (map_err DE_Store r, mk_daemon_world w' (dw_spawned w)).
Definition from_result {A} (r : result DaemonError A) : Daemon A := fun w => (r, w).

(** [spawn_run_monitor]: the monitor of that run starts, or the spawn fails. *)
Definition spawn_run_monitor (outcome : result str unit) (run : Run) : Daemon (result str unit) := fun w =>
  (Ok outcome,
   match outcome with
   | Ok _ => mk_daemon_world (dw_world w) (dw_spawned w ++ [run])
   | Err _ => w
   end).

(** ** Due jobs *)

Record DueInput := mk_due_input {
  di_open : result StoreError unit;
  di_now : result ClockError UtcTimestamp;
  di_run_id : RunId;
  di_random : result str (list Z);
  di_spawn : result str unit;
  di_finished : result ClockError UtcTimestamp
}.

Section Due.
Context `{Serde} `{ExecutionJson}.

Definition execute_single_due_job (input : DueInput) (id : JobId) : Daemon unit :=
  _ ← from_result (map_err DE_Store (di_open input));
  job ← from_store (load_job id);
  match job with
  | None => mret tt
  | Some job =>
    now ← from_result (map_err DE_Clock (di_now input));
    job ← (if bool_decide (job_state job = JS_Scheduled)
           then from_store (transition_job (job_id job) (job_revision job) JS_Waiting false TA_Supervisor
                              (lit "supervisor loaded deadline") now)
           else mret job);
    if bool_decide (job_state job <> JS_Waiting) then mret tt else
    job ← from_store (transition_job (job_id job) (job_revision job) JS_Starting false TA_Supervisor
                        (lit "deadline became due") now);
    run ← from_store (claim_run (di_run_id input) (di_random input) (job_id job) (job_next_due job) now);
    job ← from_store (transition_job (job_id job) (job_revision job) JS_Running false TA_Supervisor
                        (lit "run monitor claimed command") now);
    spawned ← spawn_run_monitor (di_spawn input) run;
    match spawned with
    | Ok _ => mret tt
    | Err error =>
      finished ← from_result (map_err DE_Clock (di_finished input));
      _ ← from_store (record_run_terminal (run_id run) (run_claim_token run) finished
                        (RO_Failure (lit "monitor spawn failed: " ++ error)));
      _ ← from_store (transition_job (job_id job) (job_revision job) JS_Failed false TA_Supervisor
                        (lit "run monitor could not start") finished);
      mret tt
    end
  end.

(** [execute_due_jobs]: every job on its own; the failures are returned. *)
Fixpoint execute_due_jobs (jobs : list (DueInput * JobId)) (w : DaemonWorld)
  : list (JobId * DaemonError) * DaemonWorld :=
  match jobs with
  | [] => ([], w)
  | (input, id) :: jobs =>
    let '(r, w) := execute_single_due_job input id w in
    let '(failures, w) := execute_due_jobs jobs w in
    (match r with Ok _ => failures | Err e => (id, e) :: failures end, w)
  end.

(** The loop over the failures in the closure given to [run_loop]: the
    rescheduling events sent to the loop. *)
Fixpoint requeue_failures (now_elapsed : ElapsedInstant) (failures : list (JobId * DaemonError))
  (retries : DueFailureRetries) : list SupervisorEvent * DueFailureRetries :=
  match failures with
  | [] => ([], retries)
  | (id, _) :: failures =>
    let '(backoff, retries) := record_failure retries id in
    let '(events, retries) := requeue_failures now_elapsed failures retries in
    (match backoff with
     | Some b => SV_Schedule id (now_elapsed + Z.min (bo_attempt b * 2000000000) u64_max) :: events
     | None => events
     end, retries)
  end.

(** The closure [on_due]. *)
Definition on_due (jobs : list (DueInput * JobId)) (now_elapsed : ElapsedInstant) (retries : DueFailureRetries)
  (w : DaemonWorld) : list SupervisorEvent * DueFailureRetries * DaemonWorld :=
  let retries := foldl forget retries (snd <$> jobs) in
  let '(failures, w) := execute_due_jobs jobs w in
  let '(events, retries) := requeue_failures now_elapsed failures retries in
  (events, retries, w).

(** ** Wake messages *)

Inductive WakeDisposition := WD_Schedule (deadline : ElapsedInstant) | WD_AlreadyTerminal.

(** One attempt of [load_wake]: whether the database opens, and the clocks. *)
Record WakeInput := mk_wake_input {
  wi_open : result StoreError unit;
  wi_now : result ClockError UtcTimestamp;
  wi_elapsed : result ClockError ElapsedInstant
}.

Definition load_wake (input : WakeInput) (id : JobId) : Daemon WakeDisposition :=
  _ ← from_result (map_err DE_Store (wi_open input));
  job ← from_store (load_job id);
  job ← from_result (ok_or job DE_MissingJob);
  if job_is_terminal (job_state job) then mret WD_AlreadyTerminal else
  now ← from_result (map_err DE_Clock (wi_now input));
  elapsed ← from_result (map_err DE_Clock (wi_elapsed input));
  deadline ← from_result (map_err DE_Recovery (reconcile_wall_schedule now elapsed (job_next_due job)));
  mret (WD_Schedule deadline).

(** [load_wake_with_retry]: the attempts of the loop, at most three. *)
Fixpoint load_wake_loop (inputs : list WakeInput) (id : JobId) (last_error : DaemonError) : Daemon WakeDisposition :=
  match inputs with
  | [] => from_result (Err last_error)
  | input :: inputs => fun w =>
    match load_wake input id w with
    | (Ok disposition, w) => (Ok disposition, w)
    | (Err DE_MissingJob, w) => (Err DE_MissingJob, w)
    | (Err error, w) => load_wake_loop inputs id error w
    end
  end.
Definition LOAD_ATTEMPTS : nat := 3.
Definition load_wake_with_retry (inputs : list WakeInput) (id : JobId) : Daemon WakeDisposition :=
  load_wake_loop (take LOAD_ATTEMPTS inputs) id DE_MissingJob.
End Due.

(** ** Claims are kept *)

Section Claims.
Context `{Serde}.

(** Every claimed occurrence stays claimed. *)
Definition claims_le (db db' : Db) : Prop :=
  forall job due, occurrence_claimed job due db = true -> occurrence_claimed job due db' = true.
#[export] Instance claims_le_preorder : PreOrder claims_le.
Proof. split; [by intros db job due | intros x y z Hxy Hyz job due Hx; auto]. Qed.

(** Other processes delete no run. *)
Definition claims_env (w : World) : Prop := Forall (fun s => forall db, claims_le db (step_env s db)) (w_schedule w).

Lemma claims_env_suffix w w' : w_schedule w' `suffix_of` w_schedule w -> claims_env w -> claims_env w'.
Proof. unfold claims_env. intros [k ->] [_ ?]%Forall_app. done. Qed.

Definition guarded (l : bool) (w : World) : Prop := l = true \/ claims_env w.

Lemma claims_seen l w : guarded l w -> claims_le (w_db w) (seen l w).
Proof.
  unfold guarded, claims_env, seen. destruct (w_schedule w) as [|s rest]; [done|].
  intros [->|[Hs _]%Forall_cons]; [done|]. by destruct l.
Qed.

(** A store computation that keeps the claims. *)
Definition keeps {A} (m : Store A) : Prop :=
  consumes m /\ forall l w, guarded l w -> claims_le (w_db w) (w_db (m l w).2).

Lemma keeps_ret {A} (a : A) : keeps (mret a).
Proof. split; [auto with store|]. intros l w _ job due Hc. exact Hc. Qed.
Lemma keeps_lift {A} (r : result StoreError A) : keeps (lift r).
Proof. split; [auto with store|]. intros l w _ job due Hc. exact Hc. Qed.
Lemma keeps_fail {A} e : keeps (@fail A e).
Proof. split; [auto with store|]. intros l w _ job due Hc. exact Hc. Qed.
Lemma keeps_query {A} (f : Db -> result StoreError A) : keeps (query f).
Proof.
  split; [auto with store|]. intros l w Hw. unfold query. destruct (fault w); by apply claims_seen.
Qed.
Lemma keeps_execute {A} conv (f : Db -> result SqlFailure (A * Db)) :
  (forall db a db', f db = Ok (a, db') -> claims_le db db') -> keeps (execute conv f).
Proof.
  intros Hf. split; [auto with store|]. intros l w Hw. unfold execute.
  destruct (fault w); [by apply claims_seen|]. destruct (f (seen l w)) as [[a db']|] eqn:E; [|by apply claims_seen].
  simpl. transitivity (seen l w); [by apply claims_seen | by eapply Hf].
Qed.
Lemma keeps_bind {A B} (m : Store A) (f : A -> Store B) : keeps m -> (forall a, keeps (f a)) -> keeps (m ≫= f).
Proof.
  intros [Hm Hmk] Hf. split; [apply consumes_bind; [done|]; intros a; apply Hf|]. intros l w Hw.
  specialize (Hm l w). specialize (Hmk l w Hw). unfold mbind, store_bind.
  destruct (m l w) as [[a|e] w']; simpl in *; [|done]. transitivity (w_db w'); [done|].
  apply Hf. destruct Hw as [->|Hw]; [by left|]. right. by eapply claims_env_suffix.
Qed.
Lemma keeps_transaction {A} (body : Store A) : keeps body -> keeps (transaction body).
Proof.
  intros [Hc Hb]. split; [auto with store|]. intros l w Hw.
  destruct (transaction body l w) as [r w'] eqn:E. apply transaction_inv in E. simpl.
  pose proof (claims_seen l w Hw) as Hseen. destruct r as [a|e]; [|by rewrite E].
  destruct E as (w0 & w1 & Hw0 & Hbody & ->). transitivity (seen l w); [done|]. rewrite <- Hw0.
  specialize (Hb true w0). rewrite Hbody in Hb. apply Hb. by left.
Qed.

Lemma claims_le_same_runs db db' : db_runs db' = db_runs db -> claims_le db db'.
Proof. intros Hr job due. unfold occurrence_claimed. by rewrite Hr. Qed.

Lemma keeps_update_jobs conv p f : keeps (execute conv (update_jobs p f)).
Proof.
  apply keeps_execute. intros db n db' Hu. apply claims_le_same_runs. unfold update_jobs in Hu.
  by apply bind_ok in Hu as ([k l] & _ & [= _ <-]).
Qed.
Lemma keeps_insert_transition conv t : keeps (execute conv (insert_transition t)).
Proof.
  apply keeps_execute. intros db n db' Hi. apply claims_le_same_runs. unfold insert_transition in Hi.
  destruct (_ && _); [|done]. by injection Hi as _ <-.
Qed.
Lemma keeps_insert_run conv r : keeps (execute conv (insert_run r)).
Proof.
  apply keeps_execute. intros db n db' Hi job due Hc. unfold insert_run in Hi. destruct (_ && _); [|done].
  injection Hi as _ <-. unfold occurrence_claimed in *. cbn. rewrite existsb_app, Hc. done.
Qed.
(** An UPDATE that leaves the job and the scheduled time of a run alone. *)
Definition keeps_key (f : RunRow -> RunRow) : Prop :=
  forall r, rr_job_id (f r) = rr_job_id r /\ rr_scheduled_for (f r) = rr_scheduled_for r.
Lemma keeps_update_runs conv p f : keeps_key f -> keeps (execute conv (update_runs p f)).
Proof.
  intros Hf. apply keeps_execute. intros db n db' Hu job due Hc. unfold update_runs, update_rows in Hu.
  destruct (forallb _ _); [|done]. cbn [mbind result_bind] in Hu. injection Hu as _ <-.
  unfold occurrence_claimed in *. cbn. apply existsb_exists in Hc as (r & Hr & Hc). apply existsb_exists.
  exists (if p r then f r else r). split; [by apply (in_map (fun r => if p r then f r else r))|].
  destruct (p r); [|done]. by destruct (Hf r) as [-> ->].
Qed.
Lemma terminal_row_key t s c oj : keeps_key (terminal_row t s c oj).
Proof. intros r. by destruct c as [[? ?] ?]. Qed.
Create HintDb keeps.
#[local] Hint Resolve keeps_ret keeps_lift keeps_fail keeps_query keeps_update_jobs keeps_insert_transition
  keeps_insert_run keeps_transaction terminal_row_key : keeps.

(** Structural proofs: sequences, tests and pairs. *)
Ltac keeps_tac :=
  repeat match goal with
  | |- keeps (let _ := _ in _) => cbv zeta
  | |- keeps (_ ≫= _) => apply keeps_bind; [|intros ?]
  | |- keeps (if ?b then _ else _) => destruct b
  | |- keeps (match ?x with _ => _ end) => destruct x
  | |- keeps (execute _ (update_runs _ _)) => apply keeps_update_runs
  | |- keeps _ => solve [auto with keeps]
  | |- keeps (execute _ _) => apply keeps_execute; intros ? ? ? [= _ <-]; reflexivity
  | _ => solve [auto with keeps]
  end.

Lemma keeps_load_job `{ExecutionJson} id : keeps (load_job id).
Proof. unfold load_job. keeps_tac. Qed.
Lemma keeps_transition_job `{ExecutionJson} id expected to recurring actor reason now :
  keeps (transition_job id expected to recurring actor reason now).
Proof.
  apply keeps_transaction. unfold load_existing, load_job, save_transition. keeps_tac.
Qed.
Lemma keeps_claim_run fresh random job due now : keeps (claim_run fresh random job due now).
Proof. apply keeps_transaction. keeps_tac. Qed.
Lemma keeps_record_run_terminal id token t o : keeps (record_run_terminal id token t o).
Proof. unfold record_run_terminal, load_existing_run, load_run. keeps_tac. Qed.
End Claims.

(** ** One due job *)

(** The occurrence a started monitor runs. *)
Definition occurrence (run : Run) : JobId * UtcTimestamp := (run_job_id run, run_scheduled_for run).

Section Spawns.
Context `{Serde} `{ExecutionJson}.

Definition is_claimed (db : Db) (run : Run) : Prop :=
  occurrence_claimed (run_job_id run) (run_scheduled_for run) db = true.

(** What an execution adds to the started monitors: runs whose occurrence was
    free before and is claimed after, each once. *)
Definition spawns (w w' : DaemonWorld) (new : list Run) : Prop :=
  dw_spawned w' = dw_spawned w ++ new /\
  w_schedule (dw_world w') `suffix_of` w_schedule (dw_world w) /\
  claims_le (w_db (dw_world w)) (w_db (dw_world w')) /\
  NoDup (occurrence <$> new) /\
  Forall (fun run => ~ is_claimed (w_db (dw_world w)) run /\ is_claimed (w_db (dw_world w')) run) new.

Lemma spawns_refl w : spawns w w [].
Proof. split_and!; [by rewrite app_nil_r|done|reflexivity|constructor|constructor]. Qed.

Lemma spawns_trans w1 w2 w3 new new' : spawns w1 w2 new -> spawns w2 w3 new' -> spawns w1 w3 (new ++ new').
Proof.
  intros (Ha & Hs & Hc & Hd & Hf) (Ha' & Hs' & Hc' & Hd' & Hf'). split_and!.
  - by rewrite Ha', Ha, app_assoc.
  - by etrans.
  - by transitivity (w_db (dw_world w2)).
  - rewrite fmap_app. apply NoDup_app. split_and!; [done| |done].
    intros o (r & -> & Hr)%list_elem_of_fmap (r' & Heq & Hr')%list_elem_of_fmap.
    rewrite Forall_forall in Hf, Hf'. apply (Hf' r' Hr'). unfold is_claimed.
    injection Heq as <- <-. by apply Hf.
  - apply Forall_app. split.
    + eapply Forall_impl; [exact Hf|]. intros r [? ?]. split; [done|]. by apply Hc'.
    + eapply Forall_impl; [exact Hf'|]. intros r [Hn ?]. split; [|done]. intros Hr. by apply Hn, Hc.
Qed.

(** A store operation that keeps the claims starts nothing. *)
Lemma from_store_spawns {A} (m : Store A) w r w' :
  keeps m -> claims_env (dw_world w) -> from_store m w = (r, w') -> spawns w w' [] /\ claims_env (dw_world w').
Proof.
  intros [Hc Hk] Henv. unfold from_store. specialize (Hc false (dw_world w)).
  specialize (Hk false (dw_world w) (or_intror Henv)). destruct (m false (dw_world w)) as [x w1].
  intros [= _ <-]. simpl in *. split; [|by eapply claims_env_suffix].
  split_and!; simpl; [by rewrite app_nil_r|done|done|constructor|constructor].
Qed.

Lemma from_store_ok {A} (m : Store A) w a w' :
  from_store m w = (Ok a, w') -> exists w1, m false (dw_world w) = (Ok a, w1) /\ w' = mk_daemon_world w1 (dw_spawned w).
Proof.
  unfold from_store. destruct (m false (dw_world w)) as [[x|e] w1]; simpl; intros [= <- <-]. eauto.
Qed.

(** The prefix of an execution up to the next step. *)
Lemma daemon_bind_inv {A B} (m : Daemon A) (f : A -> Daemon B) w r w' :
  (m ≫= f) w = (r, w') ->
  (exists a w1, m w = (Ok a, w1) /\ f a w1 = (r, w')) \/ (exists e, m w = (Err e, w') /\ r = Err e).
Proof. unfold mbind, daemon_bind. destruct (m w) as [[a|e] w1]; [eauto|]. intros [= <- <-]. eauto. Qed.

(** A computation that only uses store operations and pure steps. *)
Definition quiet {A} (m : Daemon A) : Prop :=
  forall w r w', claims_env (dw_world w) -> m w = (r, w') -> spawns w w' [] /\ claims_env (dw_world w').

Lemma quiet_store {A} (m : Store A) : keeps m -> quiet (from_store m).
Proof. intros Hm w r w' Hw. by apply from_store_spawns. Qed.
Lemma quiet_result {A} (r : result DaemonError A) : quiet (from_result r).
Proof. intros w x w' Hw [= _ <-]. split; [apply spawns_refl|done]. Qed.
Lemma quiet_ret {A} (a : A) : quiet (mret a).
Proof. intros w x w' Hw [= _ <-]. split; [apply spawns_refl|done]. Qed.
Lemma quiet_bind {A B} (m : Daemon A) (f : A -> Daemon B) : quiet m -> (forall a, quiet (f a)) -> quiet (m ≫= f).
Proof.
  intros Hm Hf w r w' Hw [(a & w1 & Hma & Hfa)|(e & Hma & _)]%daemon_bind_inv; [|by eapply Hm].
  destruct (Hm _ _ _ Hw Hma) as [Hs1 Hw1]. destruct (Hf _ _ _ _ Hw1 Hfa) as [Hs2 Hw2]. split; [|done].
  by apply (spawns_trans _ _ _ _ _ Hs1 Hs2).
Qed.

(** A claim that succeeds takes a free occurrence. *)
Lemma claim_takes fresh random job due now w run w' :
  claims_env (dw_world w) -> from_store (claim_run fresh random job due now) w = (Ok run, w') ->
  occurrence run = (job, due) /\ ~ is_claimed (w_db (dw_world w)) run /\ is_claimed (w_db (dw_world w')) run.
Proof.
  intros Henv (w1 & Hc & ->)%from_store_ok. apply claim_run_ok in Hc as (Hfree & token & _ & _ & Hrun & Hins).
  assert (run_job_id run = job /\ run_scheduled_for run = due) as [Hj Hd] by (by rewrite Hrun).
  unfold occurrence, is_claimed. rewrite Hj, Hd. split; [done|]. split.
  - intros Hcl. apply (claims_seen false) in Hcl; [congruence|by right].
  - simpl. unfold insert_run in Hins. destruct (_ && _); [|done]. injection Hins as <-.
    unfold occurrence_claimed. cbn. rewrite existsb_app. apply orb_true_iff. right. cbn.
    rewrite Hj, Hd. by rewrite !bool_decide_true.
Qed.

(** A computation whose started monitors are all of fresh occurrences. *)
Definition fresh_spawns {A} (m : Daemon A) : Prop :=
  forall w r w', claims_env (dw_world w) -> m w = (r, w') ->
  exists new, spawns w w' new /\ claims_env (dw_world w').

Lemma fresh_quiet {A} (m : Daemon A) : quiet m -> fresh_spawns m.
Proof. intros Hm w r w' Hw E. exists []. by eapply Hm. Qed.
Lemma fresh_bind {A B} (m : Daemon A) (f : A -> Daemon B) :
  fresh_spawns m -> (forall a, fresh_spawns (f a)) -> fresh_spawns (m ≫= f).
Proof.
  intros Hm Hf w r w' Hw [(a & w1 & Hma & Hfa)|(e & Hma & _)]%daemon_bind_inv; [|by eapply Hm].
  destruct (Hm _ _ _ Hw Hma) as (n1 & Hs1 & Hw1). destruct (Hf _ _ _ _ Hw1 Hfa) as (n2 & Hs2 & Hw2).
  exists (n1 ++ n2). split; [|done]. by eapply spawns_trans.
Qed.

(** The claim and the start of the monitor it licenses. *)
Lemma fresh_claim_spawn {A B} fresh random job due now outcome (m : Store A)
    (k : Run -> A -> result str unit -> Daemon B) :
  keeps m -> (forall run a s, quiet (k run a s)) ->
  fresh_spawns (run ← from_store (claim_run fresh random job due now); a ← from_store m;
                spawned ← spawn_run_monitor outcome run; k run a spawned).
Proof.
  intros Hm Hk w r w' Hw Hr. apply daemon_bind_inv in Hr as [(run & w1 & Hc & Hr)|(e & Hc & _)].
  2: { exists []. eapply quiet_store; [apply keeps_claim_run|done|exact Hc]. }
  destruct (claim_takes _ _ _ _ _ _ _ _ Hw Hc) as (_ & Hfree & Htaken).
  apply (quiet_store _ (keeps_claim_run _ _ _ _ _)) in Hc as [Hs1 Hw1]; [|done].
  apply daemon_bind_inv in Hr as [(a & w2 & Ha & Hr)|(e & Ha & _)].
  2: { apply (quiet_store _ Hm) in Ha as [Hs2 Hw2]; [|done]. exists []. split; [|done].
       exact (spawns_trans _ _ _ _ _ Hs1 Hs2). }
  apply (quiet_store _ Hm) in Ha as [Hs2 Hw2]; [|done].
  pose proof (spawns_trans _ _ _ _ _ Hs1 Hs2) as Hs. apply daemon_bind_inv in Hr as [(s & w3 & E & Hr)|(e & [=] & _)].
  unfold spawn_run_monitor in E. injection E as <- <-. destruct outcome as [u|e].
  - apply Hk in Hr as [Hs3 Hw3]; [|done]. exists ([run] ++ []). split; [|done].
    refine (spawns_trans _ _ _ _ _ _ Hs3). destruct Hs as (Hlog & Hsuf & Hcl & _ & _). rewrite app_nil_r in Hlog.
    split_and!; simpl; [by rewrite Hlog|done|done|by apply NoDup_singleton|]. apply Forall_singleton.
    split; [done|]. destruct Hs2 as (_ & _ & Hcl2 & _). by apply Hcl2.
  - apply Hk in Hr as [Hs3 Hw3]; [|done]. exists []. split; [|done]. exact (spawns_trans _ _ _ _ _ Hs Hs3).
Qed.

Ltac quiet_tac :=
  repeat match goal with
  | |- quiet (_ ≫= _) => apply quiet_bind; [|intros ?]
  | |- quiet (from_result _) => apply quiet_result
  | |- quiet (from_store _) => apply quiet_store
  | |- quiet (mret _) => apply quiet_ret
  | |- quiet (if ?b then _ else _) => destruct b
  | |- quiet (match ?x with _ => _ end) => destruct x
  end.

Lemma execute_single_fresh input id : fresh_spawns (execute_single_due_job input id).
Proof.
  unfold execute_single_due_job. apply fresh_bind; [apply fresh_quiet; quiet_tac|intros _].
  apply fresh_bind; [apply fresh_quiet; quiet_tac; apply keeps_load_job|intros [job|]; [|apply fresh_quiet; quiet_tac]].
  apply fresh_bind; [apply fresh_quiet; quiet_tac|intros now].
  apply fresh_bind; [apply fresh_quiet; quiet_tac; apply keeps_transition_job|intros job1].
  case_bool_decide; [apply fresh_quiet; quiet_tac|].
  apply fresh_bind; [apply fresh_quiet; quiet_tac; apply keeps_transition_job|intros job2].
  apply fresh_claim_spawn; [apply keeps_transition_job|]. intros run job3 s.
  quiet_tac; [apply keeps_record_run_terminal | apply keeps_transition_job].
Qed.

Lemma execute_due_fresh jobs w failures w' :
  claims_env (dw_world w) -> execute_due_jobs jobs w = (failures, w') ->
  exists new, spawns w w' new /\ claims_env (dw_world w').
Proof.
  revert w failures. induction jobs as [|[input id] jobs IH]; intros w failures Hw; cbn [execute_due_jobs].
  - intros [= _ <-]. exists []. split; [apply spawns_refl|done].
  - destruct (execute_single_due_job input id w) as [r w1] eqn:E.
    destruct (execute_single_fresh _ _ _ _ _ Hw E) as (n1 & Hs1 & Hw1).
    destruct (execute_due_jobs jobs w1) as [fs w2] eqn:E2. intros [= _ <-].
    destruct (IH _ _ Hw1 E2) as (n2 & Hs2 & Hw2). exists (n1 ++ n2). split; [|done]. by eapply spawns_trans.
Qed.

(** Batch after batch. *)
Fixpoint execute_batches (batches : list (list (DueInput * JobId))) (w : DaemonWorld) : DaemonWorld :=
  match batches with
  | [] => w
  | batch :: batches => execute_batches batches (execute_due_jobs batch w).2
  end.

Lemma execute_batches_fresh batches w :
  claims_env (dw_world w) -> exists new, spawns w (execute_batches batches w) new.
Proof.
  revert w. induction batches as [|batch batches IH]; intros w Hw; cbn [execute_batches].
  - exists []. apply spawns_refl.
  - destruct (execute_due_jobs batch w) as [fs w1] eqn:E.
    destruct (execute_due_fresh _ _ _ _ Hw E) as (n1 & Hs1 & Hw1).
    destruct (IH _ Hw1) as (n2 & Hs2). exists (n1 ++ n2). by eapply spawns_trans.
Qed.
End Spawns.

(** ** Properties *)

(** At most one monitor per occurrence.  Over any sequence of
    due batches, with any failures and with other processes that change the
    database as they like but delete no run, the monitors started are of
    pairwise different occurrences (job and scheduled time), none of which had
    a run before, and all of which have one afterwards. *)
Theorem spawned_at_most_once `{Serde} `{ExecutionJson} batches w :
  claims_env (dw_world w) ->
  exists new, dw_spawned (execute_batches batches w) = dw_spawned w ++ new /\ NoDup (occurrence <$> new) /\
    Forall (fun run => ~ is_claimed (w_db (dw_world w)) run /\
                       is_claimed (w_db (dw_world (execute_batches batches w))) run) new.
Proof.
  intros Hw. destruct (execute_batches_fresh batches w Hw) as (new & Hlog & _ & _ & Hdup & Hall).
  by exists new.
Qed.

Lemma requeue_fresh now failures (retries : DueFailureRetries) :
  NoDup (fst <$> failures) -> (forall id, id ∈ fst <$> failures -> retries !! id = None) ->
  (requeue_failures now failures retries).1 = (fun f => SV_Schedule f.1 (now + 2000000000)) <$> failures.
Proof.
  revert retries. induction failures as [|[id e] failures IH]; intros retries Hdup Hnone; [done|].
  apply NoDup_cons in Hdup as [Hid Hdup]. cbn [requeue_failures]. unfold record_failure.
  rewrite (Hnone id) by (by left). cbv zeta beta iota.
  assert (forall id', id' ∈ fst <$> failures -> <[id:=1]> retries !! id' = None) as Hnone'.
  { intros id' Hid'. rewrite lookup_insert_ne by (by intros ->). apply Hnone. by right. }
  specialize (IH (<[id:=1]> retries) Hdup Hnone').
  destruct (requeue_failures now failures (<[id:=1]> retries)) as [events retries']. simpl in *. by rewrite IH.
Qed.

Lemma foldl_forget (ids : list JobId) (retries : DueFailureRetries) id :
  id ∈ ids -> foldl forget retries ids !! id = None.
Proof.
  assert (forall ids (r : DueFailureRetries), r !! id = None -> foldl forget r ids !! id = None) as Hkeep.
  { clear. induction ids as [|x ids IH]; intros r Hr; [done|]. simpl. apply IH. unfold forget.
    destruct (decide (id = x)) as [->|]; [by rewrite lookup_delete_eq | by rewrite lookup_delete_ne]. }
  revert retries. induction ids as [|x ids IH]; intros retries; [by intros ?%elem_of_nil|].
  intros [->|Hin]%elem_of_cons; simpl; [|by apply IH]. apply Hkeep. apply lookup_delete_eq.
Qed.

Lemma execute_due_failures `{Serde} `{ExecutionJson} jobs w failures w' :
  execute_due_jobs jobs w = (failures, w') -> sublist (fst <$> failures) (snd <$> jobs).
Proof.
  revert w failures w'. induction jobs as [|[input id] jobs IH]; intros w failures w'; cbn [execute_due_jobs].
  - intros [= <- _]. constructor.
  - destruct (execute_single_due_job input id w) as [r w1]. destruct (execute_due_jobs jobs w1) as [fs w2] eqn:E.
    intros [= <- _]. apply IH in E. destruct r; simpl; by constructor.
Qed.

(** The retries of due jobs are documented as bounded, but the
    closure forgets the attempts of every job of a batch before it counts the
    failures of that batch: whatever failed before, each failing job is
    requeued two seconds later as its first attempt, so the bound is never
    reached. *)
Theorem retries_never_exhaust `{Serde} `{ExecutionJson} jobs now retries w failures w' :
  NoDup (snd <$> jobs) -> execute_due_jobs jobs w = (failures, w') ->
  (on_due jobs now retries w).1.1 = (fun f => SV_Schedule f.1 (now + 2000000000)) <$> failures.
Proof.
  intros Hdup E. pose proof (execute_due_failures _ _ _ _ E) as Hsub. unfold on_due. rewrite E.
  pose proof (requeue_fresh now failures (foldl forget retries (snd <$> jobs))) as Hr.
  destruct (requeue_failures now failures _) as [events retries']. simpl in *. apply Hr.
  - by eapply sublist_NoDup.
  - intros id Hid. apply foldl_forget. by eapply elem_of_sublist.
Qed.

(** ** Witnesses: the batches of a recurring job *)

Module DaemonExample.
Export RunStoreExample.
Definition input0 : DueInput := mk_due_input (Ok tt) (Ok due0) run_id0 (Ok bytes0) (Ok tt) (Ok due0).
(** The clock reads a moment before the creation of the job. *)
Definition input_early : DueInput := mk_due_input (Ok tt) (Ok 0) run_id0 (Ok bytes0) (Ok tt) (Ok due0).
Definition daemon0 : DaemonWorld := mk_daemon_world world0 [].
End DaemonExample.
Import DaemonExample.

Lemma spawned_at_most_once_witness :
  claims_env (dw_world daemon0) /\
  exists new, dw_spawned (execute_batches [[(input0, job_id job0)]; [(input0, job_id job0)]] daemon0)
      = dw_spawned daemon0 ++ new /\ NoDup (occurrence <$> new) /\
    Forall (fun run => ~ is_claimed (w_db (dw_world daemon0)) run /\
      is_claimed (w_db (dw_world (execute_batches [[(input0, job_id job0)]; [(input0, job_id job0)]] daemon0))) run) new.
Proof.
  assert (claims_env (dw_world daemon0)) as Hw by (vm_compute; constructor).
  split; [exact Hw|]. exact (spawned_at_most_once [[(input0, job_id job0)]; [(input0, job_id job0)]] daemon0 Hw).
Defined.

(** One monitor is started, and the second batch does nothing. *)
Example spawned_once_ex :
  len (dw_spawned (execute_batches [[(input0, job_id job0)]; [(input0, job_id job0)]] daemon0)) = 1.
Proof. vm_compute. reflexivity. Qed.

Lemma retries_never_exhaust_witness :
  exists failures w',
    (NoDup (snd <$> [(input_early, job_id job0)]) /\
     execute_due_jobs [(input_early, job_id job0)] daemon0 = (failures, w') /\ failures <> []) /\
    (on_due [(input_early, job_id job0)] 5000 {[job_id job0 := 3]} daemon0).1.1
    = (fun f => SV_Schedule f.1 (5000 + 2000000000)) <$> failures.
Proof.
  assert (NoDup (snd <$> [(input_early, job_id job0)])) as Hd by apply NoDup_singleton.
  assert (exists failures w', execute_due_jobs [(input_early, job_id job0)] daemon0 = (failures, w') /\ failures <> [])
    as (failures & w' & E & Hne) by (eexists _, _; split; [vm_compute; reflexivity|done]).
  exists failures, w'. split; [exact (conj Hd (conj E Hne))|].
  pose proof (retries_never_exhaust [(input_early, job_id job0)] 5000 {[job_id job0 := 3]} daemon0 failures w') as X.
  specialize (X Hd E). exact X.
Defined.
