(* ===== verification/Submit.v ===== *)
(** The scheduling command: [schedule] and its parts in [src/cli/dispatch.rs],
    from the parsed arguments to the job that is submitted.

    What the process reads (environment variables, the environment file, the
    working directory, the terminal) is an argument; error texts that the
    source makes of typed errors keep those errors. *)

From S2P Require Import Prelude Text Lossy Primitives Duration Identifier States Recurrence Calendar Execution JobAgg RunAgg.
From S2P Require Import Sqlite JobStore Process Services History Config.

Definition MAX_ENV_FILE_BYTES : Z := 1024 * 1024.

Inductive DstArg := DA_Reject | DA_Earlier | DA_Later.
Inductive MissedArg := MA_Hold | MA_RunLatest | MA_Skip.
Definition map_dst (value : DstArg) : DstResolution :=
  match value with DA_Reject => DST_Reject | DA_Earlier => DST_Earlier | DA_Later => DST_Later end.
Definition map_missed (value : MissedArg) : MissedPolicy :=
  match value with MA_Hold => MP_Hold | MA_RunLatest => MP_RunLatest | MA_Skip => MP_Skip end.

Inductive ColorArg := CA_Auto | CA_Always | CA_Never.
Record GlobalArgs := mk_global {
  gl_quiet : bool;
  gl_verbose : bool;
  gl_json : bool;
  gl_color : option ColorArg;
  gl_state_dir : option str
}.

(** [ScheduleOptions] and [SchedulingArgs]; the working directory and the
    environment file that they name are read in [Surroundings]. *)
Record SchedulingArgs := mk_scheduling_args {
  sa_global : GlobalArgs;
  so_dry_run : bool;
  so_utc : bool;
  so_tz : option str;
  so_dst : option DstArg;
  so_no_rollover : bool;
  so_shell : bool;
  so_name : option str;
  so_description : option str;
  so_env : list str;
  so_env_file : bool;
  so_capture_env : bool;
  so_missed : option MissedArg;
  so_durable : bool;
  so_every : option str;
  so_tty : bool;
  sa_when : list str;
  sa_argv : list str
}.
Definition with_global (args : SchedulingArgs) (global : GlobalArgs) : SchedulingArgs :=
  mk_scheduling_args global (so_dry_run args) (so_utc args) (so_tz args) (so_dst args) (so_no_rollover args) (so_shell args)
    (so_name args) (so_description args) (so_env args) (so_env_file args) (so_capture_env args) (so_missed args)
    (so_durable args) (so_every args) (so_tty args) (sa_when args) (sa_argv args).

Inductive BuildError :=
| BE_Message (message : str)
| BE_Line (line : Z) (message : str)
| BE_Duration (e : DurationError)
| BE_Deadline (e : DeadlineError)
| BE_Syntax (e : CalendarSyntaxError)
| BE_Calendar (e : CalendarError)
| BE_Execution (e : ExecutionError)
| BE_Primitive (e : PrimitiveError)
| BE_Job (e : JobError)
| BE_Config (e : ConfigError).

Definition message {A} (text : str) : result BuildError A := Err (BE_Message text).

(** What the process reads: [sr_vars] the environment, the configuration file
    (absent or its text), the environment file (whether it is a regular file, its size, its text), the canonical working
    directory and whether it is one, the terminal of standard output. *)
Record Surroundings := mk_surroundings {
  sr_vars : list (str * str);
  sr_config_file : result str (option str);
  sr_env_file_metadata : result str (bool * Z);
  sr_env_file : result str str;
  sr_cwd : result str str;
  sr_cwd_is_dir : bool;
  sr_tty : result str str
}.

(** ** The environment of the command *)

(** [BTreeMap] of texts *)
Abbreviation Values := (gmap str str).
(** [extend] with pairs in their order *)
Definition extend (values : Values) (pairs : list (str * str)) : Values :=
  foldl (fun m p => <[p.1 := p.2]> m) values pairs.

Section Environment.
Definition default_retained_key (key : str) : bool :=
  existsb (fun name => bool_decide (key = name))
    [lit "HOME"; lit "USER"; lit "LOGNAME"; lit "PATH"; lit "LANG"; lit "TMPDIR"]
  || bool_decide (take 3 key = lit "LC_").

Definition collect_process_environment (retain : str -> bool) (vars : list (str * str)) : result BuildError (list (str * str)) :=
  map_result (fun '(key, value) =>
    if negb (valid_utf8 key) then message (lit "environment variable name is not valid UTF-8: " ++ from_utf8_lossy key) else
    if negb (valid_utf8 value) then message (lit "environment variable " ++ key ++ lit " has a value that is not valid UTF-8")
    else Ok (key, value))
  (List.filter (fun p => retain p.1) vars).

(** [split_once('=')] with a key *)
Definition split_assignment (value : str) : result BuildError (str * str) :=
  match span (fun b => negb (b =? 61)) value with
  | (key, _ :: rest) => if is_empty key then message (lit "environment value must use KEY=VALUE") else Ok (key, rest)
  | (_, []) => message (lit "environment value must use KEY=VALUE")
  end.

Fixpoint env_file_loop (index : Z) (l : list str) (seen : gset str) (values : Values) : result BuildError Values :=
  match l with
  | [] => Ok values
  | line :: l =>
    if is_empty line || bool_decide (head line = Some 35) then env_file_loop (index + 1) l seen values else
    '(key, value) ← map_err (fun e => match e with BE_Message m => BE_Line (index + 1) m | e => e end) (split_assignment line);
    if bool_decide (key ∈ seen) then Err (BE_Line (index + 1) (lit "repeats environment key " ++ key)) else
    env_file_loop (index + 1) l ({[key]} ∪ seen) (<[key := value]> values)
  end.

Definition read_env_file (s : Surroundings) : result BuildError Values :=
  '(is_file, length) ← map_err BE_Message (sr_env_file_metadata s);
  if negb is_file || (MAX_ENV_FILE_BYTES <? length)
  then message (lit "environment file must be a regular file no larger than 1 MiB") else
  contents ← map_err BE_Message (sr_env_file s);
  if contains_nul contents then message (lit "environment file cannot contain NUL") else
  values ← env_file_loop 0 (lines contents) ∅ ∅;
  _ ← map_err BE_Execution (from_pairs (btree_iter values));
  Ok values.

Fixpoint env_loop (assignments : list str) (values : Values) : result BuildError Values :=
  match assignments with
  | [] => Ok values
  | assignment :: assignments =>
    '(key, value) ← split_assignment assignment;
    env_loop assignments (<[key := value]> values)
  end.

Definition build_environment (args : SchedulingArgs) (s : Surroundings) : result BuildError Environment :=
  inherited ← collect_process_environment (if so_capture_env args then fun _ => true else default_retained_key) (sr_vars s);
  let values := extend ∅ inherited in
  values ← (if so_env_file args then file ← read_env_file s; Ok (file ∪ values) else Ok values);
  values ← env_loop (so_env args) values;
  map_err BE_Execution (from_pairs (btree_iter values)).

(** ** The configuration *)

Definition color_mode (color : ColorArg) : ColorMode :=
  match color with CA_Auto => CM_Auto | CA_Always => CM_Always | CA_Never => CM_Never end.

Definition load_effective_config (toml : str -> result str RawConfig) (tz_known : str -> bool) (global : GlobalArgs)
  (durable : bool) (s : Surroundings) : result BuildError Config :=
  file ← map_err BE_Message (sr_config_file s);
  environment ← collect_process_environment is_atx (sr_vars s);
  let overrides := mk_raw_config None (if durable then Some RT_Durable else None) None None None None None
    (color_mode <$> gl_color global)
    (if gl_quiet global then Some VB_Quiet else if gl_verbose global then Some VB_Verbose else None) in
  map_err BE_Config (load_config toml tz_known file environment overrides).

(** ** The command *)

Definition build_execution (args : SchedulingArgs) (config : Config) (s : Surroundings) : result BuildError ExecutionSpec :=
  command_args ← map_result (fun value =>
    if valid_utf8 value then Ok value else message (lit "command arguments must be valid UTF-8")) (sa_argv args);
  let mode := if so_shell args then EM_Shell else EM_Direct in
  cwd ← map_err BE_Message (sr_cwd s);
  if negb (sr_cwd_is_dir s) then message (lit "working directory " ++ from_utf8_lossy cwd ++ lit " is not a directory") else
  environment ← build_environment args s;
  if negb (valid_utf8 cwd) then message (lit "working directory must be valid UTF-8") else
  execution ← map_err BE_Execution (execution_new mode command_args cwd environment);
  execution ← (if bool_decide (mode = EM_Shell) then map_err BE_Execution (set_shell_path execution (cf_shell config))
               else Ok execution);
  if so_tty args then
    tty ← map_err (fun error => BE_Message (lit "--tty requires stdout to be a terminal: " ++ error)) (sr_tty s);
    map_err BE_Execution (set_notify_tty execution tty)
  else Ok execution.
End Environment.

(** ** The schedule *)

Definition is_duration_input (input : str) : bool :=
  match input with
  | character :: _ => is_ascii_digit character
                      && negb (contains_byte 45 input || contains_byte 58 input || contains_byte 84 input)
  | [] => false
  end.

(** [join(" ")] *)
Fixpoint join_with (sep : str) (l : list str) : str :=
  match l with
  | [] => []
  | [w] => w
  | w :: l => w ++ sep ++ join_with sep l
  end.

Definition calendar_options (args : SchedulingArgs) : bool :=
  so_utc args || is_some (so_tz args) || is_some (so_dst args) || so_no_rollover args.

Definition timezone_selection (args : SchedulingArgs) (config : Config) : TimeZoneSelection :=
  if so_utc args then TZ_Utc else
  match so_tz args with
  | Some timezone => TZ_Named timezone
  | None => if bool_decide (cf_timezone config = lit "local") then TZ_Local else TZ_Named (cf_timezone config)
  end.

Definition chosen_dst (args : SchedulingArgs) : DstResolution :=
  match so_dst args with Some dst => map_dst dst | None => DST_Reject end.

Section Schedule.
Context `{Civil}.

Definition build_schedule (args : SchedulingArgs) (config : Config) (wall_now : UtcTimestamp) (elapsed_now : ElapsedInstant)
  : result BuildError Schedule :=
  match so_every args with
  | Some every =>
    if calendar_options args then message (lit "calendar options cannot be used with --every") else
    interval ← map_err BE_Duration (duration_from_str every);
    deadline ← map_err BE_Deadline (relative_deadline wall_now elapsed_now interval);
    Ok (RecurringInterval interval (persisted_due_utc deadline))
  | None =>
    let joined_duration := concat (sa_when args) in
    if is_duration_input joined_duration then
      duration ← map_err BE_Duration (duration_from_str joined_duration);
      if calendar_options args then message (lit "calendar options cannot be used with a relative duration") else
      deadline ← map_err BE_Deadline (relative_deadline wall_now elapsed_now duration);
      Ok (schedule_one_shot_relative duration (persisted_due_utc deadline))
    else
    let input := join_with (lit " ") (sa_when args) in
    syntax ← map_err BE_Syntax (parse_calendar input);
    if so_no_rollover args && negb (match syntax with CS_Time _ => true | _ => false end)
    then message (lit "--no-rollover is only valid with a time of day") else
    if so_utc args && is_some (so_dst args) then message (lit "--dst is not meaningful with --utc") else
    resolution ← map_err BE_Calendar
      (resolve_calendar input (timezone_selection args config) (chosen_dst args) (so_no_rollover args) wall_now);
    Ok (schedule_one_shot_absolute (cr_original_input resolution) (cr_timezone resolution) (cr_tzdb_version resolution)
          (cr_resolved_utc resolution) (cr_dst_resolution resolution))
  end.

(** [Option::map(f).transpose()] *)
Definition transpose {E A B} (f : A -> result E B) (o : option A) : result E (option B) :=
  match o with Some a => Some <$> f a | None => Ok None end.

Definition chosen_missed (args : SchedulingArgs) : MissedPolicy :=
  match so_missed args with
  | Some missed => map_missed missed
  | None => if is_some (so_every args) then MP_Skip else MP_Hold
  end.
Definition chosen_tier (args : SchedulingArgs) (config : Config) : RuntimeTier :=
  if so_durable args then RT_Durable else cf_runtime config.

(** [fresh] is the identifier that [Job::new] draws, [uid] the effective user. *)
Definition build_job (fresh : JobId) (uid : Z) (args : SchedulingArgs) (config : Config)
  (s : Surroundings) (wall_now : UtcTimestamp) (elapsed_now : ElapsedInstant) : result BuildError Job :=
  schedule ← build_schedule args config wall_now elapsed_now;
  execution ← build_execution args config s;
  job ← map_err BE_Job (job_new fresh wall_now schedule (chosen_missed args) (chosen_tier args config) execution uid);
  name ← map_err BE_Primitive (transpose name_new (so_name args));
  description ← map_err BE_Primitive (transpose description_new (so_description args));
  Ok (job_set_metadata job name description).
End Schedule.

(** ** The submission: [schedule] and [run_schedule] *)

(** [impl SubmissionStore for DryRunBoundary], [impl SupervisorAcknowledger for
    DryRunBoundary] *)
Definition DryRunBoundary (S : Type) : SubmissionPorts S := {|
  sp_create_job _ := port_fail (submission_boundary (lit "dry-run crossed its storage boundary"));
  sp_acknowledge _ _ := mret (Err (AE_Unavailable (lit "dry-run crossed its supervisor boundary")))
|}.

(** [impl SupervisorAcknowledger for SessionAcknowledger]: the socket, the
    start of a supervisor, and for each failed attempt after it whether the
    deadline has passed. *)
Section Session.
Context {S : Type}.
Variable socket : JobId -> Revision -> Port S Empty_set (result SupervisorAckError unit).
Variable start_session_supervisor : Port S Empty_set (result str unit).

Fixpoint session_loop (passed : list bool) (id : JobId) (revision : Revision)
  : Port S Empty_set (result SupervisorAckError unit) :=
  answer ← socket id revision;
  match answer with
  | Ok _ => mret (Ok tt)
  | Err (AE_Rejected reason) => mret (Err (AE_Rejected reason))
  | Err error =>
    match passed with
    | [] | true :: _ => mret (Err error)
    | false :: passed => session_loop passed id revision
    end
  end.

Definition session_acknowledge (passed : list bool) (id : JobId) (revision : Revision)
  : Port S Empty_set (result SupervisorAckError unit) :=
  answer ← socket id revision;
  if is_ok answer then mret (Ok tt) else
  started ← start_session_supervisor;
  match started with
  | Err error => mret (Err (AE_Unavailable error))
  | Ok _ => session_loop passed id revision
  end.
End Session.

(** The cause of a [CliError], of which the source keeps the text. *)
Inductive Cause :=
| CA_Text (message : str)
| CA_Build (e : BuildError)
| CA_Clock (e : ClockError)
| CA_Submit (e : SubmitError)
| CA_Store (e : StoreError)
| CA_Management (e : ManagementError)
| CA_ManagementStore (e : ManagementStoreError)
| CA_Output (e : RunOutputError)
| CA_Duration (e : DurationError)
| CA_Acknowledge (e : SupervisorAckError)
| CA_Inspection (e : Identity.ProcessError)
| CA_Manager (e : ServiceManagerError)
| CA_Lifecycle (e : ServiceLifecycleError).
Record CliError := mk_cli_error { ce_exit : Z; ce_code : str; ce_cause : Cause }.
Definition cli_usage : Cause -> CliError := mk_cli_error 2 (lit "INVALID_ARGUMENT").
Definition cli_capability : Cause -> CliError := mk_cli_error 5 (lit "CAPABILITY_UNAVAILABLE").
Definition cli_not_found : Cause -> CliError := mk_cli_error 3 (lit "JOB_NOT_FOUND").
Definition cli_conflict : Cause -> CliError := mk_cli_error 4 (lit "STATE_CONFLICT").
Definition cli_storage : Cause -> CliError := mk_cli_error 10 (lit "STORAGE_ERROR").
Definition cli_permission : Cause -> CliError := mk_cli_error 12 (lit "PERMISSION_ERROR").
Definition cli_supervision : Cause -> CliError := mk_cli_error 11 (lit "SUPERVISION_ERROR").
Definition cli_internal : Cause -> CliError := mk_cli_error 70 (lit "INTERNAL_ERROR").

(** What the service manager is made of: [HOME], the path of the executable
    and its canonical form. *)
Record ManagerSite := mk_manager_site {
  mg_home : option str;
  mg_current_exe : result str str;
  mg_canonical_exe : result str str
}.
(** The home directory and the executable of the manager. *)
Definition native_service_manager (site : ManagerSite) : result CliError (str * str) :=
  match mg_home site with
  | Some home =>
    if negb (is_absolute home) then Err (cli_capability (CA_Text (lit "HOME is unavailable or not absolute"))) else
    _ ← map_err (fun e => cli_internal (CA_Text e)) (mg_current_exe site);
    executable ← map_err (fun e => cli_capability (CA_Text e)) (mg_canonical_exe site);
    Ok (home, executable)
  | None => Err (cli_capability (CA_Text (lit "HOME is unavailable or not absolute")))
  end.

(** What the platform answers: the paths, the clocks, the service manager and
    the installed and running flags of its status, the state directory made
    private, the database opened. *)
Record Platform := mk_platform {
  pf_paths : result str unit;
  pf_surroundings : Surroundings;
  pf_now : result ClockError UtcTimestamp;
  pf_elapsed : result ClockError ElapsedInstant;
  pf_site : ManagerSite;
  pf_service : result str (bool * bool);
  pf_private_dir : result str unit;
  pf_open : result StoreError unit;
  pf_uid : Z
}.

Section Command.
Context `{Civil} {S : Type} `{SubmissionPorts S}.
Variable toml : str -> result str RawConfig.
Variable tz_known : str -> bool.

(** The checks of [schedule] before the submission. *)
Definition prepare (fresh : JobId) (args : SchedulingArgs) (p : Platform) : result CliError Job :=
  _ ← map_err (fun e => cli_permission (CA_Text e)) (pf_paths p);
  config ← map_err (fun e => cli_usage (CA_Build e)) (load_effective_config toml tz_known (sa_global args) (so_durable args) (pf_surroundings p));
  wall_now ← map_err (fun e => cli_internal (CA_Clock e)) (pf_now p);
  elapsed_now ← map_err (fun e => cli_internal (CA_Clock e)) (pf_elapsed p);
  job ← map_err (fun e => cli_usage (CA_Build e))
    (build_job fresh (pf_uid p) args config (pf_surroundings p) wall_now elapsed_now);
  if bool_decide (js_runtime_tier (job_snapshot job) = RT_Durable) then
    _ ← native_service_manager (pf_site p);
    '(installed, running) ← map_err (fun e => cli_capability (CA_Text e)) (pf_service p);
    if negb installed || negb running
    then Err (cli_capability (CA_Text (lit "durable service is not installed and running"))) else Ok job
  else Ok job.

Definition schedule (fresh : JobId) (args : SchedulingArgs) (p : Platform) : Port S CliError SubmissionOutcome :=
  job ← (fun s => (prepare fresh args p, s));
  if so_dry_run args then port_err (fun e => cli_internal (CA_Submit e)) (@submit_job S (DryRunBoundary S) job true) else
  _ ← (fun s => (map_err (fun e => cli_permission (CA_Text e)) (pf_private_dir p), s));
  _ ← (fun s => (map_err (fun e => cli_storage (CA_Store e)) (pf_open p), s));
  port_err (fun e => cli_storage (CA_Submit e)) (submit_job job false).

(** The exit code of [run_schedule]. *)
Definition run_schedule (fresh : JobId) (args : SchedulingArgs) (p : Platform) (s : S) : Z * S :=
  let '(r, s) := schedule fresh args p s in
  (match r with
   | Ok (SO_CommittedUnsupervised _ _) => 11
   | Ok _ => 0
   | Err error => ce_exit error
   end, s).
End Command.

(** ** Lemmas *)

Lemma split_assignment_ok a k v :
  split_assignment a = Ok (k, v) <-> a = k ++ 61 :: v /\ k <> [] /\ Forall (fun b => negb (b =? 61) = true) k.
Proof.
  unfold split_assignment. split.
  - pose proof (span_app (fun b => negb (b =? 61)) a) as Ha. pose proof (span_forall (fun b => negb (b =? 61)) a) as Hf.
    pose proof (span_head (fun b => negb (b =? 61)) a) as Hh. destruct (span _ a) as [key [|c rest]]; [done|].
    cbn [fst snd] in *. specialize (Hh c rest eq_refl). apply negb_false_iff, Z.eqb_eq in Hh as ->.
    destruct key; [done|]. cbn [is_empty]. by intros [= <- <-].
  - intros (-> & Hk & Hf). rewrite span_prefix; [|done|by intros b r [= <- _]]. by destruct k.
Qed.

(** The value of a name in pairs of which the last counts. *)
Lemma extend_lookup pairs m key :
  extend m pairs !! key = match last_value key pairs with Some v => Some v | None => m !! key end.
Proof.
  unfold extend. revert m. induction pairs as [|[k v] pairs IH]; intros m; [done|]. cbn [foldl last_value fst snd].
  rewrite IH. destruct (last_value key pairs); [done|]. case_bool_decide as Hk.
  - subst. by rewrite lookup_insert_eq.
  - by rewrite lookup_insert_ne.
Qed.

Lemma env_loop_ok assignments values m :
  env_loop assignments values = Ok m <->
  exists pairs, Forall2 (fun a p => split_assignment a = Ok p) assignments pairs /\ m = extend values pairs.
Proof.
  revert values. induction assignments as [|a l IH]; intros values; cbn [env_loop].
  - split; [intros [= <-]; by exists [] | intros (pairs & Hp & ->)]. by apply Forall2_nil_inv_l in Hp as ->.
  - rewrite bind_ok. split.
    + intros ([k v] & Ha & (pairs & Hp & ->)%IH). exists ((k, v) :: pairs). by split; [constructor|].
    + intros (pairs & Hp & ->). apply Forall2_cons_inv_l in Hp as ([k v] & pairs' & Ha & Hp & ->). exists (k, v).
      split; [done|]. apply IH. by exists pairs'.
Qed.

(** A line that assigns. *)
Definition significant (line : str) : bool := negb (is_empty line || bool_decide (head line = Some 35)).

Lemma env_file_loop_ok l : forall index seen values m,
  env_file_loop index l seen values = Ok m ->
  exists pairs, Forall2 (fun a p => split_assignment a = Ok p) (List.filter significant l) pairs /\
    NoDup pairs.*1 /\ (forall k, In k pairs.*1 -> k ∉ seen) /\ m = extend values pairs.
Proof.
  induction l as [|line l IH]; intros index seen values m; cbn [env_file_loop].
  { intros [= <-]. exists []. split_and!; [done|constructor|done|done]. }
  cbn [List.filter]. unfold significant at 1. destruct (is_empty line || _); cbn [negb]; [by apply IH|].
  intros ([k v] & Hs%map_err_ok & Hl)%bind_ok. case_bool_decide as Hk; [done|].
  apply IH in Hl as (pairs & Hp & Hnd & Hseen & ->). exists ((k, v) :: pairs). split_and!; [by constructor| | |done].
  - rewrite fmap_cons. apply NoDup_cons. split; [|done]. intros Hin%list_elem_of_In%Hseen. cbn in Hin. set_solver.
  - intros x [<-|Hx]; [done|]. specialize (Hseen x Hx). set_solver.
Qed.

Lemma last_value_app key l l' :
  last_value key (l ++ l') = match last_value key l' with Some v => Some v | None => last_value key l end.
Proof.
  induction l as [|[k v] l IH]; cbn; [by destruct (last_value key l')|]. rewrite IH.
  by destruct (last_value key l').
Qed.

Definition retained (args : SchedulingArgs) : str -> bool :=
  if so_capture_env args then fun _ => true else default_retained_key.

(** The environment of a command: the last binding of each name among those
    inherited, those of the file and those of the options. *)
Definition environment_as (args : SchedulingArgs) (s : Surroundings) (env : Environment) : Prop :=
  exists file options,
    let inherited := List.filter (fun p => retained args p.1) (sr_vars s) in
    Forall (fun p => valid_utf8 p.1 = true /\ valid_utf8 p.2 = true) inherited /\
    (if so_env_file args
     then exists contents, sr_env_file s = Ok contents /\ NoDup file.*1 /\
       Forall2 (fun line p => split_assignment line = Ok p) (List.filter significant (lines contents)) file
     else file = []) /\
    Forall2 (fun a p => split_assignment a = Ok p) (so_env args) options /\
    forall key, env !! key = mk_secret <$> last_value key (inherited ++ file ++ options).

Lemma collect_process_environment_ok retain vars l :
  collect_process_environment retain vars = Ok l ->
  l = List.filter (fun p => retain p.1) vars /\ Forall (fun p => valid_utf8 p.1 = true /\ valid_utf8 p.2 = true) l.
Proof.
  unfold collect_process_environment. rewrite map_result_ok. induction 1 as [|[k v] y l l' Hy _ [-> IH]]; [done|].
  destruct (valid_utf8 k) eqn:Ek; [|done]. destruct (valid_utf8 v) eqn:Ev; [|done]. cbn in Hy. injection Hy as <-.
  split; [done|]. by constructor.
Qed.

Lemma read_env_file_ok s m :
  read_env_file s = Ok m ->
  exists contents file, sr_env_file s = Ok contents /\ NoDup file.*1 /\
    Forall2 (fun line p => split_assignment line = Ok p) (List.filter significant (lines contents)) file /\
    m = extend ∅ file.
Proof.
  unfold read_env_file. intros ([is_file n] & _ & Hr)%bind_ok. destruct (negb is_file || _); [done|].
  apply bind_ok in Hr as (contents & Hc%map_err_ok & Hr). destruct (contains_nul contents); [done|].
  apply bind_ok in Hr as (values & Hl & (e & _ & [= <-])%bind_ok).
  apply env_file_loop_ok in Hl as (file & Hp & Hnd & _ & ->). by exists contents, file.
Qed.

Lemma build_environment_ok args s env :
  build_environment args s = Ok env -> env_ok env /\ environment_as args s env.
Proof.
  unfold build_environment. intros (inherited & Hi & (values & Hv & (all & Ha & Hf%map_err_ok)%bind_ok)%bind_ok)%bind_ok.
  split; [by eapply from_pairs_env_ok|]. apply from_pairs_btree in Hf as [-> _].
  apply collect_process_environment_ok in Hi as [-> Hutf8]. apply env_loop_ok in Ha as (options & Ho & ->).
  fold (retained args) in *.
  assert (exists file, (if so_env_file args
     then exists contents, sr_env_file s = Ok contents /\ NoDup file.*1 /\
       Forall2 (fun line p => split_assignment line = Ok p) (List.filter significant (lines contents)) file
     else file = []) /\
    forall key, values !! key =
      last_value key (List.filter (fun p => retained args p.1) (sr_vars s) ++ file)) as (file & Hfile & Hlook).
  { destruct (so_env_file args).
    - apply bind_ok in Hv as (m & (contents & file & Hc & Hnd & Hp & ->)%read_env_file_ok & [= <-]). exists file.
      split; [by exists contents|]. intros key. rewrite last_value_app, lookup_union, !extend_lookup.
      rewrite !lookup_empty. destruct (last_value key file), (last_value key (List.filter _ _)); done.
    - injection Hv as <-. exists []. split; [done|]. intros key. rewrite app_nil_r, extend_lookup, lookup_empty.
      by destruct (last_value key _). }
  exists file, options. split_and!; [done..|]. intros key.
  rewrite lookup_fmap, extend_lookup, Hlook, app_assoc, (last_value_app key _ options).
  by destruct (last_value key options).
Qed.

Lemma utf8_arguments_ok l l' :
  Forall2 (fun value y =>
    (if valid_utf8 value then Ok value else message (lit "command arguments must be valid UTF-8")) = Ok y) l l' -> l' = l.
Proof. induction 1 as [|x y l l' Hx _ ->]; [done|]. destruct (valid_utf8 x); [|done]. by injection Hx as <-. Qed.

Lemma build_execution_ok args config s e :
  is_absolute (cf_shell config) = true -> build_execution args config s = Ok e ->
  execution_ok e /\ environment_as args s (environment e) /\
  mode e = (if so_shell args then EM_Shell else EM_Direct) /\ argv e = sa_argv args /\
  sr_cwd s = Ok (working_directory e) /\ sr_cwd_is_dir s = true /\
  shell_path e = (if so_shell args then Some (cf_shell config) else None) /\
  (if so_tty args then exists tty, sr_tty s = Ok tty /\ notify_tty e = Some tty else notify_tty e = None).
Proof.
  intros Hshell. unfold build_execution.
  intros (argv0 & Hargs%map_result_ok & (cwd & Hcwd%map_err_ok & He)%bind_ok)%bind_ok.
  apply utf8_arguments_ok in Hargs as ->.
  destruct (sr_cwd_is_dir s); [|done]. cbn [negb] in He.
  apply bind_ok in He as (env & [Henv Has]%build_environment_ok & He). destruct (negb (valid_utf8 cwd)); [done|].
  apply bind_ok in He as (e0 & Hnew%map_err_ok & (e1 & Hsh & Htty)%bind_ok).
  pose proof (execution_new_ok _ _ _ _ _ Henv Hnew) as Hok0. apply execution_new_inv in Hnew as [_ ->].
  assert (execution_ok e1 /\ e1 = mk_execution (if so_shell args then EM_Shell else EM_Direct) (sa_argv args) cwd env
    SP_Null OP_BoundedFile OP_BoundedFile (if so_shell args then Some (cf_shell config) else None) None) as [Hok1 He1].
  { destruct (so_shell args); cbn [bool_decide] in Hsh.
    - apply map_err_ok in Hsh. split; [by eapply set_shell_path_preserves|]. by apply set_shell_path_ok in Hsh as [-> _].
    - by injection Hsh as <-. }
  clear Hsh Hok0. destruct (so_tty args).
  - apply bind_ok in Htty as (tty & Htty%map_err_ok & Hset%map_err_ok).
    split; [by eapply set_notify_tty_preserves|]. apply set_notify_tty_ok in Hset as [-> _]. rewrite He1. cbn.
    split_and!; try done. by exists tty.
  - injection Htty as <-. split; [done|]. by rewrite He1.
Qed.

Section ScheduleLemmas.
Context `{Civil}.

Lemma relative_deadline_ok wall elapsed d r :
  relative_deadline wall elapsed d = Ok r -> persisted_due_utc r = wall + interval_ns d /\ ts_ok (persisted_due_utc r).
Proof.
  unfold relative_deadline.
  intros (n & [-> _]%ok_or_ok%checked_Some & (t & [-> Ht]%ok_or_ok%checked_Some & (x & _ & [= <-])%bind_ok)%bind_ok)%bind_ok.
  by split.
Qed.

(** What the arguments ask for at [now]. *)
Definition scheduled_as (args : SchedulingArgs) (config : Config) (now : UtcTimestamp) (sch : Schedule) : Prop :=
  match so_every args with
  | Some every => calendar_options args = false /\
      exists d, duration_from_str every = Ok d /\ sch = RecurringInterval d (now + interval_ns d)
  | None =>
    if is_duration_input (concat (sa_when args)) then
      calendar_options args = false /\
      exists d, duration_from_str (concat (sa_when args)) = Ok d /\ sch = OneShotRelative d (now + interval_ns d)
    else
      let input := join_with (lit " ") (sa_when args) in
      (so_utc args = true -> so_dst args = None) /\
      exists v tz zone due, parse_calendar input = Ok v /\
        (so_no_rollover args = true -> exists time, v = CS_Time time) /\
        resolve_time_zone (timezone_selection args config) = Ok (tz, zone) /\
        requested tz (chosen_dst args) (so_no_rollover args) now v due /\
        sch = OneShotAbsolute input zone bundled_tzdb_version due (chosen_dst args)
  end.

Lemma build_schedule_ok args config now elapsed sch :
  bundled_tzdb_version <> [] -> contains_nul bundled_tzdb_version = false ->
  build_schedule args config now elapsed = Ok sch -> schedule_ok sch /\ scheduled_as args config now sch.
Proof.
  intros Hne Hnul. unfold build_schedule, scheduled_as. destruct (so_every args) as [every|].
  - destruct (calendar_options args); [done|].
    intros (d & Hd%map_err_ok & (r & [Hr Hts]%map_err_ok%relative_deadline_ok & [= <-])%bind_ok)%bind_ok.
    pose proof (duration_from_str_ok _ _ Hd). rewrite Hr in *. split; [done|]. split; [done|]. by exists d.
  - destruct (is_duration_input _).
    + intros (d & Hd%map_err_ok & Hs)%bind_ok. destruct (calendar_options args); [done|].
      apply bind_ok in Hs as (r & [Hr Hts]%map_err_ok%relative_deadline_ok & [= <-]).
      pose proof (duration_from_str_ok _ _ Hd). rewrite Hr in *. split; [done|]. split; [done|]. by exists d.
    + intros (v & Hv%map_err_ok & Hs)%bind_ok. destruct (so_no_rollover args && _) eqn:En; [done|].
      destruct (so_utc args && is_some (so_dst args)) eqn:Ed; [done|].
      apply bind_ok in Hs as (r & (v' & tz & data & Hv' & Hz & _ & Hi & Hver & Hdst & Hreq)%map_err_ok%resolve_calendar_inv & [= <-]).
      rewrite Hv in Hv'. injection Hv' as <-. pose proof (requested_ts_ok _ _ _ _ _ _ Hreq).
      unfold schedule_one_shot_absolute. rewrite Hi, Hver, Hdst. split; [done|]. split.
      { intros Hu. rewrite Hu in Ed. by destruct (so_dst args). }
      exists v, tz, (cr_timezone r), (cr_resolved_utc r). split_and!; try done.
      intros Hro. rewrite Hro in En. destruct v as [tm|d|dt]; [by exists tm|done..].
Qed.

(** The job that the arguments describe. *)
Record job_as (args : SchedulingArgs) (config : Config) (s : Surroundings) (now : UtcTimestamp) (uid : Z) (job : Job) : Prop := {
  ja_schedule : scheduled_as args config now (job_schedule job);
  ja_due : now < job_next_due job /\ job_next_due job = schedule_next_due_utc (job_schedule job);
  ja_new : job_state job = JS_Scheduled /\ job_revision job = 1 /\ job_created_at job = now /\ job_owner_uid job = uid;
  ja_policies : job_missed_policy job = chosen_missed args /\ job_runtime_tier job = chosen_tier args config;
  ja_environment : environment_as args s (environment (job_execution job));
  ja_command : argv (job_execution job) = sa_argv args /\ sr_cwd s = Ok (working_directory (job_execution job)) /\
    mode (job_execution job) = (if so_shell args then EM_Shell else EM_Direct) /\
    shell_path (job_execution job) = (if so_shell args then Some (cf_shell config) else None);
  ja_tty : if so_tty args then exists tty, sr_tty s = Ok tty /\ notify_tty (job_execution job) = Some tty
    else notify_tty (job_execution job) = None;
  ja_name : name_str <$> job_name job = so_name args;
  ja_description : description_str <$> job_description job = so_description args
}.

Lemma transpose_ok {E A B} (f : A -> result E B) o r :
  transpose f o = Ok r -> match o with Some a => exists b, f a = Ok b /\ r = Some b | None => r = None end.
Proof. destruct o; cbn; [|by intros [= <-]]. intros (b & Hb & ->)%fmap_ok. by exists b. Qed.

Lemma build_job_ok fresh uid args config s now elapsed job :
  bundled_tzdb_version <> [] -> contains_nul bundled_tzdb_version = false -> is_absolute (cf_shell config) = true ->
  ts_ok now -> uuid_ok (job_uuid fresh) -> 0 <= uid <= u32_max ->
  build_job fresh uid args config s now elapsed = Ok job ->
  storable job /\ job_as args config s now uid job.
Proof.
  intros Hne Hnul Hshell Hnow Hid Huid. unfold build_job.
  intros (sch & [Hsch Has]%build_schedule_ok & (e & (He & Henv & Hmode & Hargv & Hcwd & _ & Hpath & Htty)%build_execution_ok & Hj)%bind_ok)%bind_ok;
    [|done..].
  apply bind_ok in Hj as (j & Hj%map_err_ok & (name & Hn%map_err_ok%transpose_ok & (desc & Hd%map_err_ok%transpose_ok & [= <-])%bind_ok)%bind_ok).
  pose proof (job_new_invariant _ _ _ _ _ _ _ _ Hnow Hsch He Hj) as Hok. apply job_new_ok in Hj as [Hlt ->].
  assert (opt_Forall (fun n => text_ok 256 (name_str n)) name /\ name_str <$> name = so_name args) as [Hn1 Hn2].
  { destruct (so_name args); [destruct Hn as (n & [-> ?]%name_new_ok & ->)|rewrite Hn]; done. }
  assert (opt_Forall (fun n => text_ok 4096 (description_str n)) desc /\ description_str <$> desc = so_description args) as [Hd1 Hd2].
  { destruct (so_description args); [destruct Hd as (n & [-> ?]%description_new_ok & ->)|rewrite Hd]; done. }
  split.
  - split; [by apply job_set_metadata_ok|done..].
  - by split.
Qed.
End ScheduleLemmas.

(** What the session acknowledger reports is the last answer of the socket, or
    that no supervisor could be started; an answer that rejects is final. *)
Lemma session_loop_last {S} socket passed id revision (s s' : S) r :
  session_loop socket passed id revision s = (Ok r, s') -> exists s1, socket id revision s1 = (Ok r, s').
Proof.
  revert s. induction passed as [|late passed IH]; intros s; cbn; unfold mbind, port_bind;
    destruct (socket id revision s) as [[answer|[]] s1] eqn:E; destruct answer as [[]|[]]; cbn;
    try (intros [= <- <-]; by exists s).
  all: destruct late; [intros [= <- <-]; by exists s|apply IH].
Qed.

Lemma session_acknowledge_last {S} socket start passed id revision (s s' : S) r :
  session_acknowledge socket start passed id revision s = (Ok r, s') ->
  (exists s1, socket id revision s1 = (Ok r, s')) \/
  (exists e s1, start s1 = (Ok (Err e), s') /\ r = Err (AE_Unavailable e)).
Proof.
  unfold session_acknowledge, mbind at 1, port_bind at 1.
  destruct (socket id revision s) as [[[[]|e]|[]] s1] eqn:E; cbn; [intros [= <- <-]; left; by exists s|].
  unfold mbind, port_bind. destruct (start s1) as [[[[]|e']|[]] s2] eqn:Est; cbn.
  - intros Hl%session_loop_last. by left.
  - intros [= <- <-]. right. by exists e', s1.
Qed.

Section CommandLemmas.
Context `{Civil} {S : Type} `{SubmissionPorts S}.

Lemma submit_job_outcome job dry s o s' :
  submit_job job dry s = (Ok o, s') ->
  outcome_job o = job /\ (if dry then o = SO_DryRun job /\ s' = s else is_dry_run o = false).
Proof.
  unfold submit_job. destruct dry; [by intros [= <- <-]|]. unfold mbind, port_bind, port_err.
  destruct (sp_create_job job s) as [[[]|e] s1]; cbn; [|done].
  destruct (sp_acknowledge _ _ s1) as [[[[]|e]|e] s2]; cbn; [by intros [= <- <-]..|done].
Qed.

Lemma load_effective_config_ok toml tz_known global durable sr c :
  load_effective_config toml tz_known global durable sr = Ok c -> is_absolute (cf_shell c) = true.
Proof.
  unfold load_effective_config. intros (file & _ & (env & _ & Hc%map_err_ok)%bind_ok)%bind_ok.
  unfold load_config in Hc. apply bind_ok in Hc as (f & _ & (layer & _ & [Hok _]%validate_ok)%bind_ok). apply Hok.
Qed.

Lemma prepare_ok toml tz_known fresh args p job :
  bundled_tzdb_version <> [] -> contains_nul bundled_tzdb_version = false -> uuid_ok (job_uuid fresh) ->
  0 <= pf_uid p <= u32_max -> (forall t, pf_now p = Ok t -> ts_ok t) ->
  prepare toml tz_known fresh args p = Ok job ->
  storable job /\
  (exists config now, load_effective_config toml tz_known (sa_global args) (so_durable args) (pf_surroundings p) = Ok config /\ pf_now p = Ok now /\
    job_as args config (pf_surroundings p) now (pf_uid p) job) /\
  (job_runtime_tier job = RT_Durable -> pf_service p = Ok (true, true)).
Proof.
  intros Hne Hnul Hid Huid Hts. unfold prepare.
  intros (_ & _ & (config & Hc%map_err_ok & (now & Hnow%map_err_ok & (el & _ & (j & Hj%map_err_ok & Hs)%bind_ok)%bind_ok)%bind_ok)%bind_ok)%bind_ok.
  pose proof (load_effective_config_ok _ _ _ _ _ _ Hc) as Hshell.
  apply build_job_ok in Hj as [Hst Has]; try done; [|by apply Hts].
  assert (j = job /\ (job_runtime_tier job = RT_Durable -> pf_service p = Ok (true, true))) as [<- Hservice].
  { destruct (bool_decide_reflect (js_runtime_tier (job_snapshot j) = RT_Durable)) as [Ht|Ht];
      [|injection Hs as <-; split; [done|]; intros Hd; by destruct (Ht Hd)].
    apply bind_ok in Hs as (manager & _ & ([installed running] & ->%map_err_ok & Hs)%bind_ok).
    destruct installed, running; try done. by injection Hs as <-. }
  split; [done|]. split; [|done]. by exists config, now.
Qed.
End CommandLemmas.

(** ** Properties *)


Module SubmitExample.
#[export] Existing Instance CivilModel.civil.
#[export] Existing Instance JiffModel.jiff.
(** A store that keeps the identifiers of its jobs, and a supervisor that answers. *)
#[export] Instance ports0 : SubmissionPorts (list JobId) := {|
  sp_create_job job := fun s => (Ok tt, job_id job :: s);
  sp_acknowledge _ _ := mret (Ok tt)
|}.
Definition args0 (when : str) (every : option str) (env : list str) : SchedulingArgs :=
  mk_scheduling_args (mk_global false false false None None) false false None None false true (Some (lit "build")) None env true false None false every
    false [when] [lit "make"].
Definition sr0 : Surroundings :=
  mk_surroundings [(lit "HOME", lit "/h"); (lit "EDITOR", lit "vi"); (lit "LANG", lit "C")] (Ok None) (Ok (true, 20))
    (Ok (lit "# mine" ++ [13; 10; 10] ++ lit "LANG=en" ++ [13; 10] ++ lit "X=a=b")) (Ok (lit "/work")) true (Err []).
Definition pf0 : Platform := mk_platform (Ok tt) sr0 (Ok (40000 * 10 ^ 9)) (Ok 7) (mk_manager_site None (Err []) (Err [])) (Ok (false, false)) (Ok tt) (Ok tt) 1000.
Definition fresh0 : JobId := mk_job_id 42.
End SubmitExample.
Import SubmitExample.

Example env_file_ex :
  btree_iter <$> (read_env_file sr0) = Ok [(lit "LANG", lit "en"); (lit "X", lit "a=b")].
Proof. vm_compute. reflexivity. Qed.

Example durations_ex : map is_duration_input [lit "5m"; lit "09:30"; lit "2026-01-01"; lit "1T"; lit "+5m"; []]
  = [true; false; false; false; false; false].
Proof. reflexivity. Qed.

