(* ===== verification/Views.v ===== *)
(** [src/cli/view.rs] and [src/cli/human.rs]: what the commands show of jobs,
    runs and reports, for a reader and as the data of the JSON envelopes of
    [src/cli/json.rs].

    The local time of a timestamp is an argument (the time zone of the
    system), as is the printing of a JSON value. *)

From S2P Require Import Prelude Text Lossy Primitives Duration Identifier States Recurrence Execution JobAgg RunAgg.
From S2P Require Import Services History Submit.

(** ** [view.rs] *)

Record SubmissionView := mk_submission_view {
  sw_job_id : str; sw_state : JobState; sw_schedule : Schedule; sw_next_due : UtcTimestamp;
  sw_runtime_tier : RuntimeTier; sw_supervised : bool; sw_dry_run : bool
}.
Definition submission_view (outcome : SubmissionOutcome) : SubmissionView :=
  let snapshot := job_snapshot (outcome_job outcome) in
  mk_submission_view (job_id_to_string (js_id snapshot)) (js_state snapshot) (js_schedule snapshot) (js_next_due snapshot)
    (js_runtime_tier snapshot) (is_supervised outcome) (is_dry_run outcome).

Record ExecutionView := mk_execution_view {
  ew_mode : ExecutionMode; ew_argv : list str; ew_working_directory : str; ew_environment_keys : list str;
  ew_shell_path : option str
}.
Definition execution_view (job : Job) : ExecutionView :=
  let execution := job_execution job in
  mk_execution_view (mode execution) (argv execution) (from_utf8_lossy (working_directory execution))
    (map (fun '(key, _) => key) (btree_iter (environment execution))) (option_map from_utf8_lossy (shell_path execution)).

Record JobView := mk_job_view {
  jw_job_id : str; jw_name : option str; jw_description : option str; jw_schedule : Schedule; jw_next_due : UtcTimestamp;
  jw_remaining_seconds : Z; jw_state : JobState; jw_runtime_tier : RuntimeTier; jw_execution : ExecutionView;
  jw_active_run_id : option str
}.
(** The division of [i128] rounds toward zero. *)
Definition i64_min : Z := - i64_max - 1.
Definition remaining_seconds (next_due now : UtcTimestamp) : Z :=
  let remaining := (next_due - now) ÷ 1000000000 in
  default (if remaining <? 0 then i64_min else i64_max) (checked i64_min i64_max remaining).
Definition view_job (job : Job) (now : UtcTimestamp) : JobView :=
  let snapshot := job_snapshot job in
  mk_job_view (job_id_to_string (js_id snapshot)) (option_map name_str (js_name snapshot))
    (option_map description_str (js_description snapshot)) (js_schedule snapshot) (js_next_due snapshot)
    (remaining_seconds (js_next_due snapshot) now) (js_state snapshot) (js_runtime_tier snapshot) (execution_view job) None.

Record RunView := mk_run_view {
  rw_run_id : str; rw_job_id : str; rw_sequence : Z; rw_scheduled_for : UtcTimestamp; rw_started_at : option UtcTimestamp;
  rw_finished_at : option UtcTimestamp; rw_state : RunState; rw_outcome : option RunOutcome;
  rw_stdout_path : option str; rw_stderr_path : option str
}.
Definition run_view (run : Run) : RunView :=
  mk_run_view (run_id_to_string (run_id run)) (job_id_to_string (run_job_id run)) (run_sequence run) (run_scheduled_for run)
    (run_started_at run) (run_finished_at run) (run_state run) (run_outcome run) (run_stdout_path run) (run_stderr_path run).

Record ProcessView := mk_process_view {
  pw_job_id : str; pw_run_id : str; pw_role : str; pw_pid : Z; pw_process_group_id : Z; pw_state : RunState
}.

Record RunOutputView := mk_run_output_view {
  ow_run_id : str; ow_job_id : str; ow_state : RunState; ow_outcome : option RunOutcome;
  ow_stdout_truncated : bool; ow_stderr_truncated : bool; ow_stdout : str; ow_stderr : str
}.
Definition run_output_view (output : RunOutput) : RunOutputView :=
  mk_run_output_view (run_id_to_string (ro_run_id output)) (job_id_to_string (ro_job_id output)) (ro_state output)
    (ro_outcome output) (rs_truncated (ro_stdout output)) (rs_truncated (ro_stderr output))
    (from_utf8_lossy (rs_content (ro_stdout output))) (from_utf8_lossy (rs_content (ro_stderr output))).

(** ** [human.rs] *)

(** The derived [Debug] of the states and of the tier. *)
Definition job_state_debug (s : JobState) : str :=
  match s with
  | JS_Scheduled => lit "Scheduled" | JS_Waiting => lit "Waiting" | JS_Starting => lit "Starting" | JS_Running => lit "Running"
  | JS_CancelRequested => lit "CancelRequested" | JS_Succeeded => lit "Succeeded" | JS_Failed => lit "Failed"
  | JS_Cancelled => lit "Cancelled" | JS_Interrupted => lit "Interrupted" | JS_Missed => lit "Missed"
  end.
Definition run_state_debug (s : RunState) : str :=
  match s with
  | RS_Starting => lit "Starting" | RS_Running => lit "Running" | RS_CancelRequested => lit "CancelRequested"
  | RS_Succeeded => lit "Succeeded" | RS_Failed => lit "Failed" | RS_Cancelled => lit "Cancelled"
  | RS_Interrupted => lit "Interrupted"
  end.
Definition tier_debug (t : RuntimeTier) : str := match t with RT_Session => lit "Session" | RT_Durable => lit "Durable" end.

(** [{}] of a [bool] *)
Definition show_bool (b : bool) : str := if b then lit "true" else lit "false".

Definition use_color (color : ColorArg) (stdout_is_terminal : bool) : bool :=
  match color with CA_Always => true | CA_Never => false | CA_Auto => stdout_is_terminal end.

Definition in_color (code : Z) (text : str) : str :=
  [27] ++ lit "[" ++ show_dec code ++ lit "m" ++ text ++ [27] ++ lit "[0m".

Definition state_text (color : bool) (state : JobState) : str :=
  let text := job_state_debug state in
  if negb color then text else
  in_color (match state with
            | JS_Succeeded => 32
            | JS_Failed | JS_Interrupted | JS_Missed => 31
            | JS_Cancelled => 33
            | _ => 36
            end) text.

Definition remaining_text (seconds : Z) : str :=
  if seconds <=? 0 then lit "due" else
  if seconds <? 60 then show_int seconds ++ lit "s" else
  if seconds <? 3600 then show_int (seconds ÷ 60) ++ lit "m " ++ show_int (Z.rem seconds 60) ++ lit "s" else
  show_int (seconds ÷ 3600) ++ lit "h " ++ show_int (Z.rem seconds 3600 ÷ 60) ++ lit "m".

Definition signal_name (signal : Z) : option str :=
  if signal =? 1 then Some (lit "SIGHUP") else if signal =? 2 then Some (lit "SIGINT") else
  if signal =? 3 then Some (lit "SIGQUIT") else if signal =? 9 then Some (lit "SIGKILL") else
  if signal =? 15 then Some (lit "SIGTERM") else None.

Definition format_outcome (outcome : RunOutcome) : str :=
  match outcome with
  | RO_Exit code => lit "exit " ++ show_int code
  | RO_Signal signal =>
    lit "signal " ++ show_int signal
    ++ match signal_name signal with Some name => lit " (" ++ name ++ lit ")" | None => [] end
  | RO_Failure reason => lit "failure: " ++ reason
  | RO_Interrupted reason => lit "interrupted: " ++ reason
  | RO_Cancelled reason => lit "cancelled: " ++ reason
  end.

Definition schedule_text (value : Schedule) : str :=
  match value with
  | OneShotRelative duration _ => lit "after " ++ duration_to_string duration
  | OneShotAbsolute original_input timezone _ _ _ => original_input ++ lit " (" ++ timezone ++ lit ")"
  | RecurringInterval interval _ => lit "every " ++ duration_to_string interval
  end.

Definition display_byte (byte : Z) : bool := is_ascii_alphanumeric byte || contains_byte byte (lit "-_./").
Definition display_argument (argument : str) : str :=
  if forallb display_byte argument then argument
  else [39] ++ concat (map (fun b => if b =? 39 then [39; 92; 39; 39] else [b]) argument) ++ [39].
Definition display_argv (argv : list str) : str := join_with [32] (map display_argument argv).

Definition dash (o : option str) : str := default (lit "-") o.

Section Human.
Variable local_timestamp : UtcTimestamp -> str.
Variable color : bool.

Definition submission_text (view : SubmissionView) : str :=
  (if sw_dry_run view then lit "Dry run" else lit "Scheduled") ++ lit " " ++ sw_job_id view ++ lit " for "
  ++ local_timestamp (sw_next_due view) ++ lit " (" ++ state_text color (sw_state view) ++ lit ")".

Definition tabbed (cells : list str) : str := join_with [9] cells.
Definition job_row (job : JobView) : str :=
  tabbed [jw_job_id job; state_text color (jw_state job); local_timestamp (jw_next_due job);
          remaining_text (jw_remaining_seconds job); dash (jw_name job)].
Definition jobs_text (jobs : list JobView) : str :=
  if is_empty jobs then lit "No jobs." else
  join_with [10] (tabbed [lit "JOB"; lit "STATE"; lit "DUE"; lit "REMAINING"; lit "NAME"] :: map job_row jobs).

Definition job_with_outcome (job : JobView) (last_outcome : option RunOutcome) : str :=
  let environment :=
    if is_empty (ew_environment_keys (jw_execution job)) then lit "-"
    else join_with (lit ", ") (ew_environment_keys (jw_execution job)) in
  join_with [10] [
    lit "Job: " ++ jw_job_id job; lit "Name: " ++ dash (jw_name job); lit "Description: " ++ dash (jw_description job);
    lit "State: " ++ state_text color (jw_state job); lit "Due: " ++ local_timestamp (jw_next_due job);
    lit "Remaining: " ++ remaining_text (jw_remaining_seconds job); lit "Schedule: " ++ schedule_text (jw_schedule job);
    lit "Runtime: " ++ tier_debug (jw_runtime_tier job); lit "Last outcome: " ++ dash (option_map format_outcome last_outcome);
    lit "Command: " ++ display_argv (ew_argv (jw_execution job));
    lit "Working directory: " ++ ew_working_directory (jw_execution job); lit "Environment keys: " ++ environment].

Definition runs_text (runs : list RunView) : str :=
  if is_empty runs then lit "No runs." else
  join_with [10] (tabbed [lit "RUN"; lit "JOB"; lit "STATE"; lit "SCHEDULED"; lit "FINISHED"] ::
    map (fun run => tabbed [rw_run_id run; rw_job_id run; run_state_debug (rw_state run); local_timestamp (rw_scheduled_for run);
                            dash (option_map local_timestamp (rw_finished_at run))]) runs).

Definition processes_text (processes : list ProcessView) : str :=
  if is_empty processes then lit "No live ATX processes." else
  join_with [10] (tabbed [lit "JOB"; lit "RUN"; lit "ROLE"; lit "PID"; lit "PGID"; lit "STATE"] ::
    map (fun p => tabbed [pw_job_id p; pw_run_id p; pw_role p; show_dec (pw_pid p); show_int (pw_process_group_id p);
                          run_state_debug (pw_state p)]) processes).

Definition run_output_text (output : RunOutput) : str :=
  let header := join_with [10] [
    lit "Run: " ++ run_id_to_string (ro_run_id output); lit "Job: " ++ job_id_to_string (ro_job_id output);
    lit "State: " ++ run_state_debug (ro_state output); lit "Outcome: " ++ dash (option_map format_outcome (ro_outcome output))] in
  let section '(label, stream) := [
    lit "--- " ++ label ++ (if rs_truncated stream then lit " (truncated at capture cap)" else []) ++ lit " ---";
    from_utf8_lossy (rs_content stream)] in
  join_with [10] (header :: section (lit "stdout", ro_stdout output) ++ section (lit "stderr", ro_stderr output)).

Definition check_line (check : DiagnosticCheck) : str :=
  let '(marker, code) := match dc_status check with
    | DS_Pass => (lit "ok", 32) | DS_Warning => (lit "warn", 33) | DS_Fail => (lit "fail", 31) end in
  lit "[" ++ (if color then in_color code marker else marker) ++ lit "] " ++ dc_name check ++ lit ": " ++ dc_message check.
Definition doctor_text {Config} (report : DoctorReport Config) : str :=
  join_with [10] ((if dr_healthy _ report then lit "ATX is ready." else lit "ATX needs attention.")
    :: map check_line (dr_checks _ report) ++ [lit "tzdb: " ++ dr_tzdb_version _ report]).
End Human.

Definition service_status_text (status : ServiceStatus) : str :=
  let files := join_with (lit ", ") (map from_utf8_lossy (sv_files status)) in
  join_with [10] [
    lit "Manager: " ++ sv_manager status; lit "Installed: " ++ show_bool (sv_installed status);
    lit "Running: " ++ show_bool (sv_running status); lit "Files: " ++ (if is_empty files then lit "-" else files);
    lit "Guarantee: " ++ sv_guarantee status; lit "Status: " ++ sv_detail status].
Definition service_change_text (change : ServiceChange) : str :=
  (if sc_changed change then lit "Service changed." else lit "No change needed.") ++ [10] ++ service_status_text (sc_status change).

(** ** [json.rs]: the envelopes, as values *)

Definition SCHEMA_VERSION : Z := 1.
Record SuccessEnvelope (T : Type) := mk_success { se_schema_version : Z; se_ok : bool; se_data : T }.
Arguments mk_success {T}.
Record ErrorBody := mk_error_body { eb_code : str; eb_message : str; eb_remediation : option str }.
Record ErrorEnvelope := mk_error { ee_schema_version : Z; ee_ok : bool; ee_error : ErrorBody }.
Definition json_success {T} (to_string : SuccessEnvelope T -> result str str) (data : T) : result str str :=
  to_string (mk_success SCHEMA_VERSION true data).
Definition json_error (to_string : ErrorEnvelope -> result str str) (code message : str) (remediation : option str)
  : result str str :=
  to_string (mk_error SCHEMA_VERSION false (mk_error_body code message remediation)).

Example remaining_ex :
  map remaining_text [-5; 0; 59; 61; 3599; 3600; 90061] =
  [lit "due"; lit "due"; lit "59s"; lit "1m 1s"; lit "59m 59s"; lit "1h 0m"; lit "25h 1m"].
Proof. reflexivity. Qed.
Example display_argv_ex :
  display_argv [lit "printf"; lit "hello world"; lit "it's"] = lit "printf 'hello world' 'it'\''s'".
Proof. reflexivity. Qed.
Example format_outcome_ex :
  map format_outcome [RO_Exit 0; RO_Signal 9; RO_Signal 64; RO_Exit (-1)] =
  [lit "exit 0"; lit "signal 9 (SIGKILL)"; lit "signal 64"; lit "exit -1"].
Proof. reflexivity. Qed.

(** ** What the shell reads in a displayed command

    The words of a command line of plain bytes, blanks, single quotes and
    backslashes (POSIX 2.2 and 2.3); [word] is the word being read, reversed;
    [None] for anything else and for an open quote. *)
Fixpoint sh_words (s : str) (quoted : bool) (word : option str) : option (list str) :=
  match s with
  | [] => if quoted then None else Some (match word with Some w => [reverse w] | None => [] end)
  | b :: s =>
    if quoted then if b =? 39 then sh_words s false word else sh_words s true (Some (b :: default [] word)) else
    if b =? 39 then sh_words s true (Some (default [] word)) else
    if b =? 92 then match s with c :: s => sh_words s false (Some (c :: default [] word)) | [] => None end else
    if b =? 32 then match word with Some w => (reverse w ::.) <$> sh_words s false None | None => sh_words s false None end else
    if display_byte b then sh_words s false (Some (b :: default [] word)) else None
  end.

Lemma display_byte_plain b : display_byte b = true -> (b =? 39) = false /\ (b =? 92) = false /\ (b =? 32) = false.
Proof.
  intros H. split_and!; apply Z.eqb_neq; intros ->; by vm_compute in H.
Qed.

Lemma sh_plain a rest word :
  forallb display_byte a = true ->
  sh_words (a ++ rest) false word = sh_words rest false (if is_empty a then word else Some (reverse a ++ default [] word)).
Proof.
  revert word. induction a as [|b a IH]; intros word; [done|]. cbn [forallb]. intros [Hb Ha]%andb_true_iff.
  destruct (display_byte_plain b Hb) as (E1 & E2 & E3). cbn [app sh_words]. rewrite E1, E2, E3, Hb, IH by done.
  cbn [is_empty default]. rewrite (reverse_cons a b), <- app_assoc. by destruct a.
Qed.

Lemma sh_quoted a rest w :
  sh_words (concat (map (fun b => if b =? 39 then [39; 92; 39; 39] else [b]) a) ++ 39 :: rest) true (Some w) =
  sh_words rest false (Some (reverse a ++ w)).
Proof.
  revert w. induction a as [|b a IH]; intros w; [done|]. cbn [map concat]. rewrite <- app_assoc, reverse_cons, <- app_assoc.
  destruct (Z.eqb_spec b 39) as [->|Hb]; [exact (IH (39 :: w))|]. cbn [app sh_words].
  rewrite (proj2 (Z.eqb_neq b 39)) by done. apply IH.
Qed.

Lemma sh_argument a rest :
  sh_words (display_argument a ++ rest) false None = sh_words rest false (if is_empty a then None else Some (reverse a)).
Proof.
  unfold display_argument. destruct (forallb display_byte a) eqn:E.
  - rewrite sh_plain by done. cbn [default]. by rewrite app_nil_r.
  - assert (is_empty a = false) as -> by (by destruct a). rewrite <- !app_assoc. cbn [app sh_words Z.eqb Pos.eqb default].
    by rewrite sh_quoted, app_nil_r.
Qed.

(** The command line that [atx show] displays, read by a
    POSIX shell, gives back the arguments of the job, whatever bytes they
    hold: quoting is right for blanks, quotes, newlines and every
    metacharacter.  An empty argument alone is lost, since it is displayed as
    nothing: exactly the non-empty arguments come back. *)
Theorem display_argv_roundtrip argv :
  sh_words (display_argv argv) false None = Some (List.filter (fun a => negb (is_empty a)) argv).
Proof.
  unfold display_argv. induction argv as [|a argv IH]; [done|]. cbn [map List.filter].
  assert (forall r, sh_words (32 :: r) false (if is_empty a then None else Some (reverse a)) =
    (if is_empty a then id else (a ::.)) <$> sh_words r false None) as Hspace.
  { intros r. destruct a as [|b a]; cbn [is_empty sh_words Z.eqb Pos.eqb]; [by destruct (sh_words r false None)|].
    by rewrite reverse_involutive. }
  destruct argv as [|a' argv].
  - cbn [map join_with]. rewrite <- (app_nil_r (display_argument a)), sh_argument.
    destruct a; cbn [is_empty negb sh_words List.filter]; [done|]. by rewrite reverse_involutive.
  - change (join_with [32] (display_argument a :: map display_argument (a' :: argv)))
      with (display_argument a ++ 32 :: join_with [32] (map display_argument (a' :: argv))).
    rewrite sh_argument, Hspace, IH. by destruct a.
Qed.

(** ** Environment values

    [str_compare] is a total order, so that the listing of the keys depends
    on the set of the keys only. *)
Lemma str_compare_refl a : str_compare a a = Eq.
Proof. induction a as [|x a IH]; [done|]. cbn. by rewrite Z.compare_refl. Qed.
Lemma str_compare_eq a b : str_compare a b = Eq -> a = b.
Proof.
  revert b. induction a as [|x a IH]; intros [|y b]; try done. cbn. destruct (Z.compare_spec x y) as [->| |]; try done.
  by intros ->%IH.
Qed.
Lemma str_compare_opp a b : str_compare b a = CompOpp (str_compare a b).
Proof.
  revert b. induction a as [|x a IH]; intros [|y b]; try done. cbn. rewrite (Z.compare_antisym x y).
  destruct (x ?= y); cbn; [apply IH|done|done].
Qed.
Lemma str_compare_le_trans a b c : str_compare a b <> Gt -> str_compare b c <> Gt -> str_compare a c <> Gt.
Proof.
  revert b c. induction a as [|x a IH]; intros [|y b] [|z c]; try done. cbn.
  destruct (Z.compare_spec x y), (Z.compare_spec y z), (Z.compare_spec x z); subst; try done; try lia. by apply IH.
Qed.

Definition str_le (a b : str) : Prop := str_compare a b <> Gt.
#[export] Instance str_le_trans : Transitive str_le. Proof. intros a b c. apply str_compare_le_trans. Qed.
#[export] Instance str_le_antisymm : AntiSymm eq str_le.
Proof.
  intros a b Hab Hba. apply str_compare_eq. unfold str_le in *. rewrite str_compare_opp in Hba.
  by destruct (str_compare a b).
Qed.
#[export] Instance key_le_total {A} : Total (@key_le A).
Proof.
  intros x y. unfold key_le. rewrite (str_compare_opp x.1 y.1). destruct (str_compare x.1 y.1); by (left + right).
Qed.

Lemma btree_keys_sorted {A} (m : gmap str A) : Sorted str_le (btree_iter m).*1.
Proof.
  assert (Sorted key_le (btree_iter m)) as H by apply (Sorted_merge_sort key_le).
  induction H as [|x l Hl IH Hx]; cbn; constructor; [done|]. destruct Hx; cbn; by constructor.
Qed.

Lemma btree_keys_dom {A B : Type} (m : gmap str A) (m' : gmap str B) : dom m = dom m' -> (btree_iter m).*1 = (btree_iter m').*1.
Proof.
  intros Hd. apply (Sorted_unique str_le); [apply btree_keys_sorted..|].
  apply NoDup_Permutation; [apply btree_iter_nodup..|]. intros k.
  assert (forall (C : Type) (n : gmap str C), k ∈ (btree_iter n).*1 <-> k ∈ dom n) as Hk; [|by rewrite !Hk, Hd].
  intros C n. rewrite btree_iter_perm, list_elem_of_fmap, elem_of_dom. split.
  - intros ([k' v] & -> & Hin%elem_of_map_to_list). by exists v.
  - intros [v Hv]. exists (k, v). split; [done|]. by apply elem_of_map_to_list.
Qed.

Lemma view_keys (env : Environment) : map (fun '(key, _) => key) (btree_iter env) = (btree_iter env).*1.
Proof. induction (btree_iter env) as [|[k v] l IH]; [done|]. cbn. by rewrite IH. Qed.

(** The job with the values of its environment replaced. *)
Definition with_environment (job : Job) (env : Environment) : Job :=
  let e := job_execution job in
  mk_job (job_id job) (job_revision job) (job_name job) (job_description job) (job_created_at job) (job_updated_at job)
    (job_state job) (job_runtime_tier job) (job_schedule job) (job_missed_policy job)
    (mk_execution (mode e) (argv e) (working_directory e) env (stdin e) (stdout e) (stderr e) (shell_path e) (notify_tty e))
    (job_next_due job) (job_tzdb_version job) (job_owner_uid job).
Definition outcome_with (f : Job -> Job) (o : SubmissionOutcome) : SubmissionOutcome :=
  match o with
  | SO_DryRun job => SO_DryRun (f job)
  | SO_Supervised job => SO_Supervised (f job)
  | SO_CommittedUnsupervised job e => SO_CommittedUnsupervised (f job) e
  end.

(** C39 (safety).  No value of a job's environment can be learned from what the
    commands show of the job: two jobs that differ only in the values of their
    environment variables are shown alike, byte for byte, in the list, in the
    details, in the answer to a submission, and in every JSON envelope of
    these, whatever the printer of JSON does. *)
Theorem views_hide_environment job env now :
  dom env = dom (environment (job_execution job)) ->
  view_job (with_environment job env) now = view_job job now /\
  (forall local color jobs1 jobs2 outcome,
     jobs_text local color (jobs1 ++ view_job (with_environment job env) now :: jobs2) =
       jobs_text local color (jobs1 ++ view_job job now :: jobs2) /\
     job_with_outcome local color (view_job (with_environment job env) now) outcome =
       job_with_outcome local color (view_job job now) outcome) /\
  (forall to_string, json_success to_string (view_job (with_environment job env) now) = json_success to_string (view_job job now)) /\
  (forall o to_string, outcome_job o = job ->
     submission_view (outcome_with (fun _ => with_environment job env) o) = submission_view o /\
     json_success to_string (submission_view (outcome_with (fun _ => with_environment job env) o)) =
       json_success to_string (submission_view o)).
Proof.
  intros Hd. assert (view_job (with_environment job env) now = view_job job now) as Hv.
  { unfold view_job. f_equal. unfold execution_view. cbn [with_environment job_execution mode argv working_directory environment shell_path].
    by rewrite !view_keys, (btree_keys_dom _ _ Hd). }
  rewrite Hv. split; [done|]. split; [done|]. split; [done|].
  intros o to_string <-. assert (submission_view (outcome_with (fun _ => with_environment (outcome_job o) env) o) = submission_view o) as ->;
    [|done]. by destruct o.
Qed.

(** ** The time that remains *)

(** The count of seconds is exact between any two timestamps, never clamped,
    and a listed job is shown as due from the last second before it is. *)
Lemma remaining_seconds_exact `{Jiff} next_due now :
  ts_ok next_due -> ts_ok now ->
  remaining_seconds next_due now = (next_due - now) ÷ 1000000000 /\
  (remaining_text (remaining_seconds next_due now) = lit "due" <-> next_due - now < 1000000000).
Proof.
  intros Hn Ht. unfold ts_ok in *. pose proof ts_span as Hspan. unfold remaining_seconds.
  assert (i64_max = 9223372036854775807 /\ i64_min = -9223372036854775808) as [E1 E2] by done.
  assert (0 < (next_due - now) ÷ 1000000000 <-> 1000000000 <= next_due - now) as Hpos
    by (Z.to_euclidean_division_equations; lia).
  assert (- 10 ^ 22 <= (next_due - now) ÷ 1000000000 * 1000000000 <= 10 ^ 22) as Hbound
    by (Z.to_euclidean_division_equations; lia).
  rewrite checked_in by lia. cbn [default]. unfold id. split; [done|]. revert Hpos. generalize ((next_due - now) ÷ 1000000000). intros q Hpos.
  unfold remaining_text. destruct (Z.leb_spec q 0); [split; [lia | done]|]. split; [|lia]. intros Hdue. exfalso.
  assert (last (lit "due") = Some 101) as Hl by done. rewrite <- Hdue in Hl. revert Hl.
  change (lit "s") with [115]. change (lit "m") with [109].
  destruct (q <? 60); [|destruct (q <? 3600)]; by rewrite ?app_assoc, last_snoc.
Qed.

(** Two jobs whose only difference is a secret. *)
Lemma views_hide_environment_witness :
  let env := {[ lit "K" := mk_secret (lit "other") ]} : Environment in
  let job := mk_job (mk_job_id 1) 1 None None 0 0 JS_Scheduled RT_Session (RecurringInterval (mk_duration 10) 10000000000) MP_Hold example_execution
               10000000000 (lit "not-applicable") 501 in
  dom env = dom (environment (job_execution job)) /\ with_environment job env <> job /\
  view_job (with_environment job env) 0 = view_job job 0.
Proof.
  intros env job. assert (dom env = dom (environment (job_execution job))) as H by reflexivity.
  split; [exact H|]. split; [|apply (views_hide_environment job env 0 H)].
  intros E. apply (f_equal (fun j => environment (job_execution j) !! lit "K")) in E. vm_compute in E. discriminate.
Defined.
