(* ===== verification/Commands.v ===== *)
(** The management commands of [src/cli/dispatch.rs]: [manage] and its parts,
    [service_operation], the rendering of their answers and of their errors.

    The store is behind the ports of [Services] and [History]; the
    cancellation of a job ([Cancel]) and the wake of the supervisor are
    arguments, as are the clocks, the classification of processes, the printer
    of JSON values and the texts of errors. *)

From S2P Require Import Prelude Text Lossy Primitives Duration Identifier States Recurrence Calendar Execution JobAgg RunAgg.
From S2P Require Import Sqlite RunStore Reconcile Retention Recovery.
From S2P Require Import Process Services History Config Submit Views.

Inductive StateFilter :=
| SF_Scheduled | SF_Waiting | SF_Starting | SF_Running | SF_CancelRequested | SF_Succeeded | SF_Failed | SF_Cancelled
| SF_Interrupted | SF_Missed.
(** [impl From<StateFilter> for JobState] *)
Definition filter_state (filter : StateFilter) : JobState :=
  match filter with
  | SF_Scheduled => JS_Scheduled | SF_Waiting => JS_Waiting | SF_Starting => JS_Starting | SF_Running => JS_Running
  | SF_CancelRequested => JS_CancelRequested | SF_Succeeded => JS_Succeeded | SF_Failed => JS_Failed
  | SF_Cancelled => JS_Cancelled | SF_Interrupted => JS_Interrupted | SF_Missed => JS_Missed
  end.

(** The management commands that [manage] answers. *)
Inductive ManagementCommand :=
| MC_List (state : option StateFilter) (max : Z)
| MC_Show (job : str)
| MC_History (job : option str) (max : Z)
| MC_Output (run : str)
| MC_Ps
| MC_Cancel (job : str) (grace : option str)
| MC_Remove (job : str) (cancel keep_history : bool)
| MC_Run (job : str) (yes : bool).

Inductive Answer :=
| AN_Jobs (jobs : list Job)
| AN_Job (job : Job) (last_outcome : option RunOutcome)
| AN_Runs (runs : list Run)
| AN_Output (output : RunOutput)
| AN_Processes (processes : list ProcessView).

Definition management_cli_error (e : ManagementError) : CliError :=
  match e with
  | ME_NotFound | ME_Ambiguous _ | ME_InvalidPrefix => cli_not_found (CA_Management e)
  | ME_StateConflict _ | ME_ConfirmationRequired => cli_conflict (CA_Management e)
  | ME_InvalidLimit => cli_usage (CA_Management e)
  | ME_Store _ => cli_storage (CA_Management e)
  end.

Definition output_cli_error (e : RunOutputError) : CliError :=
  match e with
  | OE_NotFound | OE_Ambiguous | OE_InvalidPrefix | OE_NoRuns | OE_NotCaptured | OE_MissingLogs => cli_not_found (CA_Output e)
  | OE_Read _ | OE_Store _ => cli_storage (CA_Output e)
  end.

(** ** [manage] *)

Section Manage.
Context {S : Type} `{ManagementStore S} `{RunOutputStore S}.
Variable cancel_job : str -> DurationSeconds -> Port S ManagementError Job.
Variable acknowledge : JobId -> Revision -> Port S Empty_set (result SupervisorAckError unit).
Variable canonicalize : str -> option str.
Variable is_file : str -> option bool.
Variable read : str -> result str str.
Variable now : result ClockError UtcTimestamp.
Variable boot : result ClockError str.
(** [NativeProcessInspector::classify] under that boot identity *)
Variable classify : str -> ProcessIdentitySnapshot -> result Identity.ProcessError Identity.IdentityStatus.

(** The two identities of a run, in their order. *)
Definition roles (run : Run) : list (str * option ProcessIdentitySnapshot) :=
  [(lit "monitor", run_monitor_identity run); (lit "command", run_command_identity run)].
Definition process_view (run : Run) (role : str) (identity : ProcessIdentitySnapshot) : ProcessView :=
  mk_process_view (job_id_to_string (run_job_id run)) (run_id_to_string (run_id run)) role (pid identity)
    (process_group_id identity) (run_state run).

(** The inner and the outer loop of [render_processes]. *)
Fixpoint live_roles (boot : str) (run : Run) (l : list (str * option ProcessIdentitySnapshot)) : result CliError (list ProcessView) :=
  match l with
  | [] => Ok []
  | (role, None) :: l => live_roles boot run l
  | (role, Some identity) :: l =>
    status ← map_err (fun e => cli_internal (CA_Inspection e)) (classify boot identity);
    rest ← live_roles boot run l;
    Ok (match status with Identity.Alive => process_view run role identity :: rest | _ => rest end)
  end.
Fixpoint live_processes (boot : str) (runs : list Run) : result CliError (list ProcessView) :=
  match runs with
  | [] => Ok []
  | run :: runs => views ← live_roles boot run (roles run); rest ← live_processes boot runs; Ok (views ++ rest)
  end.
Definition render_processes (runs : list Run) : result CliError (list ProcessView) :=
  if is_empty runs then Ok [] else
  boot ← map_err (fun e => cli_internal (CA_Clock e)) boot;
  live_processes boot runs.

Abbreviation Cli := (Port S CliError).
Definition pure_cli {A} (r : result CliError A) : Cli A := fun s => (r, s).
Definition managed {A} (m : Port S ManagementError A) : Cli A := port_err management_cli_error m.

Definition manage_store (state_directory : str) (cancel_grace : DurationSeconds) (command : ManagementCommand) : Cli Answer :=
  match command with
  | MC_List state max => jobs ← managed (list_jobs (filter_state <$> state) None max); mret (AN_Jobs jobs)
  | MC_Show job =>
    job ← managed (resolve_job job);
    runs ← port_err (fun e => cli_storage (CA_ManagementStore e)) (ms_list_runs (Some (job_id job)) 1);
    mret (AN_Job job (run ← head runs; run_outcome run))
  | MC_History job max =>
    job_id ← managed (match job with
                      | Some prefix => job ← resolve_job prefix; mret (Some (job_id job))
                      | None => mret None
                      end);
    runs ← managed (list_runs job_id max);
    mret (AN_Runs runs)
  | MC_Output run =>
    output ← port_err output_cli_error (read_run_output canonicalize is_file read state_directory run);
    mret (AN_Output output)
  | MC_Ps =>
    runs ← port_err (fun e => cli_storage (CA_ManagementStore e)) ms_active_runs;
    processes ← pure_cli (render_processes runs);
    mret (AN_Processes processes)
  | MC_Cancel job grace =>
    grace ← pure_cli (match grace with
                      | Some text => map_err (fun e => cli_usage (CA_Duration e)) (duration_from_str text)
                      | None => Ok cancel_grace
                      end);
    cancelled ← managed (cancel_job job grace);
    mret (AN_Job cancelled None)
  | MC_Remove job cancel keep_history =>
    current ← managed (resolve_job job);
    _ ← (if negb (job_is_terminal (job_state current)) && cancel
         then _ ← managed (cancel_job job cancel_grace); mret tt else mret tt);
    removed ← managed (remove_job job keep_history);
    mret (AN_Job removed None)
  | MC_Run job yes =>
    now ← pure_cli (map_err (fun e => cli_internal (CA_Clock e)) now);
    rerun ← managed (rerun_job job yes now);
    acknowledged ← port_err (fun e : Empty_set => match e with end) (acknowledge (job_id rerun) (job_revision rerun));
    _ ← pure_cli (map_err (fun e => cli_supervision (CA_Acknowledge e)) acknowledged);
    mret (AN_Job rerun None)
  end.

Definition manage_without_database (command : ManagementCommand) : result CliError Answer :=
  match command with
  | MC_List _ _ => Ok (AN_Jobs [])
  | MC_History None _ => Ok (AN_Runs [])
  | MC_Ps => AN_Processes <$> render_processes []
  | _ => Err (cli_not_found (CA_Text (lit "job or run not found")))
  end.

(** What [open_management] finds: the state directory, the configuration, and
    whether the database is a file and opens. *)
Record Opening := mk_opening {
  op_paths : result str str;
  op_config : result BuildError Config;
  op_is_file : bool;
  op_database : result StoreError unit
}.

(** [true]: a store *)
Definition open_management (o : Opening) : result CliError (bool * str * Config) :=
  paths ← map_err (fun e => cli_permission (CA_Text e)) (op_paths o);
  config ← map_err (fun e => cli_usage (CA_Build e)) (op_config o);
  if negb (op_is_file o) then Ok (false, paths, config) else
  _ ← map_err (fun e => cli_storage (CA_Store e)) (op_database o);
  Ok (true, paths, config).

Definition manage (o : Opening) (command : ManagementCommand) : Cli Answer :=
  '(store, state_directory, config) ← pure_cli (open_management o);
  if store : bool then manage_store state_directory (cf_cancel_grace config) command
  else pure_cli (manage_without_database command).
End Manage.

(** ** [service_operation] *)

Inductive ServiceAction := SVA_Status | SVA_Install | SVA_Uninstall.
Inductive ServiceAnswer := SN_Status (status : ServiceStatus) | SN_Change (change : ServiceChange).

Section ServiceOperation.
Context {S : Type} `{ServiceManager S}.
(** The directories, that they can be made private, and what the manager is made of. *)
Variable paths : result str unit.
Variable private_state private_runtime : result str unit.
Variable site : ManagerSite.

Definition service_operation (action : ServiceAction) : Port S CliError ServiceAnswer :=
  _ ← pure_cli (map_err (fun e => cli_permission (CA_Text e)) paths);
  _ ← pure_cli (match action with
                | SVA_Install =>
                  _ ← map_err (fun e => cli_permission (CA_Text e)) private_state;
                  map_err (fun e => cli_permission (CA_Text e)) private_runtime
                | _ => Ok tt
                end);
  _ ← pure_cli (native_service_manager site);
  match action with
  | SVA_Status => status ← port_err (fun e => cli_capability (CA_Manager e)) sm_status; mret (SN_Status status)
  | SVA_Install => change ← port_err (fun e => cli_capability (CA_Lifecycle e)) install_service; mret (SN_Change change)
  | SVA_Uninstall => change ← port_err (fun e => cli_capability (CA_Lifecycle e)) uninstall_service; mret (SN_Change change)
  end.
End ServiceOperation.

(** ** What is printed *)

(** What the command writes to its standard output and error. *)
Record Printed := mk_printed { pr_out : str; pr_err : str }.
Definition println (text : str) : Printed := mk_printed (text ++ [10]) [].
Definition eprintln (text : str) : Printed := mk_printed [] (text ++ [10]).
Definition silent : Printed := mk_printed [] [].

Definition remediation (code : str) : option str :=
  if bool_decide (code = lit "JOB_NOT_FOUND") then Some (lit "Run `atx list` to inspect job IDs.") else
  if bool_decide (code = lit "STATE_CONFLICT") then Some (lit "Run `atx show JOB` to inspect its current state.") else None.

Section Printing.
Variable to_string : forall T : Type, SuccessEnvelope T -> result str str.
Variable error_to_string : ErrorEnvelope -> result str str.
(** [to_string] of the error *)
Variable cause_text : Cause -> str.
Variable local_timestamp : UtcTimestamp -> str.
Variable stdout_is_terminal : bool.
(** [Timestamp::now] when the answer is rendered *)
Variable now : UtcTimestamp.

Definition print_error (json : bool) (code message : str) : Printed :=
  if json then
    match json_error error_to_string code message (remediation code) with
    | Ok value => eprintln value
    | Err error => eprintln (lit "atx: could not serialize error output: " ++ error)
    end
  else eprintln (lit "atx: " ++ message).

Definition print_json_success {T} (value : T) : Printed :=
  match json_success (to_string T) value with
  | Ok value => println value
  | Err error => eprintln (lit "atx: could not serialize output: " ++ error)
  end.

(** The three ways of printing of every renderer. *)
Definition print {T} (global : GlobalArgs) (value : T) (human : Printed) : Printed :=
  if gl_json global then print_json_success value else if negb (gl_quiet global) then human else silent.

Definition color (global : GlobalArgs) : bool := use_color (default CA_Auto (gl_color global)) stdout_is_terminal.

Definition render_answer (global : GlobalArgs) (answer : Answer) : Printed :=
  match answer with
  | AN_Jobs jobs =>
    let views := map (fun job => view_job job now) jobs in
    print global views (println (jobs_text local_timestamp (color global) views))
  | AN_Job job last_outcome =>
    let view := view_job job now in
    print global view (println (job_with_outcome local_timestamp (color global) view last_outcome))
  | AN_Runs runs => let views := map run_view runs in print global views (println (runs_text local_timestamp views))
  | AN_Output output => print global (run_output_view output) (mk_printed (run_output_text output) [])
  | AN_Processes processes => print global processes (println (processes_text processes))
  end.

Definition render_service (global : GlobalArgs) (answer : ServiceAnswer) : Printed :=
  match answer with
  | SN_Status status => print global status (println (service_status_text status))
  | SN_Change change => print global change (println (service_change_text change))
  end.

(** [render_submission] *)
Definition render_submission (ack_text : SupervisorAckError -> str) (global : GlobalArgs) (outcome : SubmissionOutcome) : Printed :=
  let view := submission_view outcome in
  let shown := print global view (println (submission_text local_timestamp (color global) view)) in
  match outcome with
  | SO_CommittedUnsupervised _ error =>
    mk_printed (pr_out shown) (pr_err shown ++ pr_err (eprintln (lit "Job was saved, but " ++ ack_text error)))
  | _ => shown
  end.

(** [run_management], [run_service] and [run_schedule] on a result: what is
    printed and the exit code. *)
Definition finish {A} (render : GlobalArgs -> A -> Printed) (exit : A -> Z) (global : GlobalArgs) (r : result CliError A) : Printed * Z :=
  match r with
  | Ok answer => (render global answer, exit answer)
  | Err e => (print_error (gl_json global) (ce_code e) (cause_text (ce_cause e)), ce_exit e)
  end.
Definition run_management := finish render_answer (fun _ => 0).
Definition run_service := finish render_service (fun _ => 0).
Definition run_schedule (ack_text : SupervisorAckError -> str) :=
  finish (render_submission ack_text)
    (fun outcome => match outcome with SO_CommittedUnsupervised _ _ => 11 | _ => 0 end).
End Printing.

(** ** Documented errors *)

Definition EXIT_CODES : list (Z * str) :=
  [(2, lit "INVALID_ARGUMENT"); (3, lit "JOB_NOT_FOUND"); (4, lit "STATE_CONFLICT"); (5, lit "CAPABILITY_UNAVAILABLE");
   (10, lit "STORAGE_ERROR"); (11, lit "SUPERVISION_ERROR"); (12, lit "PERMISSION_ERROR"); (70, lit "INTERNAL_ERROR")].
Definition documented (e : CliError) : Prop := In (ce_exit e, ce_code e) EXIT_CODES.
Definition documents {S A} (m : Port S CliError A) : Prop := forall s e s', m s = (Err e, s') -> documented e.

Lemma documented_usage c : documented (cli_usage c). Proof. by left. Qed.
Lemma documented_not_found c : documented (cli_not_found c). Proof. by right; left. Qed.
Lemma documented_conflict c : documented (cli_conflict c). Proof. by do 2 right; left. Qed.
Lemma documented_capability c : documented (cli_capability c). Proof. by do 3 right; left. Qed.
Lemma documented_storage c : documented (cli_storage c). Proof. by do 4 right; left. Qed.
Lemma documented_supervision c : documented (cli_supervision c). Proof. by do 5 right; left. Qed.
Lemma documented_permission c : documented (cli_permission c). Proof. by do 6 right; left. Qed.
Lemma documented_internal c : documented (cli_internal c). Proof. by do 7 right; left. Qed.
Create HintDb cli.
#[export] Hint Resolve documented_usage documented_not_found documented_conflict documented_capability documented_storage
  documented_supervision documented_permission documented_internal : cli.

Lemma documented_management e : documented (management_cli_error e).
Proof. destruct e; cbn [management_cli_error]; auto with cli. Qed.
Lemma documented_output e : documented (output_cli_error e).
Proof. destruct e; cbn [output_cli_error]; auto with cli. Qed.
#[export] Hint Resolve documented_management documented_output : cli.

Section Documents.
Context {S : Type}.
Lemma documents_ret {A} (a : A) : documents (mret a : Port S CliError A). Proof. by intros s e s'. Qed.
Lemma documents_bind {A B} (m : Port S CliError A) (f : A -> Port S CliError B) :
  documents m -> (forall a, documents (f a)) -> documents (m ≫= f).
Proof. intros Hm Hf s e s' [(a & s1 & _ & H)|(e' & H & [= <-])]%port_bind_inv; [by eapply Hf | by eapply Hm]. Qed.
Lemma documents_err {E A} (f : E -> CliError) (m : Port S E A) : (forall e, documented (f e)) -> documents (port_err f m).
Proof. intros Hf s e s'. rewrite port_err_run. destruct (m s).1; [done|]. intros [= <- _]. apply Hf. Qed.
Lemma documents_pure {A} (r : result CliError A) : (forall e, r = Err e -> documented e) -> documents (pure_cli r : Port S CliError A).
Proof. intros Hr s e s' [= -> _]. by apply Hr. Qed.
Lemma documents_map_err {E A} (f : E -> CliError) (r : result E A) e : (forall e, documented (f e)) -> map_err f r = Err e -> documented e.
Proof. intros Hf (e' & _ & ->)%map_err_err. apply Hf. Qed.
Lemma documented_bind {A B} (r : result CliError A) (f : A -> result CliError B) e :
  (forall e, r = Err e -> documented e) -> (forall a, f a = Err e -> documented e) -> r ≫= f = Err e -> documented e.
Proof. intros Hr Hf [E|(a & _ & E)]%bind_err; eauto. Qed.
End Documents.
#[export] Hint Resolve documents_ret documents_bind documents_err documents_pure documents_map_err : cli.

Lemma native_service_manager_documented site e : native_service_manager site = Err e -> documented e.
Proof.
  unfold native_service_manager. destruct (mg_home site) as [home|]; [|intros [= <-]; auto with cli].
  destruct (negb _); [intros [= <-]; auto with cli|].
  apply documented_bind; [intros ?; apply documents_map_err; auto with cli|intros exe].
  apply documented_bind; [intros ?; apply documents_map_err; auto with cli|done].
Qed.

(** The service commands. *)
Lemma service_operation_documents {S} `{ServiceManager S} paths private_state private_runtime site action :
  documents (service_operation paths private_state private_runtime site action).
Proof.
  unfold service_operation. apply documents_bind; [apply documents_pure; intros ?; apply documents_map_err; auto with cli|intros _].
  apply documents_bind.
  { apply documents_pure. intros e. destruct action; [done| |done].
    apply documented_bind; [intros ?; apply documents_map_err; auto with cli|intros _; apply documents_map_err; auto with cli]. }
  intros _. apply documents_bind; [apply documents_pure, native_service_manager_documented|intros _].
  destruct action; apply documents_bind; auto with cli.
Qed.

(** The scheduling command. *)
Lemma prepare_documented `{Civil} toml tz_known fresh args p e : prepare toml tz_known fresh args p = Err e -> documented e.
Proof.
  unfold prepare. do 5 (apply documented_bind; [intros ?; apply documents_map_err; auto with cli|intros ?]).
  destruct (bool_decide _); [|done]. apply documented_bind; [intros ?; apply native_service_manager_documented|intros _].
  apply documented_bind; [intros ?; apply documents_map_err; auto with cli|intros [installed running]].
  destruct (_ || _); [intros [= <-]; auto with cli|done].
Qed.
Lemma schedule_documents `{Civil} {S} `{SubmissionPorts S} toml tz_known fresh args p :
  documents (schedule toml tz_known fresh args p).
Proof.
  unfold schedule. apply documents_bind; [apply documents_pure; intros e; apply prepare_documented|intros job].
  destruct (so_dry_run args); [auto with cli|]. 
  apply documents_bind; [apply documents_pure; intros e; apply documents_map_err; auto with cli|intros _].
  apply documents_bind; [apply documents_pure; intros e; apply documents_map_err; auto with cli|auto with cli].
Qed.

Section ManageProperties.
Context {S : Type} `{ManagementStore S} `{RunOutputStore S}.
Variable cancel_job : str -> DurationSeconds -> Port S ManagementError Job.
Variable acknowledge : JobId -> Revision -> Port S Empty_set (result SupervisorAckError unit).
Variable canonicalize : str -> option str.
Variable is_file : str -> option bool.
Variable read : str -> result str str.
Variable now : result ClockError UtcTimestamp.
Variable boot : result ClockError str.
Variable classify : str -> ProcessIdentitySnapshot -> result Identity.ProcessError Identity.IdentityStatus.

(** *** The list of processes *)

Definition alive (boot : str) (identity : ProcessIdentitySnapshot) : bool :=
  match classify boot identity with Ok Identity.Alive => true | _ => false end.
Definition role_views (boot : str) (run : Run) : list ProcessView :=
  omap (fun '(role, identity) => identity ← identity;
    if alive boot identity then Some (process_view run role identity) else None) (roles run).

Lemma live_roles_spec b run l :
  match live_roles classify b run l with
  | Ok views =>
    views = omap (fun '(role, identity) => identity ← identity; if alive b identity then Some (process_view run role identity) else None) l /\
    Forall (fun p => forall i, p.2 = Some i -> is_ok (classify b i) = true) l
  | Err e => exists i c, e = cli_internal (CA_Inspection c) /\ classify b i = Err c /\ Exists (fun p => p.2 = Some i) l
  end.
Proof.
  induction l as [|[role [i|]] l IH]; cbn [live_roles]; [done| |].
  - destruct (classify b i) as [st|c] eqn:Ec; cbn [map_err mbind result_bind].
    + destruct (live_roles classify b run l) as [views|e]; cbn [mbind result_bind].
      * destruct IH as [-> Hall]. split.
        -- assert (Ha : alive b i = match st with Identity.Alive => true | _ => false end) by (unfold alive; by rewrite Ec).
           cbn [omap list_omap mbind option_bind]. rewrite Ha. by destruct st.
        -- constructor; [|done]. intros j [= <-]. by rewrite Ec.
      * destruct IH as (j & c & ? & ? & ?). exists j, c. split_and!; [done..|]. by right.
    + exists i, c. split_and!; [done..|]. by left.
  - destruct (live_roles classify b run l) as [views|e].
    + destruct IH as [-> Hall]. split; [done|]. by constructor.
    + destruct IH as (j & c & ? & ? & ?). exists j, c. split_and!; [done..|]. by right.
Qed.

Lemma live_processes_spec b runs :
  match live_processes classify b runs with
  | Ok views => views = concat (map (role_views b) runs)
  | Err e => exists run i c, In run runs /\ e = cli_internal (CA_Inspection c) /\ classify b i = Err c /\
               (run_monitor_identity run = Some i \/ run_command_identity run = Some i)
  end.
Proof.
  induction runs as [|run runs IH]; cbn [live_processes]; [done|]. pose proof (live_roles_spec b run (roles run)) as Hr.
  destruct (live_roles classify b run (roles run)) as [views|e]; cbn [mbind result_bind].
  - destruct Hr as [-> _]. destruct (live_processes classify b runs) as [rest|e]; cbn [mbind result_bind].
    + by rewrite IH.
    + destruct IH as (run' & i & c & ? & ?). exists run', i, c. split; [by right|done].
  - destruct Hr as (i & c & -> & Hc & Hex). exists run, i, c. split_and!; [by left|done|done|].
    unfold roles in Hex. rewrite !Exists_cons in Hex. destruct Hex as [?|[?|?%Exists_nil]]; [by left|by right|done].
Qed.

(** What [atx ps] lists: of the active runs, in their
    order, the monitor and then the command, each exactly when its identity
    has just been classified as that of a live process; a process that cannot
    be inspected makes the command fail, none is guessed. *)
Theorem ps_spec runs :
  match render_processes boot classify runs with
  | Ok views => runs = [] /\ views = [] \/ exists b, boot = Ok b /\ views = concat (map (role_views b) runs)
  | Err e => e = cli_internal (ce_cause e) /\ runs <> [] /\
      ((exists c, boot = Err c) \/ exists b run i c, boot = Ok b /\ In run runs /\ classify b i = Err c /\
         (run_monitor_identity run = Some i \/ run_command_identity run = Some i))
  end.
Proof.
  unfold render_processes. destruct runs as [|run runs]; [by left|]. cbn [is_empty]. destruct boot as [b|c]; cbn [map_err mbind result_bind].
  - pose proof (live_processes_spec b (run :: runs)) as Hl. destruct (live_processes classify b (run :: runs)) as [views|e].
    + right. by exists b.
    + destruct Hl as (r & i & c & Hin & -> & Hc & Hi). split; [done|]. split; [done|]. right. by exists b, r, i, c.
  - split; [done|]. split; [done|]. left. by exists c.
Qed.

(** *** Errors *)

Lemma render_processes_documented runs e : render_processes boot classify runs = Err e -> documented e.
Proof.
  intros E. pose proof (ps_spec runs) as Hs. rewrite E in Hs. destruct Hs as [-> _]. apply documented_internal.
Qed.
#[local] Hint Resolve render_processes_documented : cli.

Lemma manage_store_documents state_directory cancel_grace command :
  documents (manage_store cancel_job acknowledge canonicalize is_file read now boot classify state_directory cancel_grace command).
Proof.
  destruct command; cbn [manage_store]; unfold managed.
  - apply documents_bind; auto with cli.
  - apply documents_bind; [auto with cli|intros j]. apply documents_bind; auto with cli.
  - apply documents_bind; [auto with cli|intros j]. apply documents_bind; auto with cli.
  - apply documents_bind; auto with cli.
  - apply documents_bind; [auto with cli|intros runs]. apply documents_bind; [|auto with cli].
    apply documents_pure, render_processes_documented.
  - apply documents_bind; [|intros g; apply documents_bind; auto with cli].
    apply documents_pure. intros e. destruct grace; [apply documents_map_err; auto with cli|done].
  - apply documents_bind; [auto with cli|intros j]. apply documents_bind; [|intros []; apply documents_bind; auto with cli].
    match goal with |- documents (if ?b then _ else _) => destruct b end; [apply documents_bind|]; auto with cli.
  - apply documents_bind; [apply documents_pure; intros e; apply documents_map_err; auto with cli|intros t].
    apply documents_bind; [auto with cli|intros j]. apply documents_bind; [by apply documents_err|intros r].
    apply documents_bind; [apply documents_pure; intros e; apply documents_map_err; auto with cli|auto with cli].
Qed.

Lemma manage_documents o command :
  documents (manage cancel_job acknowledge canonicalize is_file read now boot classify o command).
Proof.
  unfold manage. apply documents_bind; [|intros [[[] sd] config]; [apply manage_store_documents|]]; apply documents_pure; intros e.
  - unfold open_management. apply documented_bind; [intros ?; apply documents_map_err; auto with cli|intros p].
    apply documented_bind; [intros ?; apply documents_map_err; auto with cli|intros c]. destruct (negb _); [done|].
    apply documented_bind; [intros ?; apply documents_map_err; auto with cli|done].
  - unfold manage_without_database. destruct command as [| |[]| | | | |]; try done; intros [= <-]; auto with cli.
Qed.
End ManageProperties.

(** *** Channels *)

Section Channels.
Variable to_string : forall T : Type, SuccessEnvelope T -> result str str.
Variable error_to_string : ErrorEnvelope -> result str str.
Variable cause_text : Cause -> str.
Variable local_timestamp : UtcTimestamp -> str.
Variable stdout_is_terminal : bool.
Variable now : UtcTimestamp.
(** The printer of JSON succeeds and its compact form is on one line. *)
Hypothesis to_string_line : forall T v, exists line, to_string T v = Ok line /\ ~ In 10 line.
Hypothesis error_line : forall v, exists line, error_to_string v = Ok line /\ ~ In 10 line.

(** The document of the value of an answer. *)
Definition document {T} (value : T) : result str str := to_string T (mk_success 1 true value).
Definition answer_document (answer : Answer) : result str str :=
  match answer with
  | AN_Jobs jobs => document (map (fun job => view_job job now) jobs)
  | AN_Job job _ => document (view_job job now)
  | AN_Runs runs => document (map run_view runs)
  | AN_Output output => document (run_output_view output)
  | AN_Processes processes => document processes
  end.
Definition service_document (answer : ServiceAnswer) : result str str :=
  match answer with SN_Status status => document status | SN_Change change => document change end.
(** One document on one line, and nothing else. *)
Definition prints_line (document : result str str) (text : str) : Prop :=
  exists line, document = Ok line /\ text = line ++ [10] /\ ~ In 10 line.

(** What a successful command prints. *)
Definition succeeds (global : GlobalArgs) (doc : result str str) (p : Printed) : Prop :=
  pr_err p = [] /\ (if gl_json global then prints_line doc (pr_out p) else gl_quiet global = true -> pr_out p = []).
(** What a failed command prints. *)
Definition fails_with (global : GlobalArgs) (e : CliError) (p : Printed) : Prop :=
  pr_out p = [] /\
  if gl_json global then
    prints_line (error_to_string (mk_error 1 false (mk_error_body (ce_code e) (cause_text (ce_cause e)) (remediation (ce_code e))))) (pr_err p)
  else pr_err p = lit "atx: " ++ cause_text (ce_cause e) ++ [10].

Lemma print_succeeds {T} (global : GlobalArgs) (value : T) human :
  pr_err human = [] -> succeeds global (document value) (print to_string global value human).
Proof.
  intros Hh. unfold print, succeeds. destruct (gl_json global).
  - unfold print_json_success, json_success. destruct (to_string_line _ (mk_success SCHEMA_VERSION true value)) as (line & E & ?).
    rewrite E. split; [done|]. by exists line.
  - destruct (gl_quiet global); by split.
Qed.
Lemma render_answer_succeeds global answer :
  succeeds global (answer_document answer) (render_answer to_string local_timestamp stdout_is_terminal now global answer).
Proof. destruct answer; by apply print_succeeds. Qed.
Lemma render_service_succeeds global answer : succeeds global (service_document answer) (render_service to_string global answer).
Proof. destruct answer; by apply print_succeeds. Qed.

Lemma print_error_fails global e :
  fails_with global e (print_error error_to_string (gl_json global) (ce_code e) (cause_text (ce_cause e))).
Proof.
  unfold print_error, fails_with. destruct (gl_json global).
  - unfold json_error. destruct (error_line (mk_error SCHEMA_VERSION false
      (mk_error_body (ce_code e) (cause_text (ce_cause e)) (remediation (ce_code e))))) as (line & E & ?).
    rewrite E. split; [done|]. by exists line.
  - split; [done|]. unfold eprintln. cbn [pr_err]. by rewrite <- (assoc_L (++)).
Qed.

Section Management.
Context {S : Type} `{ManagementStore S} `{RunOutputStore S}.
Variable cancel_job : str -> DurationSeconds -> Port S ManagementError Job.
Variable acknowledge : JobId -> Revision -> Port S Empty_set (result SupervisorAckError unit).
Variable canonicalize : str -> option str.
Variable is_file : str -> option bool.
Variable read : str -> result str str.
Variable clock : result ClockError UtcTimestamp.
Variable boot : result ClockError str.
Variable classify : str -> ProcessIdentitySnapshot -> result Identity.ProcessError Identity.IdentityStatus.

(** A management command keeps its channels apart and its exit code
    documented, whatever the store, the clocks and the processes answer: it
    exits 0 exactly when it succeeded, with nothing on standard error and on
    standard output the one-line JSON document of its answer under [--json],
    or nothing under [--quiet]; otherwise it exits with a code of the
    documented table and its name, leaves standard output empty and writes
    one error envelope, or one message, to standard error. *)
Theorem management_channels global o command s :
  let r := (manage cancel_job acknowledge canonicalize is_file read clock boot classify o command s).1 in
  let '(printed, exit) :=
    run_management to_string error_to_string cause_text local_timestamp stdout_is_terminal now global r in
  (exit = 0 <-> is_ok r = true) /\
  match r with
  | Ok answer => succeeds global (answer_document answer) printed
  | Err e => In (exit, ce_code e) EXIT_CODES /\ fails_with global e printed
  end.
Proof.
  intros r. subst r. pose proof (manage_documents cancel_job acknowledge canonicalize is_file read clock boot classify o command s) as Hd.
  destruct (manage _ _ _ _ _ _ _ _ o command s) as [[answer|e] s']; cbn [run_management finish fst].
  - split; [done|]. apply render_answer_succeeds.
  - specialize (Hd e s' eq_refl). split; [|split; [exact Hd|apply print_error_fails]].
    split; [|done]. intros E0. unfold documented in Hd. rewrite E0 in Hd. repeat (destruct Hd as [[=]|Hd]); done.
Qed.
End Management.
End Channels.

(** ** Witnesses *)

Module CommandsExample.
Export RecoveryExample ServicesExample.
Definition document0 (T : Type) (e : SuccessEnvelope T) : result str str := Ok (if se_ok T e then lit "{ok}" else lit "{}").
Definition error0 (e : ErrorEnvelope) : result str str :=
  Ok (filter (fun c => c <> 10) (lit "{" ++ eb_code (ee_error e) ++ lit "}")).
Definition cause0 (c : Cause) : str := match c with CA_Management ME_NotFound => lit "job not found" | _ => lit "error" end.
Definition opening0 : Opening := mk_opening (Ok (lit "/state")) (Ok ConfigExample.config0) true (Ok tt).
Definition json0 : GlobalArgs := mk_global false false true None None.
Definition shown0 (prefix : str) : result CliError Answer :=
  (manage (fun _ _ => mret job0) (fun _ _ => mret (Ok tt)) (fun p => Some p) (fun _ => Some true) (fun _ => Ok [])
     (Ok 0) (Ok []) (fun _ _ => Ok Identity.Alive) opening0 (MC_Show prefix) active_world).1.
Definition run0 (prefix : str) : Printed * Z :=
  run_management document0 error0 cause0 (fun _ => []) false 0 json0 (shown0 prefix).
Lemma shown0_eq prefix :
  shown0 prefix = (manage (fun _ _ => mret job0) (fun _ _ => mret (Ok tt)) (fun p => Some p) (fun _ => Some true)
    (fun _ => Ok []) (Ok 0) (Ok []) (fun _ _ => Ok Identity.Alive) opening0 (MC_Show prefix) active_world).1.
Proof. reflexivity. Qed.
Lemma run0_eq prefix :
  run0 prefix = run_management document0 error0 cause0 (fun _ => []) false 0 json0 (shown0 prefix).
Proof. reflexivity. Qed.
Lemma document0_line T v : exists line, document0 T v = Ok line /\ ~ In 10 line.
Proof. eexists. split; [reflexivity|]. destruct (se_ok T v); vm_compute; intuition discriminate. Qed.
Lemma error0_line v : exists line, error0 v = Ok line /\ ~ In 10 line.
Proof. eexists. split; [reflexivity|]. rewrite <- list_elem_of_In, list_elem_of_filter. by intros [[] _]. Qed.
Lemma shown0_ok : is_ok (shown0 prefix0) = true. Proof. vm_compute. reflexivity. Qed.
Lemma shown0_missing : shown0 (lit "zz") = Err (cli_not_found (CA_Management ME_NotFound)). Proof. vm_compute. reflexivity. Qed.
End CommandsExample.
Import CommandsExample.

(** [atx --json show] of a job that exists and of one that does not. *)
Lemma management_channels_witness :
  (exists answer, shown0 prefix0 = Ok answer /\ run0 prefix0 = (println (lit "{ok}"), 0) /\
     succeeds json0 (answer_document document0 0 answer) (run0 prefix0).1) /\
  (run0 (lit "zz") = (eprintln (lit "{JOB_NOT_FOUND}"), 3) /\
     fails_with error0 cause0 json0 (cli_not_found (CA_Management ME_NotFound)) (run0 (lit "zz")).1).
Proof.
  pose proof (management_channels document0 error0 cause0 (fun _ => []) false 0 document0_line error0_line
    (fun _ _ => mret job0) (fun _ _ => mret (Ok tt)) (fun p => Some p) (fun _ => Some true) (fun _ => Ok [])
    (Ok 0) (Ok []) (fun _ _ => Ok Identity.Alive) json0 opening0) as X.
  split.
  - specialize (X (MC_Show prefix0) active_world). cbv beta zeta in X. rewrite <- shown0_eq in X. rewrite run0_eq.
    pose proof shown0_ok as Ha. destruct (shown0 prefix0) as [answer|e]; [|done].
    exists answer. split; [done|]. split; [destruct answer; reflexivity|]. destruct X as [_ X]. exact X.
  - specialize (X (MC_Show (lit "zz")) active_world). cbv beta zeta in X. rewrite <- shown0_eq, shown0_missing in X.
    rewrite run0_eq, shown0_missing. split; [reflexivity|]. destruct X as [_ [_ X]]. exact X.
Defined.

(** The history of [active_world] is its one run, that has not ended. *)
Example history_live_ex :
  match (manage (fun _ _ => mret job0) (fun _ _ => mret (Ok tt)) (fun p => Some p) (fun _ => Some true) (fun _ => Ok [])
     (Ok 0) (Ok []) (fun _ _ => Ok Identity.Alive) opening0 (MC_History None 100) active_world).1 with
  | Ok (AN_Runs runs) => map (fun run => (run_state run, run_is_terminal (run_state run))) runs
  | _ => []
  end = [(RS_Running, false)].
Proof. vm_compute. reflexivity. Qed.
