(* ===== verification/Args.v ===== *)
(** The command line of [src/cli/args.rs]: what a parsed command line is, the
    reordering of the arguments before clap parses them, and the checks
    after it.

    The parser that clap derives, and the texts of its errors, are arguments;
    the names of the commands and of the options that take a value are those
    of the source's attributes. *)

From S2P Require Import Prelude Text Lossy Primitives Duration Identifier States Recurrence Execution JobAgg RunAgg.
From S2P Require Import Services History Config Submit Commands.

Inductive CompletionShell := CS_Bash | CS_Zsh | CS_Fish | CS_PowerShell.

(** [ManagementCommand] of the source: those that [manage] answers, and the
    others. *)
Inductive CliCommand :=
| CC_Managed (command : ManagementCommand)
| CC_Doctor
| CC_Service (action : ServiceAction)
| CC_Version
| CC_Completions (shell : CompletionShell)
| CC_Supervisor (state_dir runtime_dir : str) (service_managed : bool)
| CC_Monitor (state_dir runtime_dir job run : str).

(** What clap makes of the arguments. *)
Record RawCli := mk_raw_cli { rw_schedule : SchedulingArgs; rw_management : option CliCommand }.

Inductive ParsedCli :=
| PC_Schedule (args : SchedulingArgs)
| PC_Management (global : GlobalArgs) (command : CliCommand).

(** [clap::Error]: those of clap, with [use_stderr], and the two of the
    program. *)
Inductive UsageError :=
| UE_Clap (use_stderr : bool) (text : str)
| UE_MissingArgv
| UE_WhenOrEvery.
Definition use_stderr (e : UsageError) : bool := match e with UE_Clap b _ => b | _ => true end.

(** ** The order of the arguments *)

Definition MANAGEMENT_NAMES : list str :=
  [lit "list"; lit "ls"; lit "show"; lit "cancel"; lit "rm"; lit "run"; lit "ps"; lit "history"; lit "output"; lit "doctor"; lit "service"; lit "version";
           lit "completions"; lit "help"; lit "__supervisor"; lit "__monitor"; lit "__man"].
Definition is_management_name (value : str) : bool := bool_decide (value ∈ MANAGEMENT_NAMES).

(** The long options of [RawCli] that take a value: of [GlobalArgs] and of
    [ScheduleOptions]. *)
Definition VALUE_OPTIONS : list str :=
  [lit "color"; lit "state-dir"; lit "tz"; lit "dst"; lit "cwd"; lit "name"; lit "description"; lit "env"; lit "env-file"; lit "missed"; lit "every"].
Definition option_takes_value (value : str) : bool :=
  match (span (fun b => negb (b =? 61)) value).1 with
  | 45 :: 45 :: long => bool_decide (long ∈ VALUE_OPTIONS)
  | _ => false
  end.

(** The loop: the place of the command among the arguments after the program. *)
Fixpoint management_index (skip_value : bool) (args : list str) : option nat :=
  match args with
  | [] => None
  | argument :: rest =>
    if skip_value then S <$> management_index false rest else
    let value := from_utf8_lossy argument in
    if bool_decide (value = lit "--") then None else
    if option_takes_value value then S <$> management_index (negb (contains_byte 61 value)) rest else
    if is_management_name argument then Some O else S <$> management_index false rest
  end.

Definition normalize_management_order (args : list str) : list str :=
  match args with
  | program :: (first :: _ :: _) as rest =>
    if is_management_name first then args else
    match management_index false rest with
    | Some index => program :: default [] (rest !! index) :: delete index rest
    | None => args
    end
  | _ => args
  end.

(** ** [parse_from] *)

Section Parse.
(** [RawCli::try_parse_from] *)
Variable try_parse : list str -> result (bool * str) RawCli.

Definition parse_from (args : list str) : result UsageError ParsedCli :=
  raw ← map_err (fun '(b, text) => UE_Clap b text) (try_parse (normalize_management_order args));
  match rw_management raw with
  | Some command => Ok (PC_Management (sa_global (rw_schedule raw)) command)
  | None =>
    if is_empty (sa_argv (rw_schedule raw)) then Err UE_MissingArgv else
    if bool_decide (is_empty (sa_when (rw_schedule raw)) = negb (is_some (so_every (rw_schedule raw)))) then Err UE_WhenOrEvery else
    Ok (PC_Schedule (rw_schedule raw))
  end.
End Parse.

Example normalize_ex :
  map normalize_management_order
    [[lit "atx"; lit "--state-dir"; lit "/tmp/atx"; lit "ls"; lit "--limit"; lit "7"];
     [lit "atx"; lit "--name"; lit "list"; lit "--description=show"; lit "30s"; lit "--"; lit "true"];
     [lit "atx"; lit "30s"; lit "--"; lit "list"]] =
    [[lit "atx"; lit "ls"; lit "--state-dir"; lit "/tmp/atx"; lit "--limit"; lit "7"];
     [lit "atx"; lit "--name"; lit "list"; lit "--description=show"; lit "30s"; lit "--"; lit "true"];
     [lit "atx"; lit "30s"; lit "--"; lit "list"]].
Proof. reflexivity. Qed.

(** ** What the reordering is *)

(** An argument of its own is the separator, an option that waits for its
    value, a command, or another one. *)
Inductive ArgumentKind := AK_Separator | AK_Option | AK_Command | AK_Plain.
Definition kind_of (argument : str) : ArgumentKind :=
  let value := from_utf8_lossy argument in
  if bool_decide (value = lit "--") then AK_Separator else
  if option_takes_value value then (if contains_byte 61 value then AK_Plain else AK_Option) else
  if is_management_name argument then AK_Command else AK_Plain.

(** Arguments without a command or a separator, the values of options aside. *)
Inductive options : list str -> Prop :=
| options_nil : options []
| options_plain a l : kind_of a = AK_Plain -> options l -> options (a :: l)
| options_value a v l : kind_of a = AK_Option -> options l -> options (a :: v :: l).

Lemma management_index_step argument rest :
  management_index false (argument :: rest) =
  match kind_of argument with
  | AK_Separator => None
  | AK_Command => Some O
  | AK_Option => S <$> management_index true rest
  | AK_Plain => S <$> management_index false rest
  end.
Proof.
  cbn [management_index]. unfold kind_of. destruct (bool_decide _); [done|].
  destruct (option_takes_value _); [destruct (contains_byte _ _); done|]. by destruct (is_management_name argument).
Qed.
Lemma management_index_options pre rest :
  options pre -> management_index false (pre ++ rest) = Nat.add (length pre) <$> management_index false rest.
Proof.
  induction 1 as [|a l Ha _ IH|a v l Ha _ IH]; cbn [app length].
  - by destruct (management_index false rest).
  - rewrite management_index_step, Ha, IH. by destruct (management_index false rest).
  - rewrite management_index_step, Ha. cbn [management_index]. rewrite IH. by destruct (management_index false rest).
Qed.

(** Every list of arguments is options and then its first command or
    separator, an option without its value, or nothing. *)
Lemma options_split l :
  exists pre tail, options pre /\ l = pre ++ tail /\
  match tail with
  | [] => True
  | a :: post => match kind_of a with AK_Plain => False | AK_Option => post = [] | _ => True end
  end.
Proof.
  remember (length l) as n eqn:Hn. assert (Hl : (length l <= n)%nat) by lia. clear Hn. revert l Hl.
  induction n as [|n IH]; intros l Hl; [destruct l; [|cbn in Hl; lia]; exists [], []; by split_and!; [constructor|..]|].
  destruct l as [|a l]; [exists [], []; by split_and!; [constructor|..]|]. cbn in Hl. destruct (kind_of a) eqn:Ea.
  - exists [], (a :: l). rewrite Ea. by split_and!; [constructor|..].
  - destruct l as [|v l]; [exists [], [a]; rewrite Ea; by split_and!; [constructor|..]|]. cbn in Hl.
    destruct (IH l ltac:(lia)) as (pre & tail & ? & -> & ?). exists (a :: v :: pre), tail. by split_and!; [constructor|..].
  - exists [], (a :: l). rewrite Ea. by split_and!; [constructor|..].
  - destruct (IH l ltac:(lia)) as (pre & tail & ? & -> & ?). exists (a :: pre), tail. by split_and!; [constructor|..].
Qed.

Lemma management_name_kind name : is_management_name name = true -> kind_of name = AK_Command.
Proof.
  unfold is_management_name. rewrite bool_decide_eq_true. revert name. apply Forall_forall.
  repeat constructor.
Qed.
Lemma kind_management_name name : kind_of name = AK_Command -> is_management_name name = true.
Proof.
  unfold kind_of. set (value := from_utf8_lossy name).
  by destruct (bool_decide (value = lit "--")), (option_takes_value value), (contains_byte 61 value), (is_management_name name).
Qed.

(** A command after options is moved before them, anything else is left. *)
Lemma normalize_command program pre name post :
  options pre -> kind_of name = AK_Command ->
  normalize_management_order (program :: pre ++ name :: post) = program :: name :: pre ++ post.
Proof.
  intros Hp Hn. destruct pre as [|a pre].
  { cbn [app normalize_management_order]. by destruct post; [|rewrite (kind_management_name name Hn)]. }
  assert (is_management_name a = false) as Ha.
  { destruct (is_management_name a) eqn:E; [|done]. apply management_name_kind in E. inversion Hp; congruence. }
  pose proof (management_index_options (a :: pre) (name :: post) Hp) as Hi. rewrite management_index_step, Hn in Hi.
  cbn [option_fmap option_map fmap] in Hi. rewrite Nat.add_0_r in Hi.
  assert (exists b rest, pre ++ name :: post = b :: rest) as (b & rest & Er) by (destruct pre; eauto).
  cbn [app] in Hi |- *. cbn [normalize_management_order]. rewrite Er in Hi |- *. rewrite Ha, Hi, <- Er.
  change (a :: pre ++ name :: post) with ((a :: pre) ++ name :: post). rewrite list_lookup_middle by done.
  rewrite delete_middle. done.
Qed.
Lemma normalize_other program pre tail :
  options pre -> management_index false tail = None -> (tail = [] \/ exists a post, tail = a :: post /\ kind_of a <> AK_Command) ->
  normalize_management_order (program :: pre ++ tail) = program :: pre ++ tail.
Proof.
  intros Hp Ht Hh. pose proof (management_index_options pre tail Hp) as Hi. rewrite Ht in Hi. cbn in Hi.
  unfold normalize_management_order. destruct (pre ++ tail) as [|first [|second rest]] eqn:E; [done..|].
  destruct (is_management_name first) eqn:Ef; [done|]. by rewrite Hi.
Qed.

(** C40 (equivalence).  The reordering of the command line is exactly this: the
    arguments after the program are options with their values, then a
    command, a separator, an option without its value, or nothing; a command is
    moved before the options, so that clap reads it first, and every other
    command line is left as it is.  No argument is lost, added or changed, the
    values of options named like commands and what follows the separator stay
    in place, and reordering twice changes nothing more. *)
Theorem normalize_order args :
  let result := normalize_management_order args in
  match args with
  | [] => result = []
  | program :: rest =>
    exists pre tail, options pre /\ rest = pre ++ tail /\
    match tail with
    | [] => result = args
    | a :: post =>
      match kind_of a with
      | AK_Command => result = program :: a :: pre ++ post
      | AK_Separator => result = args
      | AK_Option => post = [] /\ result = args
      | AK_Plain => False
      end
    end
  end /\
  Permutation args result /\ normalize_management_order result = result.
Proof.
  cbv zeta. destruct args as [|program rest]; [done|]. destruct (options_split rest) as (pre & tail & Hp & -> & Ht).
  assert (forall E : normalize_management_order (program :: pre ++ tail) = program :: pre ++ tail,
    Permutation (program :: pre ++ tail) (normalize_management_order (program :: pre ++ tail)) /\
    normalize_management_order (normalize_management_order (program :: pre ++ tail)) = normalize_management_order (program :: pre ++ tail))
    as Hsame by (intros E; by rewrite !E).
  destruct tail as [|a post].
  { assert (E := normalize_other program pre [] Hp eq_refl (or_introl eq_refl)). split; [by exists pre, []|by apply Hsame]. }
  destruct (kind_of a) eqn:Ea; [| |clear Hsame|done].
  - assert (E : normalize_management_order (program :: pre ++ a :: post) = program :: pre ++ a :: post).
    { apply normalize_other; [done|by rewrite management_index_step, Ea|right; exists a, post; split; [done|congruence]]. }
    split; [|by apply Hsame]. exists pre, (a :: post). by rewrite Ea.
  - subst post. assert (E : normalize_management_order (program :: pre ++ [a]) = program :: pre ++ [a]).
    { apply normalize_other; [done|by rewrite management_index_step, Ea|right; exists a, []; split; [done|congruence]]. }
    split; [|by apply Hsame]. exists pre, [a]. by rewrite Ea.
  - pose proof (normalize_command program pre a post Hp Ea) as E. rewrite E. split_and!.
    + exists pre, (a :: post). by rewrite Ea.
    + constructor. symmetry. apply Permutation_middle.
    + apply (normalize_command program [] a (pre ++ post)); [constructor|done].
Qed.
