(* ===== verification/ServiceFile.v ===== *)
(** What the two service adapters of [src/infrastructure/service/] share: the
    file that registers the service and its temporary, the commands of the
    system's manager, and the interface [FileManager], what an adapter
    promises of that file to the lifecycle operations of [Services].

    The commands that are run are an argument with a state of its own; the
    file and its temporary are texts of which only this program writes, and
    every call on them may fail. *)

From S2P Require Import Prelude Text Lossy Primitives Services.

(** [std::process::Output] *)
Record Output := mk_output { out_success : bool; out_stdout : str; out_stderr : str }.

(** A call on a file: the error it fails with, and what a failed write has
    written before. *)
Record FileFault := mk_file_fault { ff_error : option str; ff_written : nat }.

(** [un_commands] records the commands in their order. *)
Record UnitWorld (M : Type) := mk_unit_world {
  un_file : option str;
  un_temporary : option str;
  un_faults : list FileFault;
  un_manager : M;
  un_commands : list (str * list str)
}.
Arguments mk_unit_world {M}.
Arguments un_file {M}.
Arguments un_temporary {M}.
Arguments un_faults {M}.
Arguments un_manager {M}.
Arguments un_commands {M}.

(** [str::replace] of one byte by a text *)
Definition replace_byte (c : Z) (by_ : str) (s : str) : str := concat (map (fun b => if b =? c then by_ else [b]) s).

Lemma replace_byte_flat c r s : replace_byte c r s = flat_map (fun b => if b =? c then r else [b]) s.
Proof. unfold replace_byte. by rewrite flat_map_concat_map. Qed.

Section Calls.
Context {M : Type}.
Variable run : str -> list str -> M -> result str Output * M.
Abbreviation Unit_ := (Port (UnitWorld M) ServiceManagerError).

Definition pure_unit {A} (r : result ServiceManagerError A) : Unit_ A := fun w => (r, w).

(** ** Calls *)

(** A call on the files: what it does when it succeeds and when it fails. *)
Definition file_call {A} (done : UnitWorld M -> result str (A * UnitWorld M)) (failed : nat -> UnitWorld M -> UnitWorld M)
  : Port (UnitWorld M) str A := fun w =>
  let fault := default (mk_file_fault None 0) (head (un_faults w)) in
  let w := mk_unit_world (un_file w) (un_temporary w) (tail (un_faults w)) (un_manager w) (un_commands w) in
  match ff_error fault with
  | Some e => (Err e, failed (ff_written fault) w)
  | None => match done w with Ok (a, w) => (Ok a, w) | Err e => (Err e, w) end
  end.
Definition set_files (w : UnitWorld M) (file temporary : option str) : UnitWorld M :=
  mk_unit_world file temporary (un_faults w) (un_manager w) (un_commands w).

Definition read_unit : Port (UnitWorld M) str (option str) := file_call (fun w => Ok (un_file w, w)) (fun _ w => w).
Definition plain_call : Port (UnitWorld M) str unit := file_call (fun w => Ok (tt, w)) (fun _ w => w).
Definition create_temporary : Port (UnitWorld M) str unit :=
  file_call (fun w => match un_temporary w with
                      | None => Ok (tt, set_files w (un_file w) (Some []))
                      | Some _ => Err (lit "File exists (os error 17)")
                      end) (fun _ w => w).
Definition write_temporary (text : str) : Port (UnitWorld M) str unit :=
  file_call (fun w => Ok (tt, set_files w (un_file w) (Some text)))
    (fun n w => set_files w (un_file w) (Some (take n text))).
Definition rename_temporary : Port (UnitWorld M) str unit :=
  file_call (fun w => Ok (tt, set_files w (un_temporary w) None)) (fun _ w => w).
Definition remove_temporary : Port (UnitWorld M) str unit :=
  file_call (fun w => Ok (tt, set_files w (un_file w) None)) (fun _ w => w).
Definition remove_unit : Port (UnitWorld M) str unit :=
  file_call (fun w => Ok (tt, set_files w None (un_temporary w))) (fun _ w => w).

Definition run_command (program : str) (args : list str) : Port (UnitWorld M) str Output := fun w =>
  let '(r, m) := run program args (un_manager w) in
  (r, mk_unit_world (un_file w) (un_temporary w) (un_faults w) m (un_commands w ++ [(program, args)])).

Definition manager_error (text : str) : ServiceManagerError := mk_service_manager_error text.
Definition require_success (command : str) (output : Output) : result ServiceManagerError unit :=
  if out_success output then Ok tt
  else Err (manager_error (command ++ lit " failed: " ++ trim (from_utf8_lossy (out_stderr output)))).

(** [is_ok_and(|output| ..)] *)
Definition succeeds {E} (m : Port (UnitWorld M) E Output) (p : Output -> bool) : Unit_ bool := fun w =>
  let '(r, w) := m w in (Ok match r with Ok output => out_success output && p output | Err _ => false end, w).

End Calls.

(** ** Operations that leave the file as it is *)

Section Files.
Context {M : Type}.
Variable run : str -> list str -> M -> result str Output * M.

Definition keeps_unit {E A} (m : Port (UnitWorld M) E A) : Prop := forall w, un_file (m w).2 = un_file w.

Lemma unit_kept_bind {E A B} (m : Port (UnitWorld M) E A) (f : A -> Port (UnitWorld M) E B) :
  keeps_unit m -> (forall a, keeps_unit (f a)) -> keeps_unit (m ≫= f).
Proof.
  intros Hm Hf w. specialize (Hm w). unfold mbind, port_bind. destruct (m w) as [[a|e] w1]; cbn in *; [|done].
  by rewrite Hf.
Qed.
Lemma unit_kept_ret {E A} (a : A) : keeps_unit (mret a : Port (UnitWorld M) E A).
Proof. done. Qed.
Lemma unit_kept_fail {E A} (e : E) : keeps_unit (port_fail e : Port (UnitWorld M) E A).
Proof. done. Qed.
Lemma unit_kept_pure {A} (r : result ServiceManagerError A) : keeps_unit (pure_unit r).
Proof. done. Qed.
Lemma unit_kept_err {E F A} (f : E -> F) (m : Port (UnitWorld M) E A) : keeps_unit m -> keeps_unit (port_err f m).
Proof. intros Hm w. specialize (Hm w). unfold port_err. by destruct (m w). Qed.
Lemma unit_kept_file_call {A} done failed :
  (forall w (a : A) w', done w = Ok (a, w') -> un_file w' = un_file w) -> (forall n w, un_file (failed n w) = un_file w) ->
  keeps_unit (file_call done failed).
Proof.
  intros Hd Hf w. unfold file_call. destruct (ff_error _); cbn; [by rewrite Hf|].
  destruct (done _) as [[a w']|e] eqn:E; cbn; [|done]. by rewrite (Hd _ _ _ E).
Qed.
Lemma unit_kept_run program args : keeps_unit (run_command run program args).
Proof. intros w. unfold run_command. by destruct (run program args _). Qed.
Lemma unit_kept_succeeds {E} (m : Port (UnitWorld M) E Output) p : keeps_unit m -> keeps_unit (succeeds m p).
Proof. intros Hm w. specialize (Hm w). unfold succeeds. by destruct (m w). Qed.

Ltac unit_kept := intros; simplify_eq/=; auto.
Lemma unit_kept_read : keeps_unit (@read_unit M). Proof. apply unit_kept_file_call; unit_kept. Qed.
Lemma unit_kept_plain : keeps_unit (@plain_call M). Proof. apply unit_kept_file_call; unit_kept. Qed.
Lemma unit_kept_create : keeps_unit (@create_temporary M).
Proof. apply unit_kept_file_call; [|done]. intros w a w'. destruct (un_temporary w); unit_kept. Qed.
Lemma unit_kept_write t : keeps_unit (@write_temporary M t). Proof. apply unit_kept_file_call; unit_kept. Qed.
Lemma unit_kept_remove : keeps_unit (@remove_temporary M). Proof. apply unit_kept_file_call; unit_kept. Qed.
(** An operation that keeps the unit, run. *)
Lemma unit_kept_after {E A} (m : Port (UnitWorld M) E A) w r w' : keeps_unit m -> m w = (r, w') -> un_file w' = un_file w.
Proof. intros Hm E'. specialize (Hm w). by rewrite E' in Hm. Qed.

Lemma pure_unit_inv {A} (r : result ServiceManagerError A) (w : UnitWorld M) x w' : pure_unit r w = (x, w') -> r = x /\ w' = w.
Proof. by intros [= -> ->]. Qed.

Lemma file_call_ok {A} done failed (w : UnitWorld M) (a : A) w' :
  file_call done failed w = (Ok a, w') ->
  exists w1, done w1 = Ok (a, w') /\ un_file w1 = un_file w /\ un_temporary w1 = un_temporary w.
Proof.
  unfold file_call. destruct (ff_error _); [done|]. destruct (done _) as [[a' w1]|e] eqn:E; [|done].
  intros [= -> ->]. by eexists; split; [exact E|].
Qed.

End Files.

Create HintDb unit.
#[export] Hint Resolve unit_kept_bind unit_kept_ret unit_kept_fail unit_kept_pure unit_kept_err unit_kept_run unit_kept_succeeds : unit.
#[export] Hint Resolve unit_kept_read unit_kept_plain unit_kept_create unit_kept_write unit_kept_remove : unit.

(** ** The interface

    [file] is the registered file in the state of the manager, [mine] the
    texts that are this program's. *)
Definition ours (mine : str -> Prop) (file : option str) : Prop := match file with None => True | Some t => mine t end.
(** What an operation may do with the file. *)
Definition unit_step {S} (file : S -> option str) (mine : str -> Prop) (w w' : S) : Prop :=
  file w' = file w \/ ours mine (file w) /\ ours mine (file w').

#[export] Instance unit_step_preorder {S} (file : S -> option str) mine : PreOrder (unit_step file mine).
Proof.
  split; [by left|]. intros a b c [Hab|[Ha Hb]] [Hbc|[Hb' Hc]].
  - left. congruence.
  - right. by rewrite <- Hab.
  - right. by rewrite Hbc.
  - by right.
Qed.

(** What a manager promises: its status reads the file and is an error when
    the file is not the program's; an installation that succeeds leaves the
    program's file, a removal that succeeds none; and no other file is
    touched. *)
Class FileManager (S : Type) `{ServiceManager S} (file : S -> option str) (mine : str -> Prop) : Prop := {
  fm_status : forall w r w', sm_status w = (r, w') -> file w' = file w /\
    match r with
    | Ok st => (if sv_installed st then exists t, mine t /\ file w = Some t else file w = None) /\
               (sv_running st = true -> sv_installed st = true)
    | Err _ => True
    end;
  fm_install : forall w r w', sm_install w = (r, w') -> unit_step file mine w w' /\
    match r with Ok _ => exists t, mine t /\ file w' = Some t | Err _ => True end;
  fm_uninstall : forall w r w', sm_uninstall w = (r, w') -> unit_step file mine w w' /\
    match r with Ok _ => file w' = None | Err _ => True end
}.

Section Lifecycle.
Context {S : Type} `{M : ServiceManager S} (file : S -> option str) (mine : str -> Prop) `{F : !FileManager S file mine}.
Abbreviation stepping := (unit_step file mine).

Lemma rollback_spec (w : S) error message r w' :
  @rollback_install S M error message w = (r, w') ->
  stepping w w' /\ ((r = Err error /\ file w' = None) \/ exists rollback, r = Err (SL_InstallRollback message rollback)).
Proof.
  unfold rollback_install.
  destruct (sm_uninstall w) as [[u|e] w1] eqn:E; intros [= <- <-]; apply fm_uninstall in E as [Hs Hf].
  - split; [done|]. by left.
  - split; [done|]. right. by eexists.
Qed.

(** A failed installation that ends with its rollback. *)
Ltac rolled_back Hi w :=
  apply rollback_spec in Hi as [? [[-> ?]|[? ->]]]; (split; [by transitivity w|done]).

Lemma install_service_spec (w : S) r w' :
  @install_service S M w = (r, w') ->
  stepping w w' /\
  match r with
  | Ok c => exists t, mine t /\ file w' = Some t /\ sv_running (sc_status c) = true
  | Err (SL_Install _) | Err (SL_IncompleteInstall _) => file w' = None
  | Err (SL_IncompleteUninstall _) => False
  | Err _ => True
  end.
Proof.
  unfold install_service.
  intros [(before & w1 & [Hk1 [Hst Hrun]]%port_err_ok%fm_status & Hi)|(e & He & ->)]%port_bind_inv.
  2: { rewrite port_err_run in He. injection He as He <-. destruct (sm_status w) as [[?|e0] w0] eqn:Es; [done|].
       apply fm_status in Es as [Hk _]. injection He as <-. split; [by left|done]. }
  assert (stepping w w1) as Hw1 by (by left).
  apply port_bind_inv in Hi as [(u & w2 & [= _ <-] & Hi)|(e & [= He <-] & ->)].
  2: { split; [done|]. unfold require_available in He. case_bool_decide; [done|]. by injection He as <-. }
  destruct (sv_installed before) eqn:Ein, (sv_running before) eqn:Er; cbn [andb] in Hi.
  { injection Hi as <- <-. split; [done|]. destruct Hst as (t & Ht & Hf). exists t. rewrite Hk1. by split_and!. }
  all: destruct (sm_install w1) as [[u'|e] w3] eqn:Ei; pose proof (fm_install _ _ _ Ei) as [Hs3 Hf3].
  all: assert (stepping w w3) as Hw3 by (by transitivity w1).
  all: try (rolled_back Hi w3).
  all: apply port_bind_inv in Hi as [(after & w4 & [Hk4 [Hst4 Hrun4]]%port_err_ok%fm_status & Hi)|(e & He & ->)].
  all: try (rewrite port_err_run in He; injection He as He <-;
    destruct (sm_status w3) as [[?|e0] w0] eqn:Es; [done|]; apply fm_status in Es as [Hk _]; injection He as <-;
    split; [transitivity w3; [done|by left]|done]).
  all: assert (stepping w w4) as Hw4 by (transitivity w3; [done|by left]).
  all: destruct (sv_installed after) eqn:Ein4, (sv_running after) eqn:Er4; cbn [negb orb] in Hi;
    try (rolled_back Hi w4).
  all: injection Hi as <- <-; split; [done|]; destruct Hst4 as (t & Ht & Hf); exists t; rewrite Hk4; by split_and!.
Qed.

Lemma uninstall_service_spec (w : S) r w' :
  @uninstall_service S M w = (r, w') ->
  stepping w w' /\ match r with Ok _ => file w' = None | Err _ => True end.
Proof.
  unfold uninstall_service.
  intros [(before & w1 & [Hk1 [Hst Hrun]]%port_err_ok%fm_status & Hi)|(e & He & ->)]%port_bind_inv.
  2: { rewrite port_err_run in He. injection He as He <-. destruct (sm_status w) as [[?|e0] w0] eqn:Es; [done|].
       apply fm_status in Es as [Hk _]. split; [by left|done]. }
  assert (stepping w w1) as Hw1 by (by left).
  apply port_bind_inv in Hi as [(u & w2 & [= _ <-] & Hi)|(e & [= He <-] & ->)]; [|by split].
  destruct (sv_installed before) eqn:Ein; cbn [negb] in Hi; [|injection Hi as <- <-; split; [done|congruence]].
  apply port_bind_inv in Hi as [(u' & w3 & [Hs3 Hf3]%port_err_ok%fm_uninstall & Hi)|(e & He & ->)].
  2: { rewrite port_err_run in He. injection He as He <-. split; [|done]. transitivity w1; [done|].
       destruct (sm_uninstall w1) as [x w3] eqn:Eu. by apply fm_uninstall in Eu as [? _]. }
  apply port_bind_inv in Hi as [(after & w4 & [Hk4 [Hst4 Hrun4]]%port_err_ok%fm_status & Hi)|(e & He & ->)].
  - assert (stepping w w4) as Hw4 by (transitivity w3; [by transitivity w1|by left]).
    destruct (sv_installed after), (sv_running after); cbn [orb] in Hi; injection Hi as <- <-; (split; [done|]); [done..|congruence].
  - rewrite port_err_run in He. injection He as He <-. split; [|done]. transitivity w3; [by transitivity w1|].
    destruct (sm_status w3) as [x w4] eqn:Es. apply fm_status in Es as [? _]. by left.
Qed.

(** The lifecycle operations over any manager that keeps its promise. *)
Lemma service_file_safe (removal : bool) w r w' :
  (if removal then uninstall_service w else install_service w) = (r, w') ->
  (file w' = file w \/ ours mine (file w') /\ ours mine (file w)) /\
  (forall c, file w = Some c -> ~ mine c -> file w' = Some c /\ is_ok r = false) /\
  match r with
  | Ok c => if removal then file w' = None
            else exists t, mine t /\ file w' = Some t /\ sv_running (sc_status c) = true
  | Err (SL_Install _) | Err (SL_IncompleteInstall _) => removal = false -> file w' = None
  | Err _ => True
  end.
Proof.
  intros Hr.
  assert (stepping w w' /\
    match r with
    | Ok c => if removal then file w' = None
              else exists t, mine t /\ file w' = Some t /\ sv_running (sc_status c) = true
    | Err (SL_Install _) | Err (SL_IncompleteInstall _) => removal = false -> file w' = None
    | Err _ => True
    end) as [Hs Hm].
  { destruct removal.
    - apply uninstall_service_spec in Hr as [Hs Hf]. split; [done|]. by destruct r as [|[]].
    - apply install_service_spec in Hr as [Hs Hf]. split; [done|]. by destruct r as [|[]]. }
  split; [destruct Hs as [?|[]]; [by left|by right]|]. split; [|done]. intros c Hc Hforeign.
  destruct Hs as [Hs|[Ho _]]; [|rewrite Hc in Ho; by destruct (Hforeign Ho)].
  split; [congruence|]. destruct r as [ch|]; [|done]. destruct removal; [congruence|].
  destruct Hm as (t & Ht & Hf & _). rewrite Hs, Hc in Hf. by injection Hf as ->.
Qed.
End Lifecycle.
