(* ===== verification/Systemd.v ===== *)
(** [src/infrastructure/service/systemd.rs]: the systemd user service, the
    manager port of [Services] on Linux, over the files and commands of
    [ServiceFile].

    The commands that are run ([systemctl], [loginctl]) are an argument. *)

From S2P Require Import Prelude Text Lossy Primitives Services ServiceFile.

Definition UNIT_NAME : str := lit "atx.service".

(** ** The unit file *)

(** The replacements one after the other. *)
Definition systemd_quote (value : str) : result ServiceManagerError str :=
  if negb (valid_utf8 value) then Err (mk_service_manager_error (lit "service paths must be valid UTF-8")) else
  if contains_byte 10 value || contains_byte 13 value || contains_byte 0 value
  then Err (mk_service_manager_error (lit "service arguments cannot contain control characters")) else
  let escaped := replace_byte 37 [37; 37] (replace_byte 36 [36; 36]
    (replace_byte 34 [92; 34] (replace_byte 92 [92; 92] value))) in
  Ok ([34] ++ escaped ++ [34]).

(** [join(" ")] *)
Fixpoint join_words (l : list str) : str :=
  match l with
  | [] => []
  | [w] => w
  | w :: l => w ++ 32 :: join_words l
  end.

Definition service_arguments (executable state_directory runtime_directory : str) : list str :=
  [executable; lit "__supervisor"; lit "--state-dir"; state_directory; lit "--runtime-dir"; runtime_directory;
   lit "--service-managed"].

Definition line (s : str) : str := s ++ [10].
Definition unit_lines (command : str) : list str :=
  [lit "[Unit]"; lit "Description=ATX per-user command scheduler"; [];
   lit "[Service]"; lit "Type=simple"; lit "ExecStart=" ++ command; lit "Restart=on-failure"; lit "RestartSec=2s";
   lit "KillMode=process"; lit "NoNewPrivileges=true"; lit "PrivateTmp=true"; [];
   lit "[Install]"; lit "WantedBy=default.target"].
Definition render_unit (executable state_directory runtime_directory : str) : result ServiceManagerError str :=
  arguments ← map_result systemd_quote (service_arguments executable state_directory runtime_directory);
  Ok (concat (map line (unit_lines (join_words arguments)))).

Section Systemd.
Context {M : Type}.
Variable run : str -> list str -> M -> result str Output * M.
Variable executable state_directory runtime_directory config_home : str.
Variable uid : Z.

Abbreviation Unit_ := (Port (UnitWorld M) ServiceManagerError).
Definition parent : str := path_join config_home (lit "systemd/user").
Definition unit_path : str := path_join parent UNIT_NAME.

Definition systemctl (args : list str) : Unit_ Output := port_err manager_error (run_command run (lit "systemctl") args).

(** A command that is required to succeed. *)
Definition require_systemctl (command : str) (args : list str) : Unit_ unit :=
  output ← systemctl args;
  pure_unit (require_success command output).

Definition expected_unit : result ServiceManagerError str := render_unit executable state_directory runtime_directory.

Definition installed : Unit_ bool :=
  contents ← port_err (fun error => manager_error (lit "cannot read " ++ from_utf8_lossy unit_path ++ lit ": " ++ error)) read_unit;
  match contents with
  | None => mret false
  | Some contents =>
    expected ← pure_unit expected_unit;
    if bool_decide (contents = expected) then mret true
    else port_fail (manager_error (lit "refusing foreign systemd unit " ++ from_utf8_lossy unit_path))
  end.

Definition manager_available : Unit_ bool :=
  succeeds (systemctl [lit "--user"; lit "show-environment"]) (fun _ => true).

Definition lingering_enabled : Unit_ bool :=
  succeeds (run_command run (lit "loginctl") [lit "show-user"; show_dec uid; lit "--property=Linger"; lit "--value"])
    (fun output => bool_decide (out_stdout output = lit "yes" ++ [10])).

(** ** [impl ServiceManager for SystemdUserService] *)

Definition status : Unit_ ServiceStatus :=
  available ← manager_available;
  installed ← installed;
  running ← (if available && installed
             then succeeds (systemctl [lit "--user"; lit "is-active"; lit "--quiet"; UNIT_NAME]) (fun _ => true)
             else mret false);
  lingering ← (if available then lingering_enabled else mret false);
  mret (mk_service_status (lit "systemd-user") (if available : bool then SA_Available else SA_Unavailable) installed running
    [unit_path]
    (if lingering : bool then lit "restarts after crashes and starts without an interactive login"
     else lit "restarts after crashes while this user's systemd manager is running")
    (if negb available then lit "the systemd user manager is unavailable" else
     if running : bool then
       if lingering then lit "user service is enabled, running, and lingering is enabled"
       else lit "user service is enabled and running; lingering is disabled"
     else if installed : bool then lit "user service is installed but not running" else lit "user service is not installed")).

(** The closure of [install] that writes the unit. *)
Definition write_unit : Unit_ unit :=
  _ ← port_err manager_error create_temporary;
  expected ← pure_unit expected_unit;
  _ ← port_err manager_error (write_temporary expected);
  _ ← port_err manager_error plain_call;
  port_err manager_error rename_temporary.

Definition install : Unit_ unit :=
  available ← manager_available;
  if negb available then port_fail (manager_error (lit "the systemd user manager is unavailable")) else
  installed ← installed;
  if installed : bool then mret tt else
  _ ← port_err (fun error => manager_error (lit "cannot create " ++ from_utf8_lossy parent ++ lit ": " ++ error)) plain_call;
  _ ← (fun w =>
    match write_unit w with
    | (Ok u, w) => (Ok u, w)
    | (Err error, w) => (Err error, (remove_temporary w).2)
    end);
  _ ← port_err manager_error plain_call;
  _ ← require_systemctl (lit "systemctl --user daemon-reload") [lit "--user"; lit "daemon-reload"];
  require_systemctl (lit "systemctl --user enable") [lit "--user"; lit "enable"; lit "--now"; UNIT_NAME].

Definition uninstall : Unit_ unit :=
  installed ← installed;
  if negb installed then mret tt else
  _ ← require_systemctl (lit "systemctl --user disable") [lit "--user"; lit "disable"; lit "--now"; UNIT_NAME];
  _ ← port_err (fun error => manager_error (lit "cannot remove " ++ from_utf8_lossy unit_path ++ lit ": " ++ error)) remove_unit;
  require_systemctl (lit "systemctl --user daemon-reload") [lit "--user"; lit "daemon-reload"].

#[export] Instance systemd_manager : ServiceManager (UnitWorld M) := {|
  sm_status := status; sm_install := install; sm_uninstall := uninstall
|}.
End Systemd.

(** ** What a systemd reads in the unit

    The documented syntax of a command line, as far as the program uses it:
    words are quoted with double quotes and separated by one space, a backslash
    escapes itself and the quote, [%%] is a percent sign, and [$$] is a dollar
    sign except in the program, in which no variable is expanded. *)

(** One quoted word, after its opening quote, and the rest after the closing. *)
Fixpoint read_word (program : bool) (s : str) : option (str * str) :=
  match s with
  | [] => None
  | b :: rest =>
    if b =? 34 then Some ([], rest) else
    if (b =? 92) || (b =? 37) || (b =? 36) then
      match rest with
      | c :: rest =>
        if if b =? 92 then (c =? 92) || (c =? 34) else (c =? b) && negb (program && (b =? 36))
        then '(w, r) ← read_word program rest; Some (c :: w, r) else None
      | [] => None
      end
    else '(w, r) ← read_word program rest; Some (b :: w, r)
  end.

(** [fuel]: a word takes two bytes. *)
Fixpoint read_words (fuel : nat) (program : bool) (s : str) : option (list str) :=
  match fuel, s with
  | S fuel, 34 :: rest =>
    '(w, r) ← read_word program rest;
    match r with
    | [] => Some [w]
    | 32 :: r => ws ← read_words fuel false r; Some (w :: ws)
    | _ => None
    end
  | _, _ => None
  end.
Definition read_exec (s : str) : option (list str) :=
  words ← read_words (length s) true s;
  match words with
  | program :: _ => if is_absolute program then Some words else None
  | [] => None
  end.

(** The value of the only assignment to a name. *)
Definition assignment (name text : str) : option str :=
  match List.filter (fun l => bool_decide (take (length name + 1) l = name ++ [61])) (split_on 10 text) with
  | [l] => Some (drop (length name + 1) l)
  | _ => None
  end.

(** ** Lemmas *)

Definition escape (b : Z) : str :=
  if b =? 92 then [92; 92] else if b =? 34 then [92; 34] else if b =? 36 then [36; 36] else
  if b =? 37 then [37; 37] else [b].

Lemma quote_escape s :
  replace_byte 37 [37; 37] (replace_byte 36 [36; 36] (replace_byte 34 [92; 34] (replace_byte 92 [92; 92] s))) =
  flat_map escape s.
Proof.
  rewrite !replace_byte_flat. induction s as [|b s IH]; [done|]. cbn [flat_map]. rewrite !flat_map_app, IH. f_equal.
  unfold escape. destruct (Z.eqb_spec b 92) as [->|]; [done|]. cbn [flat_map app].
  destruct (Z.eqb_spec b 34) as [->|]; [done|]. cbn [flat_map app].
  destruct (Z.eqb_spec b 36) as [->|]; [done|]. cbn [flat_map app].
  by destruct (Z.eqb_spec b 37) as [->|].
Qed.

Lemma systemd_quote_ok value q :
  systemd_quote value = Ok q ->
  q = 34 :: flat_map escape value ++ [34] /\ contains_byte 10 value = false.
Proof.
  unfold systemd_quote. destruct (negb (valid_utf8 value)); [done|]. destruct (_ || _) eqn:E; [done|].
  intros [= <-]. rewrite quote_escape. apply orb_false_iff in E as [E%orb_false_iff _]. naive_solver.
Qed.

(** Reading a word back. *)
Lemma read_word_escape (program : bool) value rest :
  (program = true -> contains_byte 36 value = false) ->
  read_word program (flat_map escape value ++ 34 :: rest) = Some (value, rest).
Proof.
  induction value as [|b value IH]; intros Hp; [done|].
  assert (program = true -> contains_byte 36 value = false) as Hp'.
  { intros Ht. specialize (Hp Ht). unfold contains_byte in *. cbn in Hp. by apply orb_false_iff in Hp as [_ ?]. }
  specialize (IH Hp'). cbn [flat_map]. rewrite <- app_assoc. unfold escape at 1.
  destruct (Z.eqb_spec b 92) as [->|H92]; [cbn; by rewrite IH|].
  destruct (Z.eqb_spec b 34) as [->|H34]; [cbn; by rewrite IH|].
  destruct (Z.eqb_spec b 36) as [->|H36].
  { destruct program; [by specialize (Hp eq_refl)|]. cbn. by rewrite IH. }
  destruct (Z.eqb_spec b 37) as [->|H37]; [cbn; rewrite andb_false_r; cbn; by rewrite IH|].
  cbn [app read_word]. apply Z.eqb_neq in H92, H34, H36, H37. rewrite H92, H34, H36, H37. cbn [orb].
  by rewrite IH.
Qed.

Lemma read_words_quoted l : forall fuel (program : bool) qs,
  map_result systemd_quote l = Ok qs -> l <> [] -> (length l <= fuel)%nat ->
  (program = true -> forall w, head l = Some w -> contains_byte 36 w = false) ->
  read_words fuel program (join_words qs) = Some l.
Proof.
  induction l as [|w l IH]; intros fuel program qs Hq Hne Hlen Hp; [done|]. cbn in Hq.
  apply bind_ok in Hq as (q & [-> _]%systemd_quote_ok & (qs' & Hq & [= <-])%bind_ok).
  destruct fuel as [|fuel]; [cbn in Hlen; lia|]. specialize (IH fuel false qs' Hq).
  assert (program = true -> contains_byte 36 w = false) as Hw by (intros Ht; by apply Hp).
  destruct l as [|w' l].
  - cbn in Hq. injection Hq as <-. cbn [join_words read_words]. by rewrite read_word_escape.
  - destruct qs' as [|q' qs']; [apply map_result_ok in Hq; inversion Hq|].
    cbn [join_words read_words app]. rewrite <- app_assoc. cbn [app]. rewrite read_word_escape by done. cbn.
    cbn in IH. rewrite IH; [done|done| cbn in Hlen; lia | done].
Qed.

Lemma join_words_length l qs : map_result systemd_quote l = Ok qs -> (length l <= length (join_words qs))%nat.
Proof.
  revert qs. induction l as [|w l IH]; intros qs Hq; [cbn; lia|]. cbn in Hq.
  apply bind_ok in Hq as (q & [-> _]%systemd_quote_ok & (qs' & Hq & [= <-])%bind_ok). specialize (IH _ Hq).
  destruct qs' as [|q' qs']; cbn [join_words] in *.
  - apply map_result_ok in Hq. inversion Hq; subst. cbn. lia.
  - rewrite length_app. cbn [length]. lia.
Qed.

Lemma read_exec_quoted program args qs :
  map_result systemd_quote (program :: args) = Ok qs -> is_absolute program = true -> contains_byte 36 program = false ->
  read_exec (join_words qs) = Some (program :: args).
Proof.
  intros Hq Ha Hd. unfold read_exec.
  rewrite (read_words_quoted (program :: args)); [cbn; by rewrite Ha|done|done|by apply join_words_length|].
  by intros _ w [= <-].
Qed.

Lemma escape_no_newline value : contains_byte 10 value = false -> contains_byte 10 (flat_map escape value) = false.
Proof.
  induction value as [|b value IH]; [done|]. cbn [flat_map]. rewrite contains_byte_app.
  change (b :: value) with ([b] ++ value). rewrite contains_byte_app. intros [Hb Hv]%orb_false_iff.
  rewrite IH by done. rewrite orb_false_r. unfold escape.
  by repeat (case_match; [done|]).
Qed.

Lemma join_words_no_newline l qs : map_result systemd_quote l = Ok qs -> contains_byte 10 (join_words qs) = false.
Proof.
  revert qs. induction l as [|w l IH]; intros qs Hq; cbn in Hq; [by injection Hq as <-|].
  apply bind_ok in Hq as (q & [-> Hw]%systemd_quote_ok & (qs' & Hq & [= <-])%bind_ok). specialize (IH _ Hq).
  assert (contains_byte 10 (34 :: flat_map escape w ++ [34]) = false) as Hquoted.
  { change (34 :: flat_map escape w ++ [34]) with ([34] ++ flat_map escape w ++ [34]).
    rewrite !contains_byte_app, escape_no_newline by done. done. }
  destruct qs' as [|q' qs']; [done|]. cbn [join_words].
  change (contains_byte 10 ((34 :: flat_map escape w ++ [34]) ++ [32] ++ join_words (q' :: qs')) = false).
  by rewrite !contains_byte_app, IH, Hquoted.
Qed.

Lemma split_on_lines ls : Forall (fun l => contains_byte 10 l = false) ls ->
  split_on 10 (concat (map line ls)) = ls ++ [[]].
Proof.
  induction 1 as [|l ls Hl _ IH]; [done|]. cbn [map concat]. unfold line at 1. rewrite <- app_assoc. cbn [app].
  by rewrite split_on_app, IH.
Qed.

Lemma unit_lines_assignment command :
  contains_byte 10 command = false ->
  assignment (lit "ExecStart") (concat (map line (unit_lines command))) = Some command.
Proof.
  intros Hn. unfold assignment. rewrite split_on_lines.
  - unfold unit_lines. set (p := fun l : str => bool_decide _). cbn [app List.filter].
    assert (p (lit "ExecStart=" ++ command) = true) as Hp by (unfold p; by rewrite bool_decide_true).
    rewrite Hp. subst p. reflexivity.
  - unfold unit_lines. repeat (apply List.Forall_cons; [first [reflexivity|by rewrite contains_byte_app, Hn]|]). constructor.
Qed.

Section Files.
Context {M : Type}.
Variable run : str -> list str -> M -> result str Output * M.
Variable executable state_directory runtime_directory config_home : str.
Variable uid : Z.

Abbreviation text := (render_unit executable state_directory runtime_directory).
Abbreviation op_installed := (installed executable state_directory runtime_directory config_home).
Abbreviation op_status := (status run executable state_directory runtime_directory config_home uid).
Abbreviation op_install := (install run executable state_directory runtime_directory config_home).
Abbreviation op_uninstall := (uninstall run executable state_directory runtime_directory config_home).

(** The unit of this program. *)
Definition my_unit (t : str) : Prop := text = Ok t.
Abbreviation stepping := (unit_step (@un_file M) my_unit).

Lemma unit_kept_systemctl args : keeps_unit (systemctl run args). Proof. unfold systemctl. auto with unit. Qed.
#[local] Hint Resolve unit_kept_systemctl : unit.
Lemma unit_kept_require command args : keeps_unit (require_systemctl run command args).
Proof. unfold require_systemctl. auto with unit. Qed.
#[local] Hint Resolve unit_kept_require : unit.

Lemma installed_spec (w : UnitWorld M) r w' :
  op_installed w = (r, w') ->
  un_file w' = un_file w /\
  match r with
  | Ok true => exists t, text = Ok t /\ un_file w = Some t
  | Ok false => un_file w = None
  | Err _ => True
  end.
Proof.
  unfold installed. intros [(contents & w1 & Hr%port_err_ok & Hi)|(e & He & ->)]%port_bind_inv.
  - pose proof (unit_kept_after _ _ _ _ unit_kept_read Hr) as Hk. apply file_call_ok in Hr as (w0 & [= <- ->] & Hf & _).
    rewrite <- Hk. destruct (un_file w1) as [c|] eqn:Ec.
    + apply port_bind_inv in Hi as [(expected & w2 & [He ->]%pure_unit_inv & Hi)|(e & [_ ->]%pure_unit_inv & ->)]; [|done].
      case_bool_decide as Hc; injection Hi as <- <-; [|done]. split; [done|]. exists expected. by rewrite Hc.
    + by injection Hi as <- <-.
  - split; [|done]. eapply unit_kept_after, He. auto with unit.
Qed.

Lemma write_unit_spec (w : UnitWorld M) r w' :
  write_unit executable state_directory runtime_directory w = (r, w') ->
  match r with Ok _ => exists t, text = Ok t /\ un_file w' = Some t | Err _ => un_file w' = un_file w end.
Proof.
  unfold write_unit. intros [(u & w1 & Hc%port_err_ok & Hw)|(e & He & ->)]%port_bind_inv; [|eapply unit_kept_after, He; auto with unit].
  pose proof (unit_kept_after _ _ _ _ unit_kept_create Hc) as Hk1. rewrite <- Hk1.
  apply port_bind_inv in Hw as [(expected & w2 & [He ->]%pure_unit_inv & Hw)|(e & [_ ->]%pure_unit_inv & ->)]; [|done].
  apply port_bind_inv in Hw as [(u' & w3 & Hwr%port_err_ok & Hw)|(e & Hwr & ->)]; [|eapply unit_kept_after, Hwr; auto with unit].
  pose proof (unit_kept_after _ _ _ _ (unit_kept_write _) Hwr) as Hk2. rewrite <- Hk2.
  apply port_bind_inv in Hw as [(u'' & w4 & Hs%port_err_ok & Hw)|(e & Hs & ->)]; [|eapply unit_kept_after, Hs; auto with unit].
  pose proof (unit_kept_after _ _ _ _ unit_kept_plain Hs) as Hk3. rewrite <- Hk3.
  apply file_call_ok in Hwr as (v & [= _ Hv] & _ & _). apply file_call_ok in Hs as (v' & [= _ ->] & _ & Ht).
  rewrite port_err_run in Hw. injection Hw as <- <-.
  destruct (rename_temporary w4) as [[[]|e] w5] eqn:Er; cbn [fst snd map_err].
  - apply file_call_ok in Er as (v'' & [= <-] & _ & Ht'). exists expected. split; [exact He|]. cbn [un_file set_files]. by rewrite Ht', Ht, <- Hv.
  - revert Er. unfold rename_temporary, file_call. destruct (ff_error _); [|done]. by intros [= _ <-].
Qed.

Lemma unit_kept_available : keeps_unit (manager_available run).
Proof. unfold manager_available. auto with unit. Qed.
Lemma unit_kept_lingering : keeps_unit (lingering_enabled run uid).
Proof. unfold lingering_enabled. auto with unit. Qed.
#[local] Hint Resolve unit_kept_available unit_kept_lingering : unit.

Lemma install_spec (w : UnitWorld M) r w' :
  op_install w = (r, w') ->
  stepping w w' /\ match r with Ok _ => exists t, text = Ok t /\ un_file w' = Some t | Err _ => True end.
Proof.
  unfold install. intros [(available & w1 & Ha & Hi)|(e & He & ->)]%port_bind_inv;
    [|split; [left; eapply unit_kept_after, He; auto with unit|done]].
  pose proof (unit_kept_after _ _ _ _ unit_kept_available Ha) as Hk. unfold unit_step. rewrite <- Hk. clear Ha Hk.
  destruct available; [|injection Hi as <- <-; split; [by left|done]]. cbn [negb] in Hi.
  apply port_bind_inv in Hi as [(inst & w2 & [Hk Hs]%installed_spec & Hi)|(e & [Hk _]%installed_spec & ->)];
    [|split; [by left|done]].
  destruct inst.
  { injection Hi as <- <-. destruct Hs as (t & Ht & Hf). rewrite Hk. split; [by left|]. by exists t. }
  apply port_bind_inv in Hi as [(u & w3 & Hp%port_err_ok & Hi)|(e & Hp & ->)];
    [|split; [left; rewrite <- Hk; eapply unit_kept_after, Hp; auto with unit|done]].
  pose proof (unit_kept_after _ _ _ _ unit_kept_plain Hp) as Hk2. rewrite Hs in Hk. rewrite Hk in Hk2. rewrite Hs.
  assert (ours my_unit None) as Hnone by done. clear Hp Hk.
  apply port_bind_inv in Hi as [(u' & w4 & Hw & Hi)|(e & Hw & ->)].
  - destruct (write_unit _ _ _ w3) as [[?|?] w5] eqn:Ew; [|done]. injection Hw as _ <-.
    apply write_unit_spec in Ew as (t & Ht & Hf).
    assert (un_file w' = un_file w5) as Hk3.
    { eapply (unit_kept_after (_ ≫= _)); [|exact Hi]. apply unit_kept_bind; auto with unit. }
    rewrite Hk3, Hf. split; [by right|]. destruct r; [|done]. by exists t.
  - destruct (write_unit _ _ _ w3) as [[?|?] w5] eqn:Ew; [done|]. injection Hw as _ <-.
    apply write_unit_spec in Ew. pose proof (unit_kept_remove w5) as Hr. rewrite Hr, Ew, Hk2. split; [by left|done].
Qed.

Lemma uninstall_spec (w : UnitWorld M) r w' :
  op_uninstall w = (r, w') ->
  stepping w w' /\ match r with Ok _ => un_file w' = None | Err _ => True end.
Proof.
  unfold uninstall. intros [(inst & w1 & [Hk Hs]%installed_spec & Hi)|(e & [Hk _]%installed_spec & ->)]%port_bind_inv;
    [|split; [by left|done]].
  destruct inst; cbn [negb] in Hi; [|injection Hi as <- <-; rewrite Hk; split; [by left|done]].
  destruct Hs as (t & Ht & Hf). unfold unit_step. rewrite Hf. rewrite Hf in Hk.
  apply port_bind_inv in Hi as [(u & w2 & Hd & Hi)|(e & Hd & ->)];
    [|split; [left; rewrite <- Hk; eapply unit_kept_after, Hd; auto with unit|done]].
  pose proof (unit_kept_after _ _ _ _ (unit_kept_require _ _) Hd) as Hk2.
  apply port_bind_inv in Hi as [(u' & w3 & Hr%port_err_ok & Hi)|(e & Hr & ->)].
  - apply file_call_ok in Hr as (v & [= _ Hv] & _ & _). pose proof (unit_kept_after _ _ _ _ (unit_kept_require _ _) Hi) as Hk3.
    rewrite Hk3, <- Hv. split; [by right|]. by destruct r.
  - rewrite port_err_run in Hr. injection Hr as Hr <-. split; [|done]. left. rewrite <- Hk, <- Hk2. revert Hr.
    unfold remove_unit, file_call. by destruct (ff_error _).
Qed.

Lemma status_spec (w : UnitWorld M) r w' :
  op_status w = (r, w') ->
  un_file w' = un_file w /\
  match r with
  | Ok st => (if sv_installed st then exists t, text = Ok t /\ un_file w = Some t else un_file w = None) /\
             (sv_running st = true -> sv_installed st = true)
  | Err _ => True
  end.
Proof.
  unfold status. intros [(available & w1 & Ha & Hi)|(e & He & ->)]%port_bind_inv;
    [|split; [eapply unit_kept_after, He; auto with unit|done]].
  pose proof (unit_kept_after _ _ _ _ unit_kept_available Ha) as Hk. rewrite <- Hk. clear Ha Hk.
  apply port_bind_inv in Hi as [(inst & w2 & [Hk Hs]%installed_spec & Hi)|(e & [Hk _]%installed_spec & ->)]; [|by split].
  apply port_bind_inv in Hi as [(running & w3 & Hr & Hi)|(e & Hr & ->)].
  - assert (un_file w3 = un_file w2 /\ (running = true -> inst = true)) as [Hk2 Hrun].
    { destruct (available && inst) eqn:E.
      - apply andb_true_iff in E as [_ ->]. split; [eapply unit_kept_after, Hr; auto with unit|done].
      - by injection Hr as <- <-. }
    apply port_bind_inv in Hi as [(lingering & w4 & Hl & Hi)|(e & Hl & ->)].
    + injection Hi as <- <-. cbn [sv_installed sv_running]. split; [|split; [by destruct inst|done]].
      rewrite <- Hk, <- Hk2. destruct available; [eapply unit_kept_after, Hl; auto with unit|by injection Hl as _ <-].
    + split; [|done]. rewrite <- Hk, <- Hk2. destruct available; [eapply unit_kept_after, Hl; auto with unit|done].
  - split; [|done]. rewrite <- Hk. destruct (available && inst); [eapply unit_kept_after, Hr; auto with unit|done].
Qed.
End Files.

(** ** Properties *)

#[export] Instance systemd_file {M} (run : str -> list str -> M -> result str Output * M) executable state_directory runtime_directory
  config_home uid :
  @FileManager (UnitWorld M) (systemd_manager run executable state_directory runtime_directory config_home uid)
    un_file (my_unit executable state_directory runtime_directory).
Proof. split; [apply status_spec|apply install_spec|apply uninstall_spec]. Qed.

(** A manager that answers, under which the service is enabled and stopped. *)
Definition answers {M} (run : str -> list str -> M -> result str Output * M) (program : str) (args : list str) (success : bool) : Prop :=
  forall m, exists output m', run program args m = (Ok output, m') /\ out_success output = success.
Definition systemctl_args (l : list str) : str * list str := (lit "systemctl", lit "--user" :: l).
Definition show_environment := systemctl_args [lit "show-environment"].
Definition is_active := systemctl_args [lit "is-active"; lit "--quiet"; UNIT_NAME].
Definition disable_now := systemctl_args [lit "disable"; lit "--now"; UNIT_NAME].
Definition daemon_reload := systemctl_args [lit "daemon-reload"].
Definition show_linger (uid : Z) : str * list str :=
  (lit "loginctl", [lit "show-user"; show_dec uid; lit "--property=Linger"; lit "--value"]).

Record stopped {M} (run : str -> list str -> M -> result str Output * M) : Prop := {
  sp_manager : answers run show_environment.1 show_environment.2 true;
  sp_inactive : answers run is_active.1 is_active.2 false;
  sp_disable : answers run disable_now.1 disable_now.2 true;
  sp_reload : answers run daemon_reload.1 daemon_reload.2 true
}.

Section Stopped.
Context {M : Type}.
Variable run : str -> list str -> M -> result str Output * M.
Variable executable state_directory runtime_directory config_home : str.
Variable uid : Z.
Hypothesis Hstopped : stopped run.
Variable t : str.
Hypothesis Htext : render_unit executable state_directory runtime_directory = Ok t.

(** The unit is installed and no call on a file fails. *)
Definition calm (file : option str) (temporary : option str) (m : M) (commands : list (str * list str)) : UnitWorld M :=
  mk_unit_world file temporary [] m commands.

Lemma run_command_ok program args f tmp m cs success :
  answers run program args success ->
  exists output m', run_command run program args (calm f tmp m cs) = (Ok output, calm f tmp m' (cs ++ [(program, args)])) /\
    out_success output = success.
Proof. intros Ha. destruct (Ha m) as (o & m' & E & S). exists o, m'. unfold run_command. cbn [un_manager calm]. by rewrite E. Qed.

Lemma succeeds_ok {E} (e : str -> E) program args f tmp m cs success :
  answers run program args success ->
  exists m', succeeds (port_err e (run_command run program args)) (fun _ => true) (calm f tmp m cs) =
    (Ok success, calm f tmp m' (cs ++ [(program, args)])).
Proof.
  intros Ha. destruct (run_command_ok program args f tmp m cs success Ha) as (o & m' & E' & S). exists m'.
  unfold succeeds. rewrite port_err_run, E'. cbn [fst snd map_err]. by rewrite S, andb_true_r.
Qed.

Lemma require_ok command program args f tmp m cs :
  answers run program args true -> program = lit "systemctl" ->
  exists m', require_systemctl run command args (calm f tmp m cs) = (Ok tt, calm f tmp m' (cs ++ [(program, args)])).
Proof.
  intros Ha ->. destruct (run_command_ok _ args f tmp m cs true Ha) as (o & m' & E' & S). exists m'.
  unfold require_systemctl, systemctl, mbind, port_bind. rewrite port_err_run, E'. cbn [fst snd map_err].
  unfold pure_unit, require_success. by rewrite S.
Qed.

Lemma installed_ok tmp m cs :
  installed executable state_directory runtime_directory config_home (calm (Some t) tmp m cs) =
  (Ok true, calm (Some t) tmp m cs).
Proof.
  unfold installed, mbind, port_bind. rewrite port_err_run.
  assert (read_unit (calm (Some t) tmp m cs) = (Ok (Some t), calm (Some t) tmp m cs)) as -> by reflexivity.
  cbn [fst snd map_err]. unfold pure_unit, expected_unit. rewrite Htext. by rewrite bool_decide_true.
Qed.

Lemma lingering_ok f tmp m cs :
  exists b m', lingering_enabled run uid (calm f tmp m cs) = (Ok b, calm f tmp m' (cs ++ [show_linger uid])).
Proof.
  unfold lingering_enabled, succeeds, run_command. cbn [un_manager calm].
  destruct (run _ _ m) as [r m']. eexists _, m'. reflexivity.
Qed.

Lemma available_ok f tmp m cs :
  exists m', manager_available run (calm f tmp m cs) = (Ok true, calm f tmp m' (cs ++ [show_environment])).
Proof. exact (succeeds_ok manager_error _ _ f tmp m cs _ (sp_manager _ Hstopped)). Qed.
Lemma active_ok f tmp m cs :
  exists m', succeeds (systemctl run [lit "--user"; lit "is-active"; lit "--quiet"; UNIT_NAME]) (fun _ => true) (calm f tmp m cs) =
    (Ok false, calm f tmp m' (cs ++ [is_active])).
Proof. exact (succeeds_ok manager_error _ _ f tmp m cs _ (sp_inactive _ Hstopped)). Qed.

Lemma status_stopped tmp m cs :
  exists st m', status run executable state_directory runtime_directory config_home uid (calm (Some t) tmp m cs) =
    (Ok st, calm (Some t) tmp m' (cs ++ [show_environment; is_active; show_linger uid])) /\
    sv_availability st = SA_Available /\ sv_installed st = true /\ sv_running st = false.
Proof.
  destruct (available_ok (Some t) tmp m cs) as (m1 & E1). unfold status, mbind, port_bind. rewrite E1, installed_ok. cbn [andb].
  destruct (active_ok (Some t) tmp m1 (cs ++ [show_environment])) as (m2 & E2). rewrite E2.
  destruct (lingering_ok (Some t) tmp m2 ((cs ++ [show_environment]) ++ [is_active])) as (b & m3 & E3).
  rewrite E3. eexists _, m3. rewrite <- !app_assoc. split; [reflexivity|by split_and!].
Qed.

Lemma install_stopped tmp m cs :
  exists m', install run executable state_directory runtime_directory config_home (calm (Some t) tmp m cs) =
    (Ok tt, calm (Some t) tmp m' (cs ++ [show_environment])).
Proof.
  destruct (available_ok (Some t) tmp m cs) as (m1 & E1). exists m1. unfold install, mbind, port_bind. rewrite E1.
  cbn [negb]. by rewrite installed_ok.
Qed.

Lemma uninstall_stopped tmp m cs :
  exists m', uninstall run executable state_directory runtime_directory config_home (calm (Some t) tmp m cs) =
    (Ok tt, calm None tmp m' (cs ++ [disable_now; daemon_reload])).
Proof.
  assert (exists m1, require_systemctl run (lit "systemctl --user disable") [lit "--user"; lit "disable"; lit "--now"; UNIT_NAME]
    (calm (Some t) tmp m cs) = (Ok tt, calm (Some t) tmp m1 (cs ++ [disable_now]))) as (m1 & E1)
    by exact (require_ok _ _ _ _ _ _ _ (sp_disable _ Hstopped) eq_refl).
  destruct (require_ok (lit "systemctl --user daemon-reload") _ _ None tmp m1 (cs ++ [disable_now]) (sp_reload _ Hstopped) eq_refl)
    as (m2 & E2).
  exists m2. unfold uninstall, mbind, port_bind. rewrite installed_ok. cbn [negb]. rewrite E1.
  rewrite port_err_run.
  assert (remove_unit (calm (Some t) tmp m1 (cs ++ [disable_now])) = (Ok tt, calm None tmp m1 (cs ++ [disable_now]))) as -> by reflexivity.
  cbn [fst snd map_err]. etransitivity; [exact E2|]. by rewrite <- app_assoc.
Qed.
End Stopped.

(** C25 (safety).  The service commands on systemd, whatever the commands and
    the files answer: a unit file that is not this program's is left as it is
    and the command fails; the file is never left half written.  A successful
    installation leaves exactly the unit of this program, and the service runs;
    an installation that reports a rollback leaves none; a successful removal
    leaves none. *)
Theorem service_unit_safe {M} (run : str -> list str -> M -> result str Output * M) executable state_directory
  runtime_directory config_home uid (removal : bool) w r w' :
  let manager := systemd_manager run executable state_directory runtime_directory config_home uid in
  (if removal then @uninstall_service _ manager w else @install_service _ manager w) = (r, w') ->
  let text := render_unit executable state_directory runtime_directory in
  (un_file w' = un_file w \/ ours (fun t => text = Ok t) (un_file w') /\ ours (fun t => text = Ok t) (un_file w)) /\
  (forall c, un_file w = Some c -> text <> Ok c -> un_file w' = Some c /\ is_ok r = false) /\
  match r with
  | Ok c => if removal then un_file w' = None
            else exists t, text = Ok t /\ un_file w' = Some t /\ sv_running (sc_status c) = true
  | Err (SL_Install _) | Err (SL_IncompleteInstall _) => removal = false -> un_file w' = None
  | Err _ => True
  end.
Proof.
  cbv zeta. intros Hr. pose proof (@service_file_safe _ _ un_file _ (systemd_file run _ _ _ _ _) removal w r w' Hr) as (H1 & H2 & H3).
  split; [exact H1|]. split; [exact H2 | exact H3].
Qed.

(** Installing a service that is installed and stopped does not start
    it, as the help text and the portable test of the command say, but removes
    it: the manager skips its work when its unit is in place, the check that
    follows finds the service not running, and the rollback disables it and
    deletes the unit. *)
Theorem stopped_service_removed {M} (run : str -> list str -> M -> result str Output * M) executable state_directory
  runtime_directory config_home uid t temporary m commands :
  stopped run -> render_unit executable state_directory runtime_directory = Ok t ->
  exists detail m',
    @install_service _ (systemd_manager run executable state_directory runtime_directory config_home uid)
      (mk_unit_world (Some t) temporary [] m commands) =
    (Err (SL_IncompleteInstall detail),
     mk_unit_world None temporary [] m' (commands ++
       [show_environment; is_active; show_linger uid; show_environment; show_environment; is_active; show_linger uid;
        disable_now; daemon_reload])).
Proof.
  intros Hst Ht. fold (calm (Some t) temporary m commands). unfold install_service, rollback_install.
  cbn [sm_status sm_install sm_uninstall systemd_manager]. unfold mbind at 1, port_bind at 1. rewrite port_err_run.
  destruct (status_stopped run executable state_directory runtime_directory config_home uid Hst t Ht temporary m commands)
    as (s1 & m1 & E1 & Ha & Hi & Hr). rewrite E1. cbn [fst snd map_err]. unfold mbind at 1, port_bind at 1, require_available.
  rewrite Ha, Hi, Hr, bool_decide_true by done. cbn [andb].
  edestruct (install_stopped run executable state_directory runtime_directory config_home Hst t Ht temporary m1) as (m2 & E2).
  rewrite E2. unfold mbind at 1, port_bind at 1. rewrite port_err_run.
  edestruct (status_stopped run executable state_directory runtime_directory config_home uid Hst t Ht temporary m2)
    as (s3 & m3 & E3 & _ & _ & Hr3). rewrite E3. cbn [fst snd map_err]. rewrite Hr3, orb_true_r.
  edestruct (uninstall_stopped run executable state_directory runtime_directory config_home Hst t Ht temporary m3) as (m4 & E4).
  rewrite E4. exists (sv_detail s3), m4. rewrite <- !app_assoc. reflexivity.
Qed.


(** ** Witnesses *)

Module SystemdExample.
Definition executable0 : str := lit "/opt/100% atx/atx".
Definition state0 : str := lit "/home/u/a " ++ [34] ++ lit "b$c\d".
Definition runtime0 : str := lit "/run/user/1000/atx".
(** A manager that answers, with a service that is running when the state is true. *)
Definition run0 (program : str) (args : list str) (running : bool) : result str Output * bool :=
  if bool_decide ((program, args) = is_active) then (Ok (mk_output running [] []), running) else
  (Ok (mk_output true [] []), if bool_decide (lit "enable" ∈ args) then true else running).
Definition run1 (program : str) (args : list str) (u : unit) : result str Output * unit :=
  (Ok (mk_output (negb (bool_decide ((program, args) = is_active))) [] []), u).
Definition install0 := @install_service _ (systemd_manager run0 executable0 state0 runtime0 (lit "/home/u/.config") 1000).
(** A temporary file from a previous crash stops the first installation. *)
Definition crashed : UnitWorld bool := mk_unit_world None (Some []) [] false [].
Definition foreign : UnitWorld bool := mk_unit_world (Some (lit "[Unit]")) None [] false [].
End SystemdExample.
Import SystemdExample.

Example install_ex :
  is_ok (install0 crashed).1 = false /\ is_ok (install0 (install0 crashed).2).1 = true /\
  un_commands (install0 foreign).2 = [show_environment].
Proof. vm_compute. done. Qed.

Lemma service_unit_safe_witness :
  exists r w', install0 foreign = (r, w') /\ un_file w' = Some (lit "[Unit]") /\ is_ok r = false.
Proof.
  destruct (install0 foreign) as [r w'] eqn:E. exists r, w'. split; [reflexivity|].
  pose proof (service_unit_safe run0 executable0 state0 runtime0 (lit "/home/u/.config") 1000 false foreign r w') as X.
  specialize (X E). destruct X as (_ & X & _). apply X; [reflexivity|]. vm_compute. discriminate.
Defined.

Lemma run1_stopped : stopped run1.
Proof. split; intros []; eexists _, tt; (split; [reflexivity|]); vm_compute; reflexivity. Qed.

Lemma stopped_service_removed_witness :
  exists t detail, render_unit executable0 state0 runtime0 = Ok t /\
    (@install_service _ (systemd_manager run1 executable0 state0 runtime0 (lit "/home/u/.config") 1000)
       (mk_unit_world (Some t) None [] tt [])).1 = Err (SL_IncompleteInstall detail).
Proof.
  destruct (render_unit executable0 state0 runtime0) as [t|] eqn:Et; [|vm_compute in Et; discriminate].
  destruct (stopped_service_removed run1 executable0 state0 runtime0 (lit "/home/u/.config") 1000 t None tt []
    run1_stopped Et) as (detail & m' & E).
  exists t, detail. split; [reflexivity|]. exact (f_equal fst E).
Defined.

