(* ===== verification/Launchd.v ===== *)
(** [src/infrastructure/service/macos.rs]: the per-user launchd agent, the
    manager port of [Services] on macOS, over the files and commands of
    [ServiceFile].

    [launchctl] is an argument. *)

From S2P Require Import Prelude Text Lossy Primitives Services ServiceFile.

Definition LABEL : str := lit "io.github.jsugg.atx".

(** ** The property list *)

(** The replacements one after the other. *)
Definition xml_escape (value : str) : str :=
  replace_byte 39 (lit "&apos;") (replace_byte 34 (lit "&quot;") (replace_byte 62 (lit "&gt;")
    (replace_byte 60 (lit "&lt;") (replace_byte 38 (lit "&amp;") value)))).

Definition quote : str := [34].
Definition agent_arguments (executable state_directory runtime_directory : str) : list str :=
  [from_utf8_lossy executable; lit "__supervisor"; lit "--state-dir"; from_utf8_lossy state_directory; lit "--runtime-dir";
   from_utf8_lossy runtime_directory; lit "--service-managed"].

(** [join] *)
Fixpoint join_lines (l : list str) : str :=
  match l with [] => [] | [w] => w | w :: l => w ++ 10 :: join_lines l end.
Definition string_line (argument : str) : str := lit "      <string>" ++ xml_escape argument ++ lit "</string>".
(** The text before and after the arguments, in lines. *)
Definition plist_head : list str :=
  [lit "<?xml version=" ++ quote ++ lit "1.0" ++ quote ++ lit " encoding=" ++ quote ++ lit "UTF-8" ++ quote ++ lit "?>";
   lit "<!DOCTYPE plist PUBLIC " ++ quote ++ lit "-//Apple//DTD PLIST 1.0//EN" ++ quote ++ lit " " ++ quote
     ++ lit "http://www.apple.com/DTDs/PropertyList-1.0.dtd" ++ quote ++ lit ">";
   lit "<plist version=" ++ quote ++ lit "1.0" ++ quote ++ lit ">"; lit "  <dict>"; lit "    <key>Label</key>";
   lit "    <string>" ++ LABEL ++ lit "</string>"; lit "    <key>ProgramArguments</key>"; lit "    <array>"].
Definition plist_tail (log : str) : list str :=
  [lit "    </array>"; lit "    <key>RunAtLoad</key>"; lit "    <true/>"; lit "    <key>KeepAlive</key>"; lit "    <true/>";
   lit "    <key>ProcessType</key>"; lit "    <string>Background</string>"; lit "    <key>StandardOutPath</key>";
   lit "    <string>" ++ log ++ lit "</string>"; lit "    <key>StandardErrorPath</key>"; lit "    <string>" ++ log ++ lit "</string>";
   lit "  </dict>"; lit "</plist>"].
Definition text_of_lines (l : list str) : str := concat (map (fun s => s ++ [10]) l).

Definition render_plist (executable state_directory runtime_directory : str) : str :=
  let arguments := join_lines (map string_line (agent_arguments executable state_directory runtime_directory)) in
  let log := xml_escape (from_utf8_lossy (path_join state_directory (lit "supervisor.log"))) in
  text_of_lines plist_head ++ arguments ++ [10] ++ text_of_lines (plist_tail log).

(** ** [LaunchdService] *)

Section Launchd.
Context {M : Type}.
Variable run : str -> list str -> M -> result str Output * M.
Variable executable state_directory runtime_directory home : str.
Variable uid : Z.

Abbreviation Agent := (Port (UnitWorld M) ServiceManagerError).

Definition agent_parent : str := path_join (path_join home (lit "Library")) (lit "LaunchAgents").
Definition agent_path : str := path_join agent_parent (LABEL ++ lit ".plist").

Definition expected_plist : str := render_plist executable state_directory runtime_directory.
Definition domain : str := lit "gui/" ++ show_dec uid.
Definition service_target : str := domain ++ lit "/" ++ LABEL.

Definition installed : Agent bool :=
  contents ← port_err (fun error => manager_error (lit "cannot read " ++ from_utf8_lossy agent_path ++ lit ": " ++ error)) read_unit;
  match contents with
  | None => mret false
  | Some contents =>
    if bool_decide (contents = expected_plist) then mret true
    else port_fail (manager_error (lit "refusing foreign launchd file " ++ from_utf8_lossy agent_path))
  end.

Definition launchctl (args : list str) : Agent Output := port_err manager_error (run_command run (lit "/bin/launchctl") args).

(** [is_ok()]: that the command could be run. *)
Definition available : Agent bool := fun w =>
  let '(r, w) := run_command run (lit "/bin/launchctl") [lit "print-disabled"; lit "probe"] w in (Ok (is_ok r), w).

Definition status : Agent ServiceStatus :=
  available ← available;
  installed ← installed;
  running ← (if available && installed
             then succeeds (run_command run (lit "/bin/launchctl") [lit "print"; service_target]) (fun _ => true)
             else mret false);
  mret (mk_service_status (lit "launchd") (if available : bool then SA_Available else SA_Unavailable) installed running [agent_path]
    (lit "restarts after crashes and when this user's launchd domain starts")
    (if negb available then lit "launchctl is unavailable" else
     if running : bool then lit "launch agent is loaded and running" else
     if installed : bool then lit "launch agent is installed but not running" else lit "launch agent is not installed")).

(** The closure of [install] that writes the file. *)
Definition write_agent : Port (UnitWorld M) str unit :=
  _ ← create_temporary;
  _ ← write_temporary expected_plist;
  _ ← plain_call;
  rename_temporary.

Definition require_launchctl (command : str) (args : list str) : Agent unit :=
  output ← launchctl args;
  pure_unit (require_success command output).

Definition install : Agent unit :=
  installed ← installed;
  if installed : bool then mret tt else
  _ ← port_err (fun error => manager_error (lit "cannot create " ++ from_utf8_lossy agent_parent ++ lit ": " ++ error)) plain_call;
  _ ← (fun w =>
    match write_agent w with
    | (Ok u, w) => (Ok u, w)
    | (Err error, w) =>
      (Err (manager_error (lit "cannot install " ++ from_utf8_lossy agent_path ++ lit ": " ++ error)), (remove_temporary w).2)
    end);
  _ ← port_err manager_error plain_call;
  _ ← require_launchctl (lit "launchctl bootstrap") [lit "bootstrap"; domain; from_utf8_lossy agent_path];
  require_launchctl (lit "launchctl kickstart") [lit "kickstart"; lit "-k"; service_target].

Definition uninstall : Agent unit :=
  installed ← installed;
  if negb installed then mret tt else
  output ← launchctl [lit "bootout"; service_target];
  loaded ← (if negb (out_success output) then st ← status; mret (sv_running st) else mret false);
  if loaded : bool then pure_unit (require_success (lit "launchctl bootout") output) else
  port_err (fun error => manager_error (lit "cannot remove " ++ from_utf8_lossy agent_path ++ lit ": " ++ error)) remove_unit.

#[export] Instance launchd_manager : ServiceManager (UnitWorld M) := {|
  sm_status := status; sm_install := install; sm_uninstall := uninstall
|}.
End Launchd.

(** ** The agent's file *)

Section Files.
Context {M : Type}.
Variable run : str -> list str -> M -> result str Output * M.
Variable executable state_directory runtime_directory home : str.
Variable uid : Z.

Definition my_agent (t : str) : Prop := t = render_plist executable state_directory runtime_directory.
Abbreviation stepping := (unit_step (@un_file M) my_agent).
Abbreviation op_installed := (installed executable state_directory runtime_directory home).
Abbreviation op_status := (status run executable state_directory runtime_directory home uid).
Abbreviation op_install := (install run executable state_directory runtime_directory home uid).
Abbreviation op_uninstall := (uninstall run executable state_directory runtime_directory home uid).

Lemma agent_kept_launchctl args : keeps_unit (launchctl run args).
Proof. unfold launchctl. auto with unit. Qed.
Lemma agent_kept_require command args : keeps_unit (require_launchctl run command args).
Proof. unfold require_launchctl. apply unit_kept_bind; [apply agent_kept_launchctl|auto with unit]. Qed.
Lemma agent_kept_available : keeps_unit (available run).
Proof. intros w. unfold available, run_command. by destruct (run _ _ _). Qed.
#[local] Hint Resolve agent_kept_launchctl agent_kept_require agent_kept_available : unit.

Lemma agent_installed_spec (w : UnitWorld M) r w' :
  op_installed w = (r, w') ->
  un_file w' = un_file w /\
  match r with Ok true => un_file w = Some (render_plist executable state_directory runtime_directory) | Ok false => un_file w = None | Err _ => True end.
Proof.
  unfold installed. intros [(contents & w1 & Hr%port_err_ok & Hi)|(e & He & ->)]%port_bind_inv.
  - pose proof (unit_kept_after _ _ _ _ unit_kept_read Hr) as Hk. apply file_call_ok in Hr as (w0 & [= <- ->] & Hf & _).
    rewrite <- Hk. destruct (un_file w1) as [c|] eqn:Ec.
    + case_bool_decide as Hc; injection Hi as <- <-; [|done]. split; [done|]. by rewrite Hc.
    + by injection Hi as <- <-.
  - split; [|done]. eapply unit_kept_after, He. auto with unit.
Qed.

Lemma write_agent_spec (w : UnitWorld M) r w' :
  write_agent executable state_directory runtime_directory w = (r, w') ->
  match r with
  | Ok _ => un_file w' = Some (render_plist executable state_directory runtime_directory)
  | Err _ => un_file w' = un_file w
  end.
Proof.
  unfold write_agent. intros [(u & w1 & Hc & Hw)|(e & He & ->)]%port_bind_inv; [|eapply unit_kept_after, He; auto with unit].
  pose proof (unit_kept_after _ _ _ _ unit_kept_create Hc) as Hk1. rewrite <- Hk1.
  apply port_bind_inv in Hw as [(u' & w3 & Hwr & Hw)|(e & Hwr & ->)]; [|eapply unit_kept_after, Hwr; auto with unit].
  pose proof (unit_kept_after _ _ _ _ (unit_kept_write _) Hwr) as Hk2. rewrite <- Hk2.
  apply port_bind_inv in Hw as [(u'' & w4 & Hs & Hw)|(e & Hs & ->)]; [|eapply unit_kept_after, Hs; auto with unit].
  pose proof (unit_kept_after _ _ _ _ unit_kept_plain Hs) as Hk3. rewrite <- Hk3.
  apply file_call_ok in Hwr as (v & [= _ Hv] & _ & _). apply file_call_ok in Hs as (v' & [= _ ->] & _ & Ht).
  destruct r as [[]|e].
  - apply file_call_ok in Hw as (v'' & [= <-] & _ & Ht'). cbn [un_file set_files]. by rewrite Ht', Ht, <- Hv.
  - revert Hw. unfold rename_temporary, file_call. destruct (ff_error _); [|done]. by intros [= _ <-].
Qed.

Lemma agent_status_spec (w : UnitWorld M) r w' :
  op_status w = (r, w') ->
  un_file w' = un_file w /\
  match r with
  | Ok st => (if sv_installed st then exists t, my_agent t /\ un_file w = Some t else un_file w = None) /\
             (sv_running st = true -> sv_installed st = true)
  | Err _ => True
  end.
Proof.
  unfold status. intros [(av & w1 & Ha & Hi)|(e & He & ->)]%port_bind_inv;
    [|split; [eapply unit_kept_after, He; auto with unit|done]].
  pose proof (unit_kept_after _ _ _ _ agent_kept_available Ha) as Hk. rewrite <- Hk. clear Ha Hk.
  apply port_bind_inv in Hi as [(inst & w2 & [Hk Hs]%agent_installed_spec & Hi)|(e & [Hk _]%agent_installed_spec & ->)]; [|by split].
  apply port_bind_inv in Hi as [(running & w3 & Hr & Hi)|(e & Hr & ->)].
  - injection Hi as <- <-. cbn [sv_installed sv_running]. rewrite <- Hk. split; [|split].
    + destruct (av && inst); [eapply unit_kept_after, Hr; auto with unit|by injection Hr as _ <-].
    + destruct inst; [|congruence]. eexists. split; [reflexivity|congruence].
    + destruct inst; [done|]. rewrite andb_false_r in Hr. by injection Hr as <- _.
  - split; [|done]. rewrite <- Hk. destruct (av && inst); [eapply unit_kept_after, Hr; auto with unit|done].
Qed.

Lemma agent_install_spec (w : UnitWorld M) r w' :
  op_install w = (r, w') ->
  stepping w w' /\ match r with Ok _ => exists t, my_agent t /\ un_file w' = Some t | Err _ => True end.
Proof.
  unfold install. intros [(inst & w2 & [Hk Hs]%agent_installed_spec & Hi)|(e & [Hk _]%agent_installed_spec & ->)]%port_bind_inv;
    [|split; [by left|done]].
  destruct inst.
  { injection Hi as <- <-. split; [by left|]. eexists. split; [reflexivity|congruence]. }
  unfold unit_step. rewrite Hs. rewrite Hs in Hk.
  apply port_bind_inv in Hi as [(u & w3 & Hp%port_err_ok & Hi)|(e & Hp & ->)];
    [|split; [left; rewrite <- Hk; eapply unit_kept_after, Hp; auto with unit|done]].
  pose proof (unit_kept_after _ _ _ _ unit_kept_plain Hp) as Hk2. rewrite Hk in Hk2. clear Hp Hk.
  apply port_bind_inv in Hi as [(u' & w4 & Hw & Hi)|(e & Hw & ->)].
  - destruct (write_agent _ _ _ w3) as [[?|?] w5] eqn:Ew; [|done]. injection Hw as _ <-. apply write_agent_spec in Ew.
    assert (un_file w' = un_file w5) as ->.
    { eapply (unit_kept_after (_ ≫= _)); [|exact Hi]. apply unit_kept_bind; auto with unit. }
    rewrite Ew. split; [by right|]. destruct r; [|done]. by eexists.
  - destruct (write_agent _ _ _ w3) as [[?|?] w5] eqn:Ew; [done|]. injection Hw as _ <-.
    apply write_agent_spec in Ew. pose proof (unit_kept_remove w5) as Hr. rewrite Hr, Ew, Hk2. split; [by left|done].
Qed.

Lemma agent_uninstall_spec (w : UnitWorld M) r w' :
  op_uninstall w = (r, w') ->
  stepping w w' /\ match r with Ok _ => un_file w' = None | Err _ => True end.
Proof.
  unfold uninstall. intros [(inst & w1 & [Hk Hs]%agent_installed_spec & Hi)|(e & [Hk _]%agent_installed_spec & ->)]%port_bind_inv;
    [|split; [by left|done]].
  destruct inst; cbn [negb] in Hi; [|injection Hi as <- <-; rewrite Hk; split; [by left|done]].
  unfold unit_step. rewrite Hs. rewrite Hs in Hk.
  apply port_bind_inv in Hi as [(output & w2 & Ho & Hi)|(e & Ho & ->)];
    [|split; [left; rewrite <- Hk; eapply unit_kept_after, Ho; auto with unit|done]].
  pose proof (unit_kept_after _ _ _ _ (agent_kept_launchctl _) Ho) as Hk2. rewrite Hk in Hk2. clear Ho Hk.
  assert (keeps_unit op_status) as Hstatus by (intros v; destruct (op_status v) as [x v'] eqn:E; by apply agent_status_spec in E as [? _]).
  apply port_bind_inv in Hi as [(loaded & w3 & Hl & Hi)|(e & Hl & ->)].
  2: { split; [left; rewrite <- Hk2|done]. destruct (out_success output); [done|]. eapply unit_kept_after, Hl.
       apply unit_kept_bind; [done|auto with unit]. }
  assert (un_file w3 = un_file w2) as Hk3.
  { destruct (out_success output); [by injection Hl as _ <-|]. eapply unit_kept_after, Hl. apply unit_kept_bind; [done|auto with unit]. }
  destruct loaded.
  - destruct (out_success output) eqn:Eo; [by injection Hl|]. unfold pure_unit, require_success in Hi. rewrite Eo in Hi.
    injection Hi as <- <-. split; [left; congruence|done].
  - destruct r as [u|e].
    + apply port_err_ok, file_call_ok in Hi as (v & [= Hu <-] & _ & _). split; [by right|done].
    + rewrite port_err_run in Hi. injection Hi as _ <-. split; [|done]. unfold remove_unit, file_call.
      destruct (ff_error _); cbn [snd un_file set_files]; [left; congruence|by right].
Qed.

#[export] Instance launchd_file :
  @FileManager (UnitWorld M) (launchd_manager run executable state_directory runtime_directory home uid) un_file my_agent.
Proof. split; [apply agent_status_spec|apply agent_install_spec|apply agent_uninstall_spec]. Qed.
End Files.

(** ** What launchd reads in the property list

    The strings of the array that follows the key [ProgramArguments], with the
    five named entities of XML. *)
Fixpoint strip_prefix (p s : str) : option str :=
  match p, s with
  | [], _ => Some s
  | a :: p, b :: s => if a =? b then strip_prefix p s else None
  | _ :: _, [] => None
  end.
Fixpoint find_after (p s : str) : option str :=
  match strip_prefix p s with
  | Some r => Some r
  | None => match s with [] => None | _ :: s => find_after p s end
  end.
Definition skip_blank (s : str) : str := (span is_ascii_whitespace s).2.

Definition entities : list (str * Z) :=
  [(lit "amp;", 38); (lit "lt;", 60); (lit "gt;", 62); (lit "quot;", 34); (lit "apos;", 39)].
Fixpoint entity (l : list (str * Z)) (s : str) : option (Z * str) :=
  match l with
  | [] => None
  | (name, b) :: l => match strip_prefix name s with Some r => Some (b, r) | None => entity l s end
  end.
(** [fuel] is the length. *)
Fixpoint unescape (fuel : nat) (s : str) : option str :=
  match fuel, s with
  | _, [] => Some []
  | O, _ => None
  | S fuel, b :: s =>
    if b =? 38 then '(c, r) ← entity entities s; (c ::.) <$> unescape fuel r else (b ::.) <$> unescape fuel s
  end.

(** [fuel] is the length: a string takes a byte. *)
Fixpoint read_strings (fuel : nat) (s : str) : option (list str) :=
  match fuel with
  | O => None
  | S fuel =>
    let s := skip_blank s in
    match strip_prefix (lit "<string>") s with
    | Some s =>
      let '(content, s) := span (fun b => negb (b =? 60)) s in
      s ← strip_prefix (lit "</string>") s;
      word ← unescape (length content) content;
      (word ::.) <$> read_strings fuel s
    | None => _ ← strip_prefix (lit "</array>") s; Some []
    end
  end.
Definition program_arguments (plist : str) : option (list str) :=
  s ← find_after (lit "<key>ProgramArguments</key>") plist;
  s ← strip_prefix (lit "<array>") (skip_blank s);
  read_strings (length plist) s.

Definition xml_char (b : Z) : str :=
  if b =? 38 then lit "&amp;" else if b =? 60 then lit "&lt;" else if b =? 62 then lit "&gt;" else
  if b =? 34 then lit "&quot;" else if b =? 39 then lit "&apos;" else [b].

Lemma xml_escape_flat s : xml_escape s = flat_map xml_char s.
Proof.
  unfold xml_escape. rewrite !replace_byte_flat. induction s as [|b s IH]; [done|]. cbn [flat_map].
  rewrite !flat_map_app, IH. f_equal. unfold xml_char.
  destruct (Z.eqb_spec b 38) as [->|]; [reflexivity|]. cbn [flat_map app].
  destruct (Z.eqb_spec b 60) as [->|]; [reflexivity|]. cbn [flat_map app].
  destruct (Z.eqb_spec b 62) as [->|]; [reflexivity|]. cbn [flat_map app].
  destruct (Z.eqb_spec b 34) as [->|]; [reflexivity|]. cbn [flat_map app].
  by destruct (Z.eqb_spec b 39) as [->|].
Qed.

Lemma strip_prefix_app p s : strip_prefix p (p ++ s) = Some s.
Proof. induction p as [|a p IH]; [done|]. cbn [app strip_prefix]. by rewrite Z.eqb_refl. Qed.

Lemma unescape_char f b rest : unescape (S f) (xml_char b ++ rest) = (b ::.) <$> unescape f rest.
Proof.
  unfold xml_char. destruct (Z.eqb_spec b 38) as [->|H38]; [reflexivity|]. destruct (Z.eqb_spec b 60) as [->|]; [reflexivity|].
  destruct (Z.eqb_spec b 62) as [->|]; [reflexivity|]. destruct (Z.eqb_spec b 34) as [->|]; [reflexivity|].
  destruct (Z.eqb_spec b 39) as [->|]; [reflexivity|]. cbn [app unescape]. by rewrite (proj2 (Z.eqb_neq b 38)).
Qed.

Lemma unescape_escape fuel s : (length (flat_map xml_char s) <= fuel)%nat -> unescape fuel (flat_map xml_char s) = Some s.
Proof.
  revert fuel. induction s as [|b s IH]; intros fuel Hf; [by destruct fuel|]. cbn [flat_map] in *. rewrite length_app in Hf.
  assert (exists fuel', fuel = S fuel' /\ (length (flat_map xml_char s) <= fuel')%nat) as (f & -> & Hf').
  { assert (length (xml_char b) <> 0)%nat by (unfold xml_char; by repeat case_match).
    exists (pred fuel). split; lia. }
  rewrite unescape_char, IH by done. done.
Qed.

Lemma escaped_no_tag s : Forall (fun b => negb (b =? 60) = true) (flat_map xml_char s).
Proof.
  induction s as [|b s IH]; [constructor|]. cbn [flat_map]. apply Forall_app. split; [|done]. unfold xml_char.
  destruct (Z.eqb_spec b 38); [by repeat constructor|]. destruct (Z.eqb_spec b 60) as [|H]; [by repeat constructor|].
  destruct (Z.eqb_spec b 62); [by repeat constructor|]. destruct (Z.eqb_spec b 34); [by repeat constructor|].
  destruct (Z.eqb_spec b 39); [by repeat constructor|]. constructor; [|done]. by rewrite (proj2 (Z.eqb_neq b 60)).
Qed.

Lemma read_string fuel a rest :
  read_strings (S fuel) (10 :: string_line a ++ rest) = (a ::.) <$> read_strings fuel rest.
Proof.
  unfold string_line. rewrite xml_escape_flat, <- !app_assoc.
  transitivity (let '(content, s) := span (fun b => negb (b =? 60)) (flat_map xml_char a ++ lit "</string>" ++ rest) in
    s ← strip_prefix (lit "</string>") s; word ← unescape (length content) content; (word ::.) <$> read_strings fuel s);
    [reflexivity|].
  rewrite (span_prefix _ (flat_map xml_char a)); [|apply escaped_no_tag|].
  - cbn beta iota. rewrite strip_prefix_app. cbn [mbind option_bind]. by rewrite unescape_escape.
  - intros b r'. cbn. by intros [= <- _].
Qed.

Lemma read_lines fuel l rest :
  l <> [] -> (length l < fuel)%nat ->
  read_strings fuel (10 :: join_lines (map string_line l) ++ 10 :: lit "    </array>" ++ rest) = Some l.
Proof.
  intros Hne Hf. revert fuel Hf. induction l as [|a l IH]; [done|]. intros fuel Hf. destruct fuel as [|fuel]; [lia|].
  destruct l as [|a' l].
  - cbn [map join_lines]. rewrite read_string. destruct fuel as [|fuel]; [cbn in Hf; lia|]. reflexivity.
  - change (join_lines (map string_line (a :: a' :: l))) with (string_line a ++ 10 :: join_lines (map string_line (a' :: l))).
    rewrite <- app_assoc, read_string, <- app_comm_cons, IH; [done|done|cbn in *; lia].
Qed.

(** The property list names its arguments once, and read
    as XML they are exactly the arguments that start the supervisor, whatever
    quotes, angle brackets and ampersands the directories have. *)
Theorem plist_arguments_roundtrip executable state_directory runtime_directory :
  program_arguments (render_plist executable state_directory runtime_directory) =
    Some (agent_arguments executable state_directory runtime_directory) /\
  (valid_utf8 executable = true -> valid_utf8 state_directory = true -> valid_utf8 runtime_directory = true ->
   agent_arguments executable state_directory runtime_directory =
     [executable; lit "__supervisor"; lit "--state-dir"; state_directory; lit "--runtime-dir"; runtime_directory; lit "--service-managed"]).
Proof.
  split; [|intros H1 H2 H3; unfold agent_arguments; by rewrite !from_utf8_lossy_id].
  unfold render_plist. set (arguments := agent_arguments _ _ _). set (log := xml_escape _). unfold program_arguments.
  assert (forall rest, find_after (lit "<key>ProgramArguments</key>") (text_of_lines plist_head ++ rest) =
    Some (10 :: lit "    <array>" ++ 10 :: rest)) as Hfind by (intros; reflexivity).
  rewrite Hfind. cbn [mbind option_bind].
  assert (forall rest, strip_prefix (lit "<array>") (skip_blank (10 :: lit "    <array>" ++ 10 :: rest)) = Some (10 :: rest)) as Hstrip
    by (intros; reflexivity).
  rewrite Hstrip. cbn [option_bind].
  assert (exists rest, [10] ++ text_of_lines (plist_tail log) = 10 :: lit "    </array>" ++ rest) as [rest ->] by (by eexists).
  apply read_lines; [done|]. rewrite length_app. assert (8 <= length (text_of_lines plist_head))%nat by (vm_compute; lia).
  change (length arguments) with 7%nat. lia.
Qed.

(** The service commands on launchd, whatever [launchctl] and the files
    answer: a foreign file in the agent's place is left as it is and the
    command fails, no file is left half written, a successful installation
    leaves exactly the agent of this program, loaded, and a successful removal
    none. *)
Theorem agent_file_safe {M} (run : str -> list str -> M -> result str Output * M) executable state_directory
  runtime_directory home uid (removal : bool) w r w' :
  let manager := launchd_manager run executable state_directory runtime_directory home uid in
  (if removal then @uninstall_service _ manager w else @install_service _ manager w) = (r, w') ->
  let text := render_plist executable state_directory runtime_directory in
  (forall c, un_file w = Some c -> c <> text -> un_file w' = Some c /\ is_ok r = false) /\
  (un_file w' = un_file w \/ un_file w' = None \/ un_file w' = Some text) /\
  match r with
  | Ok c => if removal then un_file w' = None else un_file w' = Some text /\ sv_running (sc_status c) = true
  | Err (SL_Install _) | Err (SL_IncompleteInstall _) => removal = false -> un_file w' = None
  | Err _ => True
  end.
Proof.
  cbv zeta. intros Hr. pose proof (@service_file_safe _ _ un_file _ (launchd_file run _ _ _ _ _) removal w r w' Hr) as (H1 & H2 & H3).
  split; [exact H2|]. split.
  - destruct H1 as [?|[Ho _]]; [by left|right]. destruct (un_file w') as [t|]; [right; by rewrite Ho|by left].
  - destruct r; [|done]. destruct removal; [done|]. destruct H3 as (t & -> & ?). done.
Qed.

Module LaunchdExample.
Definition executable0 : str := lit "/Applications/A&T <1>/atx".
Definition state0 : str := lit "/Users/u/it's".
Definition runtime0 : str := lit "/tmp/atx".
Definition target0 : str := lit "gui/501/io.github.jsugg.atx".
(** A launchd, with an agent that is loaded when the state is true. *)
Definition run0 (program : str) (args : list str) (loaded : bool) : result str Output * bool :=
  if bool_decide (args = [lit "print"; target0]) then (Ok (mk_output loaded [] []), loaded) else
  if bool_decide (args = [lit "bootout"; target0]) then (Ok (mk_output loaded [] (lit "no such process")), false) else
  (Ok (mk_output true [] []), if bool_decide (lit "bootstrap" ∈ args) then true else loaded).
Definition install0 := @install_service _ (launchd_manager run0 executable0 state0 runtime0 (lit "/Users/u") 501).
Definition empty : UnitWorld bool := mk_unit_world None None [] false [].
Definition stopped : UnitWorld bool := mk_unit_world (Some (render_plist executable0 state0 runtime0)) None [] false [].
End LaunchdExample.
Import LaunchdExample.

(** An installation, and that of an agent that is installed and not loaded,
    which is removed instead of started, as on systemd. *)
Example launchd_install_ex :
  is_ok (install0 empty).1 = true /\ un_file (install0 empty).2 = Some (render_plist executable0 state0 runtime0) /\
  is_ok (install0 stopped).1 = false /\ un_file (install0 stopped).2 = None.
Proof. vm_compute. done. Qed.

Lemma agent_file_safe_witness :
  exists r w', @install_service _ (launchd_manager run0 executable0 state0 runtime0 (lit "/Users/u") 501) empty = (r, w') /\
    is_ok r = true /\ un_file w' = Some (render_plist executable0 state0 runtime0).
Proof.
  destruct (@install_service _ (launchd_manager run0 executable0 state0 runtime0 (lit "/Users/u") 501) empty) as [r w'] eqn:E.
  exists r, w'. split; [reflexivity|].
  assert (is_ok r = true) as Hok by (change (is_ok (r, w').1 = true); rewrite <- E; vm_compute; reflexivity).
  split; [exact Hok|].
  pose proof (agent_file_safe run0 executable0 state0 runtime0 (lit "/Users/u") 501 false empty r w') as X.
  specialize (X E). destruct X as (_ & _ & H). destruct r as [c|e]; [exact (proj1 H) | discriminate Hok].
Defined.

Lemma plist_arguments_roundtrip_witness :
  valid_utf8 executable0 = true /\
  program_arguments (render_plist executable0 state0 runtime0) =
    Some [executable0; lit "__supervisor"; lit "--state-dir"; state0; lit "--runtime-dir"; runtime0; lit "--service-managed"].
Proof.
  split; [reflexivity|]. destruct (plist_arguments_roundtrip executable0 state0 runtime0) as [-> H].
  rewrite H; reflexivity.
Defined.
