(* ===== verification/Paths.v ===== *)
(** [src/infrastructure/paths/mod.rs] and the file side of
    [src/infrastructure/runtime/mod.rs]: where the program keeps its files, and
    how it creates them.

    A file system is the map of its entries; a call may fail, and no other
    process changes the entries meanwhile.  A path is a byte string, so two
    spellings of a path are two keys.  The process start is an argument. *)

From S2P Require Import Prelude Text Primitives Duration Identifier States Recurrence Execution JobAgg RunAgg.
From S2P Require Import Sqlite JobStore RunStore Reconcile Retention Recovery Management Services.

(** ** Where the files are *)

Inductive Platform := PF_Linux | PF_MacOs.
Record PathEnvironment := mk_path_environment {
  pe_home : option str;
  pe_xdg_state_home : option str;
  pe_xdg_runtime_dir : option str;
  pe_temporary_directory : option str
}.
Record PlatformPaths := mk_platform_paths { pp_state_dir : str; pp_runtime_dir : str; pp_runtime_uses_fallback : bool }.

Inductive PathError :=
| PAE_MissingHome | PAE_MissingRuntimeRoot | PAE_RelativePath | PAE_InvalidLeafName
| PAE_Insecure (what : str)
| PAE_Io (message : str)
| PAE_System (message : str).

Definition require_absolute (path : str) : result PathError unit :=
  if is_absolute path then Ok tt else Err PAE_RelativePath.

Definition fallback_runtime (e : PathEnvironment) (uid : Z) : result PathError str :=
  ok_or ((fun root => path_join root (lit "atx-" ++ show_dec uid)) <$> pe_temporary_directory e) PAE_MissingRuntimeRoot.

Definition resolve_paths (platform : Platform) (e : PathEnvironment) (state_override : option str) (uid : Z)
  : result PathError PlatformPaths :=
  match state_override with
  | Some state_dir =>
    _ ← require_absolute state_dir;
    Ok (mk_platform_paths state_dir (path_join state_dir (lit "runtime")) true)
  | None =>
    state_dir ← ok_or
      match platform with
      | PF_Linux =>
        match pe_xdg_state_home e with
        | Some root => Some (path_join root (lit "atx"))
        | None => (fun home => path_join home (lit ".local/state/atx")) <$> pe_home e
        end
      | PF_MacOs => (fun home => path_join home (lit "Library/Application Support/atx")) <$> pe_home e
      end PAE_MissingHome;
    _ ← require_absolute state_dir;
    '(runtime_dir, uses_fallback) ←
      match platform, pe_xdg_runtime_dir e with
      | PF_Linux, Some root => Ok (path_join root (lit "atx"), false)
      | _, _ => fallback ← fallback_runtime e uid; Ok (fallback, true)
      end;
    _ ← require_absolute runtime_dir;
    Ok (mk_platform_paths state_dir runtime_dir uses_fallback)
  end.

(** ** The file system *)

Inductive Kind := KD_Directory | KD_File | KD_Symlink | KD_Other.
#[export] Instance Kind_eq_dec : EqDecision Kind. Proof. solve_decision. Defined.
Record Node := mk_node { nd_kind : Kind; nd_uid : Z; nd_mode : Z }.

(** [fs_faults]: for each call, the error it fails with. *)
Record Fs := mk_fs { fs_nodes : gmap str Node; fs_euid : Z; fs_umask : Z; fs_faults : list (option str) }.
Abbreviation Files := (Port Fs PathError).

Definition fs_call {A} (error : str -> PathError) (f : Fs -> result PathError (A * gmap str Node)) : Files A := fun s =>
  let s1 := mk_fs (fs_nodes s) (fs_euid s) (fs_umask s) (tail (fs_faults s)) in
  match head (fs_faults s) with
  | Some (Some e) => (Err (error e), s1)
  | _ =>
    match f s1 with
    | Ok (a, nodes) => (Ok a, mk_fs nodes (fs_euid s1) (fs_umask s1) (fs_faults s1))
    | Err e => (Err e, s1)
    end
  end.
Definition pure_files {A} (r : result PathError A) : Files A := fun s => (r, s).

Definition geteuid : Files Z := fun s => (Ok (fs_euid s), s).

(** A created entry: the mode asked for without the bits of the mask. *)
Definition created (s : Fs) (kind : Kind) (mode : Z) : Node := mk_node kind (fs_euid s) (Z.ldiff mode (fs_umask s)).
Definition S_0700 : Z := 448.
Definition S_0600 : Z := 384.
Definition permissions (n : Node) : Z := Z.land (nd_mode n) 511.

(** [DirBuilder::create], of which an existing entry is not an error. *)
Definition create_dir (path : str) : Files unit := fs_call PAE_Io (fun s =>
  match fs_nodes s !! path with
  | Some _ => Ok (tt, fs_nodes s)
  | None => Ok (tt, <[path := created s KD_Directory S_0700]> (fs_nodes s))
  end).
Definition symlink_metadata (path : str) : Files Node := fs_call PAE_Io (fun s =>
  node ← ok_or (fs_nodes s !! path) (PAE_Io (lit "No such file or directory (os error 2)")); Ok (node, fs_nodes s)).

Definition validate_private_dir_for_uid (path : str) (expected_uid : Z) : Files unit :=
  metadata ← symlink_metadata path;
  pure_files
    (if bool_decide (nd_kind metadata = KD_Symlink) || negb (bool_decide (nd_kind metadata = KD_Directory))
     then Err (PAE_Insecure (lit "path is not a real directory")) else
     if negb (nd_uid metadata =? expected_uid) then Err (PAE_Insecure (lit "directory has the wrong owner")) else
     if negb (permissions metadata =? S_0700) then Err (PAE_Insecure (lit "directory mode must be 0700")) else Ok tt).

Definition ensure_private_dir (path : str) : Files unit :=
  _ ← create_dir path;
  uid ← geteuid;
  validate_private_dir_for_uid path uid.

Definition validate_leaf_name (name : str) : result PathError unit :=
  match components name with
  | [CompNormal _] => Ok tt
  | _ => Err PAE_InvalidLeafName
  end.

(** [File::open] on a directory; the handle is the path. *)
Definition open_directory (path : str) : Files str := fs_call PAE_Io (fun s =>
  _ ← ok_or (fs_nodes s !! path) (PAE_Io (lit "No such file or directory (os error 2)")); Ok (path, fs_nodes s)).

(** [openat] with [O_CREAT | O_EXCL | O_NOFOLLOW]. *)
Definition open_new (directory name : str) : Files str := fs_call PAE_System (fun s =>
  let path := path_join directory name in
  match fs_nodes s !! path with
  | Some _ => Err (PAE_System (lit "File exists (os error 17)"))
  | None => Ok (path, <[path := created s KD_File S_0600]> (fs_nodes s))
  end).

Definition create_new_private_file (directory name : str) : Files str :=
  _ ← pure_files (validate_leaf_name name);
  open_new directory name.

(** [openat] without creation: [None] when there is no entry. *)
Definition open_existing (directory name : str) : Files (option Node) := fs_call PAE_System (fun s =>
  match fs_nodes s !! path_join directory name with
  | None => Ok (None, fs_nodes s)
  | Some node =>
    if bool_decide (nd_kind node = KD_Symlink) then Err (PAE_System (lit "Too many levels of symbolic links (os error 40)")) else
    if bool_decide (nd_kind node = KD_Directory) then Err (PAE_System (lit "Is a directory (os error 21)")) else
    Ok (Some node, fs_nodes s)
  end).
Definition fstat (node : Node) : Files Node := fs_call PAE_System (fun s => Ok (node, fs_nodes s)).

Definition open_or_create_private_append_log (directory name : str) : Files str :=
  _ ← pure_files (validate_leaf_name name);
  file ← open_existing directory name;
  match file with
  | None => create_new_private_file directory name
  | Some node =>
    metadata ← fstat node;
    uid ← geteuid;
    pure_files
      (if negb (nd_uid metadata =? uid) || negb (permissions metadata =? S_0600) || negb (bool_decide (nd_kind metadata = KD_File))
       then Err (PAE_Insecure (lit "log must be a regular, owner-only file owned by this user"))
       else Ok (path_join directory name))
  end.

(** ** [runtime/mod.rs] *)

(** A copy of the program that is started detached: it reads nothing, writes to
    its log and leads a session of its own. *)
Record ChildCommand := mk_child_command { ch_program : str; ch_arguments : list str; ch_log : str }.
Definition supervisor_arguments (state_directory runtime_directory : str) : list str :=
  [lit "__supervisor"; lit "--state-dir"; state_directory; lit "--runtime-dir"; runtime_directory].
Definition monitor_arguments (state_directory runtime_directory : str) (job_id : JobId) (run_id : RunId) : list str :=
  [lit "__monitor"; lit "--state-dir"; state_directory; lit "--runtime-dir"; runtime_directory;
   lit "--job"; job_id_to_string job_id; lit "--run"; run_id_to_string run_id].

Section Detached.
Variable current_exe : result str str.
Variable spawn : ChildCommand -> result str unit.

Definition spawn_logged (state_directory : str) (arguments : list str) : Files unit :=
  state_handle ← open_directory state_directory;
  log ← open_or_create_private_append_log state_handle (lit "supervisor.log");
  program ← pure_files (map_err PAE_Io current_exe);
  pure_files (map_err PAE_Io (spawn (mk_child_command program arguments log))).

Definition start_session_supervisor (state_directory runtime_directory : str) : Files unit :=
  _ ← ensure_private_dir state_directory;
  _ ← ensure_private_dir runtime_directory;
  spawn_logged state_directory (supervisor_arguments state_directory runtime_directory).

(** [spawn_run_monitor] of [supervisor/daemon.rs] *)
Definition start_run_monitor (state_directory runtime_directory : str) (job_id : JobId) (run_id : RunId) : Files unit :=
  _ ← ensure_private_dir state_directory;
  spawn_logged state_directory (monitor_arguments state_directory runtime_directory job_id run_id).
End Detached.

Record RunArtifacts := mk_run_artifacts {
  ra_stdout_path : str; ra_stderr_path : str; ra_stdout_file : str; ra_stderr_file : str
}.

Definition create_run_artifacts (state_directory : str) (run_id : RunId) : Files RunArtifacts :=
  _ ← ensure_private_dir state_directory;
  let runs_directory := path_join state_directory (lit "runs") in
  _ ← ensure_private_dir runs_directory;
  let job_directory := path_join runs_directory (run_id_to_string run_id) in
  _ ← ensure_private_dir job_directory;
  handle ← open_directory job_directory;
  stdout_file ← create_new_private_file handle (lit "stdout.log");
  stderr_file ← create_new_private_file handle (lit "stderr.log");
  let relative := path_join (lit "runs") (run_id_to_string run_id) in
  mret (mk_run_artifacts (path_join relative (lit "stdout.log")) (path_join relative (lit "stderr.log")) stdout_file stderr_file).

(** ** Lemmas *)

(** What a call may do: entries stay as they are, and a new one belongs to the
    user alone. *)
Definition owner_only (s : Fs) (n : Node) : Prop := nd_uid n = fs_euid s /\ Z.land (nd_mode n) 63 = 0.
Definition extends (s s' : Fs) : Prop :=
  fs_euid s' = fs_euid s /\ fs_umask s' = fs_umask s /\
  (forall path n, fs_nodes s !! path = Some n -> fs_nodes s' !! path = Some n) /\
  (forall path n, fs_nodes s !! path = None -> fs_nodes s' !! path = Some n -> owner_only s n).
Definition careful {A} (m : Files A) : Prop := forall s, extends s (m s).2.

Definition private_dir (s : Fs) (path : str) : Prop :=
  exists n, fs_nodes s !! path = Some n /\ nd_kind n = KD_Directory /\ nd_uid n = fs_euid s /\ permissions n = S_0700.
Definition private_file (s : Fs) (path : str) : Prop :=
  exists n, fs_nodes s !! path = Some n /\ nd_kind n = KD_File /\ owner_only s n.

#[export] Instance extends_preorder : PreOrder extends.
Proof.
  split.
  - intros s. split_and!; try done. intros p n H1 H2. congruence.
  - intros a b c (Ha1 & Ha2 & Ha3 & Ha4) (Hb1 & Hb2 & Hb3 & Hb4). split_and!; [congruence|congruence|auto|].
    intros p n Hn Hc. destruct (fs_nodes b !! p) as [n'|] eqn:E.
    + specialize (Ha4 p n' Hn E). rewrite (Hb3 _ _ E) in Hc. by injection Hc as <-.
    + destruct (Hb4 p n E Hc) as [Hu Hm]. split; [congruence|done].
Qed.

Lemma careful_bind {A B} (m : Files A) (f : A -> Files B) : careful m -> (forall a, careful (f a)) -> careful (m ≫= f).
Proof.
  intros Hm Hf s. specialize (Hm s). unfold mbind, port_bind. destruct (m s) as [[a|e] s1]; cbn in *; [|done].
  etransitivity; [exact Hm|apply Hf].
Qed.
Lemma careful_ret {A} (a : A) : careful (mret a). Proof. intros s. cbn. reflexivity. Qed.
Lemma careful_pure {A} (r : result PathError A) : careful (pure_files r). Proof. intros s. cbn. reflexivity. Qed.
Lemma careful_euid : careful geteuid. Proof. intros s. cbn. reflexivity. Qed.

Lemma careful_call {A} (error : str -> PathError) (f : Fs -> result PathError (A * gmap str Node)) :
  (forall s a nodes, f s = Ok (a, nodes) ->
     nodes = fs_nodes s \/ exists path n, fs_nodes s !! path = None /\ owner_only s n /\ nodes = <[path := n]> (fs_nodes s)) ->
  careful (fs_call error f).
Proof.
  intros Hf s. unfold fs_call. set (s1 := mk_fs _ _ _ _). assert (extends s s1) as H1.
  { split_and!; try done. cbn. intros p n H1 H2. congruence. }
  assert (extends s (match f s1 with
    | Ok (a, nodes) => (Ok a, mk_fs nodes (fs_euid s1) (fs_umask s1) (fs_faults s1))
    | Err e => (Err e, s1) end).2) as Hgo.
  { destruct (f s1) as [[a nodes]|e] eqn:E; [|done]. cbn. destruct (Hf _ _ _ E) as [->|(p & n & Hp & Hn & ->)]; [done|].
    split_and!; try done; cbn in *; intros q m.
    - intros Hq. destruct (decide (p = q)) as [->|]; [congruence|]. by rewrite lookup_insert_ne.
    - intros Hq. destruct (decide (p = q)) as [->|]; [|rewrite lookup_insert_ne; [congruence|done]].
      rewrite lookup_insert_eq. by intros [= <-]. }
  destruct (head (fs_faults s)) as [[e|]|]; [done|exact Hgo..].
Qed.

(** The bits of a created mode are among those asked for. *)
Lemma created_owner_only s kind mode : Z.land mode 63 = 0 -> owner_only s (created s kind mode).
Proof.
  intros Hm. split; [done|]. cbn. apply Z.bits_inj'. intros i Hi. rewrite Z.land_spec, Z.ldiff_spec, Z.bits_0.
  pose proof (f_equal (fun x => Z.testbit x i) Hm) as Hb. cbn in Hb. rewrite Z.land_spec, Z.bits_0 in Hb.
  destruct (Z.testbit mode i), (Z.testbit 63 i); simpl in *; try done. by rewrite andb_false_r.
Qed.

Ltac call_kept := apply careful_call; intros s a nodes; cbn;
  repeat case_match; intros; simplify_eq; eauto.
Lemma careful_create_dir path : careful (create_dir path).
Proof.
  apply careful_call. intros s a nodes. destruct (fs_nodes s !! path) eqn:E; intros [= _ <-]; [by left|right].
  eexists path, _. split_and!; [done| |reflexivity]. by apply created_owner_only.
Qed.
Lemma careful_open_new directory name : careful (open_new directory name).
Proof.
  apply careful_call. intros s a nodes. cbv zeta. destruct (fs_nodes s !! _) eqn:E; [done|]. intros [= _ <-]. right.
  eexists _, _. split_and!; [exact E| |reflexivity]. by apply created_owner_only.
Qed.
Lemma careful_metadata path : careful (symlink_metadata path).
Proof. apply careful_call. intros s a nodes (n & _ & [= _ <-])%bind_ok. by left. Qed.
Lemma careful_open_directory path : careful (open_directory path).
Proof. apply careful_call. intros s a nodes (n & _ & [= _ <-])%bind_ok. by left. Qed.
Lemma careful_open_existing directory name : careful (open_existing directory name).
Proof. call_kept. Qed.
Lemma careful_fstat node : careful (fstat node).
Proof. call_kept. Qed.

Create HintDb files.
#[export] Hint Resolve careful_bind careful_ret careful_pure careful_euid careful_create_dir careful_open_new careful_metadata
  careful_open_directory careful_open_existing careful_fstat : files.

Lemma careful_validate path uid : careful (validate_private_dir_for_uid path uid).
Proof. unfold validate_private_dir_for_uid. auto with files. Qed.
#[export] Hint Resolve careful_validate : files.
Lemma careful_ensure path : careful (ensure_private_dir path).
Proof. unfold ensure_private_dir. auto with files. Qed.
Lemma careful_create_new directory name : careful (create_new_private_file directory name).
Proof. unfold create_new_private_file. auto with files. Qed.
#[export] Hint Resolve careful_ensure careful_create_new : files.
Lemma careful_append_log directory name : careful (open_or_create_private_append_log directory name).
Proof. unfold open_or_create_private_append_log. apply careful_bind; [auto with files|]. intros u. apply careful_bind; [auto with files|]. intros [n|]; auto 10 with files. Qed.
#[export] Hint Resolve careful_append_log : files.
Lemma careful_logged exe spawn state arguments : careful (spawn_logged exe spawn state arguments).
Proof. unfold spawn_logged. auto 10 with files. Qed.
#[export] Hint Resolve careful_logged : files.
Lemma careful_start exe spawn state runtime : careful (start_session_supervisor exe spawn state runtime).
Proof. unfold start_session_supervisor. auto 10 with files. Qed.
Lemma careful_monitor exe spawn state runtime job run : careful (start_run_monitor exe spawn state runtime job run).
Proof. unfold start_run_monitor. auto 10 with files. Qed.
Lemma careful_artifacts state id : careful (create_run_artifacts state id).
Proof. unfold create_run_artifacts. cbv zeta. repeat (apply careful_bind; [auto with files|intros ?]). auto with files. Qed.

Lemma private_dir_extends s s' path : extends s s' -> private_dir s path -> private_dir s' path.
Proof. intros (He & _ & Hk & _) (n & Hn & Hd & Hu & Hm). exists n. rewrite He. split_and!; auto. Qed.
Lemma private_file_extends s s' path : extends s s' -> private_file s path -> private_file s' path.
Proof. intros (He & _ & Hk & _) (n & Hn & Hd & Hu & Hm). exists n. unfold owner_only. rewrite He. split_and!; auto. Qed.
Lemma careful_after {A} (m : Files A) s r s' : careful m -> m s = (r, s') -> extends s s'.
Proof. intros Hm E. specialize (Hm s). by rewrite E in Hm. Qed.
Lemma pure_files_ok {A} (r : result PathError A) s a s' : pure_files r s = (Ok a, s') -> r = Ok a /\ s' = s.
Proof. by intros [= -> ->]. Qed.

Lemma fs_call_ok {A} (error : str -> PathError) (f : Fs -> result PathError (A * gmap str Node)) s a s' :
  fs_call error f s = (Ok a, s') ->
  exists s1, f s1 = Ok (a, fs_nodes s') /\ fs_nodes s1 = fs_nodes s /\ fs_euid s1 = fs_euid s /\ fs_euid s' = fs_euid s.
Proof.
  unfold fs_call. set (s1 := mk_fs _ _ _ _).
  assert (match f s1 with
    | Ok (a, nodes) => (Ok a, mk_fs nodes (fs_euid s1) (fs_umask s1) (fs_faults s1))
    | Err e => (Err e, s1) end = (Ok a, s') -> exists s1, f s1 = Ok (a, fs_nodes s') /\ fs_nodes s1 = fs_nodes s /\
      fs_euid s1 = fs_euid s /\ fs_euid s' = fs_euid s) as Hgo.
  { destruct (f s1) as [[b nodes]|e] eqn:E; [|done]. intros [= -> <-]. exists s1. by split_and!. }
  destruct (head (fs_faults s)) as [[e|]|]; [done|exact Hgo..].
Qed.

Lemma ensure_private_dir_ok path s u s' : ensure_private_dir path s = (Ok u, s') -> private_dir s' path.
Proof.
  unfold ensure_private_dir. intros (u1 & s1 & _ & H')%port_bind_ok. apply port_bind_ok in H' as (uid & s2 & [= <- <-] & H').
  unfold validate_private_dir_for_uid in H'. apply port_bind_ok in H' as (n & s3 & Hn & [Hc ->]%pure_files_ok).
  apply fs_call_ok in Hn as (s4 & (n' & Hn'%ok_or_ok & [= -> Hnodes])%bind_ok & Hs4 & _ & He).
  destruct (decide (nd_kind n = KD_Symlink)); [by rewrite bool_decide_true in Hc|]. rewrite bool_decide_false in Hc by done.
  destruct (decide (nd_kind n = KD_Directory)); [rewrite bool_decide_true in Hc by done|by rewrite bool_decide_false in Hc].
  cbn [negb orb] in Hc. destruct (Z.eqb_spec (nd_uid n) (fs_euid s1)) as [Hu|]; [|done]. cbn [negb] in Hc.
  destruct (Z.eqb_spec (permissions n) S_0700); [|done]. exists n. rewrite <- Hnodes, He. by split_and!.
Qed.

Lemma create_new_private_file_ok directory name s file s' :
  create_new_private_file directory name s = (Ok file, s') ->
  file = path_join directory name /\ fs_nodes s !! file = None /\ private_file s' file.
Proof.
  unfold create_new_private_file. intros (u & s1 & [_ ->]%pure_files_ok & H')%port_bind_ok.
  apply fs_call_ok in H' as (s2 & Hf & Hn & He2 & He). cbv zeta in Hf. rewrite Hn in Hf.
  destruct (fs_nodes s !! path_join directory name) eqn:E; [done|]. injection Hf as <- Hnodes. split_and!; [done..|].
  eexists. rewrite <- Hnodes, lookup_insert_eq. split; [reflexivity|]. split; [done|].
  destruct (created_owner_only s2 KD_File S_0600 eq_refl) as [Hu Hm]. split; [congruence|done].
Qed.

(** The log that is appended to: new, or one that is already private. *)
Lemma append_log_ok directory name s file s' :
  open_or_create_private_append_log directory name s = (Ok file, s') -> file = path_join directory name /\ private_file s' file.
Proof.
  unfold open_or_create_private_append_log. intros (u & s1 & [_ ->]%pure_files_ok & H')%port_bind_ok.
  apply port_bind_ok in H' as (found & s2 & Ho & H'). destruct found as [node|].
  2: { apply create_new_private_file_ok in H' as (? & _ & ?). done. }
  apply fs_call_ok in Ho as (s3 & Ho & Hn3 & He3 & He2).
  destruct (fs_nodes s3 !! path_join directory name) as [n|] eqn:En; [|done].
  destruct (bool_decide (nd_kind n = KD_Symlink)); [done|]. destruct (bool_decide (nd_kind n = KD_Directory)); [done|].
  injection Ho as -> Hnodes2. apply port_bind_ok in H' as (m & s4 & Hf & H').
  apply fs_call_ok in Hf as (s5 & [= -> Hnodes4] & Hn5 & He5 & He4).
  apply port_bind_ok in H' as (uid & s6 & [= <- <-] & [Hc ->]%pure_files_ok).
  destruct (Z.eqb_spec (nd_uid m) (fs_euid s4)) as [Hu|]; [|done]. destruct (Z.eqb_spec (permissions m) S_0600) as [Hp|]; [|done].
  destruct (bool_decide_reflect (nd_kind m = KD_File)) as [Hk|]; [|done]. cbn [negb orb] in Hc. injection Hc as <-.
  split; [done|]. exists m. rewrite <- Hnodes4, Hn5, <- Hnodes2. split_and!; [done|done|]. split; [done|].
  change 63 with (Z.land 511 63). unfold permissions in Hp. by rewrite Z.land_assoc, Hp.
Qed.

(** A detached child is started with its arguments and a private log. *)
Lemma spawn_logged_ok exe spawn state arguments s u s' :
  spawn_logged exe spawn state arguments s = (Ok u, s') ->
  exists program, exe = Ok program /\ private_file s' (path_join state (lit "supervisor.log")) /\
    spawn (mk_child_command program arguments (path_join state (lit "supervisor.log"))) = Ok tt.
Proof.
  unfold spawn_logged. intros (handle & s1 & Hh & H')%port_bind_ok.
  assert (handle = state) as -> by (apply fs_call_ok in Hh as (x & (n & _ & [= <- _])%bind_ok & _); done).
  apply port_bind_ok in H' as (log & s2 & [-> Hp]%append_log_ok & H').
  apply port_bind_ok in H' as (program & s3 & [Hx%map_err_ok ->]%pure_files_ok & [Hs%map_err_ok ->]%pure_files_ok).
  exists program. destruct u. by split_and!.
Qed.

(** ** The paths of a run *)

Lemma digit_of_name b d : digit_of b = Some d -> b <> 47 /\ b <> 46.
Proof. intros Hd. split; intros ->; by vm_compute in Hd. Qed.

Lemma decode_name s v : decode s = Ok v -> contains_byte 47 s = false /\ contains_byte 46 s = false.
Proof.
  unfold decode. destruct (negb _); [done|]. generalize 0 as a. induction s as [|b s IH]; intros a; [done|].
  intros (d & [H1 H2]%digit_of_name & _ & _ & [Ha Hb]%IH)%decode_fold_cons. change (b :: s) with ([b] ++ s).
  rewrite !contains_byte_app, Ha, Hb. unfold contains_byte. cbn [existsb].
  by rewrite (proj2 (Z.eqb_neq 47 b)), (proj2 (Z.eqb_neq 46 b)) by done.
Qed.

Lemma inner_component_name w : w <> [] -> contains_byte 46 w = false -> inner_component w = Some (CompNormal w).
Proof.
  intros Hne Hd. unfold inner_component. destruct w as [|b w]; [done|].
  assert (b <> 46) by (intros ->; done). repeat (case_match; try done); congruence.
Qed.

Lemma path_join_name directory name :
  is_absolute name = false -> directory <> [] -> contains_byte 47 directory = false -> path_join directory name = directory ++ 47 :: name.
Proof.
  intros Hn Hd Hs. rewrite path_join_eq, Hn. unfold separator. destruct (last directory) as [x|] eqn:E; [|by apply last_None in E].
  assert (x <> 47).
  { intros ->. apply last_Some in E as (l & ->). rewrite contains_byte_app in Hs. by apply orb_false_iff in Hs as [_ ?]. }
  by repeat (case_match; try congruence).
Qed.

(** The recorded path of a log of a run: [runs/ID/NAME]. *)
Definition log_path (run_id : RunId) (name : str) : str := path_join (path_join (lit "runs") (run_id_to_string run_id)) name.

Lemma run_id_name id : uuid_ok (run_uuid id) ->
  run_id_to_string id <> [] /\ contains_byte 47 (run_id_to_string id) = false /\ contains_byte 46 (run_id_to_string id) = false /\
  is_absolute (run_id_to_string id) = false.
Proof.
  intros Hid. pose proof (id_text_decode _ Hid) as Hd. fold (run_id_to_string id) in Hd. destruct (decode_name _ _ Hd) as [H1 H2].
  assert (run_id_to_string id <> []) as Hne by (intros E; by rewrite E in Hd). split_and!; try done.
  destruct (run_id_to_string id) as [|b s]; [done|]. cbn. destruct (decide (b = 47)) as [->|]; [done|].
  by repeat (case_match; try done; try congruence).
Qed.

Lemma log_path_relative id name : uuid_ok (run_uuid id) -> name <> [] -> contains_byte 47 name = false ->
  inner_component name = Some (CompNormal name) -> log_path_ok (log_path id name).
Proof.
  intros Hid Hne Hs Hc. destruct (run_id_name id Hid) as (Hi & Hi47 & Hi46 & Ha). unfold log_path.
  assert (is_absolute name = false) as Hna.
  { destruct name as [|b s]; [done|]. cbn. destruct (decide (b = 47)) as [->|]; [done|].
    by repeat (case_match; try done; try congruence). }
  rewrite path_join_assoc by done. rewrite (path_join_name _ name) by done. rewrite path_join_name; [| |done|done].
  - unfold log_path_ok, validate_log_path. change (is_absolute (lit "runs" ++ _)) with false. cbn [orb]. unfold components.
    change (is_absolute (lit "runs" ++ _)) with false. rewrite split_on_app by done. rewrite split_on_app by done.
    rewrite split_on_single by done. unfold omap. cbn [list_omap].
    rewrite (inner_component_name (run_id_to_string id)), Hc by done. reflexivity.
  - destruct (run_id_to_string id) as [|b s]; [done|]. exact Ha.
Qed.

(** ** Properties *)

(** The log files of a run: see the property below. *)
Lemma artifacts_private state_directory run_id s r s' :
  is_absolute state_directory = true -> uuid_ok (run_uuid run_id) ->
  create_run_artifacts state_directory run_id s = (r, s') ->
  extends s s' /\
  match r with
  | Ok a =>
    private_dir s' state_directory /\ private_dir s' (path_join state_directory (lit "runs")) /\
    private_dir s' (path_join state_directory (path_join (lit "runs") (run_id_to_string run_id))) /\
    Forall (fun '(file, stored) => fs_nodes s !! file = None /\ private_file s' file /\
              file = path_join state_directory stored /\ log_path_ok stored)
      [(ra_stdout_file a, ra_stdout_path a); (ra_stderr_file a, ra_stderr_path a)]
  | Err _ => True
  end.
Proof.
  intros Habs Hid Hr. split; [by eapply careful_after, Hr; apply careful_artifacts|]. destruct r as [a|]; [|done].
  destruct (run_id_name run_id Hid) as (Hi & Hi47 & Hi46 & Ha).
  unfold create_run_artifacts in Hr. apply port_bind_ok in Hr as (u1 & s1 & H1 & Hr). cbv zeta in Hr.
  apply port_bind_ok in Hr as (u2 & s2 & H2 & Hr). apply port_bind_ok in Hr as (u3 & s3 & H3 & Hr).
  apply port_bind_ok in Hr as (handle & s4 & H4 & Hr). apply port_bind_ok in Hr as (out & s5 & H5 & Hr).
  apply port_bind_ok in Hr as (err & s6 & H6 & [= <- <-]).
  pose proof (careful_after _ _ _ _ (careful_ensure _) H1) as E1. pose proof (careful_after _ _ _ _ (careful_ensure _) H2) as E2.
  pose proof (careful_after _ _ _ _ (careful_ensure _) H3) as E3. pose proof (careful_after _ _ _ _ (careful_open_directory _) H4) as E4.
  pose proof (careful_after _ _ _ _ (careful_create_new _ _) H5) as E5. pose proof (careful_after _ _ _ _ (careful_create_new _ _) H6) as E6.
  assert (handle = path_join (path_join state_directory (lit "runs")) (run_id_to_string run_id)) as Hhandle.
  { apply fs_call_ok in H4 as (x & (n & _ & [= <- _])%bind_ok & _). done. }
  apply ensure_private_dir_ok in H1, H2, H3. apply create_new_private_file_ok in H5 as (Hof & On & Op), H6 as (Hef & En & Ep).
  assert (extends s s4) as E04 by (transitivity s1; [done|]; transitivity s2; [done|]; by transitivity s3).
  assert (extends s s5) as E05 by (by transitivity s4). assert (extends s4 s6) as E46 by (by transitivity s5).
  assert (extends s3 s6) as E36 by (by transitivity s4). assert (extends s2 s6) as E26 by (by transitivity s3).
  assert (extends s1 s6) as E16 by (by transitivity s2).
  assert (forall e x, extends e x -> forall p, fs_nodes x !! p = None -> fs_nodes e !! p = None) as Hback.
  { intros e x (_ & _ & Hk & _) p Hp. destruct (fs_nodes e !! p) eqn:E; [|done]. apply Hk in E. congruence. }
  rewrite path_join_assoc in Hhandle by done. split_and!.
  - by eapply private_dir_extends; [|exact H1].
  - by eapply private_dir_extends; [|exact H2].
  - rewrite <- path_join_assoc by done. by eapply private_dir_extends; [|exact H3].
  - assert (is_absolute (path_join (lit "runs") (run_id_to_string run_id)) = false /\
            path_join (lit "runs") (run_id_to_string run_id) <> []) as [Hrel Hne].
    { rewrite path_join_name by done. done. }
    repeat (apply List.Forall_cons); [| |constructor]; cbn [ra_stdout_file ra_stdout_path ra_stderr_file ra_stderr_path].
    + split_and!; [exact (Hback _ _ E04 _ On)|exact (private_file_extends _ _ _ E6 Op)| |by apply log_path_relative].
      rewrite Hof, Hhandle. by apply path_join_assoc.
    + split_and!; [exact (Hback _ _ E05 _ En)|done| |by apply log_path_relative].
      rewrite Hef, Hhandle. by apply path_join_assoc.
Qed.

(** C23 (safety).  The log files of a run.  Whatever happens, no entry of the file
    system is replaced or changed, and what is created belongs to the user
    alone.  On success the three directories are real and closed to others, the
    two files are new, and they are the files that the recorded relative paths
    name under the state directory; those paths are the ones that a run
    accepts. *)
Theorem run_artifacts_private state_directory run_id s r s' :
  is_absolute state_directory = true -> uuid_ok (run_uuid run_id) ->
  create_run_artifacts state_directory run_id s = (r, s') ->
  extends s s' /\
  match r with
  | Ok a =>
    private_dir s' state_directory /\ private_dir s' (path_join state_directory (lit "runs")) /\
    private_dir s' (path_join state_directory (path_join (lit "runs") (run_id_to_string run_id))) /\
    Forall (fun '(file, stored) => fs_nodes s !! file = None /\ private_file s' file /\
              file = path_join state_directory stored /\ log_path_ok stored)
      [(ra_stdout_file a, ra_stdout_path a); (ra_stderr_file a, ra_stderr_path a)]
  | Err _ => True
  end.
Proof. apply artifacts_private. Qed.

(** Where the files are: absolute directories, the state directory of the
    option before the environment. *)
Theorem resolve_paths_spec platform e state_override uid p :
  resolve_paths platform e state_override uid = Ok p ->
  is_absolute (pp_state_dir p) = true /\
  (state_override = None -> is_absolute (pp_runtime_dir p) = true) /\
  match state_override with
  | Some d => pp_state_dir p = d /\ pp_runtime_dir p = path_join d (lit "runtime")
  | None =>
    (pp_runtime_uses_fallback p = true -> exists root, pe_temporary_directory e = Some root /\
       pp_runtime_dir p = path_join root (lit "atx-" ++ show_dec uid)) /\
    (pp_runtime_uses_fallback p = false -> platform = PF_Linux /\ exists root, pe_xdg_runtime_dir e = Some root /\
       pp_runtime_dir p = path_join root (lit "atx"))
  end.
Proof.
  assert (forall x, require_absolute x = Ok tt -> is_absolute x = true) as Habs.
  { intros x. unfold require_absolute. by destruct (is_absolute x). }
  unfold resolve_paths. destruct state_override as [d|].
  - intros ([] & Hd%Habs & [= <-])%bind_ok. by split_and!.
  - intros (sd & _ & ([] & Hs%Habs & ([rd fb] & Hrd & ([] & Hr%Habs & [= <-])%bind_ok)%bind_ok)%bind_ok)%bind_ok.
    cbn [pp_state_dir pp_runtime_dir pp_runtime_uses_fallback]. split_and!; try done.
    + intros ->. assert (exists fallback, fallback_runtime e uid = Ok fallback /\ rd = fallback) as (f & Hf & ->).
      { destruct platform, (pe_xdg_runtime_dir e); try done; apply bind_ok in Hrd as (f & Hf & [= <-]); by exists f. }
      unfold fallback_runtime in Hf. apply ok_or_ok in Hf. destruct (pe_temporary_directory e) as [root|]; [|done].
      injection Hf as <-. by exists root.
    + intros ->. destruct platform, (pe_xdg_runtime_dir e) as [root|]; try done;
        try (by apply bind_ok in Hrd as (f & _ & [=])). injection Hrd as <-. split; [done|]. by exists root.
Qed.

Module PathsExample.
Definition run0 : RunId := mk_run_id 7.
Definition fs0 : Fs := mk_fs {[ lit "/s" := mk_node KD_Directory 1000 (16384 + 448) ]} 1000 18 [].
(** The directory of the run is a planted link. *)
Definition planted : Fs :=
  mk_fs (<[ path_join (lit "/s/runs") (run_id_to_string run0) := mk_node KD_Symlink 1000 511 ]> (fs_nodes fs0)) 1000 18 [].
End PathsExample.
Import PathsExample.

Example planted_ex : (create_run_artifacts (lit "/s") run0 planted).1 = Err (PAE_Insecure (lit "path is not a real directory")).
Proof. vm_compute. reflexivity. Qed.

Lemma run_artifacts_private_witness :
  exists a s', create_run_artifacts (lit "/s") run0 fs0 = (Ok a, s') /\
    private_file s' (ra_stdout_file a) /\ log_path_ok (ra_stdout_path a).
Proof.
  assert (exists a s', create_run_artifacts (lit "/s") run0 fs0 = (Ok a, s')) as (a & s' & E).
  { destruct (create_run_artifacts (lit "/s") run0 fs0) as [[a|e] s'] eqn:E; [by exists a, s'|]. exfalso.
    apply (f_equal (fun x => is_ok x.1)) in E. vm_compute in E. discriminate. }
  exists a, s'. split; [exact E|].
  assert (is_absolute (lit "/s") = true) as H1 by reflexivity.
  assert (uuid_ok (run_uuid run0)) as H2 by (split; vm_compute; discriminate).
  destruct (run_artifacts_private (lit "/s") run0 fs0 (Ok a) s' H1 H2 E) as (_ & _ & _ & _ & X).
  apply List.Forall_inv in X. destruct X as (_ & Hf & _ & Hl). exact (conj Hf Hl).
Defined.
