(* ===== verification/Children.v ===== *)
(** [src/supervisor/children.rs]: the registry of the run monitors that this
    supervisor has started, and their reaping.

    A child is known by its process identifier; the registry is the set of
    those, visited in their order.  [try_wait] and the child that [waitid]
    names are functions of a state of the system, with their failures;
    [next_exited_child] is the retried call. *)

From S2P Require Import Prelude.

Inductive ReapError :=
| RE_StillRunning
| RE_Io (message : str).

(** What a call of [waitid] answers: an exited child, [0] for none, the error
    [ECHILD], an interruption, or another error. *)
Inductive WaitAnswer := WI_Pid (pid : Z) | WI_NoChild | WI_Interrupted | WI_Failed (message : str).

(** [next_exited_child]: the calls until one is not interrupted; [None] while
    there is none. *)
Fixpoint next_exited_child (answers : list WaitAnswer) : option (result str (option Z)) :=
  match answers with
  | [] => None
  | WI_Pid pid :: _ =>
    Some (if pid =? 0 then Ok None else
          if in_range 0 u32_max pid then Ok (Some pid) else Err (lit "out of range integral type conversion attempted"))
  | WI_NoChild :: _ => Some (Ok None)
  | WI_Interrupted :: answers => next_exited_child answers
  | WI_Failed message :: _ => Some (Err message)
  end.

(** It answers as soon as a call is not interrupted, and never with the pid
    that stands for none. *)
Lemma next_exited_child_spec answers :
  match next_exited_child answers with
  | None => Forall (fun a => a = WI_Interrupted) answers
  | Some r => exists interrupted a rest, answers = interrupted ++ a :: rest /\
      Forall (fun a => a = WI_Interrupted) interrupted /\ a <> WI_Interrupted /\ next_exited_child [a] = Some r /\ r <> Ok (Some 0)
  end.
Proof.
  induction answers as [|a answers IH]; [constructor|].
  assert (forall r, next_exited_child [a] = Some r -> a <> WI_Interrupted -> r <> Ok (Some 0) ->
    exists interrupted b rest, a :: answers = interrupted ++ b :: rest /\
      Forall (fun a => a = WI_Interrupted) interrupted /\ b <> WI_Interrupted /\ next_exited_child [b] = Some r /\ r <> Ok (Some 0)) as Hnow.
  { intros r Hr Ha H0. exists [], a, answers. by split_and!. }
  destruct a as [pid| | |e]; cbn [next_exited_child]; [|by apply Hnow| |by apply Hnow].
  - apply Hnow; [done..|]. destruct (Z.eqb_spec pid 0); [done|]. destruct (in_range _ _ _); congruence.
  - destruct (next_exited_child answers) as [r|]; [|by constructor]. destruct IH as (before & a & rest & -> & Hi & Ha & Hr & H0).
    exists (WI_Interrupted :: before), a, rest. split_and!; try done. by constructor.
Qed.

Section Children.
Context {K : Type}.
(** [next_exited_child]: an exited child whose status has not been taken. *)
Variable ready : K -> result str (option Z) * K.
(** [Child::try_wait], [is_some] *)
Variable try_wait : Z -> K -> result str bool * K.

(** [MonitorChildren::spawn]: registered when the spawn succeeds. *)
Definition spawn (outcome : result str Z) (children : gset Z) : result str unit * gset Z :=
  match outcome with
  | Ok pid => (Ok tt, {[pid]} ∪ children)
  | Err e => (Err e, children)
  end.

(** The keys of the registry in their order. *)
Definition pids (children : gset Z) : list Z := merge_sort Z.le (elements children).

(** [retain]: every child is asked; the first error is kept. *)
Fixpoint retain (l : list Z) (children : gset Z) (first_error : option str) (k : K) : option str * gset Z * K :=
  match l with
  | [] => (first_error, children, k)
  | pid :: l =>
    match try_wait pid k with
    | (Ok true, k) => retain l (children ∖ {[pid]}) first_error k
    | (Ok false, k) => retain l children first_error k
    | (Err e, k) => retain l children (match first_error with Some _ => first_error | None => Some e end) k
    end
  end.

Definition reap_finished (children : gset Z) (k : K) : result ReapError unit * gset Z * K :=
  match retain (pids children) children None k with
  | (Some e, children, k) => (Err (RE_Io e), children, k)
  | (None, children, k) => (Ok tt, children, k)
  end.

(** Every turn that goes on removes a child, so that their number is fuel
    enough. *)
Fixpoint reap_loop (fuel : nat) (children : gset Z) (k : K) : option (result ReapError unit * gset Z * K) :=
  if bool_decide (children = ∅) then Some (Ok tt, children, k) else
  match fuel with
  | O => None
  | S fuel =>
    match ready k with
    | (Err e, k) => Some (Err (RE_Io e), children, k)
    | (Ok None, k) => Some (Ok tt, children, k)
    | (Ok (Some pid), k) =>
      if negb (bool_decide (pid ∈ children)) then Some (reap_finished children k) else
      match try_wait pid k with
      | (Ok true, k) => reap_loop fuel (children ∖ {[pid]}) k
      | (Ok false, k) => Some (Err RE_StillRunning, children, k)
      | (Err e, k) => let '(_, children, k) := reap_finished children k in Some (Err (RE_Io e), children, k)
      end
    end
  end.
Definition reap_ready (children : gset Z) (k : K) : option (result ReapError unit * gset Z * K) :=
  reap_loop (size children) children k.

(** ** Lemmas *)

Lemma reap_loop_ends fuel children k : (size children <= fuel)%nat -> is_some (reap_loop fuel children k) = true.
Proof.
  revert children k. induction fuel as [|fuel IH]; intros children k Hs; cbn [reap_loop].
  - assert (children = ∅) as -> by (apply leibniz_equiv, size_empty_inv; lia). by rewrite bool_decide_true.
  - destruct (bool_decide (children = ∅)); [done|]. destruct (ready k) as [[[pid|]|e] k1]; [|done..].
    destruct (bool_decide_reflect (pid ∈ children)); cbn [negb]; [|done].
    destruct (try_wait pid k1) as [[[]|x] k2]; [|done|by destruct (reap_finished children k2) as [[? ?] ?]].
    apply IH. rewrite size_difference by set_solver. rewrite size_singleton.
    assert (size children <> 0)%nat; [|lia]. intros E%size_empty_inv. set_solver.
Qed.
End Children.

(** ** Property: on a system that answers *)

(** The exited children whose status nobody has taken, some of which are not
    monitors; [pick] is the one that [waitid] names. *)
Definition kernel_ready (pick : gset Z -> option Z) (zombies : gset Z) : result str (option Z) * gset Z := (Ok (pick zombies), zombies).
Definition kernel_try_wait (pid : Z) (zombies : gset Z) : result str bool * gset Z :=
  if bool_decide (pid ∈ zombies) then (Ok true, zombies ∖ {[pid]}) else (Ok false, zombies).

Lemma retain_kernel l children zombies :
  retain kernel_try_wait l children None zombies =
    (None, children ∖ (list_to_set l ∩ zombies), zombies ∖ list_to_set l).
Proof.
  revert children zombies. induction l as [|pid l IH]; intros children zombies; cbn [retain].
  - apply (f_equal2 pair); [apply (f_equal2 pair); [done|]|]; set_solver.
  - unfold kernel_try_wait at 1. case_bool_decide; rewrite IH; (apply (f_equal2 pair); [apply (f_equal2 pair); [done|]|]); set_solver.
Qed.

Lemma pids_elements children : list_to_set (pids children) = children.
Proof.
  apply leibniz_equiv. intros pid. rewrite elem_of_list_to_set. unfold pids.
  rewrite (merge_sort_Permutation Z.le (elements children)). by rewrite elem_of_elements.
Qed.

Lemma reaped (r : result ReapError unit) (c c' z z' : gset Z) : c = c' -> z = z' -> Some (r, c, z) = Some (r, c', z').
Proof. by intros -> ->. Qed.

(** Whatever exited child the system names first, a reaping
    ends, takes the status of exactly the registered children that have exited
    and removes exactly those: no finished monitor is left over, no running one
    is forgotten, and the status of an unrelated child is left to its owner. *)
Theorem reap_ready_spec pick children zombies :
  (forall z pid, pick z = Some pid -> pid ∈ z) -> (forall z, pick z = None -> z = ∅) ->
  reap_ready (kernel_ready pick) kernel_try_wait children zombies =
    Some (Ok tt, children ∖ zombies, zombies ∖ children).
Proof.
  intros Hpick Hnone. unfold reap_ready.
  assert (forall fuel c z, (size c <= fuel)%nat -> reap_loop (kernel_ready pick) kernel_try_wait fuel c z =
    Some (Ok tt, c ∖ z, z ∖ c)) as Hloop; [|by apply Hloop].
  induction fuel as [|fuel IH]; intros c z Hs; cbn [reap_loop].
  - assert (c = ∅) as -> by (apply leibniz_equiv, size_empty_inv; lia). rewrite bool_decide_true by done.
    apply reaped; set_solver.
  - case_bool_decide as Ec; [subst c; apply reaped; set_solver|]. unfold kernel_ready at 1.
    destruct (pick z) as [pid|] eqn:Ep.
    2: { apply Hnone in Ep as ->. apply reaped; set_solver. }
    apply Hpick in Ep. destruct (bool_decide_reflect (pid ∈ c)) as [Hin|Hout]; cbn [negb].
    + unfold kernel_try_wait at 1. rewrite bool_decide_true by done. rewrite IH.
      * apply reaped; set_solver.
      * rewrite size_difference by set_solver. rewrite size_singleton.
        assert (size c <> 0)%nat; [|lia]. intros E%size_empty_inv. set_solver.
    + unfold reap_finished. rewrite retain_kernel, pids_elements. apply reaped; set_solver.
Qed.

Module ChildrenExample.
Definition first_of (z : gset Z) : option Z := head (elements z).
End ChildrenExample.
Import ChildrenExample.

(** Two of the monitors have exited, and a child that is not one. *)
Lemma reap_ready_spec_witness :
  ((forall z pid, first_of z = Some pid -> pid ∈ z) /\ (forall z, first_of z = None -> z = ∅)) /\
  reap_ready (kernel_ready first_of) kernel_try_wait {[11; 12; 13]} {[12; 13; 99]} =
    Some (Ok tt, ({[11; 12; 13]} : gset Z) ∖ {[12; 13; 99]}, ({[12; 13; 99]} : gset Z) ∖ {[11; 12; 13]}).
Proof.
  assert (forall z pid, first_of z = Some pid -> pid ∈ z) as H1.
  { intros z pid. unfold first_of. destruct (elements z) as [|x l] eqn:E; [done|]. intros [= <-].
    apply elem_of_elements. rewrite E. by left. }
  assert (forall z, first_of z = None -> z = ∅) as H2.
  { intros z. unfold first_of. destruct (elements z) as [|x l] eqn:E; [|done]. intros _.
    by apply leibniz_equiv, elements_empty_iff. }
  split; [exact (conj H1 H2)|]. exact (reap_ready_spec first_of {[11; 12; 13]} {[12; 13; 99]} H1 H2).
Defined.
