(* ===== verification/Ipc.v ===== *)
(** [src/supervisor/ipc.rs] and [serve_ipc] of [src/supervisor/daemon.rs]: the
    wake protocol, its client and its server.

    The texts that [thiserror] derives for errors are arguments; the peer of a
    client is a function from the bytes it has received to those it answers,
    and the peer of the server is the bytes of each connection. *)

From S2P Require Import Prelude Text Primitives Duration Identifier States Recurrence Execution JobAgg RunAgg.
From S2P Require Import Sqlite JobStore RunStore Reconcile Retention Recovery Services Heap Loop Frame Daemon.

Inductive IpcError :=
| IE_AlreadyRunning | IE_LockSubstitution | IE_SocketSubstitution | IE_MalformedLock | IE_InvalidAcknowledgement
| IE_Rejected (reason : str)
| IE_Runtime (message : str)
| IE_Io (message : str)
| IE_Json (message : str)
| IE_Frame (e : FrameError).
#[export] Instance IpcError_eq_dec : EqDecision IpcError. Proof. solve_decision. Defined.

(** ** The client: [SocketAcknowledger] *)

(** What [symlink_metadata] says of a file. *)
Inductive FileKind := FK_File | FK_Symlink | FK_Socket | FK_Other.
#[export] Instance FileKind_eq_dec : EqDecision FileKind. Proof. solve_decision. Defined.
Record Metadata := mk_metadata { md_kind : FileKind; md_uid : Z; md_mode : Z }.
Definition is_symlink (m : Metadata) : bool := bool_decide (md_kind m = FK_Symlink).
Definition is_socket (m : Metadata) : bool := bool_decide (md_kind m = FK_Socket).
Definition is_file (m : Metadata) : bool := bool_decide (md_kind m = FK_File).

Record Client := mk_client {
  cl_metadata : result str Metadata;
  cl_euid : Z;
  (** [connect] and the two timeouts *)
  cl_connect : result str unit;
  cl_writes : list SinkStep
}.

Section Ipc.
Context `{MessageJson} `{Serde} `{ExecutionJson}.
Variable daemon_text : DaemonError -> str.
Variable ipc_text : IpcError -> str.

Definition send (c : Client) (peer : list Z -> list Z) (id : JobId) (revision : Revision) : result IpcError unit :=
  metadata ← map_err IE_Io (cl_metadata c);
  if is_symlink metadata || negb (is_socket metadata) || negb (md_uid metadata =? cl_euid c)
     || negb (Z.land (md_mode metadata) 511 =? 384) then Err IE_SocketSubstitution else
  _ ← map_err IE_Io (cl_connect c);
  let '(written, stream) := write_frame (mk_sink [] (cl_writes c)) (Wake PROTOCOL_VERSION id revision) in
  _ ← map_err IE_Frame written;
  answer ← map_err IE_Frame (read_frame (peer (sk_bytes stream))).1;
  match answer with
  | Ack protocol acknowledged_job acknowledged_revision =>
    if (protocol =? PROTOCOL_VERSION) && bool_decide (acknowledged_job = id) && (acknowledged_revision =? revision)
    then Ok tt else Err IE_InvalidAcknowledgement
  | Nack protocol reason =>
    if protocol =? PROTOCOL_VERSION then Err (IE_Rejected reason) else Err IE_InvalidAcknowledgement
  | _ => Err IE_InvalidAcknowledgement
  end.

Definition acknowledge (c : Client) (peer : list Z -> list Z) (id : JobId) (revision : Revision)
  : result SupervisorAckError unit :=
  map_err (fun error =>
    match error with
    | IE_Rejected reason => AE_Rejected reason
    | IE_SocketSubstitution => AE_SocketSubstitution
    | IE_InvalidAcknowledgement => AE_InvalidAcknowledgement
    | other => AE_Unavailable (ipc_text other)
    end) (send c peer id revision).

(** ** The server: [serve_ipc] *)

Record Connection := mk_connection {
  cx_request : list Z;
  cx_writes : list SinkStep;
  cx_wakes : list WakeInput;
  (** the loop still receives events *)
  cx_receiver : bool
}.

(** The bytes that a connection gets back. *)
Definition reply_bytes (c : Connection) (reply : IpcMessage) : list Z :=
  sk_bytes (write_frame (mk_sink [] (cx_writes c)) reply).2.

(** One turn of the loop: whether it goes on, the events for the supervisor
    loop, the bytes written, and the world of the database. *)
Definition serve_connection (c : Connection) (w : DaemonWorld) : bool * list SupervisorEvent * list Z * DaemonWorld :=
  match (read_frame (cx_request c)).1 with
  | Ok (Wake protocol id revision) =>
    if negb (protocol =? 1) then (true, [], [], w) else
    match load_wake_with_retry (cx_wakes c) id w with
    | (Ok (WD_Schedule deadline), w) =>
      if cx_receiver c then (true, [SV_Schedule id deadline], reply_bytes c (Ack 1 id revision), w)
      else (false, [], [], w)
    | (Ok WD_AlreadyTerminal, w) => (true, [], reply_bytes c (Ack 1 id revision), w)
    | (Err error, w) => (true, [], reply_bytes c (Nack 1 (daemon_text error)), w)
    end
  | Ok (Shutdown _) => (false, [], [], w)
  | Ok (Ack _ _ _) | Ok (Nack _ _) | Err _ => (true, [], [], w)
  end.

(** The connections of the listener until one fails to be accepted. *)
Fixpoint serve_ipc (connections : list (result str Connection)) (w : DaemonWorld)
  : list SupervisorEvent * list (list Z) * DaemonWorld :=
  match connections with
  | [] | Err _ :: _ => ([], [], w)
  | Ok c :: connections =>
    let '(continue, events, reply, w) := serve_connection c w in
    if continue then
      let '(events', replies, w) := serve_ipc connections w in (events ++ events', reply :: replies, w)
    else (events, [reply], w)
  end.

(** ** Lemmas *)

(** The frame of a message that fits goes through an unbroken stream. *)
Definition fits (m : IpcMessage) : Prop :=
  message_ok m /\ forall body, to_vec m = Ok body -> len body <= MAX_FRAME_BYTES.

Lemma frame_exchange m : fits m ->
  exists bytes, write_frame (mk_sink [] []) m = (Ok tt, mk_sink bytes []) /\ (read_frame bytes).1 = Ok m.
Proof.
  intros [Hm Hlen]. destruct (message_json_law m Hm) as (body & Hv & Hne & Hback).
  exists (to_be_bytes (len body) ++ body). specialize (Hlen _ Hv). unfold write_frame. rewrite Hv. split.
  - destruct (Z.ltb_spec MAX_FRAME_BYTES (len body)); [lia|].
    destruct (Z.ltb_spec u32_max (len body)); [unfold MAX_FRAME_BYTES, u32_max in *; lia|].
    unfold sink_write. cbn [sk_steps sk_bytes]. by rewrite app_nil_r.
  - by rewrite <- (app_nil_r body) at 2; rewrite (read_frame_body body m []).
Qed.

Lemma daemon_bind_ok {A B} (m : Daemon A) (f : A -> Daemon B) w b w' :
  (m ≫= f) w = (Ok b, w') -> exists a w1, m w = (Ok a, w1) /\ f a w1 = (Ok b, w').
Proof. intros [?|(e & _ & ?)]%daemon_bind_inv; [done|done]. Qed.

Lemma from_result_ok {A} (r : result DaemonError A) w a w' : from_result r w = (Ok a, w') -> r = Ok a /\ w' = w.
Proof. unfold from_result. by intros [= -> <-]. Qed.

(** What a successful load has seen. *)
Definition loaded_job (inputs : list WakeInput) (id : JobId) (d : WakeDisposition) : Prop :=
  exists input w1 job, In input inputs /\ (load_job id false w1).1 = Ok (Some job) /\
  match d with
  | WD_AlreadyTerminal => job_is_terminal (job_state job) = true
  | WD_Schedule deadline =>
    job_is_terminal (job_state job) = false /\
    exists now elapsed, wi_now input = Ok now /\ wi_elapsed input = Ok elapsed /\
      deadline = elapsed + Z.max 0 (job_next_due job - now)
  end.

Lemma reconcile_wall_schedule_ok now elapsed due d :
  reconcile_wall_schedule now elapsed due = Ok d -> d = elapsed + Z.max 0 (due - now).
Proof.
  unfold reconcile_wall_schedule. destruct (Z.leb_spec (due - now) 0); [intros [= <-]; lia|].
  intros (r & [-> _]%ok_or_ok%checked_Some & [-> _]%ok_or_ok%checked_Some)%bind_ok. lia.
Qed.

Lemma load_wake_ok input id w d w' :
  load_wake input id w = (Ok d, w') -> loaded_job [input] id d /\ dw_spawned w' = dw_spawned w.
Proof.
  unfold load_wake. intros (x & w1 & [_ ->]%from_result_ok & Hl)%daemon_bind_ok.
  apply daemon_bind_ok in Hl as (found & w2 & (w1 & Hf & ->)%from_store_ok & Hl).
  apply daemon_bind_ok in Hl as (job & w3 & [Hjob%ok_or_ok ->]%from_result_ok & Hl). subst found.
  destruct (job_is_terminal (job_state job)) eqn:Ht.
  - injection Hl as <- <-. split; [|done]. exists input, (dw_world w), job. rewrite Hf. by split; [left|].
  - apply daemon_bind_ok in Hl as (now & w4 & [Hnow%map_err_ok ->]%from_result_ok & Hl).
    apply daemon_bind_ok in Hl as (elapsed & w5 & [Hel%map_err_ok ->]%from_result_ok & Hl).
    apply daemon_bind_ok in Hl as (deadline & w6 & [Hd%map_err_ok%reconcile_wall_schedule_ok ->]%from_result_ok & Hl).
    injection Hl as <- <-. split; [|done]. exists input, (dw_world w), job. rewrite Hf. split; [by left|]. split; [done|].
    split; [done|]. exists now, elapsed. done.
Qed.

Lemma loaded_job_mono inputs inputs' id d :
  (forall i, In i inputs -> In i inputs') -> loaded_job inputs id d -> loaded_job inputs' id d.
Proof. intros Hsub (i & w1 & job & Hi & Hrest). exists i, w1, job. eauto. Qed.

Lemma load_wake_loop_ok inputs id e w d w' :
  load_wake_loop inputs id e w = (Ok d, w') -> loaded_job inputs id d.
Proof.
  revert e w. induction inputs as [|i inputs IH]; intros e w; [done|]. cbn [load_wake_loop].
  destruct (load_wake i id w) as [[d'|e'] w1] eqn:El.
  - intros [= <- <-]. apply load_wake_ok in El as [Hd _]. eapply loaded_job_mono; [|exact Hd].
    intros x [->|[]]. by left.
  - assert (load_wake_loop inputs id e' w1 = (Ok d, w') -> loaded_job (i :: inputs) id d) as Hgo.
    { intros Hl%IH. eapply loaded_job_mono; [|exact Hl]. intros x Hx. by right. }
    by destruct e'.
Qed.

Lemma load_wake_with_retry_ok inputs id w d w' :
  load_wake_with_retry inputs id w = (Ok d, w') -> loaded_job inputs id d.
Proof.
  intros Hl%load_wake_loop_ok. eapply loaded_job_mono; [|exact Hl]. intros i Hi.
  apply list_elem_of_In in Hi. apply list_elem_of_In. apply elem_of_take in Hi as (k & Hk & _).
  by eapply list_elem_of_lookup_2.
Qed.
End Ipc.

(** ** Properties: the wake exchange and the submission *)

(** The socket is the supervisor's own and nothing breaks. *)
Definition reachable (c : Client) : Prop :=
  cl_metadata c = Ok (mk_metadata FK_Socket (cl_euid c) 384) /\ cl_connect c = Ok tt /\ cl_writes c = [].

(** What the loop is told. *)
Definition wake_events (id : JobId) (loaded : result DaemonError WakeDisposition) : list SupervisorEvent :=
  match loaded with Ok (WD_Schedule deadline) => [SV_Schedule id deadline] | _ => [] end.

Section Exchange.
Context `{MessageJson} `{Serde} `{ExecutionJson}.
Variable daemon_text : DaemonError -> str.
Variable ipc_text : IpcError -> str.
Hypothesis messages_fit : forall id revision e, uuid_ok (job_uuid id) -> counter_ok revision ->
  fits (Wake 1 id revision) /\ fits (Ack 1 id revision) /\ fits (Nack 1 (daemon_text e)).

(** The bytes that a client sends. *)
Definition request_bytes (c : Client) (id : JobId) (revision : Revision) : list Z :=
  sk_bytes (write_frame (mk_sink [] (cl_writes c)) (Wake PROTOCOL_VERSION id revision)).2.

(** The server at the other end of a client's connection. *)
Definition serve_wake (inputs : list WakeInput) (w : DaemonWorld) (bytes : list Z) :=
  serve_connection daemon_text (mk_connection bytes [] inputs true) w.
Definition serve_peer (inputs : list WakeInput) (w : DaemonWorld) (bytes : list Z) : list Z :=
  (serve_wake inputs w bytes).1.2.

Lemma exchange c inputs id revision w :
  reachable c -> uuid_ok (job_uuid id) -> counter_ok revision ->
  let '(loaded, w') := load_wake_with_retry inputs id w in
    (exists reply, serve_wake inputs w (request_bytes c id revision) = (true, wake_events id loaded, reply, w')) /\
    acknowledge ipc_text c (serve_peer inputs w) id revision =
      match loaded with Ok _ => Ok tt | Err e => Err (AE_Rejected (daemon_text e)) end.
Proof.
  intros (Hm & Hc & Hs) Hid Hrev. destruct (messages_fit id revision DE_MissingJob Hid Hrev) as (Hw & Ha & _).
  destruct (frame_exchange _ Hw) as (request & Hrequest & Hread).
  assert (request_bytes c id revision = request) as -> by (unfold request_bytes; rewrite Hs; exact (f_equal (fun x => sk_bytes x.2) Hrequest)).
  destruct (load_wake_with_retry inputs id w) as [loaded w'] eqn:El.
  assert (serve_wake inputs w request =
    (true, wake_events id loaded,
     sk_bytes (write_frame (mk_sink [] [])
       (match loaded with Ok _ => Ack 1 id revision | Err e => Nack 1 (daemon_text e) end)).2, w')) as Hserve.
  { unfold serve_wake, serve_connection. cbn [cx_request cx_wakes cx_receiver]. rewrite Hread. rewrite Z.eqb_refl. cbn [negb]. rewrite El.
    by destruct loaded as [[]|]. }
  split; [eauto|]. unfold acknowledge, send. rewrite Hm, Hc, Hs. cbn [map_err mbind result_bind].
  unfold is_symlink, is_socket. cbn [md_kind md_uid md_mode]. change (bool_decide (FK_Socket = FK_Symlink)) with false.
  change (bool_decide (FK_Socket = FK_Socket)) with true. change (Z.land 384 511 =? 384) with true.
  rewrite Z.eqb_refl. cbn [orb negb].
  change (PROTOCOL_VERSION) with 1. rewrite Hrequest. cbn [map_err mbind result_bind sk_bytes].
  unfold serve_peer. rewrite Hserve. cbn [fst snd].
  destruct loaded as [d|e].
  - destruct (frame_exchange _ Ha) as (bytes & -> & Hback). cbn [snd sk_bytes]. rewrite Hback. cbn.
    by rewrite bool_decide_true, Z.eqb_refl by done.
  - destruct (messages_fit id revision e Hid Hrev) as (_ & _ & Hn).
    destruct (frame_exchange _ Hn) as (bytes & -> & Hback). cbn [snd sk_bytes]. by rewrite Hback.
Qed.
End Exchange.

(** The command that submits, the store and the supervisor at work. *)
Record SubmitWorld := mk_submit_world { sw_daemon : DaemonWorld; sw_events : list SupervisorEvent }.

Section Submission.
Context `{MessageJson} `{Serde} `{ExecutionJson}.
Variable daemon_text : DaemonError -> str.
Variable ipc_text : IpcError -> str.
Variable client : Client.
Variable inputs : list WakeInput.

(** [SubmissionStore for JobStore] and [SupervisorAcknowledger for
    SocketAcknowledger], with the server at the other end. *)
Definition submission_ports : SubmissionPorts SubmitWorld := {|
  sp_create_job job := fun s =>
    let '(r, w) := create job false (dw_world (sw_daemon s)) in
    (map_err mk_submission_error r, mk_submit_world (mk_daemon_world w (dw_spawned (sw_daemon s))) (sw_events s));
  sp_acknowledge id revision := fun s =>
    let '(_, events, _, d) := serve_wake daemon_text inputs (sw_daemon s) (request_bytes client id revision) in
    (Ok (acknowledge ipc_text client (serve_peer daemon_text inputs (sw_daemon s)) id revision),
     mk_submit_world d (sw_events s ++ events))
|}.
End Submission.


(** ** Witness: the job of [world0] is submitted to an empty database *)

Module IpcExample.
Export Daemon.DaemonExample Frame.FrameModel.
Definition client0 : Client := mk_client (Ok (mk_metadata FK_Socket 1000 384)) 1000 (Ok tt) [].
Definition wakes0 : list WakeInput := [mk_wake_input (Ok tt) (Ok (60 * 10 ^ 9)) (Ok 5000)].
Definition submit0 : SubmitWorld := mk_submit_world (mk_daemon_world empty_world []) [].
Definition text0 (_ : DaemonError) : str := lit "load failed".
Definition ipc_text0 (_ : IpcError) : str := lit "unavailable".
End IpcExample.
Import IpcExample.

Lemma messages_fit0 id revision e : uuid_ok (job_uuid id) -> counter_ok revision ->
  fits (Wake 1 id revision) /\ fits (Ack 1 id revision) /\ fits (Nack 1 (text0 e)).
Proof.
  intros Hid Hrev. assert (0 <= 1 <= u16_max) as Hp by (by vm_compute).
  split_and!; (split; [by try split_and!|]); intros body [= <-]; by vm_compute.
Qed.


(** It is scheduled 40 s ahead. *)
Example submission_ex :
  sw_events (@submit_job _ (submission_ports text0 ipc_text0 client0 wakes0) job0 false submit0).2 =
    [SV_Schedule (job_id job0) (5000 + 40 * 10 ^ 9)].
Proof. vm_compute. reflexivity. Qed.
