(* ===== verification/Doctor.v ===== *)
(** [build_doctor_report], its checks and [doctor_exit] of
    [src/cli/dispatch.rs]: the diagnosis of an installation.

    What the checks find is an argument: the directories, the loaded
    configuration, the opened database, the clocks, the runtime entries and
    the service manager, all of them modelled elsewhere. *)

From S2P Require Import Prelude Text Lossy Primitives Duration Identifier States Recurrence Execution JobAgg RunAgg.
From S2P Require Import Sqlite Process Services Config Submit Frame Daemon Ipc.

(** ** The checks *)

(** [exists] and [validate_private_dir_for_uid]: [Paths]. *)
Record DirectoryFinding := mk_directory { dy_path : str; dy_exists : bool; dy_valid : result str unit }.

Definition check_private_directory (builder : DoctorReportBuilder) (name : str) (d : DirectoryFinding) : DoctorReportBuilder :=
  let path := from_utf8_lossy (dy_path d) in
  if negb (dy_exists d) then
    push_check builder name DS_Warning (path ++ lit " does not exist yet") (Some (lit "It will be created on the first saved job."))
  else
    match dy_valid d with
    | Ok _ => push_check builder name DS_Pass (path ++ lit " is private and owned by this user") None
    | Err error => push_check builder name DS_Fail error (Some (lit "Fix ownership and mode 0700 on " ++ path ++ lit "."))
    end.

(** [Database::open] and its schema version: [Database]. *)
Definition check_database (builder : DoctorReportBuilder) (exists_ : bool) (opened : result str Z) : DoctorReportBuilder * option Z :=
  if negb exists_ then (push_check builder (lit "SQLite") DS_Warning (lit "state database does not exist yet") None, None) else
  match opened with
  | Ok version =>
    (push_check builder (lit "SQLite") DS_Pass (lit "database schema " ++ show_dec version ++ lit " is readable and writable") None,
     Some version)
  | Err error =>
    (push_check builder (lit "SQLite") DS_Fail error (Some (lit "Keep the database for diagnosis; do not delete it.")), None)
  end.

(** [symlink_metadata] *)
Inductive Stat := ST_Found (m : Metadata) | ST_NotFound | ST_Error.

Definition entries_secure (uid : Z) (lock socket : Metadata) : bool :=
  is_file lock && negb (is_symlink lock) && (md_uid lock =? uid) && (Z.land (md_mode lock) 511 =? 384)
  && is_socket socket && (md_uid socket =? uid) && (Z.land (md_mode socket) 511 =? 384).

(** [status]: the lock's identity, when it can be read, and its
    classification. *)
Definition check_live_supervisor (builder : DoctorReportBuilder) (uid : Z) (lock socket : Metadata)
  (status : option Identity.IdentityStatus) : DoctorReportBuilder :=
  if negb (entries_secure uid lock socket) then
    push_check builder (lit "supervisor") DS_Fail (lit "runtime lock or socket has unsafe ownership, mode, or type")
      (Some (lit "Stop ATX processes and remove the unsafe runtime entries."))
  else
    match status with
    | Some Identity.Alive =>
      push_check builder (lit "supervisor") DS_Pass (lit "session supervisor identity and socket agree") None
    | _ => push_check builder (lit "supervisor") DS_Warning (lit "supervisor runtime entries are stale or unreadable")
             (Some (lit "The next submission will replace stale entries safely."))
    end.

Definition check_supervisor (builder : DoctorReportBuilder) (uid : Z) (lock socket : Stat)
  (status : option Identity.IdentityStatus) : DoctorReportBuilder :=
  match lock, socket with
  | ST_NotFound, ST_NotFound =>
    push_check builder (lit "supervisor") DS_Pass (lit "no session supervisor is needed right now") None
  | ST_Found lock, ST_Found socket => check_live_supervisor builder uid lock socket status
  | _, _ => push_check builder (lit "supervisor") DS_Warning (lit "runtime lock and socket do not agree")
              (Some (lit "Run doctor again after the current supervisor exits."))
  end.

(** [native_service_manager] and its status; an error is its message. *)
Definition check_durable_service (builder : DoctorReportBuilder) (status : result str ServiceStatus) : DoctorReportBuilder * bool :=
  match status with
  | Ok status =>
    if sv_installed status && sv_running status
    then (push_check builder (lit "durable service") DS_Pass (sv_detail status) None, true)
    else (push_check builder (lit "durable service") DS_Warning (sv_detail status)
            (Some (lit "Run `atx service install` to enable durable jobs.")), false)
  | Err message =>
    (push_check builder (lit "durable service") DS_Warning message (Some (lit "Session jobs remain available.")), false)
  end.

(** ** The report *)

Section Report.
(** [serde_json::Value] and its empty object. *)
Context {Json : Type}.
Variable empty_object : Json.

Record Findings := mk_findings {
  fi_paths : result str (DirectoryFinding * DirectoryFinding);
  (** the configuration and its JSON value *)
  fi_config : result str (result str Json);
  fi_database : bool * result str Z;
  fi_now : result ClockError UtcTimestamp;
  fi_elapsed : result ClockError ElapsedInstant;
  fi_boot : result ClockError str;
  (** [inspect] of this process *)
  fi_self : result Identity.ProcessError (option ProcessIdentitySnapshot);
  fi_uid : Z;
  fi_lock : Stat;
  fi_socket : Stat;
  fi_lock_status : option Identity.IdentityStatus;
  fi_service : result str ServiceStatus;
  fi_tzdb_version : str
}.

Definition clocks_available (f : Findings) : bool := is_ok (fi_now f) && is_ok (fi_elapsed f) && is_ok (fi_boot f).

Definition check_configuration (builder : DoctorReportBuilder) (loaded : result str (result str Json)) : DoctorReportBuilder * Json :=
  match loaded with
  | Ok value =>
    let builder := push_check builder (lit "configuration") DS_Pass (lit "configuration is valid") None in
    match value with
    | Ok value => (builder, value)
    | Err error => (push_check builder (lit "configuration output") DS_Fail error None, empty_object)
    end
  | Err error =>
    (push_check builder (lit "configuration") DS_Fail error (Some (lit "Fix or remove the invalid config file.")), empty_object)
  end.

Definition check_clocks (builder : DoctorReportBuilder) (f : Findings) : DoctorReportBuilder :=
  if clocks_available f
  then push_check builder (lit "clocks") DS_Pass (lit "wall and suspend-aware elapsed clocks are available") None
  else push_check builder (lit "clocks") DS_Fail (lit "a required platform clock is unavailable")
         (Some (lit "This platform cannot safely supervise elapsed deadlines.")).

Definition check_identity (builder : DoctorReportBuilder) (self : result Identity.ProcessError (option ProcessIdentitySnapshot))
  : DoctorReportBuilder :=
  match self with
  | Ok (Some _) => push_check builder (lit "process identity") DS_Pass (lit "PID start identity is available") None
  | _ => push_check builder (lit "process identity") DS_Fail (lit "current process identity could not be validated")
           (Some (lit "Process-safe cancellation is unavailable."))
  end.

Definition build_doctor_report (f : Findings) : result CliError (DoctorReport Json) :=
  '(state, runtime) ← map_err (fun e => cli_permission (CA_Text e)) (fi_paths f);
  let builder := check_private_directory [] (lit "state directory") state in
  let builder := check_private_directory builder (lit "runtime directory") runtime in
  let '(builder, config) := check_configuration builder (fi_config f) in
  let '(builder, schema_version) := check_database builder (fi_database f).1 (fi_database f).2 in
  let builder := check_clocks builder f in
  let builder :=
    if clocks_available f then
      let builder := check_identity builder (fi_self f) in
      check_supervisor builder (fi_uid f) (fi_lock f) (fi_socket f) (fi_lock_status f)
    else builder in
  let '(builder, durable_available) := check_durable_service builder (fi_service f) in
  Ok (finish_report builder (fi_tzdb_version f) schema_version durable_available config).

Definition failed (name : str) (check : DiagnosticCheck) : bool :=
  bool_decide (dc_status check = DS_Fail) && bool_decide (dc_name check = name).

Definition doctor_exit (report : DoctorReport Json) : Z :=
  if dr_healthy _ report then 0 else
  if existsb (failed (lit "SQLite")) (dr_checks _ report) then 10 else
  if existsb (failed (lit "supervisor")) (dr_checks _ report) then 11 else 12.
End Report.

(** ** What each check adds *)

Definition directory_ok (d : DirectoryFinding) : bool := negb (dy_exists d) || is_ok (dy_valid d).
Definition database_ok (database : bool * result str Z) : bool := negb database.1 || is_ok database.2.
Definition entries_ok (uid : Z) (lock socket : Stat) : bool :=
  match lock, socket with ST_Found l, ST_Found s => entries_secure uid l s | _, _ => true end.
Definition identity_ok (self : result Identity.ProcessError (option ProcessIdentitySnapshot)) : bool :=
  match self with Ok (Some _) => true | _ => false end.

Section Checks.
(** Whether a failed check of a name that [q] holds of is there. *)
Variable q : str -> bool.
Definition fails (builder : DoctorReportBuilder) : bool :=
  existsb (fun check => bool_decide (dc_status check = DS_Fail) && q (dc_name check)) builder.

Lemma fails_push b name st m r : fails (push_check b name st m r) = fails b || (bool_decide (st = DS_Fail) && q name).
Proof. unfold fails, push_check. rewrite existsb_app. cbn [existsb dc_status dc_name]. by rewrite orb_false_r. Qed.

Lemma fails_directory b name d : fails (check_private_directory b name d) = fails b || (negb (directory_ok d) && q name).
Proof.
  unfold check_private_directory, directory_ok. destruct (dy_exists d); cbn [negb orb]; [destruct (dy_valid d)|]; by rewrite fails_push.
Qed.
Lemma fails_database b e o : fails (check_database b e o).1 = fails b || (negb (database_ok (e, o)) && q (lit "SQLite")).
Proof. unfold check_database, database_ok. destruct e; cbn [negb orb fst snd]; [destruct o|]; cbn [fst]; by rewrite fails_push. Qed.
Lemma fails_supervisor b uid l s st :
  fails (check_supervisor b uid l s st) = fails b || (negb (entries_ok uid l s) && q (lit "supervisor")).
Proof.
  unfold check_supervisor, entries_ok, check_live_supervisor. destruct l as [l| |], s as [s| |]; try by rewrite fails_push.
  destruct (entries_secure uid l s); cbn [negb]; [destruct st as [[]|]|]; by rewrite fails_push.
Qed.
Lemma fails_service b st : fails (check_durable_service b st).1 = fails b.
Proof.
  unfold check_durable_service. destruct st as [st|]; [destruct (_ && _)|]; cbn [fst]; by rewrite fails_push, orb_false_r.
Qed.
Lemma fails_identity b self : fails (check_identity b self) = fails b || (negb (identity_ok self) && q (lit "process identity")).
Proof. unfold check_identity, identity_ok. destruct self as [[]|]; by rewrite fails_push. Qed.
End Checks.

Section Verdict.
Context {Json : Type}.
Variable empty_object : Json.

Definition configuration_ok (loaded : result str (result str Json)) : bool :=
  match loaded with Ok (Ok _) => true | _ => false end.

Lemma fails_configuration q b loaded :
  q (lit "configuration") = q (lit "configuration output") ->
  fails q (check_configuration empty_object b loaded).1 = fails q b || (negb (configuration_ok loaded) && q (lit "configuration")).
Proof.
  intros Hq. unfold check_configuration, configuration_ok. destruct loaded as [[v|e]|e]; cbn [fst];
    by rewrite !fails_push, ?orb_false_r, ?Hq.
Qed.
Lemma fails_clocks q b (f : @Findings Json) :
  fails q (check_clocks b f) = fails q b || (negb (clocks_available f) && q (lit "clocks")).
Proof. unfold check_clocks. destruct (clocks_available f); by rewrite fails_push. Qed.

(** What a healthy installation is. *)
Definition healthy (f : @Findings Json) : bool :=
  match fi_paths f with Ok (state, runtime) => directory_ok state && directory_ok runtime | Err _ => false end
  && configuration_ok (fi_config f) && database_ok (fi_database f) && clocks_available f && identity_ok (fi_self f)
  && entries_ok (fi_uid f) (fi_lock f) (fi_socket f).

(** The failures of a report, by their names. *)
Lemma report_fails q f r :
  q (lit "configuration") = q (lit "configuration output") ->
  build_doctor_report empty_object f = Ok r ->
  exists state runtime, fi_paths f = Ok (state, runtime) /\
  fails q (dr_checks _ r) =
    negb (directory_ok state) && q (lit "state directory") || negb (directory_ok runtime) && q (lit "runtime directory")
    || negb (configuration_ok (fi_config f)) && q (lit "configuration") || negb (database_ok (fi_database f)) && q (lit "SQLite")
    || negb (clocks_available f) && q (lit "clocks")
    || clocks_available f && (negb (identity_ok (fi_self f)) && q (lit "process identity")
       || negb (entries_ok (fi_uid f) (fi_lock f) (fi_socket f)) && q (lit "supervisor")).
Proof.
  intros Hq. unfold build_doctor_report. intros ([state runtime] & Hp%map_err_ok & H)%bind_ok. exists state, runtime. split; [done|].
  destruct (check_configuration empty_object _ (fi_config f)) as [b1 config] eqn:E1.
  destruct (check_database b1 _ _) as [b2 version] eqn:E2. set (b3 := check_clocks b2 f) in H.
  set (b4 := if clocks_available f then _ else b3) in H. destruct (check_durable_service b4 (fi_service f)) as [b5 durable] eqn:E5.
  apply ok_inj in H as <-. cbn [finish_report dr_checks].
  apply (f_equal fst) in E1, E2, E5. cbn [fst] in E1, E2, E5. subst b1 b2 b5. rewrite fails_service.
  assert (fails q b4 = fails q b3 || (clocks_available f && (negb (identity_ok (fi_self f)) && q (lit "process identity")
    || negb (entries_ok (fi_uid f) (fi_lock f) (fi_socket f)) && q (lit "supervisor")))) as ->.
  { subst b4. destruct (clocks_available f); [|by rewrite orb_false_r]. rewrite fails_supervisor, fails_identity. by rewrite <- orb_assoc. }
  subst b3. rewrite fails_clocks, fails_database, fails_configuration, !fails_directory by done. destruct (fi_database f). reflexivity.
Qed.
End Verdict.

(** The verdict of [atx doctor].  The report is refused,
    with the permission exit, only when the directories cannot be resolved.
    It is healthy exactly when both directories are private or absent, the
    configuration is valid, the database is absent or opens, the clocks and
    the identity of a process are available, and a lock with its socket, if
    both are there, are private to the user; a missing or stopped service
    never makes it unhealthy.  The exit code is 0 for a healthy report, 10 when
    the database is broken, whatever else is, 11 when the runtime entries are
    unsafe, and 12 otherwise; and the versions reported are those found. *)
Theorem doctor_verdict {Json} (empty_object : Json) f r :
  build_doctor_report empty_object f = r ->
  match r with
  | Err e => ce_exit e = 12 /\ exists message, fi_paths f = Err message
  | Ok report =>
    dr_healthy _ report = healthy f /\
    doctor_exit report =
      (if healthy f then 0 else if negb (database_ok (fi_database f)) then 10 else
       if clocks_available f && negb (entries_ok (fi_uid f) (fi_lock f) (fi_socket f)) then 11 else 12) /\
    dr_schema_version _ report = (if (fi_database f).1 then match (fi_database f).2 with Ok v => Some v | Err _ => None end else None) /\
    dr_durable_available _ report =
      match fi_service f with Ok st => sv_installed st && sv_running st | Err _ => false end
  end.
Proof.
  intros <-. destruct (build_doctor_report empty_object f) as [report|e] eqn:E.
  2:{ unfold build_doctor_report in E. destruct (fi_paths f) as [[state runtime]|m]; cbn in E; [|injection E as <-; by eauto].
      do 3 case_match. done. }
  pose proof (report_fails empty_object (fun _ => true) f report eq_refl E) as (state & runtime & Hp & Hall).
  pose proof (report_fails empty_object (fun n => bool_decide (n = lit "SQLite")) f report eq_refl E) as (st1 & rt1 & _ & Hsql).
  pose proof (report_fails empty_object (fun n => bool_decide (n = lit "supervisor")) f report eq_refl E) as (st2 & rt2 & _ & Hsup).
  assert (dr_healthy _ report = negb (fails (fun _ => true) (dr_checks _ report)) /\
    dr_schema_version _ report = (if (fi_database f).1 then match (fi_database f).2 with Ok v => Some v | Err _ => None end else None) /\
    dr_durable_available _ report = match fi_service f with Ok st => sv_installed st && sv_running st | Err _ => false end)
    as (Hh & Hv & Hd).
  { unfold build_doctor_report in E. rewrite Hp in E. cbn in E. destruct (check_configuration _ _ _) as [b1 c].
    destruct (check_database b1 _ _) as [b2 v] eqn:E2. destruct (check_durable_service _ _) as [b5 d] eqn:E5.
    apply ok_inj in E as <-. cbn [finish_report dr_healthy dr_checks dr_schema_version dr_durable_available]. split_and!.
    - f_equal. unfold fails. clear. induction b5 as [|k b5 IH]; [done|]. cbn [existsb]. by rewrite IH, andb_true_r.
    - apply (f_equal snd) in E2. cbn [snd] in E2. subst v. unfold check_database. destruct (fi_database f) as [[] []]; done.
    - apply (f_equal snd) in E5. cbn [snd] in E5. subst d. unfold check_durable_service. destruct (fi_service f) as [st|]; [|done].
      by destruct (sv_installed st && sv_running st). }
  assert (healthy f = negb (fails (fun _ => true) (dr_checks _ report))) as Hhealthy.
  { rewrite Hall. unfold healthy. rewrite Hp, !andb_true_r. destruct (directory_ok state), (directory_ok runtime), (configuration_ok _),
      (database_ok _), (clocks_available f), (identity_ok _), (entries_ok _ _ _); reflexivity. }
  split; [congruence|]. split; [|by split]. unfold doctor_exit. rewrite Hh, <- Hhealthy. destruct (healthy f); [done|].
  change (existsb (failed (lit "SQLite")) (dr_checks _ report)) with (fails (fun n => bool_decide (n = lit "SQLite")) (dr_checks _ report)).
  change (existsb (failed (lit "supervisor")) (dr_checks _ report)) with (fails (fun n => bool_decide (n = lit "supervisor")) (dr_checks _ report)).
  rewrite Hsql, Hsup. cbn -[directory_ok configuration_ok database_ok clocks_available identity_ok entries_ok].
  rewrite !andb_false_r, !andb_true_r. cbn [orb]. by rewrite !orb_false_r.
Qed.

(** A database that does not open, next to a stale supervisor and no service. *)
Definition broken_findings : @Findings unit :=
  mk_findings (Ok (mk_directory (lit "/s") true (Ok tt), mk_directory (lit "/r") false (Err []))) (Ok (Ok tt))
    (true, Err (lit "file is not a database")) (Ok 0) (Ok 0) (Ok (lit "b"))
    (Ok (Some (mk_process_identity (lit "b") 7 1 7))) 501 ST_NotFound (ST_Found (mk_metadata FK_Socket 501 384)) None
    (Err (lit "HOME is unavailable or not absolute")) (lit "2025b").

Lemma doctor_verdict_witness :
  exists report, build_doctor_report tt broken_findings = Ok report /\ dr_healthy _ report = false /\ doctor_exit report = 10.
Proof.
  destruct (build_doctor_report tt broken_findings) as [report|e] eqn:E; [|vm_compute in E; discriminate].
  exists report. split; [reflexivity|]. destruct (doctor_verdict tt broken_findings (Ok report) E) as (H1 & H2 & _).
  split; [rewrite H1; reflexivity | rewrite H2; reflexivity].
Defined.

(** An invalid configuration alone, or a missing clock alone, is reported by
    the exit code of a permission failure. *)
Example doctor_other_failures :
  let healthy_but config now : @Findings unit :=
    mk_findings (Ok (mk_directory (lit "/s") true (Ok tt), mk_directory (lit "/r") true (Ok tt))) config
      (true, Ok 3) now (Ok 0) (Ok (lit "b")) (Ok (Some (mk_process_identity (lit "b") 7 1 7))) 501 ST_NotFound ST_NotFound None
      (Err (lit "no service")) (lit "2025b") in
  map (fun f => match build_doctor_report tt f with Ok report => doctor_exit report | Err _ => -1 end)
    [healthy_but (Ok (Ok tt)) (Ok 0); healthy_but (Err (lit "unknown key")) (Ok 0);
     healthy_but (Ok (Ok tt)) (Err CE_Unavailable)] = [0; 12; 12].
Proof. vm_compute. reflexivity. Qed.
