(* ===== verification/Cli.v ===== *)
(** The whole command, [run] of [src/cli/dispatch.rs]: from the arguments of
    the process to what it prints and its exit code.

    The parser ([Args]), the scheduling command ([Submit]), the management
    commands ([Commands]) and the diagnosis ([Doctor]) are composed over one
    store and one service manager.  What the process finds on its machine is
    [Host]; the supervisor, the monitor and the completion scripts are
    arguments. *)

From S2P Require Import Prelude Text Lossy Primitives Duration Identifier States Recurrence Calendar Execution JobAgg RunAgg.
From S2P Require Import Sqlite Process Services History Config Submit Views Commands Args Doctor.

(** What the process finds under the directories that the option
    [--state-dir] selects. *)
Record Host (Json : Type) := mk_host {
  ho_platform : Submit.Platform;
  ho_state_dir : str;
  ho_database_is_file : bool;
  ho_private_runtime : result str unit;
  ho_findings : @Findings Json
}.
Arguments ho_platform {Json}. Arguments ho_state_dir {Json}. Arguments ho_database_is_file {Json}.
Arguments ho_private_runtime {Json}. Arguments ho_findings {Json}.

(** ** [resolve_output_policy] *)

Definition color_arg (mode : ColorMode) : ColorArg :=
  match mode with CM_Auto => CA_Auto | CM_Always => CA_Always | CM_Never => CA_Never end.

(** The policy of a loaded configuration. *)
Definition apply_policy (global : GlobalArgs) (config : Config) : GlobalArgs :=
  let explicit := gl_quiet global || gl_verbose global in
  mk_global
    (if explicit then gl_quiet global else match cf_verbosity config with VB_Quiet => true | _ => false end)
    (if explicit then gl_verbose global else match cf_verbosity config with VB_Verbose => true | _ => false end)
    (gl_json global)
    (match gl_color global with Some color => Some color | None => Some (color_arg (cf_color config)) end)
    (gl_state_dir global).

Section Policy.
Variable toml : str -> result str RawConfig.
Variable tz_known : str -> bool.

Definition resolve_output_policy (global : GlobalArgs) (p : Submit.Platform) : GlobalArgs :=
  match pf_paths p, load_effective_config toml tz_known global false (pf_surroundings p) with
  | Ok _, Ok config => apply_policy global config
  | _, _ => global
  end.
End Policy.

(** ** The output policy *)

Section PolicyLemmas.
Variable tz_known : str -> bool.

Lemma validate_same raw raw' :
  rc_timezone raw = rc_timezone raw' -> rc_runtime raw = rc_runtime raw' -> rc_shell raw = rc_shell raw' ->
  rc_cancel_grace raw = rc_cancel_grace raw' -> rc_history_days raw = rc_history_days raw' ->
  rc_terminal_job_days raw = rc_terminal_job_days raw' -> rc_max_log_bytes raw = rc_max_log_bytes raw' ->
  unwrap_or (rc_color raw) CM_Auto = unwrap_or (rc_color raw') CM_Auto ->
  unwrap_or (rc_verbosity raw) VB_Normal = unwrap_or (rc_verbosity raw') VB_Normal ->
  validate tz_known raw = validate tz_known raw'.
Proof. unfold validate. by intros -> -> -> -> -> -> -> -> ->. Qed.
End PolicyLemmas.

(** The configuration that the command then loads is not another one. *)
Lemma policy_config toml tz_known global config durable s :
  load_effective_config toml tz_known global false s = Ok config ->
  load_effective_config toml tz_known (apply_policy global config) durable s = load_effective_config toml tz_known global durable s.
Proof.
  unfold load_effective_config, load_config.
  intros (file & -> & (environment & -> & H%map_err_ok)%bind_ok)%bind_ok.
  apply bind_ok in H as (raw & Hr & (layer & Hl & (_ & _ & _ & _ & _ & _ & _ & _ & Hc & Hb)%validate_ok)%bind_ok).
  cbn [mbind result_bind]. rewrite Hr. cbn [mbind result_bind]. rewrite Hl. cbn [mbind result_bind]. f_equal.
  cbn [apply rc_color rc_verbosity] in Hc, Hb.
  apply validate_same; cbn [apply rc_timezone rc_runtime rc_shell rc_cancel_grace rc_history_days rc_terminal_job_days rc_max_log_bytes
    rc_color rc_verbosity apply_policy gl_color gl_quiet gl_verbose]; try reflexivity.
  - destruct (gl_color global) as [c|]; [done|]. cbn in Hc |- *. rewrite <- Hc. by destruct (cf_color config).
  - destruct (gl_quiet global), (gl_verbose global); cbn in Hb |- *; try done. rewrite <- Hb.
    by destruct (cf_verbosity config).
Qed.

(** The policy changes only what is printed: an option that was given wins, the
    others follow the configuration, and the configuration and the job of the
    command are those of the command line as it was given. *)
Theorem output_policy_spec `{Civil} toml tz_known fresh args p :
  let global := sa_global args in
  let policy := resolve_output_policy toml tz_known global p in
  gl_json policy = gl_json global /\ gl_state_dir policy = gl_state_dir global /\
  (gl_quiet global = true \/ gl_verbose global = true ->
     gl_quiet policy = gl_quiet global /\ gl_verbose policy = gl_verbose global) /\
  (forall color, gl_color global = Some color -> gl_color policy = Some color) /\
  (forall durable, load_effective_config toml tz_known policy durable (pf_surroundings p) =
                   load_effective_config toml tz_known global durable (pf_surroundings p)) /\
  prepare toml tz_known fresh (with_global args policy) p = prepare toml tz_known fresh args p.
Proof.
  cbv zeta. set (g := sa_global args). set (policy := resolve_output_policy _ _ _ _).
  assert (Hload : forall durable, load_effective_config toml tz_known policy durable (pf_surroundings p) =
    load_effective_config toml tz_known g durable (pf_surroundings p)).
  { intros durable. subst policy. unfold resolve_output_policy. destruct (pf_paths p); [|done].
    destruct (load_effective_config _ _ g false _) eqn:E; [by apply policy_config|done]. }
  assert (Hprepare : prepare toml tz_known fresh (with_global args policy) p = prepare toml tz_known fresh args p).
  { unfold prepare. cbn [with_global sa_global so_durable]. rewrite Hload. reflexivity. }
  split_and!; [..|exact Hload|exact Hprepare].
  all: subst policy; unfold resolve_output_policy; destruct (pf_paths p); [|done]; destruct (load_effective_config _ _ g false _); [|done].
  - done.
  - done.
  - cbn. by intros [-> | ->]; rewrite ?orb_true_r.
  - cbn. by intros color ->.
Qed.

(** ** What the command prints *)

Definition one_line (text : str) : Prop := exists line, text = line ++ [10] /\ ~ In 10 line.
Definition exit_codes : list Z := 0 :: map fst EXIT_CODES.

Section Contract.
Variable error_to_string : ErrorEnvelope -> result str str.

(** Under [--json] standard output is one line, or it is empty and one
    error envelope follows the warnings on standard error; under [--quiet] it
    is empty; and a command that exits 0 writes only its warnings to standard
    error. *)
Definition well_printed (global : GlobalArgs) (warnings : str) (printed : Printed) (exit : Z) : Prop :=
  In exit exit_codes /\
  (gl_json global = true -> one_line (pr_out printed) \/
     pr_out printed = [] /\ exists code message line, In (exit, code) EXIT_CODES /\
       error_to_string (mk_error 1 false (mk_error_body code message (remediation code))) = Ok line /\
       pr_err printed = warnings ++ line ++ [10] /\ ~ In 10 line) /\
  (gl_json global = false -> gl_quiet global = true -> pr_out printed = []) /\
  (exit = 0 -> pr_err printed = warnings) /\ warnings `prefix_of` pr_err printed.

Variable cause_text : Cause -> str.
Variable to_string : forall T : Type, SuccessEnvelope T -> result str str.
Hypothesis to_string_line : forall T v, exists line, to_string T v = Ok line /\ ~ In 10 line.
Hypothesis error_line : forall v, exists line, error_to_string v = Ok line /\ ~ In 10 line.

Lemma documented_code e : documented e -> In (ce_exit e) exit_codes /\ ce_exit e <> 0.
Proof.
  unfold documented. intros H. split; [right; exact (in_map fst _ _ H)|].
  intros E. rewrite E in H. cbn in H. intuition congruence.
Qed.

(** The two sides of a command, with the text it adds to standard error. *)
Lemma well_printed_error global warnings e :
  documented e ->
  let p := print_error error_to_string (gl_json global) (ce_code e) (cause_text (ce_cause e)) in
  well_printed global warnings (mk_printed (pr_out p) (warnings ++ pr_err p)) (ce_exit e).
Proof.
  intros Hd p. subst p. destruct (print_error_fails error_to_string cause_text error_line global e) as [Ho He].
  destruct (documented_code e Hd) as [Hin Hne]. split; [done|]. split; [|split_and!; [done..|by apply prefix_app_r]].
  intros Hj. right. split; [done|]. rewrite Hj in He. destruct He as (line & El & Et & ?).
  exists (ce_code e), (cause_text (ce_cause e)), line. split_and!; [exact Hd|done| |done]. cbn [pr_err]. rewrite Hj in *. by rewrite Et.
Qed.
Lemma well_printed_answer {T} global warnings notice (value : T) human exit :
  pr_err human = [] -> In exit exit_codes -> (exit = 0 -> notice = []) ->
  let p := print to_string global value human in
  well_printed global warnings (mk_printed (pr_out p) (warnings ++ pr_err p ++ notice)) exit.
Proof.
  intros Hh Hin Hn p. subst p. destruct (print_succeeds to_string to_string_line global value human Hh) as [He Ho].
  split; [done|]. cbn [pr_out pr_err]. rewrite He. split_and!.
  - intros Hj. rewrite Hj in Ho. left. destruct Ho as (line & _ & ? & ?). by exists line.
  - intros Hj. by rewrite Hj in Ho.
  - intros E. rewrite (Hn E). by rewrite app_nil_r.
  - by apply prefix_app_r.
Qed.
Lemma well_printed_same global printed exit :
  well_printed global [] (mk_printed (pr_out printed) ([] ++ pr_err printed)) exit -> well_printed global [] printed exit.
Proof. by destruct printed. Qed.

(** A command of one answer. *)
Lemma finish_well_printed {A} (render : GlobalArgs -> A -> Printed) code global r :
  (forall e, r = Err e -> documented e) -> (forall a, In (code a) exit_codes) ->
  (forall a, exists (T : Type) (value : T) human, render global a = print to_string global value human /\ pr_err human = []) ->
  let '(printed, exit) := finish error_to_string cause_text render code global r in well_printed global [] printed exit.
Proof.
  intros Hd Hc Hr. destruct r as [a|e]; cbn [finish]; apply well_printed_same; [|by apply well_printed_error, Hd].
  destruct (Hr a) as (T & value & human & -> & Hh).
  pose proof (well_printed_answer global [] [] value human (code a) Hh (Hc a) ltac:(done)) as X. cbv zeta in X.
  by rewrite app_nil_r in X.
Qed.
End Contract.

(** ** [boundary::run] *)

(** A dispatch that returned, or that panicked on the entry thread after it had
    printed something; the payload is dropped unread and the hook of that
    thread prints nothing. *)
Inductive Dispatched :=
| DP_Returned (printed : Printed) (exit : Z)
| DP_Unwound (printed : Printed).
Definition boundary_run (dispatch : Dispatched) : Printed * Z :=
  match dispatch with
  | DP_Returned printed exit => (printed, exit)
  | DP_Unwound printed => (mk_printed (pr_out printed) (pr_err printed ++ lit "atx: unexpected internal failure" ++ [10]), 70)
  end.

(** ** [run] *)

Section Run.
Context `{Civil} {Json S : Type} `{ManagementStore S} `{RunOutputStore S} `{SubmissionPorts S} `{ServiceManager S}.
(** The configuration file and the timezone database. *)
Variable toml : str -> result str RawConfig.
Variable tz_known : str -> bool.
(** clap *)
Variable try_parse : list str -> result (bool * str) RawCli.
Variable error_text error_print : UsageError -> str.
(** JSON, the texts of errors, the local time. *)
Variable to_string : forall T : Type, SuccessEnvelope T -> result str str.
Variable error_to_string : ErrorEnvelope -> result str str.
Variable cause_text : Cause -> str.
Variable ack_text : SupervisorAckError -> str.
Variable local_timestamp : UtcTimestamp -> str.
Variable stdout_is_terminal : bool.
Variable empty_object : Json.
Variable CARGO_PKG_VERSION : str.
Variable completions : CompletionShell -> str.
(** The machine. *)
Variable host : option str -> Host Json.
Variable fresh : JobId.
Variable cancel_job : str -> DurationSeconds -> Port S ManagementError Job.
Variable acknowledge : JobId -> Revision -> Port S Empty_set (result SupervisorAckError unit).
Variable canonicalize : str -> option str.
Variable is_file : str -> option bool.
Variable read : str -> result str str.
Variable clock : result ClockError UtcTimestamp.
Variable boot : result ClockError str.
Variable classify : str -> ProcessIdentitySnapshot -> result Identity.ProcessError Identity.IdentityStatus.
(** [Timestamp::now] when an answer is rendered *)
Variable rendered_at : UtcTimestamp.
Variable run_session_supervisor : str -> str -> bool -> Port S str unit.
Variable run_monitor_process : str -> str -> str -> str -> Port S str unit.

Definition host_of (global : GlobalArgs) : Host Json := host (gl_state_dir global).

Definition schedule_warnings (args : SchedulingArgs) : str :=
  let p := ho_platform (host_of (sa_global args)) in
  (if so_capture_env args then lit "Warning: --capture-env may save credentials in the state database." ++ [10] else []) ++
  match pf_paths p, load_effective_config toml tz_known (sa_global args) (so_durable args) (pf_surroundings p) with
  | Ok _, Ok config =>
    if so_shell args then
      lit "Warning: --shell runs the command string through " ++ from_utf8_lossy (cf_shell config)
      ++ lit "; shell metacharacters are interpreted." ++ [10]
    else []
  | _, _ => []
  end.

Definition run_scheduling (args : SchedulingArgs) (s : S) : Printed * Z * S :=
  let '(r, s) := schedule toml tz_known fresh args (ho_platform (host_of (sa_global args))) s in
  let '(printed, exit) :=
    Commands.run_schedule to_string error_to_string cause_text local_timestamp stdout_is_terminal ack_text (sa_global args) r in
  (mk_printed (pr_out printed) (schedule_warnings args ++ pr_err printed), exit, s).

Definition open_inputs (global : GlobalArgs) : Opening :=
  let h := host_of global in
  let p := ho_platform h in
  mk_opening (_ ← pf_paths p; Ok (ho_state_dir h)) (load_effective_config toml tz_known global false (pf_surroundings p))
    (ho_database_is_file h) (pf_open p).

Definition run_doctor (global : GlobalArgs) : Printed * Z :=
  finish error_to_string cause_text
    (fun global report => print to_string global report (println (doctor_text (color stdout_is_terminal global) report)))
    doctor_exit global (build_doctor_report empty_object (ho_findings (host_of global))).

(** The commands that are not of a user: their errors are one line. *)
Definition run_internal (name : str) (m : Port S str unit) (s : S) : Printed * Z * S :=
  let '(r, s) := m s in
  match r with
  | Ok _ => (silent, 0, s)
  | Err error => (eprintln (lit "atx " ++ name ++ lit ": " ++ error), 11, s)
  end.

Definition run_command (global : GlobalArgs) (command : CliCommand) (s : S) : Printed * Z * S :=
  match command with
  | CC_Version =>
    (if gl_json global then print_json_success to_string [(lit "version", CARGO_PKG_VERSION)]
     else println (lit "atx " ++ CARGO_PKG_VERSION), 0, s)
  | CC_Completions shell => (mk_printed (completions shell) [], 0, s)
  | CC_Supervisor state_dir runtime_dir service_managed =>
    run_internal (lit "supervisor") (run_session_supervisor state_dir runtime_dir service_managed) s
  | CC_Monitor state_dir runtime_dir job run => run_internal (lit "monitor") (run_monitor_process state_dir runtime_dir job run) s
  | CC_Doctor => (run_doctor global, s)
  | CC_Service action =>
    let p := ho_platform (host_of global) in
    let '(r, s) := service_operation (pf_paths p) (pf_private_dir p) (ho_private_runtime (host_of global)) (pf_site p) action s in
    (run_service to_string error_to_string cause_text global r, s)
  | CC_Managed command =>
    let '(r, s) := manage cancel_job acknowledge canonicalize is_file read clock boot classify (open_inputs global) command s in
    (run_management to_string error_to_string cause_text local_timestamp stdout_is_terminal rendered_at global r, s)
  end.

(** [--json] before the separator *)
Fixpoint json_requested (args : list str) : bool :=
  match args with
  | [] => false
  | value :: args =>
    if bool_decide (value = lit "--") then false else bool_decide (value = lit "--json") || json_requested args
  end.

Definition run (args : list str) (s : S) : Printed * Z * S :=
  match parse_from try_parse args with
  | Err error =>
    let exit := if use_stderr error then 2 else 0 in
    (if json_requested args && use_stderr error then print_error error_to_string true (lit "INVALID_ARGUMENT") (error_text error)
     else if use_stderr error then mk_printed [] (error_print error) else mk_printed (error_print error) [], exit, s)
  | Ok (PC_Schedule args) =>
    let p := ho_platform (host_of (sa_global args)) in
    run_scheduling (with_global args (resolve_output_policy toml tz_known (sa_global args) p)) s
  | Ok (PC_Management global command) =>
    run_command (resolve_output_policy toml tz_known global (ho_platform (host_of global))) command s
  end.

(** *** Contract *)

Hypothesis to_string_line : forall T v, exists line, to_string T v = Ok line /\ ~ In 10 line.
Hypothesis error_line : forall v, exists line, error_to_string v = Ok line /\ ~ In 10 line.

Lemma run_scheduling_printed args s :
  let '(printed, exit, _) := run_scheduling args s in
  well_printed error_to_string (sa_global args) (schedule_warnings args) printed exit.
Proof.
  unfold run_scheduling. pose proof (schedule_documents toml tz_known fresh args (ho_platform (host_of (sa_global args))) s) as Hd.
  destruct (schedule _ _ _ _ _ s) as [[outcome|e] s']; cbn [Commands.run_schedule finish].
  - unfold render_submission. set (view := submission_view outcome).
    set (human := println (submission_text local_timestamp (color stdout_is_terminal (sa_global args)) view)).
    pose proof (fun notice => well_printed_answer error_to_string to_string to_string_line (sa_global args) (schedule_warnings args)
      notice view human) as X.
    destruct outcome as [job|job|job error]; cbn [pr_out pr_err].
    1,2: specialize (X [] 0 eq_refl (or_introl eq_refl) (fun _ => eq_refl)); cbv zeta in X; by rewrite app_nil_r in X.
    apply X; [done|right; by do 5 right; left|done].
  - apply well_printed_error; [exact error_line|]. by eapply Hd.
Qed.

Lemma run_doctor_printed global :
  let '(printed, exit) := run_doctor global in well_printed error_to_string global [] printed exit.
Proof.
  unfold run_doctor. apply (finish_well_printed _ _ to_string to_string_line error_line).
  - unfold build_doctor_report. intros e. apply documented_bind; [intros ?; apply documents_map_err; auto with cli|].
    intros [state runtime]. by destruct (check_configuration _ _ _), (check_database _ _ _), (check_durable_service _ _).
  - intros report. unfold doctor_exit. repeat case_match; vm_compute; tauto.
  - intros report. by eexists _, _, _.
Qed.

(** What is printed for a parsed command line, under its policy. *)
Definition command_printed (global : GlobalArgs) (command : CliCommand) (printed : Printed) (exit : Z) : Prop :=
  match command with
  | CC_Managed _ | CC_Doctor | CC_Service _ => well_printed error_to_string global [] printed exit
  | CC_Version => exit = 0 /\ pr_err printed = [] /\ (gl_json global = true -> one_line (pr_out printed))
  | CC_Completions shell => exit = 0 /\ printed = mk_printed (completions shell) []
  | CC_Supervisor _ _ _ | CC_Monitor _ _ _ _ => pr_out printed = [] /\ (exit = 0 /\ pr_err printed = [] \/ exit = 11)
  end.
Definition printed_for (parsed : ParsedCli) : Printed -> Z -> Prop :=
  match parsed with
  | PC_Schedule args =>
    let global := resolve_output_policy toml tz_known (sa_global args) (ho_platform (host_of (sa_global args))) in
    well_printed error_to_string global (schedule_warnings (with_global args global))
  | PC_Management global command =>
    command_printed (resolve_output_policy toml tz_known global (ho_platform (host_of global))) command
  end.
(** The same for a command line that does not parse. *)
Definition usage_printed (args : list str) (error : UsageError) (printed : Printed) (exit : Z) : Prop :=
  exit = (if use_stderr error then 2 else 0) /\
  if use_stderr error then
    pr_out printed = [] /\
    if json_requested args then
      exists line, error_to_string (mk_error 1 false (mk_error_body (lit "INVALID_ARGUMENT") (error_text error) None)) = Ok line /\
        pr_err printed = line ++ [10] /\ ~ In 10 line
    else pr_err printed = error_print error
  else pr_err printed = [] /\ pr_out printed = error_print error.

Lemma run_internal_printed name m s :
  let '(printed, exit, _) := run_internal name m s in pr_out printed = [] /\ (exit = 0 /\ pr_err printed = [] \/ exit = 11).
Proof. unfold run_internal. destruct (m s) as [[[]|e] s']; split; auto. Qed.

Lemma internal_exit (printed : Printed) exit :
  pr_out printed = [] /\ (exit = 0 /\ pr_err printed = [] \/ exit = 11) -> In exit exit_codes.
Proof. intros [_ [[-> _]| ->]]; vm_compute; tauto. Qed.

Lemma run_command_printed g command s :
  let '(printed, exit, _) := run_command g command s in In exit exit_codes /\ command_printed g command printed exit.
Proof.
  assert (Hw : forall (x : Printed * Z), (let '(printed, exit) := x in well_printed error_to_string g [] printed exit) ->
    let '(printed, exit) := x in In exit exit_codes /\ well_printed error_to_string g [] printed exit)
    by (intros [printed exit] X; split; [apply X|exact X]).
  destruct command as [command| |action| |shell|sd rd sm|sd rd j r]; cbn [run_command].
  - pose proof (manage_documents cancel_job acknowledge canonicalize is_file read clock boot classify (open_inputs g) command s) as Hd.
    destruct (manage _ _ _ _ _ _ _ _ _ command s) as [r s']. apply Hw.
    apply (finish_well_printed _ _ to_string to_string_line error_line); [intros e ->; by eapply Hd|by left|].
    intros []; by eexists _, _, _.
  - apply Hw, run_doctor_printed.
  - match goal with |- context [service_operation ?a ?b ?c ?d ?e s] =>
      pose proof (service_operation_documents a b c d e s) as Hd; destruct (service_operation a b c d e s) as [r s'] end.
    apply Hw. apply (finish_well_printed _ _ to_string to_string_line error_line); [intros e ->; by eapply Hd|by left|].
    intros []; by eexists _, _, _.
  - split; [by left|]. split; [done|]. destruct (gl_json g); [|done]. unfold print_json_success, json_success.
    destruct (to_string_line _ (mk_success SCHEMA_VERSION true [(lit "version", CARGO_PKG_VERSION)])) as (line & -> & ?).
    split; [done|]. intros _. by exists line.
  - split; [by left|done].
  - pose proof (run_internal_printed (lit "supervisor") (run_session_supervisor sd rd sm) s) as X.
    destruct (run_internal _ _ s) as [[printed exit] s']. split; [by eapply internal_exit|exact X].
  - pose proof (run_internal_printed (lit "monitor") (run_monitor_process sd rd j r) s) as X.
    destruct (run_internal _ _ s) as [[printed exit] s']. split; [by eapply internal_exit|exact X].
Qed.

End Run.

(** ** Witnesses *)

Module CliExample.
Export CommandsExample SubmitExample.
(** A machine without jobs, whose store answers nothing. *)
#[export] Instance management0 : ManagementStore (list JobId) := {|
  ms_list_jobs _ _ _ := mret []; ms_find_jobs_by_prefix _ _ := mret []; ms_list_runs _ _ := mret [];
  ms_active_runs := mret []; ms_latest_active_run _ := mret None;
  ms_hide_job _ _ _ := port_fail (mk_management_error SE_NotFound); ms_prepare_rerun _ _ _ := port_fail (mk_management_error SE_NotFound)
|}.
#[export] Instance output0 : RunOutputStore (list JobId) := {|
  os_find_runs_by_prefix _ _ := mret []; os_latest_run _ := mret None; os_find_jobs_by_prefix _ _ := mret [];
  os_stdout_truncated _ := mret false; os_stderr_truncated _ := mret false
|}.
#[export] Instance manager0 : ServiceManager (list JobId) := {|
  sm_status := port_fail (mk_service_manager_error (lit "no manager")); sm_install := port_fail (mk_service_manager_error (lit "no manager"));
  sm_uninstall := port_fail (mk_service_manager_error (lit "no manager"))
|}.
Definition findings0 : @Findings unit :=
  mk_findings (Err []) (Ok (Ok tt)) (false, Ok 0) (Ok 0) (Ok 0) (Ok []) (Ok None) 501 ST_NotFound ST_NotFound None (Err []) [].
Definition host0 (_ : option str) : Host unit := mk_host _ pf0 (lit "/state") false (Ok tt) findings0.
(** [atx --json --shell 09:30 -- make], and what is not one. *)
Definition json_args0 : SchedulingArgs :=
  mk_scheduling_args json0 false false None None false true (Some (lit "build")) None [] true false None false None
    false [lit "09:30"] [lit "make"].
Definition parse0 (args : list str) : result (bool * str) RawCli :=
  if bool_decide (lit "--wat" ∈ args) then Err (true, lit "unexpected argument") else Ok (mk_raw_cli json_args0 None).
Definition usage0 (e : UsageError) : str := match e with UE_Clap _ text => text | _ => lit "usage" end.
End CliExample.
Import CliExample.

