(* ===== verification/Launch.v ===== *)
(** How the program starts copies of itself: the supervisor that a submission
    needs and the monitor of a run, from the private log that they append to
    to the command line that they parse.

    The directories and the log are those of [Paths], the command line that of
    [Args]; clap is asked only what it makes of a subcommand with its options
    in their order. *)

From S2P Require Import Prelude Text Primitives Duration Identifier States Recurrence Execution JobAgg RunAgg.
From S2P Require Import Sqlite JobStore Services Config Submit Commands Args Paths.

(** The arguments that start with the name of a command are not reordered. *)
Lemma normalize_named program name rest :
  kind_of name = AK_Command -> normalize_management_order (program :: name :: rest) = program :: name :: rest.
Proof. intros Hn. by apply (normalize_command program [] name rest options_nil). Qed.

Section Launch.
Variable try_parse : list str -> result (bool * str) RawCli.

(** What clap documents: a subcommand takes the values that follow its
    options. *)
Record parses_children : Prop := {
  parses_supervisor program state runtime :
    is_absolute state = true -> is_absolute runtime = true ->
    exists raw, try_parse (program :: supervisor_arguments state runtime) = Ok raw /\
      rw_management raw = Some (CC_Supervisor state runtime false);
  parses_monitor program state runtime job run :
    is_absolute state = true -> is_absolute runtime = true ->
    exists raw, try_parse (program :: monitor_arguments state runtime job run) = Ok raw /\
      rw_management raw = Some (CC_Monitor state runtime (job_id_to_string job) (run_id_to_string run))
}.

Lemma parse_from_child program name rest raw command :
  kind_of name = AK_Command -> try_parse (program :: name :: rest) = Ok raw -> rw_management raw = Some command ->
  parse_from try_parse (program :: name :: rest) = Ok (PC_Management (sa_global (rw_schedule raw)) command).
Proof. intros Hn Hp Hc. unfold parse_from. rewrite normalize_named, Hp by done. cbn. by rewrite Hc. Qed.
End Launch.

(** The start of a copy of the program.  No entry of the file system is
    replaced, and what is created belongs to the user alone.  On success the
    state directory is private, the copy writes to a regular file that only the
    user can read, and it is told, through its command line, to be the
    supervisor of these directories, or the monitor of exactly this job and
    this run. *)
Theorem child_handoff try_parse exe spawn state runtime job run s :
  parses_children try_parse -> is_absolute state = true -> is_absolute runtime = true ->
  uuid_ok (job_uuid job) -> uuid_ok (run_uuid run) ->
  (let '(r, s') := start_session_supervisor exe spawn state runtime s in
   extends s s' /\ (r = Ok tt -> exists program arguments log global,
     exe = Ok program /\ spawn (mk_child_command program arguments log) = Ok tt /\
     private_dir s' state /\ private_dir s' runtime /\ private_file s' log /\
     parse_from try_parse (program :: arguments) = Ok (PC_Management global (CC_Supervisor state runtime false)))) /\
  (let '(r, s') := start_run_monitor exe spawn state runtime job run s in
   extends s s' /\ (r = Ok tt -> exists program arguments log global job_text run_text,
     exe = Ok program /\ spawn (mk_child_command program arguments log) = Ok tt /\
     private_dir s' state /\ private_file s' log /\
     parse_from try_parse (program :: arguments) = Ok (PC_Management global (CC_Monitor state runtime job_text run_text)) /\
     job_id_from_str job_text = Ok job /\ run_id_from_str run_text = Ok run)).
Proof.
  intros Hclap Hs Hr Hj Hrun. split.
  - destruct (start_session_supervisor exe spawn state runtime s) as [r s'] eqn:E.
    split; [by eapply careful_after, E; apply careful_start|]. intros ->. unfold start_session_supervisor in E.
    apply port_bind_ok in E as ([] & s1 & E1 & E). apply port_bind_ok in E as ([] & s2 & E2 & E).
    pose proof (careful_after _ _ _ _ (careful_ensure _) E2) as X2. pose proof (careful_after _ _ _ _ (careful_logged _ _ _ _) E) as X3.
    apply ensure_private_dir_ok in E1, E2. apply spawn_logged_ok in E as (program & -> & Hlog & Hspawn).
    destruct (parses_supervisor _ Hclap program state runtime Hs Hr) as (raw & Hp & Hc).
    eexists program, _, _, (sa_global (rw_schedule raw)). split_and!; [done|exact Hspawn| | |exact Hlog|].
    + eapply private_dir_extends; [|exact E1]. by transitivity s2.
    + by eapply private_dir_extends; [|exact E2].
    + by apply parse_from_child.
  - destruct (start_run_monitor exe spawn state runtime job run s) as [r s'] eqn:E.
    split; [by eapply careful_after, E; apply careful_monitor|]. intros ->. unfold start_run_monitor in E.
    apply port_bind_ok in E as ([] & s1 & E1 & E). pose proof (careful_after _ _ _ _ (careful_logged _ _ _ _) E) as X2.
    apply ensure_private_dir_ok in E1. apply spawn_logged_ok in E as (program & -> & Hlog & Hspawn).
    destruct (parses_monitor _ Hclap program state runtime job run Hs Hr) as (raw & Hp & Hc).
    eexists program, _, _, (sa_global (rw_schedule raw)), _, _. split_and!; [done|exact Hspawn| |exact Hlog| | |].
    + by eapply private_dir_extends; [|exact E1].
    + by apply parse_from_child.
    + by apply job_id_text.
    + by apply run_id_text.
Qed.

(** ** A parser and a machine *)

Module LaunchExample.
Definition plain0 : SchedulingArgs :=
  mk_scheduling_args (mk_global false false false None None) false false None None false false None None [] false false None false None
    false [] [].
Definition clap0 (args : list str) : result (bool * str) RawCli :=
  match args with
  | [_; _; _; state; _; runtime] => Ok (mk_raw_cli plain0 (Some (CC_Supervisor state runtime false)))
  | [_; _; _; state; _; runtime; _; job; _; run] => Ok (mk_raw_cli plain0 (Some (CC_Monitor state runtime job run)))
  | _ => Err (true, lit "usage")
  end.
Definition fs0 : Fs := mk_fs ∅ 1000 18 [].
End LaunchExample.
Import LaunchExample.

Lemma clap0_parses : parses_children clap0.
Proof. split; intros; eexists; split; reflexivity. Qed.

Lemma child_handoff_witness :
  exists s', start_run_monitor (Ok (lit "/bin/atx")) (fun _ => Ok tt) (lit "/s") (lit "/r") (mk_job_id 7) (mk_run_id 9) fs0 = (Ok tt, s') /\
  exists program arguments global job_text run_text,
    parse_from clap0 (program :: arguments) = Ok (PC_Management global (CC_Monitor (lit "/s") (lit "/r") job_text run_text)) /\
    job_id_from_str job_text = Ok (mk_job_id 7) /\ run_id_from_str run_text = Ok (mk_run_id 9).
Proof.
  pose proof (child_handoff clap0 (Ok (lit "/bin/atx")) (fun _ => Ok tt) (lit "/s") (lit "/r") (mk_job_id 7) (mk_run_id 9) fs0
    clap0_parses eq_refl eq_refl) as X.
  destruct X as [_ X]; [by vm_compute..|]. destruct (start_run_monitor _ _ _ _ _ _ fs0) as [r s'] eqn:E. exists s'.
  assert (r = Ok tt) as -> by (apply (f_equal fst) in E; by vm_compute in E).
  split; [done|]. destruct X as [_ X]. destruct (X eq_refl) as (program & arguments & log & global & jt & rt & _ & _ & _ & _ & H1 & H2 & H3).
  by exists program, arguments, global, jt, rt.
Defined.
