(* ===== verification/Manual.v ===== *)
(** The manual pages and the completion scripts ([export_man_pages] and
    [generate_completions] of [cli/dispatch.rs]): the pages that are written,
    and what is done to the text that [clap_mangen] renders.

    The commands, their rendered pages and their completion scripts come from
    clap; they are arguments. *)

From S2P Require Import Prelude Text Lossy Primitives Args.

(** ** [str::contains] and [str::replace] *)

Fixpoint strip_pattern (pattern s : str) : option str :=
  match pattern, s with
  | [], _ => Some s
  | a :: pattern, b :: s => if a =? b then strip_pattern pattern s else None
  | _ :: _, [] => None
  end.

Fixpoint str_contains (pattern s : str) : bool :=
  is_some (strip_pattern pattern s) || match s with [] => false | _ :: s => str_contains pattern s end.

(** The occurrences from the left that do not overlap; the fuel is the length
    of the text. *)
Fixpoint replace_loop (fuel : nat) (pattern by_text s : str) : str :=
  match fuel with
  | O => s
  | S fuel =>
    match strip_pattern pattern s with
    | Some rest => by_text ++ replace_loop fuel pattern by_text rest
    | None => match s with [] => [] | b :: s => b :: replace_loop fuel pattern by_text s end
    end
  end.
Definition str_replace (pattern by_text s : str) : str := replace_loop (length s) pattern by_text s.

(** [while s.contains(pattern) { s = s.replace(pattern, by_text) }] *)
Fixpoint replace_all_loop (fuel : nat) (pattern by_text s : str) : str :=
  match fuel with
  | O => s
  | S fuel => if str_contains pattern s then replace_all_loop fuel pattern by_text (str_replace pattern by_text s) else s
  end.
Definition replace_all (pattern by_text s : str) : str := replace_all_loop (length s) pattern by_text s.

(** ** One page *)

Definition BR : str := lit ".br" ++ [10].
Definition BR_BLANK_BR : str := BR ++ [10] ++ BR.
Definition BLANK_BR : str := [10; 10] ++ BR.

(** [join("\n")] *)
Fixpoint join (parts : list str) : str :=
  match parts with
  | [] => []
  | [part] => part
  | part :: parts => part ++ [10] ++ join parts
  end.

(** The text that is written: no blanks at the ends of lines, no blank line
    before a break. *)
Definition normalize (generated : str) : str :=
  let normalized := join (map trim_end (lines generated)) ++ [10] in
  let normalized := replace_all BR_BLANK_BR BR normalized in
  replace_all BLANK_BR ([10] ++ BR) normalized.

(** What the files answer, for a path: [File::create], [write_all], [flush]. *)
Record PageFiles := mk_page_files {
  pf_create_dir : str -> result str unit;
  pf_create : str -> result str unit;
  pf_write : str -> str -> result str unit;
  pf_flush : str -> result str unit
}.

(** The files written so far, in order. *)
Abbreviation Pages := (list (str * str)).

(** [render]: [rendered] is what [clap_mangen] renders, [utf8_error] the text
    of the error of [String::from_utf8]. *)
Definition render (files : PageFiles) (utf8_error : str -> str) (rendered : result str str) (path : str) (written : Pages)
  : result str unit * Pages :=
  let shown := from_utf8_lossy path in
  match rendered with
  | Err error => (Err (lit "render " ++ shown ++ lit ": " ++ error), written)
  | Ok generated =>
    if negb (valid_utf8 generated) then (Err (lit "render " ++ shown ++ lit " as UTF-8: " ++ utf8_error generated), written) else
    let normalized := normalize generated in
    match pf_create files path with
    | Err error => (Err (lit "create " ++ shown ++ lit ": " ++ error), written)
    | Ok _ =>
      match pf_write files path normalized with
      | Err error => (Err (lit "write " ++ shown ++ lit ": " ++ error), written)
      | Ok _ =>
        match pf_flush files path with
        | Err error => (Err (lit "flush: " ++ error), written)
        | Ok _ => (Ok tt, written ++ [(path, normalized)])
        end
      end
    end
  end.

(** ** The export *)

(** A command of clap: its name, whether it is hidden, its page for a title
    and a date. *)
Record PageCommand := mk_page_command {
  pc_name : str;
  pc_hidden : bool;
  pc_page : str -> str -> result str str
}.

(** [str::parse::<i64>] *)
Definition parse_i64 (s : str) : option Z :=
  match s with
  | 45 :: digits =>
    if is_empty digits || negb (forallb is_ascii_digit digits) then None else checked (- 2 ^ 63) i64_max (- dec_value digits)
  | _ => parse_uint i64_max s
  end.

Section Manual.
Context `{Jiff}.
(** [strftime("%Y-%m-%d")] *)
Variable strftime : UtcTimestamp -> str.

(** The date of the pages, from the variable [SOURCE_DATE_EPOCH] when it is a
    time; the variable is [None] also when it is not Unicode. *)
Definition page_date (epoch : option str) (now : UtcTimestamp) : str :=
  strftime (default now (text ← epoch; seconds ← parse_i64 text; ts_checked (seconds * 10 ^ 9))).

(** The loop over the subcommands. *)
Fixpoint export_subcommands (files : PageFiles) (utf8_error : str -> str) (out_dir name title date : str)
  (subcommands : list PageCommand) (written : Pages) : result str unit * Pages :=
  match subcommands with
  | [] => (Ok tt, written)
  | sub :: subcommands =>
    if pc_hidden sub then export_subcommands files utf8_error out_dir name title date subcommands written else
    let path := path_join out_dir (name ++ lit "-" ++ pc_name sub ++ lit ".1") in
    match render files utf8_error (pc_page sub title date) path written with
    | (Ok _, written) => export_subcommands files utf8_error out_dir name title date subcommands written
    | failed => failed
    end
  end.

Definition export_man_pages (files : PageFiles) (utf8_error : str -> str) (command : PageCommand) (subcommands : list PageCommand)
  (epoch : option str) (now : UtcTimestamp) (out_dir : str) : result str unit * Pages :=
  match pf_create_dir files out_dir with
  | Err error => (Err (lit "create dir: " ++ error), [])
  | Ok _ =>
    let date := page_date epoch now in
    let name := pc_name command in
    let title := map (fun b => if is_ascii_lower b then b - 32 else b) name in
    match render files utf8_error (pc_page command title date) (path_join out_dir (name ++ lit ".1")) [] with
    | (Ok _, written) => export_subcommands files utf8_error out_dir name title date subcommands written
    | failed => failed
    end
  end.
End Manual.

(** ** The completion scripts *)

(** [clap_complete::Shell], as far as it is used. *)
Inductive Shell := Bash | Zsh | Fish | PowerShell.

(** [generate]: the script of clap for the program of that name. *)
Definition generate_completions (generate : Shell -> str -> str) (shell : CompletionShell) : str :=
  generate (match shell with CS_Bash => Bash | CS_Zsh => Zsh | CS_Fish => Fish | CS_PowerShell => PowerShell end) (lit "atx").

(** ** Lemmas *)

Lemma strip_pattern_spec pattern s rest : strip_pattern pattern s = Some rest <-> s = pattern ++ rest.
Proof.
  revert s. induction pattern as [|a pattern IH]; intros s; cbn [strip_pattern app]; [naive_solver|].
  destruct s as [|b s]; [done|]. destruct (Z.eqb_spec a b) as [->|Hne]; [rewrite IH|]; split; congruence.
Qed.

Lemma str_contains_spec pattern s : str_contains pattern s = true <-> exists l r, s = l ++ pattern ++ r.
Proof.
  assert (forall s, is_some (strip_pattern pattern s) = true <-> exists r, s = pattern ++ r) as Hstrip.
  { intros t. destruct (strip_pattern pattern t) as [r|] eqn:E; cbn [is_some].
    - apply strip_pattern_spec in E. split; [by exists r|done].
    - split; [done|]. intros (r & Hr%strip_pattern_spec). congruence. }
  induction s as [|b s IH]; cbn [str_contains]; rewrite orb_true_iff, Hstrip.
  - split; [intros [[r Hr]|]; [by exists [], r|done]|]. intros (l & r & Hl). destruct l; [|done]. left. by exists r.
  - rewrite IH. split.
    + intros [[r Hr]|(l & r & ->)]; [by exists [], r|by exists (b :: l), r].
    + intros (l & r & Hl). destruct l as [|c l]; [left; by exists r|]. right. injection Hl as <- ->. by exists l, r.
Qed.

(** A shorter replacement makes a text with an occurrence shorter. *)
Lemma replace_loop_length pattern by_text fuel s : (length by_text <= length pattern)%nat ->
  (length (replace_loop fuel pattern by_text s) <= length s)%nat.
Proof.
  intros Hlen. revert s. induction fuel as [|fuel IH]; intros s; cbn [replace_loop]; [done|].
  destruct (strip_pattern pattern s) as [rest|] eqn:E.
  - apply strip_pattern_spec in E as ->. specialize (IH rest). rewrite !length_app. lia.
  - destruct s as [|b s]; [done|]. specialize (IH s). cbn [length]. lia.
Qed.

Lemma replace_shortens pattern by_text s : (length by_text < length pattern)%nat -> str_contains pattern s = true ->
  (length (str_replace pattern by_text s) < length s)%nat.
Proof.
  intros Hlen. unfold str_replace. assert (forall fuel, (length s <= fuel)%nat -> str_contains pattern s = true ->
    (length (replace_loop fuel pattern by_text s) < length s)%nat) as Hgen; [|by apply Hgen].
  intros fuel. revert s. induction fuel as [|fuel IH]; intros s Hf Hc.
  { destruct s; [|cbn in Hf; lia]. destruct pattern; [cbn in Hlen; lia|]. done. }
  cbn [replace_loop]. destruct (strip_pattern pattern s) as [rest|] eqn:E.
  - apply strip_pattern_spec in E as ->. pose proof (replace_loop_length pattern by_text fuel rest). rewrite !length_app. lia.
  - destruct s as [|b s]; [by destruct pattern|]. cbn [str_contains is_some orb] in Hc. rewrite E in Hc. cbn [is_some orb] in Hc.
    cbn [length] in *. specialize (IH s ltac:(lia) Hc). lia.
Qed.

(** The loop ends, and leaves no occurrence. *)
Lemma replace_all_clean pattern by_text s : (length by_text < length pattern)%nat ->
  str_contains pattern (replace_all pattern by_text s) = false.
Proof.
  intros Hlen. unfold replace_all. assert (forall fuel, (length s <= fuel)%nat ->
    str_contains pattern (replace_all_loop fuel pattern by_text s) = false) as Hgen; [|by apply Hgen].
  intros fuel. revert s. induction fuel as [|fuel IH]; intros s Hf; cbn [replace_all_loop].
  - destruct s; [|cbn in Hf; lia]. by destruct pattern; [cbn in Hlen; lia|].
  - destruct (str_contains pattern s) eqn:E; [|done]. apply IH. pose proof (replace_shortens pattern by_text s Hlen E). lia.
Qed.

Lemma replace_loop_last pattern by_text fuel s : last pattern = Some 10 -> last by_text = Some 10 -> last s = Some 10 ->
  last (replace_loop fuel pattern by_text s) = Some 10.
Proof.
  intros Hp Hb. revert s. induction fuel as [|fuel IH]; intros s Hs; cbn [replace_loop]; [done|].
  destruct (strip_pattern pattern s) as [rest|] eqn:E.
  - apply strip_pattern_spec in E as ->. rewrite last_app in *. destruct (last rest) as [b|] eqn:Er; [by rewrite IH by congruence|].
    apply last_None in Er as ->. assert (replace_loop fuel pattern by_text [] = []) as ->; [|done].
    destruct fuel; [done|]. cbn [replace_loop]. by destruct pattern.
  - destruct s as [|b s]; [done|]. rewrite last_cons in *. destruct (last s) eqn:El; [by rewrite IH by congruence|].
    apply last_None in El as ->. assert (replace_loop fuel pattern by_text [] = []) as ->; [|done].
    destruct fuel; [done|]. cbn [replace_loop]. by destruct pattern.
Qed.

Lemma replace_all_last pattern by_text s : last pattern = Some 10 -> last by_text = Some 10 -> last s = Some 10 ->
  last (replace_all pattern by_text s) = Some 10.
Proof.
  intros Hp Hb. unfold replace_all. generalize (length s). intros fuel. revert s. induction fuel as [|fuel IH]; intros s Hs; [done|].
  cbn [replace_all_loop]. destruct (str_contains pattern s); [|done]. by apply IH, replace_loop_last.
Qed.

(** ** Properties *)

(** The text of a page: it ends with a line feed, and no blank line is before
    a break. *)
Definition page_clean (text : str) : Prop :=
  last text = Some 10 /\ str_contains BR_BLANK_BR text = false /\ str_contains BLANK_BR text = false.

(** Both loops end, and the second undoes nothing of the first. *)
Theorem normalize_clean generated : page_clean (normalize generated).
Proof.
  unfold normalize. set (joined := join _ ++ [10]). set (once := replace_all BR_BLANK_BR BR joined).
  assert (str_contains BLANK_BR (replace_all BLANK_BR ([10] ++ BR) once) = false) as Hb by (apply replace_all_clean; vm_compute; lia).
  split; [|split; [|done]].
  - apply replace_all_last; [done..|]. apply replace_all_last; [done..|]. unfold joined. by rewrite last_snoc.
  - apply not_true_iff_false. intros (l & r & E)%str_contains_spec. revert Hb. apply not_false_iff_true, str_contains_spec.
    exists (l ++ lit ".br"), r. rewrite E, <- app_assoc. done.
Qed.

(** The paths of the pages of a command and its visible subcommands. *)
Definition page_paths (out_dir : str) (command : PageCommand) (subcommands : list PageCommand) : list str :=
  path_join out_dir (pc_name command ++ lit ".1") ::
  ((fun sub => path_join out_dir (pc_name command ++ lit "-" ++ pc_name sub ++ lit ".1")) <$>
     List.filter (fun sub => negb (pc_hidden sub)) subcommands).

Lemma render_written files utf8_error rendered path written r written' :
  render files utf8_error rendered path written = (r, written') ->
  (exists text, r = Ok tt /\ written' = written ++ [(path, text)] /\ page_clean text) \/ ((exists e, r = Err e) /\ written' = written).
Proof.
  unfold render. destruct rendered as [generated|e]; [|intros [= <- <-]; right; split; [by eexists|done]].
  destruct (valid_utf8 generated); cbn [negb]; [|intros [= <- <-]; right; split; [by eexists|done]].
  destruct (pf_create _ _); [|intros [= <- <-]; right; split; [by eexists|done]].
  destruct (pf_write _ _ _); [|intros [= <- <-]; right; split; [by eexists|done]].
  destruct (pf_flush _ _); [|intros [= <- <-]; right; split; [by eexists|done]].
  intros [= <- <-]. left. eexists. split; [done|]. split; [done|]. apply normalize_clean.
Qed.

Lemma export_subcommands_written files utf8_error out_dir name title date subcommands written r written' :
  export_subcommands files utf8_error out_dir name title date subcommands written = (r, written') ->
  exists new, written' = written ++ new /\ Forall (fun p => page_clean p.2) new /\
    let paths := (fun sub => path_join out_dir (name ++ lit "-" ++ pc_name sub ++ lit ".1")) <$>
                   List.filter (fun sub => negb (pc_hidden sub)) subcommands in
    match r with Ok _ => new.*1 = paths | Err _ => new.*1 `prefix_of` paths end.
Proof.
  revert written. induction subcommands as [|sub subcommands IH]; intros written; cbn [export_subcommands List.filter].
  { intros [= <- <-]. exists []. by rewrite app_nil_r. }
  destruct (pc_hidden sub); cbn [negb]; [apply IH|]. destruct (render _ _ _ _ _) as [r1 w1] eqn:E.
  apply render_written in E as [(text & -> & -> & Ht)|[(e & ->) ->]].
  - intros (new & -> & Hf & Hn)%IH. exists ((path_join out_dir (name ++ lit "-" ++ pc_name sub ++ lit ".1"), text) :: new).
    rewrite <- app_assoc. split; [done|]. split; [by constructor|]. cbn. destruct r; [by f_equal|by apply prefix_cons].
  - intros [= <- <-]. exists []. rewrite app_nil_r. split; [done|]. split; [constructor|]. apply prefix_nil.
Qed.

(** The export writes the page of the program and those of its visible
    subcommands, in order, each clean; an error leaves the pages before it. *)
Theorem export_man_pages_spec `{Jiff} strftime files utf8_error command subcommands epoch now out_dir r written :
  export_man_pages strftime files utf8_error command subcommands epoch now out_dir = (r, written) ->
  Forall (fun p => page_clean p.2) written /\
  match r with
  | Ok _ => written.*1 = page_paths out_dir command subcommands
  | Err _ => written.*1 `prefix_of` page_paths out_dir command subcommands
  end.
Proof.
  unfold export_man_pages, page_paths. destruct (pf_create_dir _ _); [|intros [= <- <-]; split; [constructor|apply prefix_nil]].
  destruct (render _ _ _ _ _) as [r1 w1] eqn:E. apply render_written in E as [(text & -> & -> & Ht)|[(e & ->) ->]].
  - intros (new & -> & Hf & Hn)%export_subcommands_written. split; [by constructor|]. cbn. destruct r; [by f_equal|by apply prefix_cons].
  - intros [= <- <-]. split; [constructor|apply prefix_nil].
Qed.

(** Blanks, breaks and their repetition. *)
Example page_ex :
  normalize (lit ".TH ATX  " ++ [10; 10] ++ BR ++ [10] ++ BR ++ [10] ++ BR ++ lit "text") =
  lit ".TH ATX" ++ [10] ++ BR ++ lit "text" ++ [10].
Proof. vm_compute. reflexivity. Qed.
