(* ===== verification/Sbom.v ===== *)
(** The bill of materials of a release ([xtask/src/sbom.rs]): the inventory that
    cargo resolves, the validation of a document against it, and what both
    accept, stated without the order of their checks.

    A JSON document is a value of [serde_json], of which the tasks use the
    accessors below and no law. *)

From S2P Require Import Prelude Text Lossy.

(** ** JSON values *)

(** [serde_json::Value]: [get] with a key, [as_str], [as_array], [as_u64], the
    tests for [Null] and an object, and the parser with the text of its error. *)
Class JsonValue := {
  Value : Type;
  jv_get : Value -> str -> option Value;
  jv_str : Value -> option str;
  jv_array : Value -> option (list Value);
  jv_u64 : Value -> option Z;
  jv_is_null : Value -> bool;
  jv_is_object : Value -> bool;
  jv_parse : str -> result str Value
}.

(** ** The inventory that cargo resolves *)

Record Package := mk_package { pk_name : str; pk_version : str }.
#[export] Instance Package_eq_dec : EqDecision Package. Proof. solve_decision. Defined.
#[export] Instance Package_countable : Countable Package.
Proof. refine (inj_countable' (fun p => (pk_name p, pk_version p)) (fun p => mk_package p.1 p.2) _). by intros []. Defined.

(** The derived order, name first; the iteration of a [BTreeSet<Package>]. *)
Definition package_le (a b : Package) : Prop :=
  match str_compare (pk_name a) (pk_name b) with
  | Eq => str_compare (pk_version a) (pk_version b) <> Gt
  | c => c = Lt
  end.
#[export] Instance package_le_dec a b : Decision (package_le a b).
Proof. unfold package_le. destruct (str_compare _ _); solve_decision. Defined.
Definition btree_packages (s : gset Package) : list Package := merge_sort package_le (elements s).

Record Inventory := mk_inventory { iv_root : Package; iv_direct : gset Package; iv_locked : gset Package }.

Section Sbom.
Context {J : JsonValue}.

(** Bounded printable text: the filter of [text] and of the edges. *)
Definition printable (t : str) : bool :=
  negb (is_empty t) && (len t <=? 1024) && negb (existsb is_control (chars t)).

Definition text (value : Value) (key : str) : result str str :=
  match jv_get value key ≫= jv_str with
  | Some t => if printable t then Ok t else Err (lit "missing or invalid string: " ++ key)
  | None => Err (lit "missing or invalid string: " ++ key)
  end.

Definition array (value : Value) (key : str) : result str (list Value) :=
  ok_or (jv_get value key ≫= jv_array) (lit "missing or invalid array: " ++ key).

Definition package (value : Value) : result str Package :=
  name ← text value (lit "name");
  version ← text value (lit "version");
  Ok (mk_package name version).

(** The loop over the packages. *)
Fixpoint collect_packages (values : list Value) (packages : gmap str Package) (root : option (str * Package))
  : result str (gmap str Package * option (str * Package)) :=
  match values with
  | [] => Ok (packages, root)
  | value :: values =>
    id ← text value (lit "id");
    package ← package value;
    let named := bool_decide (pk_name package = lit "atx") in
    if named && is_some root then Err (lit "Cargo metadata contains multiple atx roots") else
    let root := if named then Some (id, package) else root in
    if is_some (packages !! id) then Err (lit "Cargo metadata contains duplicate package IDs") else
    collect_packages values (<[id := package]> packages) root
  end.

(** The loop over the kinds of one dependency. *)
Fixpoint runtime_kind (kinds : list Value) (runtime : bool) : result str bool :=
  match kinds with
  | [] => Ok runtime
  | kind :: kinds =>
    let invalid := Err (lit "Cargo dependency has an invalid kind") in
    match jv_get kind (lit "kind") with
    | Some value =>
      if jv_is_null value then runtime_kind kinds true else
      match jv_str value with
      | Some s => if bool_decide (s = lit "dev") || bool_decide (s = lit "build") then runtime_kind kinds runtime else invalid
      | None => invalid
      end
    | None => invalid
    end
  end.

(** The loop over the dependencies of the root. *)
Fixpoint collect_direct (packages : gmap str Package) (deps : list Value) (direct : gset Package)
  : result str (gset Package) :=
  match deps with
  | [] => Ok direct
  | dependency :: deps =>
    kinds ← array dependency (lit "dep_kinds");
    if is_empty kinds then Err (lit "Cargo dependency has no resolved kinds") else
    runtime ← runtime_kind kinds false;
    if (runtime : bool) then
      id ← text dependency (lit "pkg");
      package ← ok_or (packages !! id) (lit "unresolved Cargo runtime dependency");
      collect_direct packages deps ({[package]} ∪ direct)
    else collect_direct packages deps direct
  end.

(** The loop over the nodes of the graph. *)
Fixpoint collect_nodes (packages : gmap str Package) (root_id : str) (nodes : list Value) (found : bool) (direct : gset Package)
  : result str (bool * gset Package) :=
  match nodes with
  | [] => Ok (found, direct)
  | node :: nodes =>
    id ← text node (lit "id");
    if bool_decide (id <> root_id) then collect_nodes packages root_id nodes found direct else
    if found then Err (lit "Cargo metadata contains duplicate root nodes") else
    deps ← array node (lit "deps");
    direct ← collect_direct packages deps direct;
    collect_nodes packages root_id nodes true direct
  end.

Definition expected_inventory (metadata : Value) : result str Inventory :=
  values ← array metadata (lit "packages");
  '(packages, root) ← collect_packages values ∅ None;
  '(root_id, root) ← ok_or root (lit "Cargo metadata has no atx root");
  resolve ← ok_or (jv_get metadata (lit "resolve")) (lit "Cargo metadata has no resolve graph");
  nodes ← array resolve (lit "nodes");
  '(found, direct) ← collect_nodes packages root_id nodes false ∅;
  if negb found || bool_decide (direct = ∅) then Err (lit "Cargo metadata has no resolved runtime dependencies") else
  Ok (mk_inventory root direct (list_to_set (map_to_list packages).*2)).

(** ** The bill of materials *)

(** The package URL, with [+] escaped. *)
Definition package_url (p : Package) : str :=
  lit "pkg:cargo/" ++ pk_name p ++ lit "@" ++ concat (map (fun b => if b =? 43 then lit "%2B" else [b]) (pk_version p)).

(** The loop over the components. *)
Fixpoint collect_components (expected : Inventory) (components : list Value) (references : gset str)
  (by_package : gmap Package str) : result str (gset str * gmap Package str) :=
  match components with
  | [] => Ok (references, by_package)
  | component :: components =>
    reference ← text component (lit "bom-ref");
    if bool_decide (reference ∈ references) then Err (lit "duplicate SBOM reference: " ++ reference) else
    let references := {[reference]} ∪ references in
    if bool_decide (jv_get component (lit "type") ≫= jv_str = Some (lit "file")) then
      _ ← text component (lit "name");
      collect_components expected components references by_package
    else
    package ← package component;
    if bool_decide (package ∉ iv_locked expected)
    then Err (lit "unlocked Cargo component: " ++ pk_name package ++ lit " " ++ pk_version package) else
    purl ← text component (lit "purl");
    if bool_decide (purl <> package_url package) then Err (lit "invalid Cargo purl for " ++ pk_name package) else
    if is_some (by_package !! package) then Err (lit "duplicate Cargo package identity in SBOM") else
    collect_components expected components references (<[package := reference]> by_package)
  end.

(** The loop over the edges of one node. *)
Fixpoint collect_edges (references : gset str) (reference : str) (values : list Value) (edges : gset str)
  : result str (gset str) :=
  match values with
  | [] => Ok edges
  | edge :: values =>
    value ← ok_or (t ← jv_str edge; if printable t then Some t else None)
              (lit "dependency references must be bounded printable strings");
    if bool_decide (value ∉ references) || bool_decide (value = reference) || bool_decide (value ∈ edges)
    then Err (lit "invalid dependency edge: " ++ reference ++ lit " -> " ++ value) else
    collect_edges references reference values ({[value]} ∪ edges)
  end.

(** The loop over the dependency nodes. *)
Fixpoint collect_graph (references : gset str) (dependencies : list Value) (graph : gmap str (gset str))
  : result str (gmap str (gset str)) :=
  match dependencies with
  | [] => Ok graph
  | dependency :: dependencies =>
    reference ← text dependency (lit "ref");
    if bool_decide (reference ∉ references) then Err (lit "unknown dependency node: " ++ reference) else
    values ← array dependency (lit "dependsOn");
    edges ← collect_edges references reference values ∅;
    if is_some (graph !! reference) then Err (lit "duplicate dependency node: " ++ reference) else
    collect_graph references dependencies (<[reference := edges]> graph)
  end.

(** The loop over the expected dependencies. *)
Fixpoint check_direct (by_package : gmap Package str) (edges : gset str) (direct : list Package) : result str unit :=
  match direct with
  | [] => Ok tt
  | package :: direct =>
    reference ← ok_or (by_package !! package)
      (lit "SBOM is missing locked runtime dependency " ++ pk_name package ++ lit " " ++ pk_version package);
    if bool_decide (reference ∉ edges) then Err (lit "SBOM root does not depend on " ++ pk_name package) else
    check_direct by_package edges direct
  end.

Definition validate (document : Value) (expected : Inventory) : result str nat :=
  let header := lit "expected a CycloneDX 1.6 document with a positive revision" in
  format ← text document (lit "bomFormat");
  if bool_decide (format <> lit "CycloneDX") then Err header else
  version ← text document (lit "specVersion");
  if bool_decide (version <> lit "1.6") then Err header else
  if negb (is_some_and (jv_get document (lit "version") ≫= jv_u64) (fun value => negb (value =? 0))) then Err header else
  components ← array document (lit "components");
  if (length components <? 2)%nat then Err (lit "SBOM must contain the atx root and non-empty dependencies") else
  '(references, by_package) ← collect_components expected components ∅ ∅;
  root_ref ← ok_or (by_package !! iv_root expected) (lit "SBOM is missing the expected atx version");
  dependencies ← array document (lit "dependencies");
  graph ← collect_graph references dependencies ∅;
  edges ← ok_or (graph !! root_ref) (lit "SBOM has no root dependency graph");
  if negb (size edges =? size (iv_direct expected))%nat
  then Err (lit "SBOM root dependency set differs from the default runtime graph") else
  _ ← check_direct by_package edges (btree_packages (iv_direct expected));
  Ok (size by_package).

(** ** What a valid bill is

    The same document, read without the order of the checks: the components
    with the packages that they name, and the nodes with their edges. *)

(** A component: its reference, and its package unless it is a file. *)
Definition component_ok (expected : Inventory) (component : Value) (item : str * option Package) : Prop :=
  text component (lit "bom-ref") = Ok item.1 /\
  match item.2 with
  | None => jv_get component (lit "type") ≫= jv_str = Some (lit "file") /\ is_ok (text component (lit "name")) = true
  | Some p =>
    jv_get component (lit "type") ≫= jv_str <> Some (lit "file") /\ package component = Ok p /\
    p ∈ iv_locked expected /\ text component (lit "purl") = Ok (package_url p)
  end.

(** The packages of the components with their references. *)
Definition cargo (items : list (str * option Package)) : list (Package * str) :=
  omap (fun item => p ← item.2; Some (p, item.1)) items.

Definition edge_ok (value : Value) (edge : str) : Prop := jv_str value = Some edge /\ printable edge = true.

Definition node_ok (dependency : Value) (node : str * list str) : Prop :=
  text dependency (lit "ref") = Ok node.1 /\
  exists values, array dependency (lit "dependsOn") = Ok values /\ Forall2 edge_ok values node.2.

Record bill_ok (document : Value) (expected : Inventory) (count : nat) : Prop := mk_bill_ok {
  bl_format : text document (lit "bomFormat") = Ok (lit "CycloneDX");
  bl_spec : text document (lit "specVersion") = Ok (lit "1.6");
  bl_version : exists v, jv_get document (lit "version") ≫= jv_u64 = Some v /\ v <> 0;
  bl_content : exists components items dependencies nodes root_ref edges,
    (** every component is a file or a locked package under its URL; references
        and packages are not repeated *)
    array document (lit "components") = Ok components /\ (2 <= length components)%nat /\
    Forall2 (component_ok expected) components items /\ NoDup items.*1 /\ NoDup (cargo items).*1 /\
    count = length (cargo items) /\
    (** the edges of every node lead to other components *)
    array document (lit "dependencies") = Ok dependencies /\ Forall2 node_ok dependencies nodes /\
    NoDup nodes.*1 /\
    Forall (fun node => node.1 ∈ items.*1 /\ NoDup node.2 /\ Forall (fun e => e ∈ items.*1 /\ e <> node.1) node.2) nodes /\
    (** the edges of the root are exactly its locked runtime dependencies *)
    (iv_root expected, root_ref) ∈ cargo items /\ (root_ref, edges) ∈ nodes /\
    (forall p, p ∈ iv_direct expected -> exists r, (p, r) ∈ cargo items) /\
    (forall r, r ∈ edges <-> exists p, p ∈ iv_direct expected /\ (p, r) ∈ cargo items)
}.

(** ** The loops *)

Lemma text_ok value key t : text value key = Ok t <-> jv_get value key ≫= jv_str = Some t /\ printable t = true.
Proof.
  unfold text. destruct (jv_get value key ≫= jv_str) as [s|]; [|by split; [|intros [? _]]].
  destruct (printable s) eqn:E; split; [by intros [= <-]|by intros [[= <-] _]|done|]. intros [[= <-] ?]. congruence.
Qed.

Lemma cargo_package r p items : cargo ((r, Some p) :: items) = (p, r) :: cargo items. Proof. done. Qed.
Lemma cargo_file r items : cargo ((r, None) :: items) = cargo items. Proof. done. Qed.

Lemma cargo_refs items : (cargo items).*2 ⊆ items.*1.
Proof.
  induction items as [|[r [p|]] items IH]; [done|..]; rewrite ?cargo_package, ?cargo_file, ?fmap_cons; intros t Ht.
  - apply elem_of_cons in Ht as [->|Ht]; [by left|right; by apply IH].
  - right. by apply IH.
Qed.

Lemma cargo_nodup_refs items : NoDup items.*1 -> NoDup (cargo items).*2.
Proof.
  induction items as [|[r [p|]] items IH]; [constructor|..]; rewrite ?cargo_package, ?cargo_file, ?fmap_cons, ?NoDup_cons;
    intros [Hr Hnd]; [|by apply IH].
  split; [|by apply IH]. intros Hin. by apply Hr, cargo_refs.
Qed.

(** Elements that are inserted one by one, each new. *)
Definition new_in (l : list str) (s : gset str) : Prop := NoDup l /\ forall x, x ∈ l -> x ∉ s.

Lemma new_in_cons x l s : new_in (x :: l) s <-> (x ∉ s) /\ new_in l ({[x]} ∪ s).
Proof.
  unfold new_in. rewrite NoDup_cons. setoid_rewrite elem_of_cons. split.
  - intros [[Hx Hl] Hs]. split; [by apply Hs; left|]. split; [done|]. intros y Hy [->%elem_of_singleton|Hin]%elem_of_union; [done|].
    by apply (Hs y); [right|].
  - intros (Hx & Hl & Hs). split; [split; [|done]|].
    + intros Hin. apply (Hs x Hin), elem_of_union. left. by apply elem_of_singleton.
    + intros y [->|Hy]; [done|]. intros Hin. apply (Hs y Hy), elem_of_union. by right.
Qed.

Lemma set_insert_step {A} `{Countable A} (x : A) (l : list A) (s : gset A) :
  list_to_set (x :: l) ∪ s = list_to_set l ∪ ({[x]} ∪ s).
Proof. by rewrite list_to_set_cons, (comm_L (∪) {[x]}), <- (assoc_L (∪)). Qed.

Definition new_keys {K A} `{Countable K} (l : list (K * A)) (m : gmap K A) : Prop :=
  NoDup l.*1 /\ forall k, k ∈ l.*1 -> m !! k = None.

Lemma new_keys_cons {K A} `{Countable K} k a (l : list (K * A)) m :
  new_keys ((k, a) :: l) m <-> m !! k = None /\ new_keys l (<[k := a]> m).
Proof.
  unfold new_keys. cbn [fmap list_fmap fst]. rewrite NoDup_cons. setoid_rewrite elem_of_cons. split.
  - intros [[Hk Hl] Hm]. split; [by apply Hm; left|]. split; [done|]. intros q Hq.
    rewrite lookup_insert_ne by (by intros ->). apply Hm. by right.
  - intros (Hk & Hl & Hm). split; [split; [|done]|].
    + intros Hin%Hm. by rewrite lookup_insert_eq in Hin.
    + intros q [->|Hq]; [done|]. apply Hm in Hq as Hn. destruct (decide (k = q)) as [->|Hne]; [done|].
      by rewrite lookup_insert_ne in Hn.
Qed.

Lemma map_insert_step {K A} `{Countable K} k a (l : list (K * A)) (m : gmap K A) :
  new_keys ((k, a) :: l) m -> list_to_map ((k, a) :: l) ∪ m = list_to_map l ∪ <[k := a]> m.
Proof.
  intros [[Hk _]%NoDup_cons _]. cbn [list_to_map foldr]. rewrite <- insert_union_l. apply insert_union_r.
  by apply not_elem_of_list_to_map_1.
Qed.

Lemma collect_components_ok expected components references by_package references' by_package' :
  collect_components expected components references by_package = Ok (references', by_package') <->
  exists items, Forall2 (component_ok expected) components items /\
    new_in items.*1 references /\ new_keys (cargo items) by_package /\
    references' = list_to_set items.*1 ∪ references /\ by_package' = list_to_map (cargo items) ∪ by_package.
Proof.
  revert references by_package references' by_package'.
  induction components as [|c components IH]; intros references by_package references' by_package'.
  { cbn [collect_components]. split.
    - intros [= <- <-]. exists []. cbn. rewrite (left_id_L ∅ (∪)), (left_id_L ∅ (∪)).
      split_and!; try done; split; try constructor; by intros ? ?%elem_of_nil.
    - intros (items & Hf & _ & _ & -> & ->). apply Forall2_nil_inv_l in Hf as ->. cbn.
      by rewrite (left_id_L ∅ (∪)), (left_id_L ∅ (∪)). }
  cbn [collect_components]. rewrite bind_ok. split.
  - intros (reference & Href & Hrest). case_bool_decide as Hnew; [done|]. case_bool_decide as Hfile.
    + apply bind_ok in Hrest as (name & Hname & Hrest). apply IH in Hrest as (items & Hf & Hr & Hk & -> & ->).
      exists ((reference, None) :: items). rewrite cargo_file, fmap_cons, new_in_cons, set_insert_step. split_and!; try done.
      constructor; [|done]. split; [done|]. split; [done|]. by rewrite Hname.
    + apply bind_ok in Hrest as (p & Hp & Hrest). case_bool_decide as Hl; [done|]. apply bind_ok in Hrest as (purl & Hurl & Hrest).
      case_bool_decide as Hu; [done|]. destruct (by_package !! p) eqn:Ep; [done|]. cbn [is_some] in Hrest.
      apply IH in Hrest as (items & Hf & Hr & Hk & -> & ->). exists ((reference, Some p) :: items).
      assert (new_keys (cargo ((reference, Some p) :: items)) by_package) as Hkeys by (by apply new_keys_cons).
      rewrite fmap_cons, new_in_cons, set_insert_step. rewrite cargo_package in *. split_and!; try done.
      * constructor; [|done]. split; [done|]. cbn [snd]. rewrite Hurl, Hu. by split_and!.
      * symmetry. by apply map_insert_step.
  - intros (items & Hf & Hr & Hk & -> & ->).
    apply Forall2_cons_inv_l in Hf as ([r o] & items' & [Href Hitem] & Hf & ->). exists r. split; [done|].
    rewrite fmap_cons in Hr |- *. cbn [fst] in Hr |- *. rewrite set_insert_step. apply new_in_cons in Hr as [Hr1 Hr2].
    rewrite bool_decide_false by done. destruct o as [p|]; cbn [fst snd] in Hitem.
    + destruct Hitem as (Hfile & Hp & Hl & Hurl). rewrite bool_decide_false by done. rewrite Hp. cbn [mbind result_bind].
      rewrite bool_decide_false by (by intros ?). rewrite Hurl. cbn [mbind result_bind].
      rewrite bool_decide_false by (by intros ?). rewrite cargo_package in *. rewrite map_insert_step by done.
      apply new_keys_cons in Hk as [-> Hk]. cbn [is_some]. apply IH. by exists items'.
    + destruct Hitem as [Hfile Hname]. rewrite bool_decide_true by done.
      destruct (text c (lit "name")) as [name|]; [|done]. cbn [mbind result_bind]. apply IH. by exists items'.
Qed.

Lemma collect_edges_ok references reference values edges edges' :
  collect_edges references reference values edges = Ok edges' <->
  exists es, Forall2 edge_ok values es /\ new_in es edges /\ Forall (fun e => e ∈ references /\ e <> reference) es /\
    edges' = list_to_set es ∪ edges.
Proof.
  revert edges edges'. induction values as [|v values IH]; intros edges edges'; cbn [collect_edges].
  { split.
    - intros [= <-]. exists []. cbn. rewrite (left_id_L ∅ (∪)). split_and!; try done; split; [constructor|by intros ? ?%elem_of_nil].
    - intros (es & Hf & _ & _ & ->). apply Forall2_nil_inv_l in Hf as ->. cbn. by rewrite (left_id_L ∅ (∪)). }
  rewrite bind_ok. setoid_rewrite ok_or_ok. split.
  - intros (e & (t & Ht & He)%bind_Some & Hrest). destruct (printable t) eqn:Ep; [|done]. injection He as ->.
    destruct (_ || _) eqn:Eb; [done|]. rewrite !orb_false_iff, !bool_decide_eq_false in Eb. destruct Eb as [[Hin Hne] Hnew].
    apply dec_stable in Hin. apply IH in Hrest as (es & Hf & Hn & Ha & ->). exists (e :: es).
    rewrite new_in_cons, set_insert_step. split_and!; try done; by constructor.
  - intros (es & Hf & Hn & Ha & ->). apply Forall2_cons_inv_l in Hf as (e & es' & [He Hp] & Hf & ->).
    apply new_in_cons in Hn as [Hnew Hn]. apply Forall_cons in Ha as [[Hin Hne] Ha]. exists e. split.
    { apply bind_Some. exists e. by rewrite Hp. }
    rewrite !bool_decide_false by (done || by intros ?). cbn [orb]. rewrite set_insert_step. apply IH. by exists es'.
Qed.

Definition graph_of (nodes : list (str * list str)) : list (str * gset str) :=
  (fun node => (node.1, list_to_set node.2)) <$> nodes.

Definition node_edges_ok (references : gset str) (node : str * list str) : Prop :=
  node.1 ∈ references /\ NoDup node.2 /\ Forall (fun e => e ∈ references /\ e <> node.1) node.2.

Lemma collect_graph_ok references dependencies graph graph' :
  collect_graph references dependencies graph = Ok graph' <->
  exists nodes, Forall2 node_ok dependencies nodes /\ new_keys (graph_of nodes) graph /\
    Forall (node_edges_ok references) nodes /\ graph' = list_to_map (graph_of nodes) ∪ graph.
Proof.
  revert graph graph'. induction dependencies as [|d dependencies IH]; intros graph graph'; cbn [collect_graph].
  { split.
    - intros [= <-]. exists []. cbn. rewrite (left_id_L ∅ (∪)). split_and!; try done; split; [constructor|by intros ? ?%elem_of_nil].
    - intros (nodes & Hf & _ & _ & ->). apply Forall2_nil_inv_l in Hf as ->. cbn. by rewrite (left_id_L ∅ (∪)). }
  rewrite bind_ok. split.
  - intros (reference & Href & Hrest). case_bool_decide as Hin; [done|].
    apply bind_ok in Hrest as (values & Hv & (edges & He & Hrest)%bind_ok).
    apply collect_edges_ok in He as (es & Hes & [Hnd _] & Ha & ->). rewrite (right_id_L ∅ (∪)) in Hrest.
    destruct (graph !! reference) eqn:Eg; [done|]. cbn [is_some] in Hrest.
    apply IH in Hrest as (nodes & Hf & Hk & Hn & ->). exists ((reference, es) :: nodes).
    assert (new_keys (graph_of ((reference, es) :: nodes)) graph) as Hkeys by (by apply new_keys_cons).
    split_and!; try done.
    + constructor; [|done]. split; [done|]. by exists values.
    + by constructor.
    + symmetry. by apply map_insert_step.
  - intros (nodes & Hf & Hk & Hn & ->). apply Forall2_cons_inv_l in Hf as ([r es] & nodes' & (Hr & values & Hv & Hes) & Hf & ->).
    apply Forall_cons in Hn as [(Hin & Hnd & Ha) Hn]. cbn [fst snd] in *. exists r. split; [done|].
    rewrite bool_decide_false by (by intros ?). rewrite Hv. cbn [mbind result_bind].
    rewrite (proj2 (collect_edges_ok references r values ∅ (list_to_set es))).
    2:{ exists es. rewrite (right_id_L ∅ (∪)). by split_and!. }
    cbn [mbind result_bind]. change (graph_of ((r, es) :: nodes')) with ((r, list_to_set es : gset str) :: graph_of nodes') in *.
    rewrite map_insert_step by done. apply new_keys_cons in Hk as [-> Hk]. cbn [is_some]. apply IH. by exists nodes'.
Qed.

Lemma check_direct_ok by_package edges direct u :
  check_direct by_package edges direct = Ok u <-> Forall (fun p => exists r, by_package !! p = Some r /\ r ∈ edges) direct.
Proof.
  induction direct as [|p direct IH]; cbn [check_direct]; [by destruct u|]. rewrite bind_ok, Forall_cons, <- IH.
  setoid_rewrite ok_or_ok. split.
  - intros (r & Hr & Hrest). case_bool_decide as He; [done|]. split; [|done]. by exists r.
  - intros [(r & Hr & He) Hrest]. exists r. split; [done|]. by rewrite bool_decide_false by (by intros ?).
Qed.

(** ** The verdict *)

Definition injective_refs (m : gmap Package str) : Prop := forall p q r, m !! p = Some r -> m !! q = Some r -> p = q.

(** A set of the right size that has every expected reference has no other. *)
Lemma direct_edges (m : gmap Package str) (edges : gset str) (direct : gset Package) :
  injective_refs m ->
  size edges = size direct /\ (forall p, p ∈ direct -> exists r, m !! p = Some r /\ r ∈ edges) <->
  (forall p, p ∈ direct -> exists r, m !! p = Some r) /\
  (forall r, r ∈ edges <-> exists p, p ∈ direct /\ m !! p = Some r).
Proof.
  intros Hinj. set (refs := (fun p => default [] (m !! p)) <$> elements direct).
  assert ((forall p, p ∈ direct -> exists r, m !! p = Some r) ->
    size (list_to_set refs : gset str) = size direct /\
    forall r, r ∈ (list_to_set refs : gset str) <-> exists p, p ∈ direct /\ m !! p = Some r) as Himage.
  { intros Hall. split.
    - rewrite size_list_to_set; [by unfold refs; rewrite length_fmap|]. apply NoDup_fmap_2_strong; [|apply NoDup_elements].
      intros p q [rp Hp]%elem_of_elements%Hall [rq Hq]%elem_of_elements%Hall. rewrite Hp, Hq. cbn. intros ->. by eapply Hinj.
    - intros r. rewrite elem_of_list_to_set. unfold refs. rewrite list_elem_of_fmap. split.
      + intros (p & -> & Hp%elem_of_elements). exists p. split; [done|]. by destruct (Hall p Hp) as [r ->].
      + intros (p & Hp & Hr). exists p. rewrite Hr. by rewrite elem_of_elements. }
  split.
  - intros [Hsize Hall]. assert (forall p, p ∈ direct -> exists r, m !! p = Some r) as Hsome by (intros p (r & ? & _)%Hall; by exists r).
    split; [done|]. destruct (Himage Hsome) as [Hcount Hin].
    assert ((list_to_set refs : gset str) = edges) as <-; [|done].
    apply set_subseteq_size_eq; [|lia]. intros r (p & Hp & Hr)%Hin. destruct (Hall p Hp) as (r' & Hr' & ?). by simplify_eq.
  - intros [Hsome Hedges]. destruct (Himage Hsome) as [Hcount Hin].
    assert ((list_to_set refs : gset str) = edges) as <- by (apply set_eq; intros r; by rewrite Hin, Hedges). split; [done|].
    intros p Hp. destruct (Hsome p Hp) as [r Hr]. exists r. split; [done|]. apply Hin. by exists p.
Qed.

Lemma cargo_lookup items : NoDup items.*1 -> NoDup (cargo items).*1 ->
  let m := list_to_map (cargo items) : gmap Package str in
  (forall p r, m !! p = Some r <-> (p, r) ∈ cargo items) /\ injective_refs m /\ size m = length (cargo items).
Proof.
  intros Hr Hp m. assert (forall p r, m !! p = Some r <-> (p, r) ∈ cargo items) as Hm.
  { intros p r. symmetry. by apply elem_of_list_to_map. }
  split; [done|]. split; [|by apply map_size_list_to_map].
  intros p q r Hpr%Hm Hqr%Hm. pose proof (cargo_nodup_refs items Hr) as Hnd.
  apply list_elem_of_lookup in Hpr as [i Hi]. apply list_elem_of_lookup in Hqr as [j Hj].
  assert (i = j) as ->. { eapply NoDup_lookup; [exact Hnd| |]; by rewrite list_lookup_fmap, ?Hi, ?Hj. }
  congruence.
Qed.

Lemma graph_lookup (nodes : list (str * list str)) (r : str) (edges : gset str) : NoDup nodes.*1 ->
  (list_to_map (graph_of nodes) : gmap str (gset str)) !! r = Some edges <-> exists es, (r, es) ∈ nodes /\ edges = list_to_set es.
Proof.
  intros Hnd. rewrite <- elem_of_list_to_map.
  - unfold graph_of. rewrite list_elem_of_fmap. split.
    + intros ([r' es] & [= -> ->] & Hin). by exists es.
    + intros (es & Hin & ->). by exists (r, es).
  - unfold graph_of. by rewrite <- list_fmap_compose.
Qed.

Lemma graph_keys nodes : (graph_of nodes).*1 = nodes.*1.
Proof. unfold graph_of. by rewrite <- list_fmap_compose. Qed.

Lemma new_keys_empty {K A} `{Countable K} (l : list (K * A)) : new_keys l ∅ <-> NoDup l.*1.
Proof. unfold new_keys. split; [by intros [? _]|]. intros Hl. split; [done|]. intros k _. apply lookup_empty. Qed.

Lemma new_in_empty l : new_in l ∅ <-> NoDup l.
Proof. unfold new_in. split; [by intros [? _]|]. intros Hl. split; [done|]. intros k _. apply not_elem_of_empty. Qed.

Lemma btree_packages_in s p : p ∈ btree_packages s <-> p ∈ s.
Proof. unfold btree_packages. by rewrite merge_sort_Permutation, elem_of_elements. Qed.

(** The part of [validate] after the two loops. *)
Lemma root_check_ok (items : list (str * option Package)) (nodes : list (str * list str)) expected n :
  NoDup items.*1 -> NoDup (cargo items).*1 -> NoDup nodes.*1 ->
  let m := list_to_map (cargo items) : gmap Package str in
  (exists root_ref edges, m !! iv_root expected = Some root_ref /\
     (list_to_map (graph_of nodes) : gmap str (gset str)) !! root_ref = Some edges /\
     size edges = size (iv_direct expected) /\
     check_direct m edges (btree_packages (iv_direct expected)) = Ok tt /\ n = size m) <->
  (exists root_ref edges, n = length (cargo items) /\ (iv_root expected, root_ref) ∈ cargo items /\ (root_ref, edges) ∈ nodes /\
    (forall p, p ∈ iv_direct expected -> exists r, (p, r) ∈ cargo items) /\
    (forall r, r ∈ edges <-> exists p, p ∈ iv_direct expected /\ (p, r) ∈ cargo items)).
Proof.
  intros Hr Hp Hn m. destruct (cargo_lookup items Hr Hp) as (Hm & Hinj & Hsize). fold m in Hm, Hinj, Hsize.
  assert (forall edges : gset str, check_direct m edges (btree_packages (iv_direct expected)) = Ok tt <->
    forall p, p ∈ iv_direct expected -> exists r, m !! p = Some r /\ r ∈ edges) as Hcheck.
  { intros edges. rewrite check_direct_ok, Forall_forall. by setoid_rewrite btree_packages_in. }
  pose proof (fun edges => direct_edges m edges (iv_direct expected) Hinj) as Hedges. setoid_rewrite Hm in Hedges.
  split.
  - intros (root_ref & edges & Hroot%Hm & (es & Hin & ->)%graph_lookup & Hs & Hc & ->); [|done]. pose proof (proj1 (Hcheck _) Hc) as Hc'.
    setoid_rewrite Hm in Hc'. destruct (proj1 (Hedges _) (conj Hs Hc')) as [H1 H2]. exists root_ref, es.
    split_and!; try done. intros r. by rewrite <- H2, elem_of_list_to_set.
  - intros (root_ref & es & -> & Hroot%Hm & Hin & H1 & H2). exists root_ref, (list_to_set es).
    destruct (proj2 (Hedges (list_to_set es))) as [Hs Hc]; [split; [done|]; intros r; by rewrite elem_of_list_to_set|].
    split_and!; try done; [apply graph_lookup; [done|by exists es]|]. apply Hcheck. by setoid_rewrite Hm.
Qed.

Lemma validate_sound document expected n : validate document expected = Ok n -> bill_ok document expected n.
Proof.
  unfold validate. rewrite bind_ok. intros (format & Hformat & Hrest). case_bool_decide as H1; [done|]. subst format.
  apply bind_ok in Hrest as (version & Hversion & Hrest). case_bool_decide as H2; [done|]. subst version.
  destruct (is_some_and _ _) eqn:Hv; [|done]. cbn [negb] in Hrest.
  apply bind_ok in Hrest as (components & Hcomponents & Hrest). destruct (Nat.ltb_spec (length components) 2); [done|].
  apply bind_ok in Hrest as ([references by_package] & Hcollect & Hrest).
  apply collect_components_ok in Hcollect as (items & Hf & Hr%new_in_empty & Hp%new_keys_empty & -> & ->).
  rewrite !(right_id_L ∅ (∪)) in Hrest.
  apply bind_ok in Hrest as (root_ref & Hroot%ok_or_ok & (dependencies & Hdeps & (graph & Hgraph & Hrest)%bind_ok)%bind_ok).
  apply collect_graph_ok in Hgraph as (nodes & Hnf & Hnk%new_keys_empty & Hne & ->). rewrite (right_id_L ∅ (∪)) in Hrest.
  rewrite graph_keys in Hnk. apply bind_ok in Hrest as (edges & Hedges%ok_or_ok & Hrest).
  destruct (Nat.eqb_spec (size edges) (size (iv_direct expected))) as [Hs|]; [|done]. cbn [negb] in Hrest.
  apply bind_ok in Hrest as ([] & Hcheck & [= <-]).
  destruct (proj1 (root_check_ok items nodes expected (size (list_to_map (cargo items) : gmap Package str)) Hr Hp Hnk))
    as (root_ref' & es & Hlen & Hr1 & Hr2 & Hr3 & Hr4); [by exists root_ref, edges|].
  split; try done.
  - destruct (_ ≫= jv_u64) as [v|]; [|done]. exists v. split; [done|]. cbn in Hv. by apply negb_true_iff, Z.eqb_neq in Hv.
  - exists components, items, dependencies, nodes, root_ref', es. split_and!; try done.
    eapply Forall_impl; [exact Hne|]. intros node (Hin & Hd & Ha). rewrite elem_of_list_to_set in Hin. split_and!; try done.
    eapply Forall_impl; [exact Ha|]. cbn. intros e. by rewrite elem_of_list_to_set.
Qed.

Lemma validate_complete document expected n : bill_ok document expected n -> validate document expected = Ok n.
Proof.
  intros [Hformat Hversion (v & Hv & Hv0)
    (components & items & dependencies & nodes & root_ref & es & Hc & Hlen & Hf & Hr & Hp & Hn & Hd & Hnf & Hnk & Hne & Hroot)].
  unfold validate. rewrite Hformat. cbn [mbind result_bind]. rewrite bool_decide_false by (by intros ?). rewrite Hversion. cbn [mbind result_bind].
  rewrite bool_decide_false by (by intros ?). rewrite Hv. cbn [is_some_and]. rewrite (proj2 (Z.eqb_neq _ _)) by done. cbn [negb].
  rewrite Hc. cbn [mbind result_bind]. destruct (Nat.ltb_spec (length components) 2); [lia|].
  rewrite (proj2 (collect_components_ok expected components ∅ ∅ (list_to_set items.*1) (list_to_map (cargo items)))).
  2:{ exists items. rewrite !(right_id_L ∅ (∪)), new_in_empty, new_keys_empty. by split_and!. }
  cbn [mbind result_bind].
  destruct (proj2 (root_check_ok items nodes expected n Hr Hp Hnk)) as (root_ref' & edges & Hl & Hg & Hs & Hchk & ->);
    [by exists root_ref, es|].
  rewrite Hl. cbn [ok_or mbind result_bind]. rewrite Hd. cbn [mbind result_bind].
  rewrite (proj2 (collect_graph_ok (list_to_set items.*1) dependencies ∅ (list_to_map (graph_of nodes)))).
  2:{ exists nodes. rewrite (right_id_L ∅ (∪)), new_keys_empty, graph_keys. split_and!; try done.
      eapply Forall_impl; [exact Hne|]. intros node (Hin & Hdup & Ha). unfold node_edges_ok. rewrite elem_of_list_to_set. split_and!; try done.
      eapply Forall_impl; [exact Ha|]. cbn. intros e. by rewrite elem_of_list_to_set. }
  cbn [mbind result_bind]. rewrite Hg. cbn [ok_or mbind result_bind]. rewrite (proj2 (Nat.eqb_eq _ _) Hs). cbn [negb].
  by rewrite Hchk.
Qed.

Lemma validate_bill document expected n : validate document expected = Ok n <-> bill_ok document expected n.
Proof. split; [apply validate_sound|apply validate_complete]. Qed.

(** ** What cargo resolves *)

Definition entry_ok (value : Value) (entry : str * Package) : Prop :=
  text value (lit "id") = Ok entry.1 /\ package value = Ok entry.2.

(** The packages that have the name of the program. *)
Definition roots (entries : list (str * Package)) : list (str * Package) :=
  List.filter (fun entry => bool_decide (pk_name entry.2 = lit "atx")) entries.

Definition is_runtime (kind : Value) : bool := is_some_and (jv_get kind (lit "kind")) jv_is_null.
Definition kind_ok (kind : Value) : Prop := exists value, jv_get kind (lit "kind") = Some value /\
  (jv_is_null value = true \/ jv_is_null value = false /\ (jv_str value = Some (lit "dev") \/ jv_str value = Some (lit "build"))).

(** A dependency of the root: the package, when some use of it is at run time. *)
Definition dependency_ok (packages : gmap str Package) (dependency : Value) (o : option Package) : Prop :=
  exists kinds, array dependency (lit "dep_kinds") = Ok kinds /\ kinds <> [] /\ Forall kind_ok kinds /\
  match o with
  | None => existsb is_runtime kinds = false
  | Some p => existsb is_runtime kinds = true /\ exists id, text dependency (lit "pkg") = Ok id /\ packages !! id = Some p
  end.

Definition node_named (root_id : str) (node : Value) : bool := bool_decide (text node (lit "id") = Ok root_id).

Record inventory_ok (metadata : Value) (inventory : Inventory) : Prop := mk_inventory_ok {
  in_content : exists values entries root_id resolve nodes node deps choices,
    (** the packages, under distinct ids; one has the name of the program *)
    array metadata (lit "packages") = Ok values /\ Forall2 entry_ok values entries /\ NoDup entries.*1 /\
    roots entries = [(root_id, iv_root inventory)] /\ iv_locked inventory = list_to_set entries.*2 /\
    (** its node in the graph, and the dependencies that are used at run time *)
    jv_get metadata (lit "resolve") = Some resolve /\ array resolve (lit "nodes") = Ok nodes /\
    Forall (fun node => is_ok (text node (lit "id")) = true) nodes /\
    List.filter (node_named root_id) nodes = [node] /\ array node (lit "deps") = Ok deps /\
    Forall2 (dependency_ok (list_to_map entries)) deps choices /\
    iv_direct inventory = list_to_set (omap id choices) /\ iv_direct inventory <> ∅
}.

Lemma collect_packages_ok values packages root packages' root' :
  collect_packages values packages root = Ok (packages', root') <->
  exists entries, Forall2 entry_ok values entries /\ new_keys entries packages /\
    (length (option_list root ++ roots entries) <= 1)%nat /\ root' = head (option_list root ++ roots entries) /\
    packages' = list_to_map entries ∪ packages.
Proof.
  revert packages root packages' root'. induction values as [|v values IH]; intros packages root packages' root'; cbn [collect_packages].
  { split.
    - intros [= <- <-]. exists []. cbn. rewrite (left_id_L ∅ (∪)), app_nil_r. split_and!; try done; [split; [constructor|by intros ? ?%elem_of_nil]|..];
        destruct root; cbn; (lia || done).
    - intros (entries & Hf & _ & Hl & -> & ->). apply Forall2_nil_inv_l in Hf as ->. cbn in *. rewrite (left_id_L ∅ (∪)), app_nil_r. by destruct root. }
  rewrite bind_ok. setoid_rewrite bind_ok. split.
  - intros (id & Hid & p & Hp & Hrest). destruct (_ && is_some root) eqn:Eb; [done|]. destruct (packages !! id) eqn:El; [done|].
    cbn [is_some] in Hrest. apply IH in Hrest as (entries & Hf & Hk & Hlen & -> & ->). exists ((id, p) :: entries).
    assert (new_keys ((id, p) :: entries) packages) as Hkeys by (by apply new_keys_cons).
    rewrite map_insert_step by done. unfold roots in *. cbn [List.filter snd]. case_bool_decide as Hn; cbn [andb] in Eb.
    + destruct root; [done|]. split_and!; try done. by constructor.
    + split_and!; try done. by constructor.
  - intros (entries & Hf & Hk & Hlen & -> & ->). apply Forall2_cons_inv_l in Hf as ([id p] & entries' & [Hid Hp] & Hf & ->).
    cbn [fst snd] in Hid, Hp. exists id. split; [done|]. exists p. split; [done|]. rewrite map_insert_step by done.
    apply new_keys_cons in Hk as [-> Hk]. cbn [is_some]. unfold roots in *. cbn [List.filter snd] in *.
    case_bool_decide as Hn; cbn [andb].
    + destruct root as [e|]; [cbn in Hlen; lia|]. cbn [is_some]. apply IH. by exists entries'.
    + apply IH. by exists entries'.
Qed.

Lemma runtime_kind_ok kinds b r :
  runtime_kind kinds b = Ok r <-> Forall kind_ok kinds /\ r = b || existsb is_runtime kinds.
Proof.
  revert b. induction kinds as [|k kinds IH]; intros b; cbn [runtime_kind existsb].
  { rewrite orb_false_r. split; [by intros [= ->]|by intros [_ ->]]. }
  unfold is_runtime at 1. rewrite Forall_cons. unfold kind_ok at 1. destruct (jv_get k (lit "kind")) as [v|]; cbn [is_some_and].
  2:{ split; [done|]. by intros [[(? & ? & _) _] _]. }
  destruct (jv_is_null v) eqn:En.
  - rewrite IH, orb_true_l, orb_true_r. cbn [orb]. split.
    + intros [Hf ->]. split_and!; try done. exists v. split; [done|]. by left.
    + by intros [[_ ?] ->].
  - cbn [orb]. destruct (jv_str v) as [s|] eqn:Es.
    2:{ split; [done|]. intros [[(? & [= <-] & [?|(_ & [?|?])]) _] _]; congruence. }
    destruct (bool_decide (s = lit "dev") || bool_decide (s = lit "build")) eqn:Eb.
    + rewrite IH. apply orb_true_iff in Eb as Ed. rewrite !bool_decide_eq_true in Ed. split; [|by intros [[_ ?] ->]].
      intros [Hf ->]. split_and!; try done. exists v. split; [done|]. right. rewrite Es. split; [done|].
      destruct Ed as [-> | ->]; [by left|by right].
    + apply orb_false_iff in Eb. rewrite !bool_decide_eq_false in Eb. split; [done|].
      intros [[(v' & [= <-] & [?|(_ & [Hs|Hs])]) _] _]; [congruence|..]; rewrite Es in Hs; injection Hs as ->; by destruct Eb.
Qed.

Lemma collect_direct_ok packages deps direct direct' :
  collect_direct packages deps direct = Ok direct' <->
  exists choices, Forall2 (dependency_ok packages) deps choices /\ direct' = list_to_set (omap id choices) ∪ direct.
Proof.
  revert direct direct'. induction deps as [|d deps IH]; intros direct direct'; cbn [collect_direct].
  { split.
    - intros [= <-]. exists []. cbn. by rewrite (left_id_L ∅ (∪)).
    - intros (choices & Hf & ->). apply Forall2_nil_inv_l in Hf as ->. cbn. by rewrite (left_id_L ∅ (∪)). }
  rewrite bind_ok. split.
  - intros (kinds & Hk & Hrest). destruct kinds as [|k kinds]; [done|]. cbn [is_empty] in Hrest.
    apply bind_ok in Hrest as ([] & [Hkinds Hr]%runtime_kind_ok & Hrest); cbn [orb] in Hr.
    + apply bind_ok in Hrest as (id & Hid & (p & Hp%ok_or_ok & Hrest)%bind_ok). apply IH in Hrest as (choices & Hf & ->).
      exists (Some p :: choices). split.
      { constructor; [|done]. exists (k :: kinds). split; [done|]. split; [done|]. split; [done|]. split; [done|]. by exists id. }
      symmetry. apply (set_insert_step p).
    + apply IH in Hrest as (choices & Hf & ->). exists (None :: choices). split; [|done].
      constructor; [|done]. exists (k :: kinds). split; [done|]. split; [done|]. by split.
  - intros (choices & Hf & ->). apply Forall2_cons_inv_l in Hf as (o & choices' & (kinds & Hk & Hne & Hkinds & Ho) & Hf & ->).
    exists kinds. split; [done|]. destruct kinds as [|k kinds]; [done|]. cbn [is_empty].
    rewrite (proj2 (runtime_kind_ok (k :: kinds) false (existsb is_runtime (k :: kinds)))) by done. cbn [mbind result_bind].
    destruct o as [p|].
    + destruct Ho as (-> & id & Hid & Hp). rewrite Hid. cbn [mbind result_bind]. rewrite Hp. cbn [ok_or mbind result_bind].
      apply IH. exists choices'. split; [done|]. apply (set_insert_step p).
    + rewrite Ho. apply IH. by exists choices'.
Qed.

Lemma collect_nodes_ok packages root_id nodes found direct direct' :
  collect_nodes packages root_id nodes found direct = Ok (true, direct') <->
  Forall (fun node => is_ok (text node (lit "id")) = true) nodes /\
  if found then List.filter (node_named root_id) nodes = [] /\ direct' = direct
  else exists node deps, List.filter (node_named root_id) nodes = [node] /\ array node (lit "deps") = Ok deps /\
    collect_direct packages deps direct = Ok direct'.
Proof.
  revert found direct. induction nodes as [|node nodes IH]; intros found direct; cbn [collect_nodes List.filter].
  { destruct found; split; [intros [= ->]; split; [constructor|done]|intros [_ [_ ->]]; done|intros [=]|by intros (_ & ? & ? & ? & _)]. }
  rewrite Forall_cons. destruct (text node (lit "id")) as [id|] eqn:Eid; cbn [mbind result_bind is_ok].
  2:{ split; [done|]. by intros [[? _] _]. }
  destruct (decide (id = root_id)) as [->|Hne].
  - assert (node_named root_id node = true) as -> by (apply bool_decide_eq_true; done).
    rewrite bool_decide_false by (by intros []).
    destruct found; [split; [done|]; by intros (_ & ? & _)|]. rewrite bind_ok. split.
    + intros (deps & Hd & (direct1 & Hc & Hrest)%bind_ok). apply IH in Hrest as (Hf & Hnil & ->). split; [done|].
      exists node, deps. by rewrite Hnil.
    + intros ([_ Hf] & node' & deps & [= <- Hnil] & Hd & Hc). exists deps. split; [done|]. rewrite Hc. cbn [mbind result_bind].
      by apply IH.
  - assert (node_named root_id node = false) as -> by (apply bool_decide_eq_false; congruence).
    rewrite bool_decide_true by done. rewrite IH. split; intros [Hf Hrest]; [|destruct Hf]; done.
Qed.

Lemma roots_in entries : forall e, e ∈ roots entries -> e ∈ entries.
Proof. intros e He. apply list_elem_of_In in He. apply List.filter_In in He as [? _]. by apply list_elem_of_In. Qed.

Lemma expected_inventory_ok metadata inventory : expected_inventory metadata = Ok inventory <-> inventory_ok metadata inventory.
Proof.
  unfold expected_inventory. rewrite bind_ok. setoid_rewrite bind_ok. split.
  - intros (values & Hv & [packages root] & Hc & Hrest). apply collect_packages_ok in Hc as (entries & Hf & Hk%new_keys_empty & Hlen & -> & ->).
    rewrite (right_id_L ∅ (∪)) in Hrest. cbn [option_list app] in *.
    apply bind_ok in Hrest as ([root_id root] & Hroot%ok_or_ok & (resolve & Hres%ok_or_ok & (nodes & Hnodes & ([found direct] & Hcn & Hrest)%bind_ok)%bind_ok)%bind_ok).
    destruct found; [|done]. case_bool_decide as Hne; [done|]. cbn in Hrest. injection Hrest as <-.
    apply collect_nodes_ok in Hcn as (Hids & node & deps & Hnode & Hdeps & Hd). apply collect_direct_ok in Hd as (choices & Hch & ->).
    rewrite (right_id_L ∅ (∪)) in *. split. exists values, entries, root_id, resolve, nodes, node, deps, choices.
    cbn [iv_root iv_direct iv_locked]. split_and!; try done.
    + destruct (roots entries) as [|e [|]]; [done| |cbn in Hlen; lia]. by injection Hroot as ->.
    + apply set_eq. intros p. rewrite !elem_of_list_to_set. rewrite !list_elem_of_fmap. by setoid_rewrite (map_to_list_to_map entries Hk).
  - intros [(values & entries & root_id & resolve & nodes & node & deps & choices & Hv & Hf & Hk & Hroot & Hl & Hres & Hnodes & Hids & Hnode & Hdeps & Hch & Hd & Hne)].
    exists values. split; [done|]. exists (list_to_map entries, Some (root_id, iv_root inventory)). split.
    { apply collect_packages_ok. exists entries. rewrite (right_id_L ∅ (∪)), new_keys_empty, Hroot. by split_and!. }
    cbn [ok_or mbind result_bind]. rewrite Hres. cbn [ok_or mbind result_bind]. rewrite Hnodes. cbn [mbind result_bind].
    rewrite (proj2 (collect_nodes_ok _ root_id nodes false ∅ (iv_direct inventory))).
    2:{ split; [done|]. exists node, deps. split_and!; try done. apply collect_direct_ok. exists choices. by rewrite (right_id_L ∅ (∪)). }
    cbn [mbind result_bind negb orb]. rewrite bool_decide_false by done. f_equal. destruct inventory as [r d l]. cbn in *. f_equal.
    rewrite Hl. apply set_eq. intros p. rewrite !elem_of_list_to_set. rewrite !list_elem_of_fmap. by setoid_rewrite (map_to_list_to_map entries Hk).
Qed.
End Sbom.
