(* ===== verification/Tasks.v ===== *)
(** The build tasks ([xtask/src/main.rs], and the gate of [sbom.rs] around
    [Sbom]): the check of a release document, the search for the executable
    that cargo has built, the manual pages and the command line.

    What cargo, the built program and the files answer are arguments. *)

From S2P Require Import Prelude Text Lossy Sbom.

(** [std::process::Output]; [out_status] is the text of the exit status. *)
Record Output := mk_output { out_success : bool; out_status : str; out_stdout : str; out_stderr : str }.

Definition MAX_DOCUMENT_BYTES : Z := 16 * 1024 * 1024.

(** A file: its opening, its metadata, and the bytes that reading it up to a
    limit gives. *)
Record JsonFile := mk_json_file {
  jf_open : result str unit;
  jf_is_file : result str bool;
  jf_take : Z -> result str str
}.

Section Tasks.
Context {J : JsonValue}.

(** ** The check of a release document *)

Definition read_json (path : str) (file : JsonFile) : result str Value :=
  let shown := from_utf8_lossy path in
  _ ← map_err (fun error => lit "open " ++ shown ++ lit ": " ++ error) (jf_open file);
  is_file ← jf_is_file file;
  if negb is_file then Err (lit "not a regular JSON file: " ++ shown) else
  bytes ← jf_take file (MAX_DOCUMENT_BYTES + 1);
  if MAX_DOCUMENT_BYTES <? len bytes then Err (lit "JSON document exceeds the 16 MiB gate limit") else
  map_err (fun error => lit "parse " ++ shown ++ lit ": " ++ error) (jv_parse bytes).

Definition release_targets : list str :=
  [lit "aarch64-apple-darwin"; lit "x86_64-apple-darwin"; lit "x86_64-unknown-linux-gnu"; lit "x86_64-unknown-linux-musl";
   lit "aarch64-unknown-linux-gnu"; lit "aarch64-unknown-linux-musl"].

Definition metadata_args (target : str) : list str :=
  [lit "metadata"; lit "--locked"; lit "--format-version"; lit "1"; lit "--filter-platform"; target].

(** [cargo]: the command with its arguments, in a directory. *)
Definition check (workspace_root : result str str) (cargo : list str -> str -> result str Output) (path : str) (file : JsonFile)
  (target : str) : result str nat :=
  if bool_decide (target ∉ release_targets) then Err (lit "unsupported release target: " ++ target) else
  root ← workspace_root;
  output ← map_err (fun error => lit "cargo metadata: " ++ error) (cargo (metadata_args target) root);
  if negb (out_success output) then Err (lit "cargo metadata failed: " ++ from_utf8_lossy (out_stderr output)) else
  metadata ← jv_parse (out_stdout output);
  document ← read_json path file;
  expected ← expected_inventory metadata;
  validate document expected.

(** ** The executable that cargo has built *)

(** The body of the loop over the messages: [None] for [continue]. *)
Definition artifact_of_message (message : Value) : result str (option str) :=
  reason ← ok_or (jv_get message (lit "reason") ≫= jv_str) (lit "Cargo build message has no reason");
  if bool_decide (reason <> lit "compiler-artifact") then Ok None else
  target ← ok_or (t ← jv_get message (lit "target"); if jv_is_object t then Some t else None) (lit "Cargo artifact has no target");
  name ← ok_or (jv_get target (lit "name") ≫= jv_str) (lit "Cargo artifact has no target name");
  if bool_decide (name <> lit "atx") then Ok None else
  kinds ← ok_or (jv_get target (lit "kind") ≫= jv_array) (lit "Cargo artifact has no target kinds");
  if existsb (fun kind => negb (is_some (jv_str kind))) kinds then Err (lit "Cargo target kinds must be strings") else
  if negb (existsb (fun kind => bool_decide (jv_str kind = Some (lit "bin"))) kinds) then Ok None else
  value ← ok_or (jv_get message (lit "executable") ≫= jv_str) (lit "Cargo did not report the atx executable");
  if negb (is_absolute value) || contains_nul value then Err (lit "Cargo reported an invalid executable path") else
  Ok (Some value).

Fixpoint artifact_loop (messages : list str) (executable : option str) : result str (option str) :=
  match messages with
  | [] => Ok executable
  | line :: messages =>
    message ← map_err (fun error => lit "invalid Cargo build message: " ++ error) (jv_parse line);
    found ← artifact_of_message message;
    match found with
    | None => artifact_loop messages executable
    | Some path =>
      if is_some executable then Err (lit "Cargo reported multiple atx executables") else artifact_loop messages (Some path)
    end
  end.

(** [utf8_error]: the text of the error of [std::str::from_utf8]. *)
Definition artifact_executable (utf8_error : str -> str) (output : str) : result str str :=
  if negb (valid_utf8 output) then Err (lit "Cargo output is not UTF-8: " ++ utf8_error output) else
  executable ← artifact_loop (List.filter (fun line => negb (is_empty line)) (lines output)) None;
  ok_or executable (lit "Cargo did not build an atx executable").

(** ** The manual pages *)

Record ManInput := mk_man_input {
  mn_root : result str str;
  mn_create_dir : str -> result str unit;
  (** [cargo build] with the feature [man], in a directory *)
  mn_build : str -> result str Output;
  mn_diagnostics : str -> result str unit;
  (** the program, started with [__man] and a directory *)
  mn_export : str -> str -> result str Output;
  mn_utf8_error : str -> str
}.

Definition dist_man (i : ManInput) : result str str :=
  root ← mn_root i;
  let out_dir := path_join (path_join root (lit "dist")) (lit "man") in
  _ ← map_err (fun error => lit "create " ++ from_utf8_lossy out_dir ++ lit ": " ++ error) (mn_create_dir i out_dir);
  build ← map_err (fun error => lit "cargo build: " ++ error) (mn_build i root);
  _ ← map_err (fun error => lit "write build diagnostics: " ++ error) (mn_diagnostics i (out_stderr build));
  if negb (out_success build) then Err (lit "cargo build --features man failed: " ++ out_status build) else
  atx ← artifact_executable (mn_utf8_error i) (out_stdout build);
  output ← map_err (fun error => lit "run " ++ atx ++ lit ": " ++ error) (mn_export i atx out_dir);
  if negb (out_success output)
  then Err (lit "atx __man failed (" ++ out_status output ++ lit "): " ++ from_utf8_lossy (out_stderr output)) else
  Ok (path_join out_dir (lit "atx.1")).

(** ** The command line *)

(** What a task prints, and its exit code. *)
Record Report := mk_report { rp_out : str; rp_err : str; rp_code : Z }.

Definition report (r : result str str) : Report :=
  match r with
  | Ok message => mk_report (message ++ [10]) [] 0
  | Err error => mk_report [] (lit "xtask: " ++ error ++ [10]) 1
  end.

(** [main], without the name of the program; [files] opens the document. *)
Definition main (man : ManInput) (cargo : list str -> str -> result str Output) (files : str -> JsonFile) (args : list str) : Report :=
  let usage := mk_report [] (lit "usage: cargo xtask dist-man | check-sbom FILE TARGET" ++ [10]) 2 in
  match args with
  | [task] => if bool_decide (task = lit "dist-man") then report (from_utf8_lossy <$> dist_man man) else usage
  | [task; path; target] =>
    if bool_decide (task = lit "check-sbom") then
      report (if valid_utf8 target
              then (fun count => lit "SBOM: " ++ show_dec (Z.of_nat count) ++ lit " locked runtime components verified")
                   <$> check (mn_root man) cargo path (files path) target
              else Err (lit "release target must be UTF-8"))
    else usage
  | _ => usage
  end.

(** ** Lemmas *)

Lemma read_json_ok path file document :
  read_json path file = Ok document <->
  jf_open file = Ok tt /\ jf_is_file file = Ok true /\
  exists bytes, jf_take file (MAX_DOCUMENT_BYTES + 1) = Ok bytes /\ len bytes <= MAX_DOCUMENT_BYTES /\ jv_parse bytes = Ok document.
Proof.
  unfold read_json. rewrite bind_ok. setoid_rewrite map_err_ok. split.
  - intros ([] & Ho & (is_file & Hf & Hrest)%bind_ok). destruct is_file; [|done]. cbn [negb] in Hrest.
    apply bind_ok in Hrest as (bytes & Hb & Hrest). destruct (Z.ltb_spec MAX_DOCUMENT_BYTES (len bytes)); [done|].
    apply map_err_ok in Hrest. split_and!; try done. by exists bytes.
  - intros (Ho & Hf & bytes & Hb & Hlen & Hp). exists tt. split; [done|]. rewrite Hf. cbn [mbind result_bind negb]. rewrite Hb.
    cbn [mbind result_bind]. rewrite (proj2 (Z.ltb_ge _ _)) by done. by apply map_err_ok.
Qed.

(** What one line of the output of cargo contributes. *)
Definition line_gives (line : str) (result : option str) : Prop :=
  exists message, jv_parse line = Ok message /\ artifact_of_message message = Ok result.

Lemma artifact_loop_ok messages executable found :
  artifact_loop messages executable = Ok found <->
  exists results, Forall2 line_gives messages results /\
    (length (option_list executable ++ omap id results) <= 1)%nat /\ found = head (option_list executable ++ omap id results).
Proof.
  revert executable. induction messages as [|line messages IH]; intros executable; cbn [artifact_loop].
  { split.
    - intros [= <-]. exists []. split_and!; [constructor|..]; destruct executable; cbn; (lia || done).
    - intros (results & Hf & _ & ->). apply Forall2_nil_inv_l in Hf as ->. by destruct executable. }
  rewrite bind_ok. split.
  - intros (message & Hp%map_err_ok & (result & Hm & Hrest)%bind_ok). destruct result as [path|].
    + destruct executable; [done|]. cbn [is_some] in Hrest. apply IH in Hrest as (results & Hf & Hl & ->).
      exists (Some path :: results). split_and!; try done. constructor; [by exists message|done].
    + apply IH in Hrest as (results & Hf & Hl & ->). exists (None :: results). split_and!; try done. constructor; [by exists message|done].
  - intros (results & Hf & Hl & ->). apply Forall2_cons_inv_l in Hf as (result & results' & (message & Hp & Hm) & Hf & ->).
    exists message. split; [by apply map_err_ok|]. rewrite Hm. cbn [mbind result_bind]. destruct result as [path|].
    + destruct executable as [e|]; [cbn in Hl; lia|]. cbn [is_some]. apply IH. by exists results'.
    + apply IH. by exists results'.
Qed.

(** A message about the executable of the program itself. *)
Definition announces (message : Value) (path : str) : Prop :=
  exists target kinds,
    jv_get message (lit "reason") ≫= jv_str = Some (lit "compiler-artifact") /\
    jv_get message (lit "target") = Some target /\ jv_is_object target = true /\
    jv_get target (lit "name") ≫= jv_str = Some (lit "atx") /\
    jv_get target (lit "kind") ≫= jv_array = Some kinds /\
    Forall (fun kind => is_some (jv_str kind) = true) kinds /\ Exists (fun kind => jv_str kind = Some (lit "bin")) kinds /\
    jv_get message (lit "executable") ≫= jv_str = Some path /\ is_absolute path = true /\ contains_nul path = false.

Lemma artifact_announced message path : artifact_of_message message = Ok (Some path) <-> announces message path.
Proof.
  unfold artifact_of_message, announces. rewrite bind_ok. setoid_rewrite ok_or_ok. split.
  - intros (reason & Hr & Hrest). case_bool_decide as H1; [done|]. subst reason.
    apply bind_ok in Hrest as (target & Ht%ok_or_ok & Hrest). apply bind_Some in Ht as (t & Ht & Hobj).
    destruct (jv_is_object t) eqn:Eo; [|done]. injection Hobj as ->.
    apply bind_ok in Hrest as (name & Hn%ok_or_ok & Hrest). case_bool_decide as H2; [done|]. subst name.
    apply bind_ok in Hrest as (kinds & Hk%ok_or_ok & Hrest). destruct (existsb _ kinds) eqn:Es; [done|].
    destruct (existsb (fun kind => bool_decide _) kinds) eqn:Eb; [|done]. cbn [negb] in Hrest.
    apply bind_ok in Hrest as (value & He%ok_or_ok & Hrest). destruct (negb (is_absolute value) || contains_nul value) eqn:Ep; [done|].
    injection Hrest as ->. apply orb_false_iff in Ep as [Ha%negb_false_iff Hnul].
    exists target, kinds. split_and!; try done.
    + apply Forall_forall. intros k Hin%list_elem_of_In. destruct (is_some (jv_str k)) eqn:E; [done|]. exfalso.
      revert Es. apply not_false_iff_true, existsb_exists. exists k. by rewrite E.
    + apply existsb_exists in Eb as (k & Hin%list_elem_of_In & Hb%bool_decide_eq_true). apply Exists_exists. by exists k.
  - intros (target & kinds & Hr & Ht & Ho & Hn & Hk & Hs & Hb & He & Ha & Hnul).
    exists (lit "compiler-artifact"). split; [done|]. rewrite bool_decide_false by (by intros ?). rewrite Ht. cbn [mbind option_bind]. rewrite Ho.
    cbn [ok_or mbind result_bind]. rewrite Hn. cbn [ok_or mbind result_bind]. rewrite bool_decide_false by (by intros ?).
    rewrite Hk. cbn [ok_or mbind result_bind].
    assert (existsb (fun kind => negb (is_some (jv_str kind))) kinds = false) as ->.
    { apply not_true_iff_false. intros (k & Hin%list_elem_of_In & Hneg)%existsb_exists. rewrite Forall_forall in Hs. by rewrite Hs in Hneg. }
    assert (existsb (fun kind => bool_decide (jv_str kind = Some (lit "bin"))) kinds = true) as ->.
    { apply Exists_exists in Hb as (k & Hin & Hkb). apply existsb_exists. exists k. split; [by apply list_elem_of_In|].
      by apply bool_decide_eq_true. }
    cbn [negb]. rewrite He. cbn [ok_or mbind result_bind]. by rewrite Ha, Hnul.
Qed.

Lemma artifact_executable_ok utf8_error output path :
  artifact_executable utf8_error output = Ok path <->
  valid_utf8 output = true /\
  exists results,
    Forall2 line_gives
      (List.filter (fun line => negb (is_empty line)) (lines output)) results /\
    omap id results = [path].
Proof.
  unfold artifact_executable. destruct (valid_utf8 output); cbn [negb]; [|by split; [|intros [? _]]].
  rewrite bind_ok. setoid_rewrite ok_or_ok. split.
  - intros (found & Hl & ->). apply artifact_loop_ok in Hl as (results & Hf & Hlen & Hhead). split; [done|].
    exists results. split; [done|]. cbn [option_list app] in *. destruct (omap id results) as [|p [|]]; [done|by simplify_eq/=|cbn in Hlen; lia].
  - intros (_ & results & Hf & Ho). exists (Some path). split; [|done]. apply artifact_loop_ok. exists results. cbn [option_list app].
    rewrite Ho. by split_and!.
Qed.

(** ** Properties *)

(** C29 (equivalence).  The release gate accepts a document with [count]
    packages exactly when: the target is a release target; cargo has resolved
    the checkout for it; the document is a regular file of at most 16 MiB; and
    it is a CycloneDX 1.6 bill whose components are files or distinct locked
    packages under their URLs, whose edges lead to its own components, and
    whose root is the program with exactly its run-time dependencies. *)
Theorem check_spec workspace_root cargo path file target count :
  check workspace_root cargo path file target = Ok count <->
  target ∈ release_targets /\
  exists root output metadata bytes document inventory,
    workspace_root = Ok root /\ cargo (metadata_args target) root = Ok output /\ out_success output = true /\
    jv_parse (out_stdout output) = Ok metadata /\ inventory_ok metadata inventory /\
    jf_open file = Ok tt /\ jf_is_file file = Ok true /\ jf_take file (MAX_DOCUMENT_BYTES + 1) = Ok bytes /\
    len bytes <= MAX_DOCUMENT_BYTES /\ jv_parse bytes = Ok document /\ bill_ok document inventory count.
Proof.
  unfold check. case_bool_decide as Ht; [by split; [|intros [? _]]|]. rewrite bind_ok. split.
  - intros (root & Hr & (output & Hc%map_err_ok & Hrest)%bind_ok). destruct (out_success output) eqn:Es; [|done]. cbn [negb] in Hrest.
    apply bind_ok in Hrest as (metadata & Hm & (document & Hd%read_json_ok & (inventory & Hi%expected_inventory_ok & Hv%validate_bill)%bind_ok)%bind_ok).
    destruct Hd as (Ho & Hf & bytes & Hb & Hlen & Hp). split; [done|].
    by exists root, output, metadata, bytes, document, inventory.
  - intros (_ & root & output & metadata & bytes & document & inventory & -> & Hc & Es & Hm & Hi & Ho & Hf & Hb & Hlen & Hp & Hv).
    exists root. split; [done|]. rewrite Hc. cbn [map_err mbind result_bind]. rewrite Es. cbn [negb]. rewrite Hm. cbn [mbind result_bind].
    rewrite (proj2 (read_json_ok path file document)) by (split; [done|]; split; [done|]; exists bytes; by split_and!). cbn [mbind result_bind].
    rewrite (proj2 (expected_inventory_ok metadata inventory)) by done. cbn [mbind result_bind]. by apply validate_bill.
Qed.

(** The manual pages are written by the executable of the program that cargo
    has just built and announced, once, under an absolute path. *)
Theorem dist_man_runs_built i path : dist_man i = Ok path ->
  exists root build atx message output,
    mn_root i = Ok root /\ mn_build i root = Ok build /\ out_success build = true /\
    artifact_executable (mn_utf8_error i) (out_stdout build) = Ok atx /\ announces message atx /\
    mn_export i atx (path_join (path_join root (lit "dist")) (lit "man")) = Ok output /\ out_success output = true /\
    path = path_join (path_join (path_join root (lit "dist")) (lit "man")) (lit "atx.1").
Proof.
  unfold dist_man. intros (root & Hr & (u & _ & (build & Hb%map_err_ok & (v & _ & Hrest)%bind_ok)%bind_ok)%bind_ok)%bind_ok.
  destruct (out_success build) eqn:Es; [|done]. cbn [negb] in Hrest.
  apply bind_ok in Hrest as (atx & Ha & (output & He%map_err_ok & Hrest)%bind_ok).
  destruct (out_success output) eqn:Eo; [|done]. injection Hrest as <-.
  pose proof Ha as (_ & results & Hf & Ho)%artifact_executable_ok.
  assert (Some atx ∈ results) as Hin.
  { assert (atx ∈ omap id results) as (o & Hin & Hsome)%list_elem_of_omap by (rewrite Ho; by left). by replace o with (Some atx) in Hin. }
  apply list_elem_of_lookup in Hin as [k Hk]. destruct (Forall2_lookup_r _ _ _ _ _ Hf Hk) as (line & _ & message & _ & Hm).
  apply artifact_announced in Hm. by exists root, build, atx, message, output.
Qed.
End Tasks.

(** ** A model of the documents, and the fixtures of the tests *)

Module TaskExample.
Inductive Json :=
| JNull | JBool (b : bool) | JNum (n : Z) | JStr (s : str) | JArr (l : list Json) | JObj (fields : list (str * Json)).
Definition get (v : Json) (key : str) : option Json :=
  match v with JObj fields => snd <$> List.find (fun f => bool_decide (f.1 = key)) fields | _ => None end.
(** The parser knows two texts. *)
Section Texts.
Variables metadata document : Json.
Definition parse (text : str) : result str Json :=
  if bool_decide (text = lit "metadata") then Ok metadata else
  if bool_decide (text = lit "document") then Ok document else Err (lit "expected value").
#[local] Instance json : JsonValue := {|
  Value := Json; jv_get := get;
  jv_str v := match v with JStr s => Some s | _ => None end;
  jv_array v := match v with JArr l => Some l | _ => None end;
  jv_u64 v := match v with JNum n => if in_range 0 u64_max n then Some n else None | _ => None end;
  jv_is_null v := match v with JNull => true | _ => false end;
  jv_is_object v := match v with JObj _ => true | _ => false end;
  jv_parse := parse |}.
Definition root0 : result str str := Ok (lit "/w").
Definition file0 : JsonFile := mk_json_file (Ok tt) (Ok true) (fun _ => Ok (lit "document")).
Definition cargo0 (_ : list str) (_ : str) : result str Output := Ok (mk_output true (lit "exit status: 0") (lit "metadata") []).
Definition man0 : ManInput :=
  mk_man_input root0 (fun _ => Ok tt) (fun _ => Err (lit "no cargo")) (fun _ => Ok tt) (fun _ _ => Err []) (fun _ => []).
Definition gate (target : str) : result str nat := check root0 cargo0 (lit "bom.json") file0 target.
Definition run (args : list str) : Report := main man0 cargo0 (fun _ => file0) args.
End Texts.

Definition s (t : str) : Json := JStr t.
Definition cargo_package (id name version : str) : Json := JObj [(lit "id", s id); (lit "name", s name); (lit "version", s version)].
Definition cargo_dep (id : str) (kind : Json) : Json :=
  JObj [(lit "pkg", s id); (lit "dep_kinds", JArr [JObj [(lit "kind", kind)]])].
Definition metadata0 : Json := JObj [
  (lit "packages", JArr [cargo_package (lit "root") (lit "atx") (lit "0.1.1"); cargo_package (lit "clap") (lit "clap") (lit "4.6.6");
    cargo_package (lit "libc") (lit "libc") (lit "0.2.189"); cargo_package (lit "test") (lit "proptest") (lit "1.11.0")]);
  (lit "resolve", JObj [(lit "nodes", JArr [JObj [(lit "id", s (lit "root")); (lit "deps", JArr [cargo_dep (lit "clap") JNull;
    cargo_dep (lit "libc") JNull; cargo_dep (lit "test") (s (lit "dev"))])]])])].

Definition component (reference name version purl : str) : Json :=
  JObj [(lit "bom-ref", s reference); (lit "name", s name); (lit "version", s version); (lit "purl", s purl)].
Definition node (reference : str) (edges : list str) : Json :=
  JObj [(lit "ref", s reference); (lit "dependsOn", JArr (s <$> edges))].
Definition components0 : list Json :=
  [component (lit "root") (lit "atx") (lit "0.1.1") (lit "pkg:cargo/atx@0.1.1");
   component (lit "clap") (lit "clap") (lit "4.6.6") (lit "pkg:cargo/clap@4.6.6");
   component (lit "libc") (lit "libc") (lit "0.2.189") (lit "pkg:cargo/libc@0.2.189")].
Definition nodes0 : list Json := [node (lit "root") [lit "clap"; lit "libc"]; node (lit "clap") [lit "libc"]; node (lit "libc") []].
Definition bill (components nodes : list Json) : Json :=
  JObj [(lit "bomFormat", s (lit "CycloneDX")); (lit "specVersion", s (lit "1.6")); (lit "version", JNum 1);
        (lit "components", JArr components); (lit "dependencies", JArr nodes)].
Definition linux : str := lit "x86_64-unknown-linux-gnu".
End TaskExample.
Import TaskExample.

Example gate_ex :
  (gate metadata0 (bill components0 nodes0) linux, gate metadata0 (bill components0 nodes0) (lit "wasm32"),
   gate metadata0 (bill components0 (node (lit "root") [lit "clap"] :: tail nodes0)) linux,
   gate metadata0 (bill components0 (nodes0 ++ [node (lit "libc") []])) linux,
   rp_out (run metadata0 (bill components0 nodes0) [lit "check-sbom"; lit "bom.json"; linux])) =
  (Ok 3%nat, Err (lit "unsupported release target: wasm32"),
   Err (lit "SBOM root dependency set differs from the default runtime graph"), Err (lit "duplicate dependency node: libc"),
   lit "SBOM: 3 locked runtime components verified" ++ [10]).
Proof. vm_compute. reflexivity. Qed.

(** A component that no edge reaches, of a package that only the tests use, is
    accepted and counted. *)
Example disconnected_ex :
  gate metadata0 (bill (components0 ++ [component (lit "test") (lit "proptest") (lit "1.11.0") (lit "pkg:cargo/proptest@1.11.0")]) nodes0) linux
  = Ok 4%nat.
Proof. vm_compute. reflexivity. Qed.
