(* ===== verification/Lock.v ===== *)
(** [RuntimeGuard] of [src/supervisor/ipc.rs]: the lock file and the socket that
    keep a second supervisor away.

    Every system call is a step of a process on a file system that the
    processes share, so that executions interleave them; a call can also fail.
    The states of a process are the program points of [acquire], [acquire_lock]
    and [drop]. *)

From S2P Require Import Prelude Text RunAgg Process Frame Daemon Ipc.

(** ** The runtime directory *)

(** What a lock file holds: an identity, or bytes that are not one; the file
    has just been created when it is empty. *)
Inductive LockContent := LC_Malformed | LC_Owner (owner : ProcessIdentitySnapshot).
Record LockFile := mk_lock_file { lk_inode : Z; lk_metadata : Metadata; lk_content : LockContent }.
Record SocketFile := mk_socket_file { sf_inode : Z; sf_metadata : Metadata; sf_listening : bool }.
Record Fs := mk_fs { fs_lock : option LockFile; fs_socket : option SocketFile; fs_next : Z }.

Definition set_lock (fs : Fs) (f : option LockFile) : Fs := mk_fs f (fs_socket fs) (fs_next fs).
Definition set_socket (fs : Fs) (f : option SocketFile) : Fs := mk_fs (fs_lock fs) f (fs_next fs).

(** ** Program points *)

Inductive Pc :=
(** [acquire_lock]: [turns] turns of its loop remain *)
| P_Open (turns : nat)
| P_Write (inode : Z)
| P_Stat (turns : nat) | P_Read (turns : nat) | P_Classify (turns : nat) (owner : ProcessIdentitySnapshot) | P_Unlink (turns : nat)
(** [acquire]: the inode of the lock, and of the socket that was bound *)
| P_LockInode
| P_SocketExists (lock : Z) | P_SocketKind (lock : Z) | P_Connect (lock : Z) | P_SocketUnlink (lock : Z)
| P_Bind (lock : Z) | P_Chmod (lock bound : Z) | P_SocketInode (lock bound : Z)
(** [let _ = fs::remove_file(&lock_path)], then the error *)
| P_Abandon (lock : Z) (e : IpcError)
(** the guard, and its [drop] *)
| P_Held (lock socket bound : Z)
| P_DropSocketStat (lock socket bound : Z) | P_DropSocket (lock socket bound : Z)
| P_DropLockStat (lock bound : Z) | P_DropLock (lock bound : Z)
| P_Done (r : result IpcError unit).

(** The listener of that socket is closed. *)
Definition close (bound : Z) (fs : Fs) : Fs :=
  match fs_socket fs with
  | Some s => if sf_inode s =? bound then set_socket fs (Some (mk_socket_file (sf_inode s) (sf_metadata s) false)) else fs
  | None => fs
  end.

(** [path_inode] of [remove_if_inode_matches]: [None] when the call fails. *)
Definition stat_inode {F} (inode : F -> Z) (fault : option str) (f : option F) : option Z :=
  match fault with Some _ => None | None => inode <$> f end.

Section Acquire.
(** [NativeProcessInspector::classify] *)
Variable status : ProcessIdentitySnapshot -> result str Identity.IdentityStatus.

Definition not_found : str := lit "No such file or directory".

(** One system call of the process [me]; [fault] is the error of a call that
    fails. *)
Definition acquire_step (me : ProcessIdentitySnapshot) (fault : option str) (pc : Pc) (fs : Fs) : Pc * Fs :=
  let io (m : str) := P_Done (Err (IE_Io m)) in
  match pc with
  | P_Open O => (P_Done (Err IE_AlreadyRunning), fs)
  | P_Open (S turns) =>
    match fault, fs_lock fs with
    | Some m, _ => (io m, fs)
    | None, None =>
      (P_Write (fs_next fs),
       mk_fs (Some (mk_lock_file (fs_next fs) (mk_metadata FK_File 0 384) LC_Malformed)) (fs_socket fs) (fs_next fs + 1))
    | None, Some _ => (P_Stat turns, fs)
    end
  | P_Write inode =>
    match fault with
    | Some m => (io m, fs)
    | None =>
      (P_LockInode,
       match fs_lock fs with
       | Some f => if lk_inode f =? inode then set_lock fs (Some (mk_lock_file inode (lk_metadata f) (LC_Owner me))) else fs
       | None => fs
       end)
    end
  | P_Stat turns =>
    match fault, fs_lock fs with
    | Some m, _ => (io m, fs)
    | None, None => (io not_found, fs)
    | None, Some f =>
      (if is_symlink (lk_metadata f) || negb (is_file (lk_metadata f)) || negb (Z.land (md_mode (lk_metadata f)) 511 =? 384)
       then P_Done (Err IE_LockSubstitution) else P_Read turns, fs)
    end
  | P_Read turns =>
    match fault, fs_lock fs with
    | Some m, _ => (io m, fs)
    | None, None => (io not_found, fs)
    | None, Some f => (match lk_content f with LC_Malformed => P_Done (Err IE_MalformedLock) | LC_Owner o => P_Classify turns o end, fs)
    end
  | P_Classify turns owner =>
    (match status owner with
     | Err m => P_Done (Err (IE_Runtime m))
     | Ok Identity.Alive => P_Done (Err IE_AlreadyRunning)
     | Ok _ => P_Unlink turns
     end, fs)
  | P_Unlink turns =>
    match fault, fs_lock fs with
    | Some m, _ => (io m, fs)
    | None, None => (io not_found, fs)
    | None, Some _ => (P_Open turns, set_lock fs None)
    end
  | P_LockInode =>
    match fault, fs_lock fs with
    | Some m, _ => (io m, fs)
    | None, None => (io not_found, fs)
    | None, Some f => (P_SocketExists (lk_inode f), fs)
    end
  | P_SocketExists lock =>
    (match fault, fs_socket fs with None, Some _ => P_SocketKind lock | _, _ => P_Bind lock end, fs)
  | P_SocketKind lock =>
    match fault, fs_socket fs with
    | Some m, _ => (io m, fs)
    | None, None => (io not_found, fs)
    | None, Some s =>
      (if is_symlink (sf_metadata s) || negb (is_socket (sf_metadata s)) then P_Abandon lock IE_SocketSubstitution
       else P_Connect lock, fs)
    end
  | P_Connect lock =>
    (match fault, fs_socket fs with
     | None, Some s => if sf_listening s then P_Abandon lock IE_AlreadyRunning else P_SocketUnlink lock
     | _, _ => P_SocketUnlink lock
     end, fs)
  | P_SocketUnlink lock =>
    match fault, fs_socket fs with
    | Some m, _ => (io m, fs)
    | None, None => (io not_found, fs)
    | None, Some _ => (P_Bind lock, set_socket fs None)
    end
  | P_Bind lock =>
    match fault, fs_socket fs with
    | Some m, _ => (P_Abandon lock (IE_Io m), fs)
    | None, Some _ => (P_Abandon lock (IE_Io (lit "Address already in use")), fs)
    | None, None =>
      (P_Chmod lock (fs_next fs),
       mk_fs (fs_lock fs) (Some (mk_socket_file (fs_next fs) (mk_metadata FK_Socket 0 493) true)) (fs_next fs + 1))
    end
  | P_Chmod lock bound =>
    match fault, fs_socket fs with
    | Some m, _ => (io m, close bound fs)
    | None, None => (io not_found, fs)
    | None, Some s =>
      (P_SocketInode lock bound,
       set_socket fs (Some (mk_socket_file (sf_inode s) (mk_metadata (md_kind (sf_metadata s)) (md_uid (sf_metadata s)) 384)
         (sf_listening s))))
    end
  | P_SocketInode lock bound =>
    match fault, fs_socket fs with
    | Some m, _ => (io m, close bound fs)
    | None, None => (io not_found, fs)
    | None, Some s => (P_Held lock (sf_inode s) bound, fs)
    end
  | P_Abandon _ e => (P_Done (Err e), match fault with Some _ => fs | None => set_lock fs None end)
  | P_Held lock socket bound => (P_DropSocketStat lock socket bound, fs)
  | P_DropSocketStat lock socket bound =>
    (if bool_decide (stat_inode sf_inode fault (fs_socket fs) = Some socket) then P_DropSocket lock socket bound
     else P_DropLockStat lock bound, fs)
  | P_DropSocket lock _ bound => (P_DropLockStat lock bound, match fault with Some _ => fs | None => set_socket fs None end)
  | P_DropLockStat lock bound =>
    if bool_decide (stat_inode lk_inode fault (fs_lock fs) = Some lock) then (P_DropLock lock bound, fs)
    else (P_Done (Ok tt), close bound fs)
  | P_DropLock _ bound => (P_Done (Ok tt), close bound (match fault with Some _ => fs | None => set_lock fs None end))
  | P_Done r => (P_Done r, fs)
  end.

(** ** Several processes *)

Record Sys := mk_sys { sy_fs : Fs; sy_procs : list (ProcessIdentitySnapshot * Pc) }.

(** A schedule says which process makes the next call, and whether it fails. *)
Definition sys_step (s : Sys) (e : nat * option str) : Sys :=
  match sy_procs s !! e.1 with
  | Some (me, pc) =>
    let '(pc, fs) := acquire_step me e.2 pc (sy_fs s) in mk_sys fs (<[e.1 := (me, pc)]> (sy_procs s))
  | None => s
  end.
Definition sys_run (s : Sys) (schedule : list (nat * option str)) : Sys := foldl sys_step s schedule.
End Acquire.

(** Two turns of the loop, [for _ in 0..2]. *)
Definition start (me : ProcessIdentitySnapshot) : ProcessIdentitySnapshot * Pc := (me, P_Open 2).

(** From the creation of the lock to its removal, or to a failure. *)
Definition holding (pc : Pc) : bool :=
  match pc with
  | P_Open _ | P_Stat _ | P_Read _ | P_Classify _ _ | P_Unlink _ | P_Done _ => false
  | _ => true
  end.

(** ** Lemmas *)

Section Exclusion.
Variable status : ProcessIdentitySnapshot -> result str Identity.IdentityStatus.

Definition alive (me : ProcessIdentitySnapshot) : Prop := status me = Ok Identity.Alive.

Definition pc_ok (pc : Pc) : Prop :=
  match pc with P_Classify _ o => alive o | P_Unlink _ => False | _ => True end.
Definition content_ok (fs : Fs) : Prop :=
  forall f o, fs_lock fs = Some f -> lk_content f = LC_Owner o -> alive o.

(** What a holder knows of the lock file. *)
Definition owns (me : ProcessIdentitySnapshot) (pc : Pc) (f : LockFile) : Prop :=
  match pc with
  | P_Write inode => lk_inode f = inode
  | P_LockInode => lk_content f = LC_Owner me
  | P_SocketExists l | P_SocketKind l | P_Connect l | P_SocketUnlink l | P_Bind l | P_Chmod l _ | P_SocketInode l _
  | P_Abandon l _ | P_Held l _ _ | P_DropSocketStat l _ _ | P_DropSocket l _ _ | P_DropLockStat l _ | P_DropLock l _ =>
    lk_inode f = l /\ lk_content f = LC_Owner me
  | _ => True
  end.
Definition held (me : ProcessIdentitySnapshot) (pc : Pc) (fs : Fs) : Prop :=
  holding pc = true -> exists f, fs_lock fs = Some f /\ owns me pc f.

Lemma close_lock bound fs : fs_lock (close bound fs) = fs_lock fs.
Proof. unfold close. destruct (fs_socket fs) as [s|]; [|done]. by destruct (sf_inode s =? bound). Qed.

Lemma step_ok me fault pc fs pc' fs' :
  acquire_step status me fault pc fs = (pc', fs') ->
  alive me -> pc_ok pc -> content_ok fs -> held me pc fs ->
  pc_ok pc' /\ content_ok fs' /\ held me pc' fs' /\
  (holding pc = false -> fs_lock fs <> None -> fs_lock fs' = fs_lock fs /\ holding pc' = false).
Proof.
  intros Hstep Hme Hpc Hfs Hheld.
  assert (content_ok fs -> content_ok (set_lock fs None)) as Hnone by (intros _ f o; done).
  assert (forall g, fs_lock g = fs_lock fs -> content_ok g) as Hsame by (intros g Hg f o; rewrite Hg; apply Hfs).
  unfold held in *.
  destruct pc; cbn [acquire_step holding owns] in *;
    repeat match type of Hstep with
    | context [match ?x with _ => _ end] => destruct x eqn:?
    end;
    injection Hstep as <- <-; cbn [pc_ok holding owns fs_lock set_lock set_socket] in *; try done;
    rewrite ?close_lock.
  all: split_and!; try done; try (apply Hsame; by rewrite ?close_lock); try (apply Hnone; done);
    try (intros _; specialize (Hheld eq_refl) as (g & Hg & Ho); rewrite ?close_lock; exists g; by simplify_eq).
  all: try (intros f o; rewrite ?close_lock; by intros [= <-]); try (intros _; by eexists); try (by eapply Hfs);
    try (unfold alive in *; congruence).
  - intros f o [= <-] [= <-]. done.
  - exfalso. specialize (Hheld eq_refl) as (g & Hg & <-). simplify_eq. lia.
Qed.

(** The processes exclude each other: what is on disk is a lock of a process
    that is alive, at most one process is between the creation and the removal
    of its lock, and the lock on disk is its own. *)
Record excluded (s : Sys) : Prop := {
  ex_lock : content_ok (sy_fs s);
  ex_procs : forall i me pc, sy_procs s !! i = Some (me, pc) -> alive me /\ pc_ok pc /\ held me pc (sy_fs s);
  ex_unique : forall i j me pc me' pc', sy_procs s !! i = Some (me, pc) -> sy_procs s !! j = Some (me', pc') ->
    holding pc = true -> holding pc' = true -> i = j
}.

Lemma excluded_step s e : excluded s -> excluded (sys_step status s e).
Proof.
  intros [Hl Hp Hu]. unfold sys_step. destruct e as [i fault]. cbn [fst snd].
  destruct (sy_procs s !! i) as [[me pc]|] eqn:Ei; [|done].
  destruct (acquire_step status me fault pc (sy_fs s)) as [pc' fs'] eqn:Es.
  destruct (Hp i me pc Ei) as (Hme & Hpc & Hh).
  destruct (step_ok _ _ _ _ _ _ Es Hme Hpc Hl Hh) as (Hpc' & Hl' & Hh' & Hother).
  assert (forall j me' pc0, j <> i -> sy_procs s !! j = Some (me', pc0) -> holding pc0 = true ->
    fs_lock fs' = fs_lock (sy_fs s) /\ holding pc' = false) as Hfree.
  { intros j me' pc0 Hne Ej Hj. destruct (Hp j me' pc0 Ej) as (_ & _ & (f & Hf & _)); [done|].
    apply Hother; [|by rewrite Hf]. destruct (holding pc) eqn:E; [|done]. by destruct Hne; eapply Hu. }
  split; cbn [sy_fs sy_procs].
  - done.
  - intros j me' pc0 [(-> & [= <- <-] & _)|[Hne Ej]]%list_lookup_insert_Some; [done|].
    destruct (Hp j me' pc0 Ej) as (Ha & Hok & Hj). split_and!; [done..|]. intros Hj'.
    destruct (Hfree j me' pc0 (not_eq_sym Hne) Ej Hj') as [-> _]. by apply Hj.
  - intros j k me1 pc1 me2 pc2 [(-> & [= <- <-] & _)|[Hj Ej]]%list_lookup_insert_Some
      [(<- & [= <- <-] & _)|[Hk Ek]]%list_lookup_insert_Some H1 H2; [done| | |by eapply Hu].
    + destruct (Hfree k me2 pc2) as [_ ?]; [done..|congruence].
    + destruct (Hfree j me1 pc1) as [_ ?]; [done..|congruence].
Qed.

Lemma excluded_run schedule : forall s, excluded s -> excluded (sys_run status s schedule).
Proof. induction schedule as [|e schedule IH]; [done|]. intros s Hs. apply IH. by apply excluded_step. Qed.
End Exclusion.

(** ** Properties: the exclusion of a second supervisor, and its race *)

(** C14 (invariant).  Any number of supervisors start in any interleaving, with
    any failing calls, while all of them are alive and no lock file is left
    from before: at every moment at most one of them is between the creation
    of its lock and its removal, so that at most one holds the guard, and then
    the lock on disk is its own and names it. *)
Theorem lock_exclusive status fs ids schedule :
  fs_lock fs = None -> Forall (alive status) ids ->
  let s := sys_run status (mk_sys fs (start <$> ids)) schedule in
  (forall i j me pc me' pc', sy_procs s !! i = Some (me, pc) -> sy_procs s !! j = Some (me', pc') ->
     holding pc = true -> holding pc' = true -> i = j) /\
  (forall i me lock socket bound, sy_procs s !! i = Some (me, P_Held lock socket bound) ->
     exists f, fs_lock (sy_fs s) = Some f /\ lk_inode f = lock /\ lk_content f = LC_Owner me).
Proof.
  intros Hnone Hids s. assert (excluded status s) as [_ Hp Hu].
  { apply excluded_run. split; cbn [sy_fs sy_procs].
    - intros f o. by rewrite Hnone.
    - intros i me pc Hi. apply list_lookup_fmap_Some in Hi as (id & [= -> ->] & Hi).
      split_and!; [|done|by intros ?]. by eapply Forall_lookup_1.
    - intros i j me pc me' pc' Hi. apply list_lookup_fmap_Some in Hi as (id & [= -> ->] & Hi). done. }
  split; [exact Hu|]. intros i me lock socket bound Hi. destruct (Hp _ _ _ Hi) as (_ & _ & Hh).
  destruct Hh as (f & Hf & Hin & Hc); [done|]. eauto.
Qed.


(** What a crashed supervisor leaves. *)
Definition crashed_fs (owner : ProcessIdentitySnapshot) : Fs :=
  mk_fs (Some (mk_lock_file 1 (mk_metadata FK_File 0 384) (LC_Owner owner)))
    (Some (mk_socket_file 2 (mk_metadata FK_Socket 0 384) false)) 3.

(** Both see the dead owner; the second unlinks the lock, and then the socket,
    that the first has put in their place. *)
Definition race : list (nat * option str) :=
  (fun i => (i, None)) <$>
    [0; 1; 0; 1; 0; 1; 0; 1;      (* open, stat, read, classify *)
     0; 0; 0;                     (* the first unlinks, creates, writes *)
     1; 1; 1;                     (* the second unlinks, creates, writes *)
     0; 1; 0; 1; 0; 1; 0; 1;      (* inode of the lock, the socket exists, its kind, no answer *)
     0; 0; 0; 0;                  (* the first unlinks, binds, sets the mode, takes the inode *)
     1; 1; 1; 1]%nat.

Lemma classify_dead status fs procs i me n o :
  procs !! i = Some (me, P_Classify n o) -> status o = Ok Identity.Dead ->
  sys_step status (mk_sys fs procs) (i, None) = mk_sys fs (<[i := (me, P_Unlink n)]> procs).
Proof. intros Hi Ho. unfold sys_step. cbn [fst snd sy_procs sy_fs]. rewrite Hi. unfold acquire_step. by rewrite Ho. Qed.

(** After a crash the exclusion fails: of two supervisors that
    start at the same time, both can acquire the guard, since each unlinks by
    path what it has judged to be stale before the other replaced it.  A single
    one acquires it, whatever its identity. *)
Theorem lock_race status a b owner :
  alive status a -> alive status b -> status owner = Ok Identity.Dead ->
  sy_procs (sys_run status (mk_sys (crashed_fs owner) (start <$> [a; b])) race) =
    [(a, P_Held 4 5 5); (b, P_Held 4 6 6)] /\
  sy_procs (sys_run status (mk_sys (crashed_fs owner) (start <$> [a])) (replicate 15 (0%nat, None))) =
    [(a, P_Held 3 4 4)].
Proof.
  intros _ _ Ho. split.
  - assert (race = take 6 race ++ take 2 (drop 6 race) ++ drop 8 race) as -> by reflexivity.
    unfold sys_run. rewrite !foldl_app.
    assert (foldl (sys_step status) (mk_sys (crashed_fs owner) (start <$> [a; b])) (take 6 race) =
      mk_sys (crashed_fs owner) [(a, P_Classify 1 owner); (b, P_Classify 1 owner)]) as -> by (vm_compute; reflexivity).
    assert (foldl (sys_step status) (mk_sys (crashed_fs owner) [(a, P_Classify 1 owner); (b, P_Classify 1 owner)])
      (take 2 (drop 6 race)) = mk_sys (crashed_fs owner) [(a, P_Unlink 1); (b, P_Unlink 1)]) as ->
      by (cbn [take drop race fmap list_fmap foldl]; by rewrite !(classify_dead _ _ _ _ _ _ owner) by done).
    vm_compute. reflexivity.
  - change (replicate 15 (0%nat, None)) with (replicate 3 (0%nat, @None str) ++ [(0%nat, None)] ++ replicate 11 (0%nat, None)).
    unfold sys_run. rewrite !foldl_app.
    assert (foldl (sys_step status) (mk_sys (crashed_fs owner) (start <$> [a])) (replicate 3 (0%nat, None)) =
      mk_sys (crashed_fs owner) [(a, P_Classify 1 owner)]) as -> by (vm_compute; reflexivity).
    assert (foldl (sys_step status) (mk_sys (crashed_fs owner) [(a, P_Classify 1 owner)]) [(0%nat, None)] =
      mk_sys (crashed_fs owner) [(a, P_Unlink 1)]) as -> by (cbn [foldl]; by rewrite (classify_dead _ _ _ _ _ _ owner) by done).
    vm_compute. reflexivity.
Qed.

(** ** Witnesses *)

Module LockExample.
Definition process (n : Z) : ProcessIdentitySnapshot := mk_process_identity (lit "boot") n 1 n.
(** Process 9 has crashed. *)
Definition status0 (p : ProcessIdentitySnapshot) : result str Identity.IdentityStatus :=
  Ok (if pid p =? 9 then Identity.Dead else Identity.Alive).
Definition empty_fs : Fs := mk_fs None None 1.
Definition schedule0 : list (nat * option str) := (fun i => (i, None)) <$> [0; 1; 0; 1; 0; 0; 0; 1; 0; 0; 1; 1]%nat.
End LockExample.
Import LockExample.

Lemma lock_exclusive_witness :
  (fs_lock empty_fs = None /\ Forall (alive status0) [process 1; process 2]) /\
  let s := sys_run status0 (mk_sys empty_fs (start <$> [process 1; process 2])) schedule0 in
  (forall i j me pc me' pc', sy_procs s !! i = Some (me, pc) -> sy_procs s !! j = Some (me', pc') ->
     holding pc = true -> holding pc' = true -> i = j) /\
  (forall i me lock socket bound, sy_procs s !! i = Some (me, P_Held lock socket bound) ->
     exists f, fs_lock (sy_fs s) = Some f /\ lk_inode f = lock /\ lk_content f = LC_Owner me).
Proof.
  assert (Forall (alive status0) [process 1; process 2]) as H by (repeat constructor).
  split; [exact (conj eq_refl H)|]. exact (lock_exclusive status0 empty_fs [process 1; process 2] schedule0 eq_refl H).
Defined.

(** The first holds the guard, the second has been refused. *)
Example lock_exclusive_ex :
  sy_procs (sys_run status0 (mk_sys empty_fs (start <$> [process 1; process 2])) schedule0) =
    [(process 1, P_Held 1 2 2); (process 2, P_Done (Err IE_AlreadyRunning))].
Proof. vm_compute. reflexivity. Qed.

Lemma lock_race_witness :
  (alive status0 (process 1) /\ alive status0 (process 2) /\ status0 (process 9) = Ok Identity.Dead) /\
  sy_procs (sys_run status0 (mk_sys (crashed_fs (process 9)) (start <$> [process 1; process 2])) race) =
    [(process 1, P_Held 4 5 5); (process 2, P_Held 4 6 6)] /\
  sy_procs (sys_run status0 (mk_sys (crashed_fs (process 9)) (start <$> [process 1])) (replicate 15 (0%nat, None))) =
    [(process 1, P_Held 3 4 4)].
Proof.
  split; [exact (conj eq_refl (conj eq_refl eq_refl))|].
  exact (lock_race status0 (process 1) (process 2) (process 9) eq_refl eq_refl eq_refl).
Defined.
