(* ===== verification/Database.v ===== *)
(** The opening of the database: [Database::open] and the migrations of
    [src/infrastructure/sqlite/mod.rs].

    A database file is its metadata, its [user_version] and the migrations that
    have been applied to it, in their order; a batch of SQL fails when its
    objects exist or when those it builds on do not.  Before every call other
    processes may change the file, and every call may fail. *)

From S2P Require Import Prelude Text Primitives Duration Identifier States Recurrence Execution JobAgg RunAgg.
From S2P Require Import Sqlite Services Frame Daemon Ipc.

Definition CURRENT_SCHEMA_VERSION : Z := 3.
Definition MIGRATIONS : list Z := [1; 2; 3].
Definition MAX_BUSY_TIMEOUT_MS : Z := 2147483647.
Definition INIT_SCHEMA_ATTEMPTS : nat := 10.

Record DbFile := mk_db_file { df_metadata : Metadata; df_version : Z; df_applied : list Z }.

(** What happens before a call, and the error of a call that fails. *)
Record Peer := mk_peer { pe_env : option DbFile -> option DbFile; pe_fault : option StoreError }.
Record FileWorld := mk_file_world { fw_file : option DbFile; fw_peers : list Peer }.

Definition file_seen (w : FileWorld) : option DbFile :=
  match fw_peers w with p :: _ => pe_env p (fw_file w) | [] => fw_file w end.
Definition file_fault (w : FileWorld) : option StoreError :=
  match fw_peers w with p :: _ => pe_fault p | [] => None end.

Abbreviation Open := (Port FileWorld StoreError).

Definition call {A} (f : option DbFile -> result StoreError (A * option DbFile)) : Open A := fun w =>
  let file := file_seen w in
  let rest := tail (fw_peers w) in
  match file_fault w with
  | Some e => (Err e, mk_file_world file rest)
  | None =>
    match f file with
    | Ok (a, file) => (Ok a, mk_file_world file rest)
    | Err e => (Err e, mk_file_world file rest)
    end
  end.

Definition pure_open {A} (r : result StoreError A) : Open A := fun w => (r, w).

(** A call that does not look at the file. *)
Definition touch : Open unit := call (fun file => Ok (tt, file)).
(** A call on the open database. *)
Definition on_file {A} (f : DbFile -> result StoreError (A * DbFile)) : Open A :=
  call (fun file =>
    match file with
    | None => Err (SE_Io (lit "No such file or directory"))
    | Some f' => '(a, f') ← f f'; Ok (a, Some f')
    end).

Section Open.
Variable euid : Z.

(** [prepare_database_file] *)
Definition private_file (m : Metadata) : bool :=
  negb (is_symlink m || negb (is_file m) || negb (md_uid m =? euid) || negb (Z.land (md_mode m) 511 =? 384)).

Definition prepare_database_file : Open bool :=
  created ← call (fun file =>
    match file with
    | None => Ok (true, Some (mk_db_file (mk_metadata FK_File euid 384) 0 []))
    | Some _ => Ok (false, file)
    end);
  if created : bool then _ ← touch; mret true else
  metadata ← on_file (fun f => Ok (df_metadata f, f));
  if private_file metadata then mret false else port_fail SE_InsecureDatabaseFile.

(** [configure_connection]: the timeout and three pragmas *)
Definition configure_connection (busy_timeout_ms : Z) : Open unit :=
  if (busy_timeout_ms =? 0) || (MAX_BUSY_TIMEOUT_MS <? busy_timeout_ms) then port_fail SE_InvalidBusyTimeout else
  _ ← touch; _ ← touch; _ ← touch; touch.

Definition user_version : Open Z := on_file (fun f => Ok (df_version f, f)).

(** The loop of [open] on a file that it has not created. *)
Fixpoint await_schema (attempts_left : nat) : Open unit :=
  match attempts_left with
  | O => port_fail (SE_Corrupt (RS_Message (lit "existing database file carries no schema")))
  | S attempts_left =>
    version ← user_version;
    if version =? 0 then
      match attempts_left with
      | O => port_fail (SE_Corrupt (RS_Message (lit "existing database file carries no schema")))
      | S _ => await_schema attempts_left
      end
    else mret tt
  end.

(** [execute_batch] of one migration *)
Definition execute_batch (version : Z) (applied : list Z) : result StoreError (list Z) :=
  if existsb (Z.eqb version) applied || negb (forallb (fun v => (version <=? v) || existsb (Z.eqb v) applied) MIGRATIONS)
  then Err (SE_Sqlite (SQ_Other 1)) else Ok (applied ++ [version]).

Fixpoint execute_batches (current target : Z) (migrations applied : list Z) : result StoreError (list Z) :=
  match migrations with
  | [] => Ok applied
  | version :: migrations =>
    applied ← (if (current <? version) && (version <=? target) then execute_batch version applied else Ok applied);
    execute_batches current target migrations applied
  end.

(** The transaction is one call: it holds the write lock from its start. *)
Definition apply_migrations (migrations : list Z) (target : Z) : Open unit :=
  current ← user_version;
  if target <? current then port_fail (SE_NewerSchema current target) else
  if current =? target then mret tt else
  on_file (fun f =>
    applied ← execute_batches current target migrations (df_applied f);
    Ok (tt, mk_db_file (df_metadata f) target applied)).

Record ConnectionPragmas := mk_pragmas {
  pr_foreign_keys : bool; pr_journal_mode : str; pr_synchronous : Z; pr_busy_timeout_ms : Z
}.

Definition verify_pragmas (pragmas : result StoreError ConnectionPragmas) (busy_timeout_ms : Z) : result StoreError unit :=
  expected ← ok_or (checked_u64 busy_timeout_ms) SE_InvalidBusyTimeout;
  actual ← pragmas;
  if negb (pr_foreign_keys actual) || negb (bool_decide (pr_journal_mode actual = lit "wal"))
     || negb (pr_synchronous actual =? 2) || negb (pr_busy_timeout_ms actual =? expected)
  then Err SE_PragmaMismatch else Ok tt.

(** [Database::open]: [path] says whether the path has a parent and a name, and
    whether the parent resolves. *)
Definition open_database (path : result StoreError unit) (busy_timeout_ms : Z) (pragmas : result StoreError ConnectionPragmas)
  : Open unit :=
  _ ← pure_open path;
  created ← prepare_database_file;
  _ ← touch;
  _ ← configure_connection busy_timeout_ms;
  _ ← (if created : bool then mret tt else await_schema INIT_SCHEMA_ATTEMPTS);
  _ ← apply_migrations MIGRATIONS CURRENT_SCHEMA_VERSION;
  pure_open (verify_pragmas pragmas busy_timeout_ms).
End Open.

(** ** Lemmas *)

Section OpenLemmas.
Variable euid : Z.

(** A file whose schema is that of its version. *)
Definition file_ok (f : DbFile) : Prop :=
  0 <= df_version f <= CURRENT_SCHEMA_VERSION /\ df_applied f = take (Z.to_nat (df_version f)) MIGRATIONS.
Definition db_ok (file : option DbFile) : Prop := match file with Some f => file_ok f | None => True end.

(** What other processes do: they keep the schema that of its version, and do
    not go back. *)
Definition file_le (file file' : option DbFile) : Prop :=
  match file with
  | None => True
  | Some f => exists f', file' = Some f' /\ df_version f <= df_version f'
  end.
#[export] Instance file_le_preorder : PreOrder file_le.
Proof.
  split.
  - intros [f|]; simpl; [eexists; split; [done|lia]|done].
  - intros [f|] [g|] [h|]; simpl; naive_solver lia.
Qed.
Definition peer_ok (p : Peer) : Prop := forall file, db_ok file -> db_ok (pe_env p file) /\ file_le file (pe_env p file).

Record world_ok (w : FileWorld) : Prop := {
  wo_file : db_ok (fw_file w);
  wo_peers : Forall peer_ok (fw_peers w)
}.
(** A computation keeps the world so, and does not go back itself. *)
Definition steady {A} (m : Open A) : Prop :=
  forall w r w', world_ok w -> m w = (r, w') -> world_ok w' /\ file_le (fw_file w) (fw_file w').

Lemma seen_ok w : world_ok w -> db_ok (file_seen w) /\ file_le (fw_file w) (file_seen w).
Proof.
  intros [Hf Hp]. unfold file_seen. destruct (fw_peers w); [by split|]. apply Forall_cons in Hp as [Hp _]. by apply Hp.
Qed.

Lemma call_steady {A} (f : option DbFile -> result StoreError (A * option DbFile)) :
  (forall file a file', db_ok file -> f file = Ok (a, file') -> db_ok file' /\ file_le file file') -> steady (call f).
Proof.
  intros Hf w r w' Hw Hc. destruct (seen_ok w Hw) as [Hs Hle]. unfold call in Hc.
  assert (Forall peer_ok (tail (fw_peers w))) as Ht by (destruct (wo_peers w Hw); [constructor|done]).
  destruct (file_fault w); [by injection Hc as <- <-|].
  destruct (f (file_seen w)) as [[a file']|e] eqn:E; injection Hc as <- <-; [|done].
  destruct (Hf _ _ _ Hs E) as [? ?]. split; [done|]. cbn [fw_file]. by etransitivity.
Qed.

Lemma on_file_steady {A} (f : DbFile -> result StoreError (A * DbFile)) :
  (forall g a g', file_ok g -> f g = Ok (a, g') -> file_ok g' /\ df_version g <= df_version g') -> steady (on_file f).
Proof.
  intros Hf. apply call_steady. intros [g|] a file' Hg; cbn beta iota; [|done].
  intros ([a' g'] & Hfg & [= -> <-])%bind_ok. destruct (Hf _ _ _ Hg Hfg). split; [done|]. cbn. eauto.
Qed.

Lemma pure_steady {A} (r : result StoreError A) : steady (pure_open r).
Proof. intros w x w' Hw [= _ <-]. by split. Qed.
Lemma fail_steady {A} e : steady (@port_fail FileWorld StoreError A e).
Proof. intros w x w' Hw [= _ <-]. by split. Qed.
Lemma ret_steady {A} (a : A) : steady (mret a).
Proof. intros w x w' Hw [= _ <-]. by split. Qed.
Lemma bind_steady {A B} (m : Open A) (f : A -> Open B) : steady m -> (forall a, steady (f a)) -> steady (m ≫= f).
Proof.
  intros Hm Hf w r w' Hw Hb. unfold mbind, port_bind in Hb. destruct (m w) as [[a|e] w1] eqn:E.
  - destruct (Hm _ _ _ Hw E) as [Hw1 Hle]. destruct (Hf _ _ _ _ Hw1 Hb) as [? ?]. split; [done|]. by etransitivity.
  - injection Hb as <- <-. by eapply Hm.
Qed.

Lemma touch_steady : steady touch.
Proof. apply call_steady. intros file a file' Hf [= _ <-]. by split. Qed.
Lemma read_steady {A} (f : DbFile -> A) : steady (on_file (fun g => Ok (f g, g))).
Proof. apply on_file_steady. intros g a g' Hg [= _ <-]. split; [done|lia]. Qed.

Create HintDb open.
#[local] Hint Resolve pure_steady fail_steady ret_steady bind_steady touch_steady read_steady : open.
Ltac steady := repeat first [progress intros | apply bind_steady | match goal with |- steady (if ?b then _ else _) => destruct b end];
  auto with open.

Lemma prepare_steady : steady (prepare_database_file euid).
Proof.
  unfold prepare_database_file. apply bind_steady; [|steady]. apply call_steady.
  intros [f|] a file' Hf; intros [= _ <-]; [done|]. by split.
Qed.

Lemma configure_steady ms : steady (configure_connection ms).
Proof. unfold configure_connection. steady. Qed.

Lemma await_steady n : steady (await_schema n).
Proof.
  induction n as [|n IH]; [apply fail_steady|]. cbn [await_schema]. unfold user_version.
  apply bind_steady; [apply read_steady|]. intros v. destruct (v =? 0); [|apply ret_steady].
  destruct n; [apply fail_steady|done].
Qed.

(** The batches bring a schema that is at its version [v] to the current one,
    and fail when the version that was read is behind it. *)
Lemma execute_batches_ok current v applied :
  0 <= current <= v -> v <= CURRENT_SCHEMA_VERSION -> current <> CURRENT_SCHEMA_VERSION ->
  execute_batches current CURRENT_SCHEMA_VERSION MIGRATIONS (take (Z.to_nat v) MIGRATIONS) = Ok applied ->
  applied = MIGRATIONS /\ v = current.
Proof.
  unfold CURRENT_SCHEMA_VERSION. intros Hc Hv Hne.
  assert (v = 0 \/ v = 1 \/ v = 2 \/ v = 3) as Hcases by lia. assert (current = 0 \/ current = 1 \/ current = 2) as Hcur by lia.
  destruct Hcases as [-> | [-> | [-> | ->]]]; destruct Hcur as [-> | [-> | ->]]; try lia; by intros [= <-].
Qed.

Lemma migrations_step (w : FileWorld) r w' :
  world_ok w -> apply_migrations MIGRATIONS CURRENT_SCHEMA_VERSION w = (r, w') ->
  world_ok w' /\ file_le (fw_file w) (fw_file w') /\
  (r = Ok tt -> exists f, fw_file w' = Some f /\ df_version f = CURRENT_SCHEMA_VERSION /\ df_applied f = MIGRATIONS).
Proof.
  intros Hw Hr. unfold apply_migrations in Hr. unfold mbind at 1, port_bind at 1 in Hr.
  destruct (user_version w) as [[current|e] w1] eqn:Eu.
  2: { injection Hr as <- <-. destruct (read_steady _ _ _ _ Hw Eu). by split. }
  destruct (read_steady _ _ _ _ Hw Eu) as [Hw1 Hle1].
  assert (exists g, fw_file w1 = Some g /\ df_version g = current /\ file_ok g) as (g & Hg & Hcur & Hok).
  { destruct (seen_ok w Hw) as [Hs _]. unfold user_version, on_file, call in Eu. destruct (file_fault w); [done|].
    destruct (file_seen w) as [g|]; [|done]. injection Eu as <- <-. eauto. }
  destruct (Z.ltb_spec CURRENT_SCHEMA_VERSION current).
  { injection Hr as <- <-. by split. }
  destruct (Z.eqb_spec current CURRENT_SCHEMA_VERSION) as [->|Hne].
  { injection Hr as <- <-. split; [done|]. split; [done|]. intros _. exists g. destruct Hok as [_ Ha].
    rewrite Hcur in Ha. done. }
  destruct (seen_ok w1 Hw1) as [Hs Hle2]. rewrite Hg in Hle2. destruct Hle2 as (g2 & Hg2 & Hv2).
  unfold on_file, call in Hr. rewrite Hg2 in Hr, Hs. destruct Hs as [Hrange Happ].
  assert (Forall peer_ok (tail (fw_peers w1))) as Ht by (destruct (wo_peers w1 Hw1); [constructor|done]).
  assert (file_le (fw_file w) (Some g2)) as Hle by (etransitivity; [exact Hle1|]; rewrite Hg; cbn; eauto).
  destruct (file_fault w1); [by injection Hr as <- <-|].
  destruct (execute_batches current CURRENT_SCHEMA_VERSION MIGRATIONS (df_applied g2)) as [applied|e] eqn:Eb;
    cbn [mbind result_bind] in Hr; injection Hr as <- <-; [|done].
  rewrite Happ in Eb. destruct Hok as [Hrange0 _].
  apply execute_batches_ok in Eb as [-> Heq]; [|lia|lia|done].
  assert (file_ok (mk_db_file (df_metadata g2) CURRENT_SCHEMA_VERSION MIGRATIONS)) as Hnew by done.
  split; [done|]. split; [|intros _; by eexists]. etransitivity; [exact Hle|]. cbn. eexists. split; [done|]. cbn. lia.
Qed.

(** The schema is the current one. *)
Definition current_schema (w : FileWorld) : Prop :=
  exists f, fw_file w = Some f /\ df_version f = CURRENT_SCHEMA_VERSION /\ df_applied f = MIGRATIONS.
Definition reaches {A} (m : Open A) : Prop :=
  forall w r w', world_ok w -> m w = (r, w') ->
  world_ok w' /\ file_le (fw_file w) (fw_file w') /\ (is_ok r = true -> current_schema w').

Lemma bind_reaches {A B} (m : Open A) (f : A -> Open B) : steady m -> (forall a, reaches (f a)) -> reaches (m ≫= f).
Proof.
  intros Hm Hf w r w' Hw Hb. unfold mbind, port_bind in Hb. destruct (m w) as [[a|e] w1] eqn:E.
  - destruct (Hm _ _ _ Hw E) as [Hw1 Hle]. destruct (Hf _ _ _ _ Hw1 Hb) as (? & ? & ?). split_and!; [done| |done].
    by etransitivity.
  - injection Hb as <- <-. destruct (Hm _ _ _ Hw E). done.
Qed.

Lemma open_reaches path ms pragmas : reaches (open_database euid path ms pragmas).
Proof.
  unfold open_database. apply bind_reaches; [apply pure_steady|intros _].
  apply bind_reaches; [apply prepare_steady|intros created]. apply bind_reaches; [apply touch_steady|intros _].
  apply bind_reaches; [apply configure_steady|intros _].
  apply bind_reaches; [destruct created; [apply ret_steady|apply await_steady]|intros _].
  intros w r w' Hw Hb. unfold mbind, port_bind in Hb.
  destruct (apply_migrations MIGRATIONS CURRENT_SCHEMA_VERSION w) as [[[]|e] w1] eqn:E;
    injection Hb as <- <-; destruct (migrations_step _ _ _ Hw E) as (? & ? & Hc); split_and!; try done.
  intros _. by apply Hc.
Qed.
End OpenLemmas.

(** ** Properties *)

Definition wal_pragmas (ms : Z) : ConnectionPragmas := mk_pragmas true (lit "wal") 2 ms.


Module DatabaseExample.
(** A database of the first version, which another process upgrades just
    before the transaction of this one. *)
Definition private0 : Metadata := mk_metadata FK_File 1000 384.
Definition old : DbFile := mk_db_file private0 1 [1].
Definition upgrade (file : option DbFile) : option DbFile :=
  match file with Some f => if df_version f =? 1 then Some (mk_db_file (df_metadata f) 3 [1; 2; 3]) else file | None => file end.
Definition alone : FileWorld := mk_file_world (Some old) [].
Definition quiet : Peer := mk_peer id None.
Definition raced : FileWorld := mk_file_world (Some old) (replicate 9 quiet ++ [mk_peer upgrade None]).
End DatabaseExample.
Import DatabaseExample.


(** The loser of such a race gets the error of its first batch; the schema is
    that of the winner. *)
Example open_raced_ex :
  (open_database 1000 (Ok tt) 2000 (Ok (wal_pragmas 2000)) raced).1 = Err (SE_Sqlite (SQ_Other 1)) /\
  fw_file (open_database 1000 (Ok tt) 2000 (Ok (wal_pragmas 2000)) raced).2 = Some (mk_db_file private0 3 [1; 2; 3]).
Proof. vm_compute. done. Qed.
