(* ===== verification/Cancel.v ===== *)
(** The cancellation of a job: [cancel_job] and its parts in
    [src/cli/dispatch.rs], over [src/application/cancel.rs] and the SQLite
    store.

    The wall clock and the answers of the group canceller are read from lists,
    in the order in which the code asks. *)

From S2P Require Import Prelude Text Primitives Duration Identifier States Recurrence Execution JobAgg RunAgg.
From S2P Require Import Sqlite JobStore RunStore Reconcile Retention Recovery Process Management Services Heap Loop Daemon.

(** ** The world of the command *)

Record CancelWorld := mk_cancel_world {
  cn_world : World;
  cn_clock : list (result ClockError UtcTimestamp);
  cn_groups : list (result str GroupCancellation);
  cn_signalled : list (Run * Db)
}.

Definition with_store {E A} (conv : StoreError -> E) (m : Store A) : Port CancelWorld E A := fun s =>
  let '(r, w) := m false (cn_world s) in
  (map_err conv r, mk_cancel_world w (cn_clock s) (cn_groups s) (cn_signalled s)).

(** The next reading of the wall clock; after the last one it fails. *)
Definition now_utc {E} (conv : ClockError -> E) : Port CancelWorld E UtcTimestamp := fun s =>
  match cn_clock s with
  | r :: rest => (map_err conv r, mk_cancel_world (cn_world s) rest (cn_groups s) (cn_signalled s))
  | [] => (Err (conv CE_Unavailable), s)
  end.

(** [NativeGroupCanceller::cancel_group]: the run and the database at that
    moment are recorded. *)
Definition group_cancellation (r : CancellationResult) : GroupCancellation :=
  match r with
  | AlreadyDead => GC_AlreadyDead
  | IdentityChanged => GC_IdentityChanged
  | TerminatedDuringGrace => GC_TerminatedDuringGrace
  | KilledAfterGrace => GC_KilledAfterGrace
  end.
Definition cancel_group (run : Run) : Port CancelWorld str GroupCancellation := fun s =>
  if negb (is_some (run_command_identity run)) then (Err (lit "command identity is missing"), s) else
  let log := cn_signalled s ++ [(run, w_db (cn_world s))] in
  match cn_groups s with
  | r :: rest => (r, mk_cancel_world (cn_world s) (cn_clock s) rest log)
  | [] => (Err (lit "cancellation failed"), mk_cancel_world (cn_world s) (cn_clock s) [] log)
  end.

#[export] Instance native_cancellation `{Serde} : CancellationPorts CancelWorld := {|
  cp_load_for_cancellation id := with_store Datatypes.id (load_run id);
  cp_commit_cancellation id token := with_store Datatypes.id (request_run_cancellation id token);
  cp_cancel_group := cancel_group
|}.

Section Cancel.
Context `{Serde} `{ExecutionJson}.

(** [management_store_error] *)
Definition management_store_error (e : StoreError) : ManagementError := ME_Store (mk_management_error e).
Definition clock_error (e : ClockError) : ManagementError := ME_Store (management_clock_error e).
Definition cancel_error (e : CancelRunError) : ManagementError := ME_Store (management_cancel_error e).

Abbreviation Cli := (Port CancelWorld ManagementError).
Definition store {A} (m : Store A) : Cli A := with_store management_store_error m.
Definition conflict {A} (message : str) : Cli A := port_fail (ME_StateConflict message).

(** [resolve_job] on the store of this world. *)
Definition resolve (prefix : str) : Cli Job := fun s =>
  let '(r, w) := resolve_job prefix (cn_world s) in
  (r, mk_cancel_world w (cn_clock s) (cn_groups s) (cn_signalled s)).

(** The loop that asks for the cancellation of the job: [now] is the last
    reading of the clock. *)
Inductive Request := Satisfied (job : Job) | Requested (job : Job) (now : UtcTimestamp) | Refused.

Fixpoint request_loop (attempts : nat) (current : Job) : Cli Request :=
  match attempts with
  | O => mret Refused
  | S attempts =>
    if bool_decide (job_state current = JS_CancelRequested) || bool_decide (job_state current = JS_Cancelled)
    then mret (Satisfied current) else
    if job_is_terminal (job_state current) then mret Refused else
    now ← now_utc clock_error;
    pending ← (fun s =>
      let '(r, w) := transition_job (job_id current) (job_revision current) JS_CancelRequested false TA_Cli
                       (lit "cancel requested") now false (cn_world s) in
      (Ok r, mk_cancel_world w (cn_clock s) (cn_groups s) (cn_signalled s)));
    match pending with
    | Ok pending => mret (Requested pending now)
    | Err SE_Conflict | Err (SE_Domain _) =>
      reloaded ← store (load_job (job_id current));
      match reloaded with
      | Some current => request_loop attempts current
      | None => port_fail ME_NotFound
      end
    | Err error => port_fail (management_store_error error)
    end
  end.

(** The wait for the end of the run: [polls] is the number of turns that find
    the clock before the deadline. *)
Fixpoint wait_terminal (polls : nat) (id : RunId) : Cli Run :=
  current ← store (load_run id);
  match current with
  | None => conflict (lit "active run disappeared")
  | Some current =>
    if run_is_terminal (run_state current) then mret current else
    match polls with
    | O => conflict (lit "run did not stop before the cancellation deadline")
    | S polls => wait_terminal polls id
    end
  end.

(** [boot] is the reading of the boot identity; the deadline of the wait, at
    most a year and two seconds ahead, does not overflow. *)
Definition cancel_active_run (boot : result ClockError unit) (polls : nat) (run : Run) : Cli Run :=
  _ ← (fun s => (map_err clock_error boot, s));
  result ← port_err cancel_error (cancel_claimed_run (run_id run) (run_claim_token run));
  _ ← match result with
      | CR_CommittedBeforeSpawn run =>
        now ← now_utc clock_error;
        _ ← store (record_run_terminal (run_id run) (run_claim_token run) now
                     (RO_Cancelled (lit "cancelled before command start")));
        mret tt
      | _ => mret tt
      end;
  wait_terminal polls (run_id run).

Definition finish_job_cancellation (id : JobId) (state : RunState) : Cli Job :=
  let target :=
    match state with
    | RS_Succeeded => Some JS_Succeeded
    | RS_Cancelled => Some JS_Cancelled
    | RS_Failed => Some JS_Failed
    | RS_Interrupted => Some JS_Interrupted
    | _ => None
    end in
  match target with
  | None => conflict (lit "run remained nonterminal after cancellation")
  | Some target =>
    current ← store (load_job id);
    match current with
    | None => port_fail ME_NotFound
    | Some current =>
      if job_is_terminal (job_state current) then mret current else
      now ← now_utc clock_error;
      finished ← (fun s =>
        let '(r, w) := transition_job (job_id current) (job_revision current) target false TA_Cli
                         (lit "cancellation finished") now false (cn_world s) in
        (Ok r, mk_cancel_world w (cn_clock s) (cn_groups s) (cn_signalled s)));
      match finished with
      | Ok finished => mret finished
      | Err SE_Conflict | Err (SE_Domain _) =>
        final ← store (load_job (job_id current));
        match final with
        | None => port_fail ME_NotFound
        | Some final =>
          if job_is_terminal (job_state final) || bool_decide (job_state final = JS_Waiting) then mret final
          else conflict (lit "job changed state during cancellation")
        end
      | Err error => port_fail (management_store_error error)
      end
    end
  end.

Definition cancel_job (boot : result ClockError unit) (polls : nat) (prefix : str) : Cli Job :=
  job ← resolve prefix;
  if bool_decide (job_state job = JS_Cancelled) || bool_decide (job_state job = JS_CancelRequested)
  then mret job else
  if job_is_terminal (job_state job) then conflict (lit "completed job cannot be cancelled") else
  _ ← now_utc clock_error;
  active ← store (latest_active_run (job_id job));
  request ← request_loop 8 job;
  match request with
  | Satisfied current => mret current
  | Refused => conflict (lit "job changed state during cancellation")
  | Requested requested now =>
    match active with
    | None =>
      store (transition_job (job_id requested) (job_revision requested) JS_Cancelled false TA_Cli
               (lit "cancelled before command start") now)
    | Some run =>
      finished ← cancel_active_run boot polls run;
      finish_job_cancellation (job_id requested) (run_state finished)
    end
  end.
End Cancel.

(** ** Lemmas *)

(** The stored run of that token is past the commit of its cancellation. *)
Definition stopping (id : RunId) (token : ClaimToken) (db : Db) : Prop :=
  exists row, In row (db_runs db) /\ rr_id row = run_id_to_string id /\ rr_claim_token row = token_bytes token /\
    (rr_state row = lit "cancel_requested" \/ text_in (rr_state row) terminal_run_states = true).

Lemma find_run_In id db row : find_run id db = Some row -> In row (db_runs db) /\ rr_id row = run_id_to_string id.
Proof.
  unfold find_run. intros ([i r] & Hf & ->)%fmap_Some. apply list_find_Some in Hf as (Hr & Hid & _).
  split; [|done]. apply list_elem_of_In. by eapply list_elem_of_lookup_2.
Qed.

Lemma with_store_inv {E A} (conv : StoreError -> E) (m : Store A) s r s' :
  with_store conv m s = (r, s') ->
  exists r0 w, m false (cn_world s) = (r0, w) /\ r = map_err conv r0 /\
    s' = mk_cancel_world w (cn_clock s) (cn_groups s) (cn_signalled s).
Proof. unfold with_store. destruct (m false (cn_world s)) as [r0 w]. intros [= <- <-]. eauto. Qed.

(** A committed cancellation is stored as such. *)
Lemma commit_stopping `{Serde} id token w requested w' :
  runs_unique (db_runs (seen false (after_read false w))) ->
  request_run_cancellation id token false w = (Ok requested, w') -> stopping id token (w_db w').
Proof.
  intros Hu Hr. apply (request_run_cancellation_spec id token false w (Ok requested) w' Hu) in Hr
    as (row & run & Hf & Hd & Htok & Hcase).
  apply decode_run_row_ok in Hd as (Hrow & _ & _). apply find_run_In in Hf as [Hin Hid].
  destruct Hcase as [(Hst & -> & ->)|(Hst & -> & Hone & _)].
  - exists row. split_and!; [done..| |].
    + by rewrite (proj1 (rf_token _ _ Hrow)), <- Htok.
    + rewrite (rf_state _ _ Hrow). cbn [run_snapshot rs_state].
      destruct Hst as [->|Hst]; [by left|right]. by destruct (run_state run).
  - destruct Hone as (l1 & r & l2 & _ & Hruns & Hid' & Htok' & _). exists (run_row_set_state (lit "cancel_requested") r).
    rewrite Hruns. split_and!; [by apply in_or_app; right; left|done..|by left].
Qed.

(** ** Properties *)


(** ** A race: the run that starts while its job is cancelled *)

Module CancelExample.
Export Daemon.DaemonExample Services.ServicesExample.
(** The supervisor executes the due job: its monitor is started. *)
Definition supervised : DaemonWorld := (execute_due_jobs [(input0, job_id job0)] daemon0).2.
(** It does so after the command has looked for an active run and before its
    first transition. *)
Definition racing_world : World :=
  mk_world (w_db world0)
    [mk_step Datatypes.id None; mk_step Datatypes.id None; mk_step (fun _ => w_db (dw_world supervised)) None].
Definition racing : CancelWorld := mk_cancel_world racing_world [Ok due0; Ok due0; Ok due0] [Ok GC_AlreadyDead] [].
(** The same command against the running job. *)
Definition active_cancel : CancelWorld := mk_cancel_world active_world [Ok (due0 + 20); Ok (due0 + 20)] [Ok GC_AlreadyDead] [].
End CancelExample.
Import CancelExample.

(** [cancel_job] looks for the active run once, before it retries
    lost revision races.  When the supervisor starts the job in between, the
    command reports the job as cancelled before its start although its monitor
    has been started: nothing is signalled, the run may still begin, and until
    it ends no supervisor can start, because recovery refuses the active run of
    a terminal job. *)
Theorem cancel_race :
  exists job s', cancel_job (Ok tt) 3 prefix0 racing = (Ok job, s') /\
    job_state job = JS_Cancelled /\ cn_signalled s' = [] /\ len (dw_spawned supervised) = 1 /\
    is_ok (mark_run_running run_id0 token0 (due0 + 10) example_identity example_identity (lit "out") (lit "err")
             false (cn_world s')).1 = true /\
    (reconcile_startup ReconcileExample.alive policy0 (due0 + 50) 1000 (lit "boot") 0%nat (cn_world s')).1 =
      Err (SR_Store (SE_Corrupt (RS_Message (lit "active run belongs to a terminal or missing job")))).
Proof.
  assert (exists job s', cancel_job (Ok tt) 3 prefix0 racing = (Ok job, s') /\ s' = (cancel_job (Ok tt) 3 prefix0 racing).2 /\
    job_state job = JS_Cancelled) as (job & s' & E & Hs & Hj)
    by (eexists _, _; split; [vm_compute; reflexivity|]; split; [vm_compute; reflexivity|vm_compute; reflexivity]).
  exists job, s'. rewrite Hs in *. split; [exact E|]. split; [exact Hj|]. clear. vm_compute. done.
Qed.

