(* ===== verification/System.v ===== *)
(** The parts together: startup recovery, the execution of due jobs and the
    run monitor on one database. *)

From S2P Require Import Prelude Text Primitives Duration Identifier States Recurrence Execution JobAgg RunAgg.
From S2P Require Import Sqlite JobStore RunStore Reconcile Retention Progress Recovery Management Services Capture.
From S2P Require Import Heap Loop Config Monitor Daemon.

(** ** The start of the supervisor: [recover_startup_state] of [daemon.rs] *)

Inductive StartupError :=
| ST_Config (e : ConfigError)
| ST_Retention (e : RetentionError)
| ST_Clock (e : ClockError)
| ST_Recovery (e : StartupReconciliationError).

(** The heap, or [None] if its construction panics, which it does not: see
    [recovered_heap]. *)
Definition recover_startup_state `{Serde} `{ExecutionJson} {I}
  (classify : ProcessIdentitySnapshot -> I -> result str IdentityStatus * I) (config : result ConfigError Config)
  (wall elapsed : result ClockError Z) (boot : str) (i : I) (w : World)
  : result StartupError (option DeadlineHeap) * World :=
  match
    config ← map_err ST_Config config;
    retention ← map_err ST_Retention (retention_new (cf_history_days config) (cf_terminal_job_days config));
    wall ← map_err ST_Clock wall;
    elapsed ← map_err ST_Clock elapsed;
    Ok (retention, wall, elapsed)
  with
  | Err e => (Err e, w)
  | Ok (retention, wall, elapsed) =>
    match reconcile_startup classify retention wall elapsed boot i w with
    | (Err e, w) => (Err (ST_Recovery e), w)
    | (Ok (plan, _), w) => (Ok (rebuild_deadline_heap plan), w)
    end
  end.

(** With a configuration that has loaded and clocks that read, only the
    recovery itself can fail, and the heap holds the deadlines of its plan. *)
Lemma recovered_heap `{Serde} `{ExecutionJson} {I}
  (classify : ProcessIdentitySnapshot -> I -> result str IdentityStatus * I) tz c wall elapsed boot i w :
  config_ok tz c ->
  exists policy, retention_new (cf_history_days c) (cf_terminal_job_days c) = Ok policy /\
  let '(r, w') := recover_startup_state classify (Ok c) (Ok wall) (Ok elapsed) boot i w in
  match reconcile_startup classify policy wall elapsed boot i w with
  | (Err e, w1) => r = Err (ST_Recovery e) /\ w' = w1
  | (Ok (plan, _), w1) => w' = w1 /\ exists h, r = Ok (Some h) /\ heap_wf h /\ abs h = plan_ledger plan
  end.
Proof.
  intros Hc. pose proof (co_retention _ _ Hc) as Hr. unfold recover_startup_state. cbn [map_err mbind result_bind].
  destruct (retention_new (cf_history_days c) (cf_terminal_job_days c)) as [policy|]; [|done]. exists policy. split; [done|].
  cbn [map_err mbind result_bind].
  destruct (reconcile_startup classify policy wall elapsed boot i w) as [[[plan i']|e] w1]; [|by split].
  split; [done|]. destruct (rebuild_ok (wf := heap_wf) plan) as (h & -> & Hwf & Hp). eauto.
Qed.

Module SystemExample.
Export Daemon.DaemonExample Monitor.MonitorExample.
(** A recurring job, every minute with its anchor at 100 s and the policy
    [run-latest], and a supervisor that starts at 190 s: the occurrences of 100 s
    and 160 s were missed. *)
Definition late : UtcTimestamp := 190 * 10 ^ 9.
Definition next_point : UtcTimestamp := 220 * 10 ^ 9.
Definition overdue_world : World := step_to 1 JS_Waiting world0.
Definition recovered_world : World :=
  (reconcile_startup ReconcileExample.alive policy0 late 1000 (lit "boot") 0%nat overdue_world).2.

Definition input_at (now : UtcTimestamp) (n : Z) : DueInput :=
  mk_due_input (Ok tt) (Ok now) (mk_run_id n) (Ok (replicate 32 n)) (Ok tt) (Ok now).
Definition due_at (now : UtcTimestamp) (n : Z) (w : World) : result DaemonError unit * DaemonWorld :=
  execute_single_due_job (input_at now n) (job_id job0) (mk_daemon_world w []).

(** The recovered job is executed at once, and its command succeeds within the
    same minute. *)
Definition executed_world : World := dw_world (due_at late 1 recovered_world).2.
Definition command : MonitorInput :=
  mk_monitor_input (mi_artifacts succeeded) (Ok (Some example_identity)) (Ok example_identity) (Ok ([], []))
    (Ok (late + 10)) (mi_status succeeded) (Ok (late + 20)) (Ok (late + 30)) 1024 false.
Definition monitored : result MonitorProcessError (option (JobId * Revision)) * MonitorWorld :=
  run_monitor_process command (job_id_to_string (job_id job0)) (run_id_to_string (mk_run_id 1)) (Ok 1024) (Ok (late + 30))
    (mk_monitor_world executed_world []).
Definition finished_world : World := mw_world monitored.2.
End SystemExample.
Import SystemExample.

(** ** The recovery of a recurring job with the policy [run-latest] *)

(** What a job's row says. *)
Definition job_view (w : World) : list (str * option str) := (fun r => (jr_state r, jr_next_due r)) <$> db_jobs (w_db w).

