(* ===== verification/Session.v ===== *)
(** The life of a supervisor, [run_session_supervisor] of
    [src/supervisor/daemon.rs]: its start, the three threads that share a
    channel of events (the signal worker, the IPC server and the event loop)
    in any interleaving of their turns, and its end.

    The parts are those of [System] (startup recovery), [Ipc], [Loop] and
    [Daemon].  A turn of a thread is a [Step] with what the outside supplies;
    the channel is a queue that the loop reads and the others, and its own
    closure, append to. *)

From S2P Require Import Prelude Text Primitives Duration Identifier States Recurrence Execution JobAgg RunAgg.
From S2P Require Import Sqlite JobStore RunStore Reconcile Retention Recovery Process Services.
From S2P Require Import Heap Loop Config Frame Daemon Ipc System.

Definition IDLE_TIMEOUT : Duration := 30 * 10 ^ 9.

(** ** The signal worker: [watch_signals_with] *)

(** [SIGCHLD], or one of the stop signals. *)
Inductive Signal := SIG_Child | SIG_Stop.

(** One turn of its loop: what [sigwait] delivers and how the reaping ends.
    The result is [None] when it goes on; the worker announces its own failure
    like a stop signal. *)
Definition watch_turn (delivered : result str Signal) (reaped : result str unit)
  : option (result str unit) * list SupervisorEvent :=
  match delivered with
  | Err e => (Some (Err e), [SV_Shutdown])
  | Ok signal =>
    match reaped with
    | Err e => (Some (Err e), [SV_Shutdown])
    | Ok _ => match signal with SIG_Child => (None, []) | SIG_Stop => (Some (Ok tt), [SV_Shutdown]) end
    end
  end.

(** ** The state *)

Record Session := mk_session {
  sn_daemon : DaemonWorld;
  (** the channel *)
  sn_queue : list SupervisorEvent;
  sn_heap : DeadlineHeap;
  sn_retries : DueFailureRetries;
  (** the loop and the IPC server run; the result of the signal worker *)
  sn_looping : bool;
  sn_serving : bool;
  sn_signals : option (result str unit);
  (** seen by no code: the jobs scheduled and not yet executed without error,
      and the wakes that were scheduled *)
  sn_awaited : gset JobId;
  sn_wakes : list JobId
}.

Inductive Step :=
(** the IPC server accepts a connection, or cannot *)
| SP_Connection (c : result str Connection)
| SP_Signal (delivered : result str Signal) (reaped : result str unit)
(** the loop reads its clock, waits, and executes what is due *)
| SP_Turn (now wait_now : ElapsedInstant) (inputs : JobId -> DueInput) (now_elapsed : ElapsedInstant).

Definition event_jobs (events : list SupervisorEvent) : list JobId :=
  omap (fun e => match e with SV_Schedule id _ => Some id | SV_Shutdown => None end) events.

Section Session.
Context `{MessageJson} `{Serde} `{ExecutionJson}.
Variable daemon_text : DaemonError -> str.
(** [None] for a supervisor that a service manager started *)
Variable idle_timeout : option Duration.

(** A connection: [serve_connection].  The receiver of the channel lives until
    both threads are joined, so every event is accepted. *)
Definition connection_step (c : result str Connection) (s : Session) : Session :=
  match c with
  | Err _ =>
    mk_session (sn_daemon s) (sn_queue s) (sn_heap s) (sn_retries s) (sn_looping s) false (sn_signals s)
      (sn_awaited s) (sn_wakes s)
  | Ok c =>
    let c := mk_connection (cx_request c) (cx_writes c) (cx_wakes c) true in
    let '(continue, events, _, w) := serve_connection daemon_text c (sn_daemon s) in
    mk_session w (sn_queue s ++ events) (sn_heap s) (sn_retries s) (sn_looping s) continue (sn_signals s)
      (list_to_set (event_jobs events) ∪ sn_awaited s) (sn_wakes s ++ event_jobs events)
  end.

Definition signal_step (delivered : result str Signal) (reaped : result str unit) (s : Session) : Session :=
  let '(ended, events) := watch_turn delivered reaped in
  mk_session (sn_daemon s) (sn_queue s ++ events) (sn_heap s) (sn_retries s) (sn_looping s) (sn_serving s) ended
    (sn_awaited s) (sn_wakes s).

(** A turn of [run_loop] with its closure.  [recv] and [recv_timeout] return
    the head of the channel at once; on an empty channel the first blocks and
    the second ends with its time. *)
Definition loop_step (now wait_now : ElapsedInstant) (inputs : JobId -> DueInput) (now_elapsed : ElapsedInstant)
  (s : Session) : option Session :=
  let received := match sn_queue s with e :: _ => RV_Event e | [] => RV_Timeout end in
  '(outcome, heap, stop) ← run_turn idle_timeout (sn_heap s) (mk_turn now wait_now received);
  match outcome with
  | OC_Fired _ due =>
    let jobs := map (fun id => (inputs id, id)) due in
    let failed := fst <$> (execute_due_jobs jobs (sn_daemon s)).1 in
    let '(events, retries, w) := on_due jobs now_elapsed (sn_retries s) (sn_daemon s) in
    Some (mk_session w (sn_queue s ++ events) heap retries (sn_looping s) (sn_serving s) (sn_signals s)
      (sn_awaited s ∖ (list_to_set due ∖ list_to_set failed)) (sn_wakes s))
  | OC_Waited wait _ =>
    match sn_queue s, wait with
    | [], None => None
    | _, _ =>
      Some (mk_session (sn_daemon s) (tail (sn_queue s)) heap (sn_retries s) (negb stop) (sn_serving s) (sn_signals s)
        (sn_awaited s) (sn_wakes s))
    end
  end.

(** A turn of one of the threads that still run. *)
Definition session_step (s : Session) (step : Step) : option Session :=
  match step with
  | SP_Connection c => if sn_serving s then Some (connection_step c s) else None
  | SP_Signal delivered reaped =>
    match sn_signals s with None => Some (signal_step delivered reaped s) | Some _ => None end
  | SP_Turn now wait_now inputs now_elapsed => if sn_looping s then loop_step now wait_now inputs now_elapsed s else None
  end.
Fixpoint session_run (s : Session) (steps : list Step) : option Session :=
  match steps with
  | [] => Some s
  | step :: steps => s ← session_step s step; session_run s steps
  end.

(** Both helper threads have ended after the loop and can be joined. *)
Definition session_over (s : Session) : bool := negb (sn_looping s) && negb (sn_serving s) && is_some (sn_signals s).
End Session.

(** ** The start *)

Inductive SessionError :=
| SNE_Io (message : str)
| SNE_Clock (e : ClockError)
| SNE_Process (e : Identity.ProcessError)
| SNE_MissingIdentity
| SNE_Ipc (e : IpcError)
| SNE_Store (e : StoreError)
| SNE_Startup (e : StartupError).

(** What each step of the start answers. *)
Record StartInput := mk_start_input {
  si_private_dir : result str unit;
  si_boot : result ClockError str;
  si_self : result Identity.ProcessError (option ProcessIdentitySnapshot);
  (** [RuntimeGuard::acquire]: [Lock] *)
  si_acquire : ProcessIdentitySnapshot -> result IpcError unit;
  si_open : result StoreError unit;
  si_config : result ConfigError Config;
  si_wall : result ClockError UtcTimestamp;
  si_elapsed : result ClockError ElapsedInstant;
  si_listener : result str unit;
  si_fallback : result ClockError ElapsedInstant;
  si_mask : result str unit;
  si_signals : result str unit;
  si_ipc : result str unit;
  (** the signal worker stopped after the IPC thread could not start *)
  si_stop : result str unit
}.

Definition initial_session (heap : DeadlineHeap) (w : World) : Session :=
  mk_session (mk_daemon_world w []) [] heap ∅ true true None (dom (abs heap)) [].

Definition start_session `{Serde} `{ExecutionJson} {I}
  (classify : ProcessIdentitySnapshot -> I -> result str IdentityStatus * I) (i : StartInput) (x : I) (w : World)
  : result SessionError (option Session) * World :=
  match
    _ ← map_err SNE_Io (si_private_dir i);
    boot ← map_err SNE_Clock (si_boot i);
    identity ← map_err SNE_Process (si_self i);
    identity ← ok_or identity SNE_MissingIdentity;
    _ ← map_err SNE_Ipc (si_acquire i identity);
    _ ← map_err SNE_Store (si_open i);
    Ok boot
  with
  | Err e => (Err e, w)
  | Ok boot =>
    match recover_startup_state classify (si_config i) (si_wall i) (si_elapsed i) boot x w with
    | (Err e, w) => (Err (SNE_Startup e), w)
    | (Ok heap, w) =>
      (_ ← map_err SNE_Io (si_listener i);
       _ ← map_err SNE_Clock (si_fallback i);
       _ ← map_err SNE_Io (si_mask i);
       _ ← map_err SNE_Io (si_signals i);
       match si_ipc i with
       | Ok _ => Ok (heap ← heap; Some (initial_session heap w))
       | Err error => _ ← map_err SNE_Io (si_stop i); Err (SNE_Io error)
       end, w)
    end
  end.

(** ** Properties *)

Section Kept.
Context `{MessageJson} `{Serde} `{ExecutionJson}.
Variable daemon_text : DaemonError -> str.
Variable idle_timeout : option Duration.

(** What a session keeps: every job that is awaited is in the heap or on its
    way through the channel. *)
Definition kept (s : Session) : Prop :=
  heap_wf (sn_heap s) /\
  forall id, id ∈ sn_awaited s -> (exists d, abs (sn_heap s) !! id = Some d) \/ id ∈ event_jobs (sn_queue s).

Lemma event_jobs_app a b : event_jobs (a ++ b) = event_jobs a ++ event_jobs b.
Proof. apply omap_app. Qed.
Lemma event_jobs_scheduled {A} (l : list A) (f : A -> JobId) (d : A -> ElapsedInstant) :
  event_jobs ((fun x => SV_Schedule (f x) (d x)) <$> l) = f <$> l.
Proof. induction l as [|x l IH]; [done|]. cbn. by rewrite <- IH. Qed.

Lemma connection_kept c s : kept s -> kept (connection_step daemon_text c s).
Proof.
  intros [Hwf Hk]. destruct c as [c|e]; [|by split]. unfold connection_step.
  destruct (serve_connection _ _ _) as [[[continue events] reply] w]. split; [done|]. cbn [sn_awaited sn_heap sn_queue].
  intros id. rewrite event_jobs_app, elem_of_union, elem_of_list_to_set, elem_of_app. intros [?|[?|?]%Hk]; auto.
Qed.
Lemma signal_kept delivered reaped s : kept s -> kept (signal_step delivered reaped s).
Proof.
  intros [Hwf Hk]. unfold signal_step. destruct (watch_turn delivered reaped) as [ended events]. split; [done|].
  cbn [sn_awaited sn_heap sn_queue]. intros id. rewrite event_jobs_app, elem_of_app. intros [?|?]%Hk; auto.
Qed.

Lemma on_due_jobs inputs due now retries w :
  NoDup due ->
  let jobs := map (fun id => (inputs id, id)) due in
  event_jobs (on_due jobs now retries w).1.1 = fst <$> (execute_due_jobs jobs w).1 /\
  (on_due jobs now retries w).2 = (execute_due_jobs jobs w).2.
Proof.
  intros Hdup jobs. assert (Hids : snd <$> jobs = due) by (subst jobs; clear; induction due as [|x due IH]; [done|]; cbn; by f_equal).
  destruct (execute_due_jobs jobs w) as [failures w'] eqn:E. split.
  - rewrite (retries_never_exhaust jobs now retries w failures w'); [|by rewrite Hids|done].
    apply (event_jobs_scheduled failures fst (fun _ => now + 2000000000)).
  - unfold on_due. rewrite E. by destruct (requeue_failures now failures _).
Qed.

Lemma loop_kept now wait_now inputs now_elapsed s s' :
  kept s -> loop_step idle_timeout now wait_now inputs now_elapsed s = Some s' -> kept s'.
Proof.
  intros [Hwf Hk]. unfold loop_step. set (t := mk_turn now wait_now _).
  destruct (run_turn_ok (wf := heap_wf) (pending := abs) idle_timeout (sn_heap s) t Hwf) as (o & h & stop & -> & Hwf' & Hp & Ho & _).
  cbn [mbind option_bind]. destruct o as [fired due|wait received].
  - destruct Ho as (_ & _ & Hdup & _ & _).
    pose proof (on_due_jobs inputs due now_elapsed (sn_retries s) (sn_daemon s) Hdup) as [He _].
    destruct (on_due _ _ _ _) as [[events retries] w]. cbn [fst] in He. intros [= <-]. split; [done|].
    cbn [sn_awaited sn_heap sn_queue]. intros id. rewrite event_jobs_app, elem_of_app, He, Hp. cbn [ledger_step].
    rewrite !elem_of_difference, !elem_of_list_to_set. intros [Ha Hn].
    destruct (decide (id ∈ fst <$> (execute_due_jobs (map (fun id0 => (inputs id0, id0)) due) (sn_daemon s)).1)) as [?|Hf]; [by right; right|].
    destruct (Hk id Ha) as [[d Hd]|Hq]; [|by right; left].
    left. exists d. rewrite foldr_delete_lookup. rewrite decide_False; [done|]. tauto.
  - destruct Ho as (Hr & _ & _). cbn [turn_received t] in Hr.
    assert (kept (mk_session (sn_daemon s) (tail (sn_queue s)) h (sn_retries s) (negb stop) (sn_serving s) (sn_signals s)
      (sn_awaited s) (sn_wakes s))) as Hkept.
    { split; [done|]. cbn [sn_awaited sn_heap sn_queue]. intros id Ha. rewrite Hp. subst received.
      destruct (sn_queue s) as [|e q] eqn:Eq; cbn [tail ledger_step].
      - destruct (Hk id Ha) as [?|Hq]; [by left|]. by apply elem_of_nil in Hq.
      - destruct e as [id' d|].
        + destruct (decide (id = id')) as [->|Hne]; [left; exists d; apply lookup_insert_eq|].
          destruct (Hk id Ha) as [[d' Hd]|Hq]; [left; exists d'; by rewrite lookup_insert_ne|right].
          cbn in Hq. by apply elem_of_cons in Hq as [?|?].
        + exact (Hk id Ha). }
    destruct (sn_queue s); [destruct wait; [|done]|]; by intros [= <-].
Qed.

Lemma session_step_kept s step s' : kept s -> session_step daemon_text idle_timeout s step = Some s' -> kept s'.
Proof.
  intros Hk. destruct step as [c|delivered reaped|now wait_now inputs elapsed]; cbn [session_step].
  - destruct (sn_serving s); [|done]. intros [= <-]. by apply connection_kept.
  - destruct (sn_signals s); [done|]. intros [= <-]. by apply signal_kept.
  - destruct (sn_looping s); [|done]. by apply loop_kept.
Qed.
Lemma session_run_kept steps s s' : kept s -> session_run daemon_text idle_timeout s steps = Some s' -> kept s'.
Proof.
  revert s. induction steps as [|step steps IH]; intros s Hk; cbn [session_run]; [by intros [= <-]|].
  destruct (session_step daemon_text idle_timeout s step) as [s1|] eqn:E; [|done]. cbn. apply IH. by eapply session_step_kept.
Qed.

(** *** The start *)

Lemma start_session_ok {I} (classify : ProcessIdentitySnapshot -> I -> result str IdentityStatus * I) i x w s w' :
  start_session classify i x w = (Ok (Some s), w') ->
  exists boot heap config, si_boot i = Ok boot /\ si_config i = Ok config /\
    recover_startup_state classify (Ok config) (si_wall i) (si_elapsed i) boot x w = (Ok (Some heap), w') /\
    s = initial_session heap w'.
Proof.
  unfold start_session. destruct (mbind _ _) as [boot|e] eqn:E; [|done].
  apply bind_ok in E as (_ & _ & (b & Hb%map_err_ok & (id & _ & (id' & _ & (_ & _ & (_ & _ & [= ->])%bind_ok)%bind_ok)%bind_ok)%bind_ok)%bind_ok).
  destruct (recover_startup_state classify (si_config i) _ _ _ _ _) as [[heap|e] w1] eqn:Er; [|done]. intros [= Hs <-].
  apply bind_ok in Hs as (_ & _ & (_ & _ & (_ & _ & (_ & _ & Hs)%bind_ok)%bind_ok)%bind_ok).
  destruct (si_ipc i) as [[]|]; [|by destruct (si_stop i)]. injection Hs as Hs. destruct heap as [heap|]; [|done].
  injection Hs as <-. unfold recover_startup_state in Er. destruct (si_config i) as [config|]; [|done].
  exists boot, heap, config. split_and!; [done|done|exact Er|done].
Qed.

Lemma recover_heap_wf {I} (classify : ProcessIdentitySnapshot -> I -> result str IdentityStatus * I) config wall elapsed boot x w heap w' :
  recover_startup_state classify config wall elapsed boot x w = (Ok (Some heap), w') -> heap_wf heap.
Proof.
  unfold recover_startup_state. destruct (mbind _ _) as [[[retention t] el]|]; [|done].
  destruct (reconcile_startup _ _ _ _ _ _ _) as [[[plan y]|] w1]; [|done]. intros [= Hr _].
  destruct (rebuild_ok (wf := heap_wf) (pending := abs) plan) as (h & Hr' & Hwf & _). rewrite Hr in Hr'. by injection Hr' as <-.
Qed.

Lemma initial_kept heap w : heap_wf heap -> kept (initial_session heap w).
Proof. intros Hwf. split; [done|]. cbn. intros id [d Hd]%elem_of_dom. left. by exists d. Qed.

(** *** When a job stops being awaited *)

Lemma executed_due jobs w id :
  id ∈ snd <$> jobs -> id ∉ fst <$> (execute_due_jobs jobs w).1 ->
  exists input w1 w2, (input, id) ∈ jobs /\ execute_single_due_job input id w1 = (Ok tt, w2).
Proof.
  revert w. induction jobs as [|[input id'] jobs IH]; intros w; [by intros ?%elem_of_nil|]. cbn [execute_due_jobs].
  destruct (execute_single_due_job input id' w) as [r w1] eqn:E. specialize (IH w1).
  destruct (execute_due_jobs jobs w1) as [failures w2]. cbn [fst snd fmap list_fmap] in *. intros [->|Hin]%elem_of_cons Hf.
  - destruct r as [[]|e]; [|exfalso; apply Hf; by left]. exists input, w, w1. split; [by left|done].
  - destruct IH as (input' & w3 & w4 & ? & ?); [done|destruct r; [done|]; intros ?; apply Hf; by right|].
    exists input', w3, w4. split; [by right|done].
Qed.

(** The step executes the job, whose deadline in the heap has passed. *)
Definition executes (s : Session) (step : Step) (id : JobId) : Prop :=
  match step with
  | SP_Turn now _ inputs _ =>
    exists d w1 w2, abs (sn_heap s) !! id = Some d /\ d <= now /\ execute_single_due_job (inputs id) id w1 = (Ok tt, w2)
  | _ => False
  end.

Lemma awaited_until s step s' id :
  heap_wf (sn_heap s) -> session_step daemon_text idle_timeout s step = Some s' -> id ∈ sn_awaited s -> id ∉ sn_awaited s' ->
  executes s step id.
Proof.
  intros Hwf. destruct step as [c|delivered reaped|now wait_now inputs elapsed]; cbn [session_step].
  - destruct (sn_serving s); [|done]. intros [= <-]. destruct c as [c|e]; [|done]. unfold connection_step.
    destruct (serve_connection _ _ _) as [[[continue events] reply] w]. cbn [sn_awaited]. set_solver.
  - destruct (sn_signals s); [done|]. intros [= <-]. unfold signal_step. by destruct (watch_turn _ _).
  - destruct (sn_looping s); [|done]. unfold loop_step. set (t := mk_turn now wait_now _).
    destruct (run_turn_ok (wf := heap_wf) (pending := abs) idle_timeout (sn_heap s) t Hwf) as (o & h & stop & -> & _ & _ & Ho & _).
    cbn [mbind option_bind]. destruct o as [fired due|wait received].
    + destruct Ho as (-> & _ & _ & Hdue & _). destruct (on_due _ _ _ _) as [[events retries] w]. intros [= <-].
      cbn [sn_awaited executes]. rewrite elem_of_difference, elem_of_difference, !elem_of_list_to_set. intros Ha Hn.
      destruct (decide (id ∈ due)) as [Hin|]; [|tauto].
      destruct (decide (id ∈ fst <$> (execute_due_jobs (map (fun id0 => (inputs id0, id0)) due) (sn_daemon s)).1)) as [|Hf]; [tauto|].
      destruct (executed_due (map (fun id0 => (inputs id0, id0)) due) (sn_daemon s) id) as (input & w1 & w2 & Hi & E); [|done|].
      { apply list_elem_of_fmap. exists (inputs id, id). split; [done|]. apply list_elem_of_In. apply (in_map (fun id0 => (inputs id0, id0))), list_elem_of_In, Hin. }
      apply list_elem_of_In, in_map_iff in Hi as (id0 & [= <- <-] & _).
      apply Hdue in Hin as (d & Hd & Hle). by exists d, w1, w2.
    + destruct (sn_queue s); [destruct wait; [|done]|]; intros [= <-]; done.
Qed.

(** *** Monitors *)

Lemma quiet_load_wake input id : quiet (load_wake input id).
Proof.
  unfold load_wake. apply quiet_bind; [apply quiet_result|intros _].
  apply quiet_bind; [apply quiet_store, keeps_load_job|intros found]. apply quiet_bind; [apply quiet_result|intros job].
  destruct (job_is_terminal _); [apply quiet_ret|].
  apply quiet_bind; [apply quiet_result|intros now]. apply quiet_bind; [apply quiet_result|intros el].
  apply quiet_bind; [apply quiet_result|intros d]. apply quiet_ret.
Qed.
Lemma quiet_load_wakes inputs id e : quiet (load_wake_loop inputs id e).
Proof.
  revert e. induction inputs as [|input inputs IH]; intros e w r w' Hw; cbn [load_wake_loop]; [by apply quiet_result|].
  pose proof (quiet_load_wake input id w) as Hl. destruct (load_wake input id w) as [[d|e'] w1].
  - intros [= <- <-]. by eapply Hl.
  - destruct (Hl _ _ Hw eq_refl) as [Hs1 Hw1].
    assert (load_wake_loop inputs id e' w1 = (r, w') -> spawns w w' [] /\ claims_env (dw_world w')) as Hgo.
    { intros E. destruct (IH e' w1 r w' Hw1 E) as [Hs2 Hw2]. split; [|done]. exact (spawns_trans _ _ _ _ _ Hs1 Hs2). }
    destruct e'; try exact Hgo. intros [= <- <-]. by split.
Qed.

Definition session_spawns (s s' : Session) : Prop :=
  claims_env (dw_world (sn_daemon s)) ->
  exists new, spawns (sn_daemon s) (sn_daemon s') new /\ claims_env (dw_world (sn_daemon s')).

Lemma session_step_spawns s step s' :
  heap_wf (sn_heap s) -> session_step daemon_text idle_timeout s step = Some s' -> session_spawns s s'.
Proof.
  assert (Hsame : forall w, claims_env (dw_world w) -> exists new, spawns w w new /\ claims_env (dw_world w))
    by (intros w Hw; exists []; split; [apply spawns_refl|done]).
  intros Hwf E Hw. destruct step as [c|delivered reaped|now wait_now inputs elapsed]; cbn [session_step] in E.
  - destruct (sn_serving s); [|done]. injection E as <-. destruct c as [c|e]; [|by apply Hsame].
    unfold connection_step, serve_connection. cbn [cx_request cx_wakes cx_receiver].
    destruct ((read_frame (cx_request c)).1) as [[protocol id revision| | |]|]; try by apply Hsame.
    destruct (negb (protocol =? 1)); [by apply Hsame|]. unfold load_wake_with_retry.
    pose proof (quiet_load_wakes (take LOAD_ATTEMPTS (cx_wakes c)) id DE_MissingJob (sn_daemon s)) as Hq.
    destruct (load_wake_loop _ _ _ _) as [[[d|]|e] w1]; cbn [sn_daemon]; exists []; by eapply Hq.
  - destruct (sn_signals s); [done|]. injection E as <-. unfold signal_step. destruct (watch_turn _ _). by apply Hsame.
  - destruct (sn_looping s); [|done]. unfold loop_step in E. set (t := mk_turn now wait_now _) in E.
    destruct (run_turn_ok (wf := heap_wf) (pending := abs) idle_timeout (sn_heap s) t Hwf) as (o & h & stop & Er & _ & _ & Ho & _).
    rewrite Er in E. cbn [mbind option_bind] in E. destruct o as [fired due|wait received].
    + destruct Ho as (_ & _ & Hdup & _ & _).
      pose proof (on_due_jobs inputs due elapsed (sn_retries s) (sn_daemon s) Hdup) as [_ Hd].
      destruct (on_due _ _ _ _) as [[events retries] w]. cbn [snd] in Hd. injection E as <-. cbn [sn_daemon]. subst w.
      destruct (execute_due_jobs _ _) as [failures w1] eqn:Ex. by eapply execute_due_fresh.
    + destruct (sn_queue s); [destruct wait; [|done]|]; injection E as <-; by apply Hsame.
Qed.

Lemma session_run_spawns steps s s' :
  kept s -> session_run daemon_text idle_timeout s steps = Some s' -> session_spawns s s'.
Proof.
  revert s. induction steps as [|step steps IH]; intros s Hk; cbn [session_run].
  - intros [= <-] Hw. exists []. split; [apply spawns_refl|done].
  - destruct (session_step daemon_text idle_timeout s step) as [s1|] eqn:E; [|done]. cbn. intros Hr Hw.
    destruct (session_step_spawns _ _ _ (proj1 Hk) E Hw) as (n1 & Hs1 & Hw1).
    destruct (IH s1 (session_step_kept _ _ _ Hk E) Hr Hw1) as (n2 & Hs2 & Hw2). exists (n1 ++ n2). split; [|done].
    by eapply spawns_trans.
Qed.

(** *** Progress of the loop *)

Section Progress.
Variable now : ElapsedInstant.
Variable inputs : JobId -> DueInput.
Variable now_elapsed : ElapsedInstant.

Abbreviation step := (loop_step idle_timeout now now inputs now_elapsed).
(** The next turn hands the job to the execution. *)
Definition fires (s : Session) (id : JobId) : Prop :=
  exists due h, run_turn idle_timeout (sn_heap s) (mk_turn now now (match sn_queue s with e :: _ => RV_Event e | [] => RV_Timeout end)) =
    Some (OC_Fired now due, h, false) /\ id ∈ due.

(** With a deadline reached, the turn fires everything reached. *)
Lemma turn_fires s id d :
  heap_wf (sn_heap s) -> (forall j dj, abs (sn_heap s) !! j = Some dj -> dj <= now) -> abs (sn_heap s) !! id = Some d ->
  fires s id /\
  exists s', step s = Some s' /\ heap_wf (sn_heap s') /\ abs (sn_heap s') = ∅ /\ sn_looping s' = sn_looping s /\
    exists events, sn_queue s' = sn_queue s ++ events /\ SV_Shutdown ∉ events.
Proof.
  intros Hwf Hall Hid. unfold loop_step, fires. set (t := mk_turn now now _).
  destruct (run_turn_ok (wf := heap_wf) (pending := abs) idle_timeout (sn_heap s) t Hwf) as (o & h & stop & Er & Hwf' & Hp & Ho & Hstop).
  rewrite Er. cbn [mbind option_bind]. destruct o as [fired due|wait received].
  2: { destruct Ho as (_ & Hlater & _). specialize (Hlater id d Hid). specialize (Hall id d Hid). cbn in Hlater. lia. }
  destruct Ho as (-> & _ & Hdup & Hdue & _). destruct stop; [by destruct (proj1 Hstop eq_refl)|].
  split; [exists due, h; split; [done|]; apply Hdue; exists d; split; [done|by eapply Hall]|].
  assert (Hempty : abs h = ∅).
  { apply map_empty. intros j. rewrite Hp. cbn [ledger_step]. rewrite foldr_delete_lookup. destruct (decide (j ∈ due)) as [|Hj]; [done|].
    destruct (abs (sn_heap s) !! j) as [dj|] eqn:Ej; [|done]. exfalso. apply Hj, Hdue. exists dj. split; [done|by eapply Hall]. }
  set (jobs := map _ due). destruct (execute_due_jobs jobs (sn_daemon s)) as [failures w'] eqn:Ex.
  pose proof (retries_never_exhaust jobs now_elapsed (sn_retries s) (sn_daemon s) failures w') as Hev.
  destruct (on_due _ _ _ _) as [[events retries] w]. eexists. split; [reflexivity|]. cbn [sn_heap sn_looping sn_queue]. split_and!; [done..|].
  exists events. split; [done|]. cbn [fst] in Hev. rewrite Hev.
  - by intros (x & ? & _)%list_elem_of_fmap.
  - subst jobs. clear -Hdup. assert (E : snd <$> map (fun id0 => (inputs id0, id0)) due = due)
      by (clear; induction due as [|x due IH]; [done|]; cbn; by f_equal). by rewrite E.
  - done.
Qed.

(** With an empty heap it takes the next event. *)
Lemma turn_receives s id d q :
  heap_wf (sn_heap s) -> abs (sn_heap s) = ∅ -> sn_queue s = SV_Schedule id d :: q ->
  exists s', step s = Some s' /\ heap_wf (sn_heap s') /\ abs (sn_heap s') = {[id := d]} /\ sn_looping s' = true /\ sn_queue s' = q.
Proof.
  intros Hwf He Hq. unfold loop_step. rewrite Hq. set (t := mk_turn now now _).
  destruct (run_turn_ok (wf := heap_wf) (pending := abs) idle_timeout (sn_heap s) t Hwf) as (o & h & stop & -> & Hwf' & Hp & Ho & Hstop).
  cbn [mbind option_bind]. destruct o as [fired due|wait received].
  { destruct Ho as (_ & Hne & _ & Hdue & _). exfalso. destruct due as [|x due]; [done|].
    destruct (proj1 (Hdue x) ltac:(by left)) as (dx & Hx & _). by rewrite He, lookup_empty in Hx. }
  destruct Ho as (Hr & _ & _). cbn [turn_received t] in Hr. subst received. cbn [ledger_step] in Hp. rewrite He in Hp.
  eexists. split; [reflexivity|]. cbn [sn_heap sn_looping sn_queue]. split_and!; [done|by rewrite Hp|..|done].
  destruct stop; [|done]. by destruct (proj1 Hstop eq_refl).
Qed.

Definition turn : Step := SP_Turn now now inputs now_elapsed.
Lemma session_run_app a b s : session_run daemon_text idle_timeout s (a ++ b) =
  s ← session_run daemon_text idle_timeout s a; session_run daemon_text idle_timeout s b.
Proof.
  revert s. induction a as [|x a IH]; intros s; [done|]. cbn [app session_run].
  destruct (session_step daemon_text idle_timeout s x) as [s1|]; [apply IH|done].
Qed.
Lemma session_run_one s s' : sn_looping s = true -> step s = Some s' -> session_run daemon_text idle_timeout s [turn] = Some s'.
Proof. intros Hl E. cbn [session_run session_step turn]. by rewrite Hl, E. Qed.

(** What is due in the heap leaves it in one turn. *)
Lemma heap_flushed s :
  heap_wf (sn_heap s) -> sn_looping s = true -> (forall j dj, abs (sn_heap s) !! j = Some dj -> dj <= now) ->
  exists n s', (n <= 1)%nat /\ session_run daemon_text idle_timeout s (replicate n turn) = Some s' /\
    heap_wf (sn_heap s') /\ abs (sn_heap s') = ∅ /\ sn_looping s' = true /\ exists events, sn_queue s' = sn_queue s ++ events.
Proof.
  intros Hwf Hl Hheap. destruct (map_choose_or_empty (abs (sn_heap s))) as [(id & d & Hid)|He].
  - destruct (turn_fires s id d Hwf Hheap Hid) as (_ & s' & E & Hwf' & He & Hl' & events & Hq & _).
    exists 1%nat, s'. split_and!; [lia|by apply session_run_one|done|done|congruence|by exists events].
  - exists 0%nat, s. split_and!; [lia|done|done|done|done|]. exists []. by rewrite app_nil_r.
Qed.

(** Every event of the channel is executed after boundedly many turns at a time
    when it and all before it have come due. *)
Lemma channel_fires q1 id d q2 s :
  heap_wf (sn_heap s) -> sn_looping s = true -> sn_queue s = q1 ++ SV_Schedule id d :: q2 -> SV_Shutdown ∉ q1 ->
  (forall j dj, abs (sn_heap s) !! j = Some dj -> dj <= now) ->
  (forall j dj, SV_Schedule j dj ∈ q1 -> dj <= now) -> d <= now ->
  exists n s', (n <= 2 * length q1 + 2)%nat /\ session_run daemon_text idle_timeout s (replicate n turn) = Some s' /\
    sn_looping s' = true /\ fires s' id.
Proof.
  revert s q2. induction q1 as [|e q1 IH]; intros s q2 Hwf Hl Hq Hns Hheap Hdue Hd;
    destruct (heap_flushed s Hwf Hl Hheap) as (m & s1 & Hm & Hrun & Hwf1 & He1 & Hl1 & events & Hq1); rewrite Hq in Hq1; cbn [app] in Hq1.
  - destruct (turn_receives s1 id d (q2 ++ events) Hwf1 He1 Hq1) as (s2 & E2 & Hwf2 & He2 & Hl2 & _).
    exists (m + 1)%nat, s2. split; [cbn; lia|]. rewrite replicate_add, session_run_app, Hrun. split; [by apply session_run_one|].
    split; [done|]. apply (turn_fires s2 id d); [done| |by rewrite He2, lookup_singleton_eq].
    intros j dj. rewrite He2. by intros [<- <-]%lookup_singleton_Some.
  - destruct e as [j dj|]; [|by destruct Hns; left]. rewrite <- app_assoc in Hq1. cbn [app] in Hq1.
    destruct (turn_receives s1 j dj _ Hwf1 He1 Hq1) as (s2 & E2 & Hwf2 & He2 & Hl2 & Hq2).
    destruct (IH s2 (q2 ++ events)) as (n & s3 & Hn & Hrun3 & Hl3 & Hf); [done|done|done| | | |done|].
    + intros ?. apply Hns. by right.
    + intros k dk. rewrite He2. intros [<- <-]%lookup_singleton_Some. apply (Hdue j). by left.
    + intros k dk Hk. apply (Hdue k). by right.
    + exists (m + (1 + n))%nat, s3. split; [cbn [length]; lia|]. split; [|done].
      rewrite replicate_add, session_run_app, Hrun. cbn [mbind option_bind]. rewrite replicate_add, session_run_app.
      change (replicate 1 turn) with [turn]. by rewrite (session_run_one s1 s2 Hl1 E2).
Qed.
End Progress.
End Kept.


(** ** Witnesses *)

Module SessionExample.
Export RecoveryExample IpcExample ConfigExample.
Definition start0 : StartInput :=
  mk_start_input (Ok tt) (Ok (lit "boot")) (Ok (Some (mk_process_identity (lit "boot") 7 1 7))) (fun _ => Ok tt) (Ok tt)
    (Ok config0) (Ok 0) (Ok 0) (Ok tt) (Ok 0) (Ok tt) (Ok tt) (Ok tt) (Ok tt).
Definition idle0 : option Duration := Some IDLE_TIMEOUT.
Definition wake_bytes : list Z := request_bytes client0 (job_id job0) (job_revision job0).
Definition shutdown_bytes : list Z := sk_bytes (write_frame (mk_sink [] []) (Shutdown 1)).2.
Definition wake_step : Step := SP_Connection (Ok (mk_connection wake_bytes [] wakes0 true)).
Definition stop_steps : list Step :=
  [SP_Connection (Ok (mk_connection shutdown_bytes [] [] true)); SP_Signal (Ok SIG_Stop) (Ok tt)].
End SessionExample.
Import SessionExample.

(** A session recovers a job, receives its wake, and executes it once, when due. *)
Example session_ex :
  match (start_session dead start0 O world0).1 with
  | Ok (Some s) =>
    (fun s => (elements (sn_awaited s), len (dw_spawned (sn_daemon s)), sn_looping s)) <$>
      session_run text0 idle0 s [wake_step; SP_Turn 0 0 (fun _ => input0) 0; SP_Turn (10 ^ 12) (10 ^ 12) (fun _ => input0) (10 ^ 12)]
  | _ => None
  end = Some ([], 1, true).
Proof. vm_compute. reflexivity. Qed.

(** The end of an idle session: the loop has decided to end when a submission
    reaches the server, which schedules its job and acknowledges it, and the
    supervisor ends with the job in its channel. *)
Example idle_race_ex :
  let s0 := initial_session heap_empty world0 in
  let steps := SP_Turn 0 0 (fun _ => input0) 0 :: wake_step :: stop_steps in
  match session_run text0 idle0 s0 steps with
  | Some s => session_over s = true /\ event_jobs (sn_queue s) = [job_id job0] /\ elements (sn_awaited s) = [job_id job0] /\
              dw_spawned (sn_daemon s) = []
  | None => False
  end /\
  send client0 (serve_peer text0 wakes0 (mk_daemon_world world0 [])) (job_id job0) (job_revision job0) = Ok tt.
Proof. vm_compute. repeat split. Qed.

