(* ===== verification/Completion.v ===== *)
(** A due job from its deadline to its end: [execute_single_due_job] of
    [supervisor/daemon.rs], then the monitor process that it has started,
    [run_monitor_process] of [run_monitor/mod.rs], on one database that nobody
    else writes.

    The theorems of [Session] and [Daemon] cover interference; this file is
    what an execution achieves when there is none: a step of each process on a
    quiet database, then [due_job_completes]. *)

From S2P Require Import Prelude Text Primitives Duration Identifier States Recurrence Execution JobAgg RunAgg.
From S2P Require Import Sqlite JobStore RunStore Reconcile Retention Progress JobProgress Recovery Management Services Capture.
From S2P Require Import Heap Loop Monitor Daemon.

Section Completion.
Context `{Serde} `{ExecutionJson}.

(** ** Steps on a quiet database *)

Lemma daemon_step {A B} (m : Store A) (k : A -> Daemon B) db s a db' :
  m false (quiet_world db) = (Ok a, quiet_world db') ->
  (from_store m ≫= k) (mk_daemon_world (quiet_world db) s) = k a (mk_daemon_world (quiet_world db') s).
Proof. intros Hm. unfold mbind, daemon_bind, from_store. cbn [dw_world dw_spawned]. by rewrite Hm. Qed.

Lemma daemon_pure {A B} (a : A) (k : A -> Daemon B) w : (from_result (Ok a) ≫= k) w = k a w.
Proof. done. Qed.

(** What the transactions on jobs keep of the runs, and conversely. *)
Lemma run_table_runs db db' : db_runs db' = db_runs db -> run_table_ok db -> run_table_ok db'.
Proof. intros Hr []. split; by rewrite Hr. Qed.
Lemma stored_run_runs db db' run : db_runs db' = db_runs db -> stored_run db run -> stored_run db' run.
Proof. intros Hr (row & Hf & Hd). exists row. split; [|done]. unfold find_run. by rewrite Hr. Qed.
Lemma fresh_claim_runs db db' fresh token : db_runs db' = db_runs db -> fresh_claim db fresh token -> fresh_claim db' fresh token.
Proof. intros Hr (? & ? & ?). split_and!; [done..|]. by rewrite Hr. Qed.
Lemma occurrence_runs db db' job due : db_runs db' = db_runs db -> occurrence_claimed job due db' = occurrence_claimed job due db.
Proof. intros Hr. unfold occurrence_claimed. by rewrite Hr. Qed.
Lemma last_sequence_runs db db' job : db_runs db' = db_runs db -> last_sequence job db' = last_sequence job db.
Proof. intros Hr. unfold last_sequence. by rewrite Hr. Qed.
Lemma job_table_jobs db db' : db_jobs db' = db_jobs db -> job_table_ok db -> job_table_ok db'.
Proof. intros Hj []. split; by rewrite Hj. Qed.
Lemma stored_job_jobs db db' job : db_jobs db' = db_jobs db -> stored_job db job -> stored_job db' job.
Proof. intros Hj (row & Hf & Hd). exists row. split; [|done]. unfold find_job. by rewrite Hj. Qed.

(** A job after the supervisor has moved it to a state [n] revisions later. *)
Definition moved (job : Job) (n : Z) (to : JobState) (now : UtcTimestamp) : Job :=
  job_set_state job (job_revision job + n) to now.

Lemma moved_twice job n m to to' now now' : moved (moved job n to now) m to' now' = moved job (n + m) to' now'.
Proof. unfold moved. destruct job. cbn. by rewrite Z.add_assoc. Qed.

(** A transition on a quiet database: the tables stay well formed, the runs
    are untouched. *)
Definition tables_ok (db : Db) : Prop := job_table_ok db /\ run_table_ok db.

Lemma transition_step db job to recurring actor reason now :
  tables_ok db -> stored_job db job -> ts_ok now -> job_updated_at job <= now -> job_revision job + 1 <= i64_max ->
  job_one_shot_legal (job_state job) to || recurring && job_recurring_legal (job_state job) to = true ->
  reason_ok reason = true ->
  exists db', transition_job (job_id job) (job_revision job) to recurring actor reason now false (quiet_world db)
      = (Ok (moved job 1 to now), quiet_world db') /\
    tables_ok db' /\ stored_job db' (moved job 1 to now) /\ db_runs db' = db_runs db.
Proof.
  intros [Hj Hr] Hst Hn Hle Hmax Hlegal Hreason.
  destruct (transition_job_progress db job to recurring actor reason now Hj Hst Hn Hle Hmax Hlegal Hreason)
    as (db' & Ht & Hj' & Hst' & Hruns).
  exists db'. split; [exact Ht|]. split; [split; [done|by eapply run_table_runs]|]. done.
Qed.

(** ** The supervisor: from the deadline to the monitor *)

(** A due job that can be executed: it waits, its occurrence has no run, its
    counters have room, and no clock is behind it. *)
Record due_ok (db : Db) (job : Job) (now : UtcTimestamp) : Prop := {
  du_tables : tables_ok db;
  du_stored : stored_job db job;
  du_id : uuid_ok (job_uuid (job_id job));
  du_state : job_state job = JS_Scheduled \/ job_state job = JS_Waiting;
  du_due : ts_ok (job_next_due job);
  du_free : occurrence_claimed (job_id job) (job_next_due job) db = false;
  du_room : job_revision job + 4 <= i64_max /\ last_sequence (job_id job) db + 1 <= i64_max;
  du_now : ts_ok now /\ job_updated_at job <= now
}.

(** Revisions that the supervisor adds before it starts the monitor. *)
Definition start_steps (job : Job) : Z := if bool_decide (job_state job = JS_Scheduled) then 3 else 2.

(** The runs of a database, one run later: a new last row, and no other run
    changed. *)
Definition one_more (db db' : Db) (run : Run) : Prop :=
  run_key <$> db_runs db' = (run_key <$> db_runs db) ++ [claim_key run] /\
  forall other, stored_run db other -> stored_run db' other.

Lemma one_more_runs db1 db1' db2 db2' run :
  db_runs db1' = db_runs db1 -> db_runs db2' = db_runs db2 -> one_more db1 db2 run -> one_more db1' db2' run.
Proof.
  intros Hr1 Hr2 [Hk Ho]. split; [by rewrite Hr1, Hr2|]. intros other Hst.
  eapply stored_run_runs; [exact Hr2|]. apply Ho. by eapply stored_run_runs; [symmetry; exact Hr1|].
Qed.

Lemma one_more_only db1 db2 db3 run id token :
  fresh_claim db1 id token -> run_id run = id -> one_more db1 db2 run -> only_run id db2 db3 -> one_more db1 db3 run.
Proof.
  intros (_ & _ & Hfresh) <- [Hk Ho] Honly. split; [by rewrite (only_run_keys _ _ _ Honly)|]. intros other Hst.
  pose proof (Ho other Hst) as (row & Hf & Hd). exists row. split; [|done]. rewrite <- Hf. apply (find_run_only (run_id run)); [done|].
  destruct Hst as (row0 & [Hin <-]%find_run_Some & _). rewrite Forall_forall in Hfresh. by apply Hfresh.
Qed.

Lemma due_job_starts db job now input token s :
  due_ok db job now -> di_open input = Ok tt -> di_now input = Ok now -> di_random input = Ok token ->
  di_spawn input = Ok tt -> fresh_claim db (di_run_id input) token ->
  let run := run_new (di_run_id input) (job_id job) (last_sequence (job_id job) db + 1) (job_next_due job) now (mk_claim_token token) in
  let running := moved job (start_steps job) JS_Running now in
  exists db', execute_single_due_job input (job_id job) (mk_daemon_world (quiet_world db) s)
      = (Ok tt, mk_daemon_world (quiet_world db') (s ++ [run])) /\
    tables_ok db' /\ stored_job db' running /\ stored_run db' run /\ one_more db db' run.
Proof.
  intros [Htab Hst Hid Hstate Hdue Hfree [Hroom Hseq] [Hn Hle]] Eo En Er Es Hfresh run running.
  (** to [Waiting] *)
  assert (exists k db1, let waiting := moved job k JS_Waiting now in
    (job_state job = JS_Scheduled /\ k = 1 \/ job_state job = JS_Waiting /\ k = 0) /\ start_steps job = k + 2 /\
    exists current, (if bool_decide (job_state job = JS_Scheduled)
      then from_store (transition_job (job_id job) (job_revision job) JS_Waiting false TA_Supervisor
                         (lit "supervisor loaded deadline") now)
      else mret job) (mk_daemon_world (quiet_world db) s) = (Ok current, mk_daemon_world (quiet_world db1) s) /\
    job_state current = JS_Waiting /\ job_revision current = job_revision job + k /\ job_id current = job_id job /\
    job_next_due current = job_next_due job /\ job_updated_at current <= now /\
    (forall n to, moved current n to now = moved job (k + n) to now) /\
    tables_ok db1 /\ stored_job db1 current /\ db_runs db1 = db_runs db)
    as (k & db1 & Hk & Hsteps & current & Hmove & Hcs & Hcr & Hci & Hcd & Hcu & Hcm & Htab1 & Hst1 & Hruns1).
  { unfold start_steps. destruct Hstate as [Hs|Hs]; rewrite Hs.
    - destruct (transition_step db job JS_Waiting false TA_Supervisor (lit "supervisor loaded deadline") now)
        as (db1 & Ht & Htab1 & Hst1 & Hruns1); [done|done|done|done|lia|by rewrite Hs|done|].
      exists 1, db1. split; [by left|]. split; [done|]. exists (moved job 1 JS_Waiting now).
      rewrite bool_decide_true by done. unfold from_store. cbn [dw_world dw_spawned]. rewrite Ht.
      split_and!; try done; try lia. intros. apply moved_twice.
    - exists 0, db. split; [by right|]. split; [done|]. exists job. split_and!; try done; try lia. }
  (** to [Starting], the claim, to [Running] *)
  destruct (transition_step db1 current JS_Starting false TA_Supervisor (lit "deadline became due") now)
    as (db2 & Ht2 & [Htj2 Htr2] & Hst2 & Hruns2); [done|done|done|done|lia|by rewrite Hcs|done|].
  assert (db_runs db2 = db_runs db) as Hruns by congruence.
  destruct (claim_run_progress db2 (di_run_id input) token (job_id job) (job_next_due job) now)
    as (db3 & Hc & Htr3 & Hsr3 & Hj3 & row3 & Hrow3 & Hkey3); [done| |done|done|done| | | |].
  { rewrite <- Hci. exact (stored_job_exists _ _ Hst2). }
  { by rewrite (occurrence_runs db). }
  { by rewrite (last_sequence_runs db). }
  { by eapply fresh_claim_runs. }
  rewrite (last_sequence_runs db) in Hc, Hsr3, Hkey3 by done. fold run in Hc, Hsr3, Hkey3.
  destruct (transition_step db3 (moved current 1 JS_Starting now) JS_Running false TA_Supervisor (lit "run monitor claimed command") now)
    as (db4 & Ht4 & Htab4 & Hst4 & Hruns4).
  { split; [by eapply job_table_jobs|done]. } { by eapply stored_job_jobs. } { done. } { simpl. lia. } { simpl. lia. } { done. } { done. }
  assert (moved (moved current 1 JS_Starting now) 1 JS_Running now = running) as Erun.
  { rewrite moved_twice, Hcm. unfold running. f_equal. lia. }
  rewrite Erun in *. exists db4.
  assert (one_more db db4 run) as Hmore.
  { apply (one_more_runs db2 db db3 db4); [done..|]. split; [by rewrite Hrow3, fmap_app, <- Hkey3|].
    intros other (row & Hf & Hd). exists row. split; [by eapply find_run_app|done]. }
  split; [|split; [done|split; [done|split; [by eapply stored_run_runs|done]]]].
  unfold execute_single_due_job. rewrite Eo. cbn [map_err]. rewrite daemon_pure.
  rewrite (daemon_step _ _ _ _ _ _ (load_job_quiet _ _ false Hst)). rewrite En. cbn [map_err]. rewrite daemon_pure.
  unfold mbind at 1, daemon_bind at 1. rewrite Hmove. rewrite bool_decide_false by (rewrite Hcs; tauto).
  rewrite (daemon_step _ _ _ _ _ _ Ht2). cbn [moved job_set_state job_id job_next_due job_revision]. rewrite Er, Hci, Hcd.
  rewrite (daemon_step _ _ _ _ _ _ Hc). 
  cbn [moved job_set_state job_id job_next_due job_revision] in Ht4. rewrite Hci in Ht4.
  rewrite (daemon_step _ _ _ _ _ _ Ht4). rewrite Es. done.
Qed.

(** ** The monitor: from the claim to the end of the job *)

(** The state in which an outcome leaves a job that runs once. *)
Definition job_end (o : RunOutcome) : JobState :=
  match outcome_state o with
  | RS_Succeeded => JS_Succeeded
  | RS_Interrupted => JS_Interrupted
  | RS_Cancelled => JS_Cancelled
  | _ => JS_Failed
  end.

Definition is_end (s : RunState) : Prop := s = RS_Succeeded \/ s = RS_Failed \/ s = RS_Interrupted.

Lemma completion_outcome_end status failed : is_end (outcome_state (completion_outcome status failed false)).
Proof. unfold is_end, completion_outcome. destruct failed; [by auto|]. destruct status as [[[[]|] [sig|]]|]; simpl; by auto. Qed.

Lemma monitor_outcome_end input : is_end (outcome_state (monitor_outcome input)).
Proof.
  unfold monitor_outcome. repeat case_match; try apply completion_outcome_end; right; by left.
Qed.

(** What the end of its run makes of a job: a recurring job waits for the
    first point of its grid, any other one has the state of the outcome. *)
Definition completed_job (job : Job) (o : RunOutcome) (now : UtcTimestamp) : Job :=
  match job_schedule job with
  | RecurringInterval interval anchor => job_set_next_due (moved job 1 JS_Waiting now) (next_grid anchor now interval)
  | _ => moved job 1 (job_end o) now
  end.

Lemma completed_schedule job o now : job_schedule (completed_job job o now) = job_schedule job.
Proof. unfold completed_job. by destruct (job_schedule job) eqn:E. Qed.
Lemma completed_id job o now : job_id (completed_job job o now) = job_id job.
Proof. unfold completed_job. by destruct (job_schedule job). Qed.
Lemma completed_waits job o now : is_recurring (job_schedule job) = true -> job_state (completed_job job o now) = JS_Waiting.
Proof. unfold completed_job. by destruct (job_schedule job). Qed.

(** The wake that the monitor sends to the supervisor. *)
Definition announced (job : Job) : option (JobId * Revision) :=
  if is_recurring (job_schedule job) then Some (job_id job, job_revision job) else None.

Lemma stored_job_plannable db job : stored_job db job -> plannable job.
Proof. intros (row & _ & Hd). by eapply decoded_plannable. Qed.

(** A running job that its monitor can finish at [now]. *)
Record running_ok (db : Db) (job : Job) (o : RunOutcome) (now : UtcTimestamp) : Prop := {
  ro_jobs : job_table_ok db;
  ro_stored : stored_job db job;
  ro_state : job_state job = JS_Running;
  ro_room : job_revision job + 1 <= i64_max;
  ro_now : ts_ok now /\ job_updated_at job <= now;
  ro_next : ts_ok (job_next_due (completed_job job o now))
}.

Lemma finish_job_step db job o now events :
  running_ok db job o now -> is_end (outcome_state o) ->
  exists db', finish_job job (outcome_state o) (Ok now) (mk_monitor_world (quiet_world db) events)
      = (Ok tt, mk_monitor_world (quiet_world db') events) /\
    job_table_ok db' /\ stored_job db' (completed_job job o now) /\ db_runs db' = db_runs db.
Proof.
  intros [Hj Hst Hs Hroom [Hn Hle] Hnext] Hend. pose proof (stored_job_plannable _ _ Hst) as [_ Hplan].
  unfold finish_job. rewrite (stored_step _ _ _ _ _ _ _ (load_job_quiet _ _ _ Hst)). cbn [ok_or map_err].
  rewrite pure_step, Hs. cbn [job_is_terminal map_err]. rewrite pure_step.
  assert (bool_decide (JS_Running = JS_CancelRequested) || bool_decide (outcome_state o = RS_Cancelled) = false) as ->
    by (by destruct Hend as [->|[->| ->]]).
  unfold completed_job in *. destruct (is_recurring (job_schedule job)) eqn:Er.
  - destruct (job_schedule job) as [| |interval anchor] eqn:Es; [done..|]. destruct Hplan as [Hi Ha].
    destruct (advance_recurring_progress db job interval anchor (next_grid anchor now interval) now)
      as (db' & Had & ?); [done..| |done|by rewrite Hs|].
    { rewrite next_fixed_rate_utc_eq by done. unfold ts_checked. by rewrite checked_in. }
    exists db'. by rewrite (stored_step _ _ _ _ _ _ _ Had).
  - assert (exists reason, (match outcome_state o with
      | RS_Succeeded => Ok (JS_Succeeded, lit "command exited successfully")
      | RS_Failed => Ok (JS_Failed, lit "command failed")
      | RS_Interrupted => Ok (JS_Interrupted, lit "command outcome is unknown")
      | RS_Cancelled => Ok (JS_Cancelled, lit "command was cancelled")
      | RS_Starting | RS_Running | RS_CancelRequested => Err MP_NonterminalRun
      end) = Ok (job_end o, reason) /\ reason_ok reason = true /\ job_one_shot_legal JS_Running (job_end o) = true)
      as (reason & -> & Hreason & Hlegal).
    { unfold job_end. destruct Hend as [->|[->| ->]]; eexists; by split_and!. }
    destruct (transition_job_progress db job (job_end o) false TA_Monitor reason now)
      as (db' & Ht & Hj' & Hst' & Hruns); [done..|by rewrite Hs, Hlegal|done|].
    exists db'. rewrite pure_step, (stored_step _ _ _ _ _ _ _ Ht). split; [done|].
    split; [done|]. split; [|done]. by destruct (job_schedule job).
Qed.

Lemma answers_cap input cap run : answers_ok input run -> answers_ok (with_log_cap input cap) run.
Proof. by intros []. Qed.

Lemma port_step {S E A B} (m : Port S E A) (k : A -> Port S E B) s a s' :
  m s = (Ok a, s') -> (m ≫= k) s = k a s'.
Proof. intros Hm. unfold mbind, port_bind. by rewrite Hm. Qed.

Lemma monitor_completes input cap db job run now :
  let o := monitor_outcome (with_log_cap input cap) in
  run_table_ok db -> stored_run db run -> run_state run = RS_Starting -> run_started_at run = None ->
  run_job_id run = job_id job -> uuid_ok (job_uuid (job_id job)) -> uuid_ok (run_uuid (run_id run)) ->
  answers_ok input run -> running_ok db job o now ->
  exists finished db' events,
    run_monitor_process input (job_id_to_string (job_id job)) (run_id_to_string (run_id run)) (Ok cap) (Ok now)
        (mk_monitor_world (quiet_world db) [])
      = (Ok (announced (completed_job job o now)), mk_monitor_world (quiet_world db') events) /\
    tables_ok db' /\ stored_job db' (completed_job job o now) /\ stored_run db' finished /\
    run_id finished = run_id run /\ run_outcome finished = Some o /\ (In Spawned events -> In Reaped events) /\
    exists db1, only_run (run_id run) db db1 /\ db_runs db' = db_runs db1.
Proof.
  intros o Hr Hsr Hs Hns Hjob Hj Hid Ha Hrun. pose proof Hrun as [Htj Hsj ? ? ? ?].
  destruct (execute_claimed_ends (with_log_cap input cap) run db [] Hr Hsr Hs Hns (answers_cap _ _ _ Ha))
    as (finished & db1 & events & Hex & (Hfi & Hft & Hfo & Hfs & Hfr & Hfj) & _ & Hreap).
  assert (run_state finished = outcome_state o) as Hstate.
  { pose proof (shape_state _ (stored_shape _ _ Hfs)) as Hst. rewrite Hfo in Hst. by symmetry. }
  destruct (finish_job_step db1 job o now events) as (db2 & Hf & Htj2 & Hsj2 & Hruns).
  { split; try done; [by eapply job_table_jobs; [apply Hfj|]|by eapply stored_job_jobs; [apply Hfj|]]. } { apply monitor_outcome_end. }
  exists finished, db2, events. split.
  2:{ split; [split; [done|by eapply run_table_runs]|]. split; [done|]. split; [by eapply stored_run_runs|].
      do 3 (split; [done|]). by exists db1. }
  unfold run_monitor_process. rewrite job_id_text, run_id_text by done. cbn [map_err]. rewrite !pure_step.
  rewrite (stored_step _ _ _ _ _ _ _ (load_job_quiet _ _ _ Hsj)). cbn [ok_or]. rewrite pure_step.
  rewrite (stored_step _ _ _ _ _ _ _ (load_run_quiet _ _ _ Hsr)). cbn [ok_or]. rewrite pure_step.
  rewrite bool_decide_true by done. cbn [negb]. rewrite pure_step.
  erewrite port_step by (rewrite port_err_run; unfold execute_run; erewrite port_step by (by apply check_claim_quiet);
    rewrite Hex; reflexivity).
  cbn [app]. rewrite Hstate, (port_step _ _ _ _ _ Hf). unfold announced. rewrite completed_schedule.
  destruct (is_recurring (job_schedule job)) eqn:Er; [|done].
  pose proof (load_job_quiet _ _ false Hsj2) as Hload. rewrite completed_id in Hload.
  rewrite (stored_step _ _ _ _ _ _ _ Hload). cbn [ok_or]. rewrite pure_step, bool_decide_true by (by apply completed_waits). done.
Qed.

(** ** The wake: the next occurrence reaches the supervisor *)

Lemma wake_loads db job input wall elapsed deadline s :
  stored_job db job -> job_is_terminal (job_state job) = false ->
  wi_open input = Ok tt -> wi_now input = Ok wall -> wi_elapsed input = Ok elapsed ->
  reconcile_wall_schedule wall elapsed (job_next_due job) = Ok deadline ->
  load_wake input (job_id job) (mk_daemon_world (quiet_world db) s)
    = (Ok (WD_Schedule deadline), mk_daemon_world (quiet_world db) s).
Proof.
  intros Hst Hlive Eo En Ee Hd. unfold load_wake. rewrite Eo. cbn [map_err]. rewrite daemon_pure.
  rewrite (daemon_step _ _ _ _ _ _ (load_job_quiet _ _ false Hst)). cbn [ok_or]. rewrite daemon_pure, Hlive, En.
  cbn [map_err]. rewrite daemon_pure, Ee. cbn [map_err]. rewrite daemon_pure, Hd. done.
Qed.

(** What the supervisor is told while it starts the monitor. *)
Record starts (input : DueInput) (now : UtcTimestamp) (token : list Z) (db : Db) : Prop := {
  sa_open : di_open input = Ok tt;
  sa_now : di_now input = Ok now;
  sa_random : di_random input = Ok token;
  sa_spawn : di_spawn input = Ok tt;
  sa_fresh : fresh_claim db (di_run_id input) token
}.

(** The run of a due job. *)
Definition due_run (db : Db) (job : Job) (input : DueInput) (now : UtcTimestamp) (token : list Z) : Run :=
  run_new (di_run_id input) (job_id job) (last_sequence (job_id job) db + 1) (job_next_due job) now (mk_claim_token token).
(** Both processes, one after the other. *)
Lemma due_job_executed db job now input token monitor cap finished_at s :
  due_ok db job now -> starts input now token db ->
  let run := due_run db job input now token in
  let running := moved job (start_steps job) JS_Running now in
  let outcome := monitor_outcome (with_log_cap monitor cap) in
  let completed := completed_job running outcome finished_at in
  answers_ok monitor run -> ts_ok finished_at -> now <= finished_at -> ts_ok (job_next_due completed) ->
  exists db1 db2 finished events,
    execute_single_due_job input (job_id job) (mk_daemon_world (quiet_world db) s)
      = (Ok tt, mk_daemon_world (quiet_world db1) (s ++ [run])) /\
    run_monitor_process monitor (job_id_to_string (run_job_id run)) (run_id_to_string (run_id run)) (Ok cap) (Ok finished_at)
        (mk_monitor_world (quiet_world db1) [])
      = (Ok (announced completed), mk_monitor_world (quiet_world db2) events) /\
    tables_ok db2 /\ stored_job db2 completed /\ stored_run db2 finished /\ one_more db db2 run /\
    run_id finished = run_id run /\ run_outcome finished = Some outcome /\ (In Spawned events -> In Reaped events).
Proof.
  intros Hdue [] run running outcome completed Ha Hf Hle Hnext.
  destruct (due_job_starts db job now input token s) as (db1 & Hstart & [Hj Hr] & Hsj & Hsr & Hmore); [done..|].
  pose proof Hdue as [_ _ Hid _ _ _ [Hroom _] [_ _]].
  destruct (monitor_completes monitor cap db1 running run finished_at)
    as (finished & db2 & events & Hm & Htab & Hsj2 & Hsr2 & Hfid & Hfo & Hreap & db3 & Honly & Hruns); [done..|by destruct sa_fresh0|done| |].
  { split; try done. unfold running, start_steps. simpl. case_bool_decide; lia. }
  assert (one_more db db2 run) as Hmore2.
  { apply (one_more_runs db db db3 db2); [done..|]. by eapply one_more_only. }
  exists db1, db2, finished, events. by split_and!.
Qed.
End Completion.

(** ** Properties *)

(** C3 (liveness).  A due job is executed to its end when nobody else writes
    the database, the supervisor can start the monitor, and the clocks go
    forward.  The supervisor claims its occurrence and starts one monitor, and
    that monitor, whatever happens to the logs, the command and its output,
    ends the run with the outcome that this calls for, changes no other run,
    and moves the job on: a job that runs once has the state of the outcome; a
    recurring job waits for the first point of its grid after the end.  The
    revision that the monitor announces is then the stored one, and a
    supervisor that is woken by it schedules exactly that point. *)
Theorem due_job_completes `{Serde} `{ExecutionJson} db job now input token monitor cap finished_at s :
  due_ok db job now -> starts input now token db ->
  let run := due_run db job input now token in
  let running := moved job (start_steps job) JS_Running now in
  let outcome := monitor_outcome (with_log_cap monitor cap) in
  let completed := completed_job running outcome finished_at in
  answers_ok monitor run -> ts_ok finished_at -> now <= finished_at -> ts_ok (job_next_due completed) ->
  exists db1 db2 finished events,
    execute_single_due_job input (job_id job) (mk_daemon_world (quiet_world db) s)
      = (Ok tt, mk_daemon_world (quiet_world db1) (s ++ [run])) /\
    run_monitor_process monitor (job_id_to_string (run_job_id run)) (run_id_to_string (run_id run)) (Ok cap) (Ok finished_at)
        (mk_monitor_world (quiet_world db1) [])
      = (Ok (announced completed), mk_monitor_world (quiet_world db2) events) /\
    tables_ok db2 /\ stored_job db2 completed /\ stored_run db2 finished /\ one_more db db2 run /\
    run_id finished = run_id run /\ run_outcome finished = Some outcome /\ (In Spawned events -> In Reaped events) /\
    forall id revision wake wall elapsed deadline s',
      announced completed = Some (id, revision) ->
      wi_open wake = Ok tt -> wi_now wake = Ok wall -> wi_elapsed wake = Ok elapsed ->
      reconcile_wall_schedule wall elapsed (job_next_due completed) = Ok deadline ->
      load_wake wake id (mk_daemon_world (quiet_world db2) s')
        = (Ok (WD_Schedule deadline), mk_daemon_world (quiet_world db2) s').
Proof.
  intros Hdue Hs run running outcome completed Ha Hf Hle Hnext.
  destruct (due_job_executed db job now input token monitor cap finished_at s)
    as (db1 & db2 & finished & events & ? & ? & ? & Hsj & ? & ? & ? & ? & ?); [done..|].
  exists db1, db2, finished, events. split_and!; try done.
  intros id revision wake wall elapsed deadline s' Hann Eo En Ee Hd. unfold announced in Hann.
  destruct (is_recurring (job_schedule completed)) eqn:Er; [|done]. injection Hann as <- <-.
  apply (wake_loads db2 completed _ wall elapsed); try done.
  unfold completed in Er |- *. rewrite completed_schedule in Er. by rewrite completed_waits.
Qed.

(** ** Witness: a recurring command, due at its first occurrence, that a
    signal kills *)

Module CompletionExample.
Export JobStoreExample DaemonExample.
Definition db0 : Db := w_db world0.
Definition run0 : Run := due_run db0 job0 input0 due0 bytes0.
Definition running0 : Job := moved job0 3 JS_Running due0.
Definition ended_at : UtcTimestamp := due0 + 40.
Definition completed0 : Job := completed_job running0 (RO_Signal 9) ended_at.
Definition monitor0 : MonitorInput := MonitorExample.killed_by_9.
(** The wake is read ten seconds after the end. *)
Definition woken0 : WakeInput := mk_wake_input (Ok tt) (Ok (ended_at + 10 * 10 ^ 9)) (Ok 5000).
End CompletionExample.
Import CompletionExample.

Lemma due_ok0 : due_ok db0 job0 due0.
Proof.
  assert (forallb job_row_check (db_jobs db0) = true) as Hc by (vm_compute; reflexivity).
  apply forallb_Forall in Hc. split.
  - split; split.
    + assert (jr_id <$> db_jobs db0 = [job_id_to_string (job_id job0)]) as -> by (vm_compute; reflexivity).
      apply NoDup_singleton.
    + exact Hc.
    + apply runs_unique_short. vm_compute. lia.
    + constructor.
  - eexists. split; [vm_compute; reflexivity|]. vm_compute. reflexivity.
  - by vm_compute.
  - by left.
  - by vm_compute.
  - vm_compute. reflexivity.
  - split; by vm_compute.
  - split; by vm_compute.
Qed.

Lemma starts0 : starts input0 due0 bytes0 db0.
Proof. split; try reflexivity. split_and!; [by vm_compute|reflexivity|constructor]. Qed.

Lemma due_job_completes_witness :
  (due_ok db0 job0 due0 /\ starts input0 due0 bytes0 db0 /\ answers_ok monitor0 run0 /\ ts_ok ended_at /\
   due0 <= ended_at /\ ts_ok (job_next_due completed0)) /\
  exists db1 db2 finished events,
    execute_single_due_job input0 (job_id job0) (mk_daemon_world (quiet_world db0) [])
      = (Ok tt, mk_daemon_world (quiet_world db1) ([] ++ [run0])) /\
    run_monitor_process monitor0 (job_id_to_string (run_job_id run0)) (run_id_to_string (run_id run0)) (Ok 1024) (Ok ended_at)
        (mk_monitor_world (quiet_world db1) [])
      = (Ok (announced completed0), mk_monitor_world (quiet_world db2) events) /\
    tables_ok db2 /\ stored_job db2 completed0 /\ stored_run db2 finished /\ one_more db0 db2 run0 /\
    run_id finished = run_id run0 /\ run_outcome finished = Some (RO_Signal 9) /\ (In Spawned events -> In Reaped events) /\
    forall id revision wake wall elapsed deadline s',
      announced completed0 = Some (id, revision) ->
      wi_open wake = Ok tt -> wi_now wake = Ok wall -> wi_elapsed wake = Ok elapsed ->
      reconcile_wall_schedule wall elapsed (job_next_due completed0) = Ok deadline ->
      load_wake wake id (mk_daemon_world (quiet_world db2) s')
        = (Ok (WD_Schedule deadline), mk_daemon_world (quiet_world db2) s').
Proof.
  assert (ts_ok ended_at) as H1 by (by vm_compute). assert (due0 <= ended_at) as H2 by (by vm_compute).
  assert (ts_ok (job_next_due completed0)) as H3 by (by vm_compute).
  split; [exact (conj due_ok0 (conj starts0 (conj killed_answers_ok (conj H1 (conj H2 H3)))))|].
  exact (due_job_completes db0 job0 due0 input0 bytes0 monitor0 1024 ended_at [] due_ok0 starts0
    killed_answers_ok H1 H2 H3).
Defined.

(** The two processes, run: the state, the revision and the deadline of the
    job, the wake, and the deadline that the supervisor schedules. *)
Example completion_ex :
  let '(started, d) := execute_single_due_job input0 (job_id job0) (mk_daemon_world (quiet_world db0) []) in
  let '(wake, m) := run_monitor_process monitor0 (job_id_to_string (job_id job0)) (run_id_to_string run_id0) (Ok 1024)
                      (Ok ended_at) (mk_monitor_world (dw_world d) []) in
  (started, wake, rr_state <$> db_runs (w_db (mw_world m)),
   (fun r => (jr_state r, jr_revision r, jr_next_due r)) <$> db_jobs (w_db (mw_world m)),
   (load_wake woken0 (job_id job0) (mk_daemon_world (mw_world m) [])).1) =
  (Ok tt, Ok (Some (job_id job0, 5)), [lit "failed"], [(lit "waiting", 5, Some (ts_show (160 * 10 ^ 9)))],
   Ok (WD_Schedule (5000 + 50 * 10 ^ 9 - 40))).
Proof. vm_compute. reflexivity. Qed.
