(* ===== verification/Cycle.v ===== *)
(** A recurring job, one occurrence after the other: [execute_single_due_job]
    of [supervisor/daemon.rs] and [run_monitor_process] of
    [run_monitor/mod.rs], in turn.  [Completion] executes one due job on a
    quiet database; here the job whose wake the monitor has sent is executed
    again, for as many rounds as the revisions and the sequence numbers of the
    job leave room for. *)

From S2P Require Import Prelude Text Primitives Duration Identifier States Recurrence Execution JobAgg RunAgg.
From S2P Require Import Sqlite JobStore RunStore Reconcile Retention Progress JobProgress Recovery Management Services Capture.
From S2P Require Import Heap Loop Monitor Daemon Completion.

(** ** The keys of the runs *)

Section Keys.
Context `{Jiff}.

Definition key_id (k : str * str * Z * str * list Z) : str := k.1.1.1.1.
Definition key_job (k : str * str * Z * str * list Z) : str := k.1.1.1.2.
Definition key_due (k : str * str * Z * str * list Z) : str := k.1.2.
Definition run_keys (db : Db) : list (str * str * Z * str * list Z) := run_key <$> db_runs db.

Lemma last_sequence_keys job db :
  last_sequence job db =
  foldr Z.max 0 ((fun k => k.1.1.2) <$> List.filter (fun k => bool_decide (key_job k = job_id_to_string job)) (run_keys db)).
Proof.
  unfold last_sequence, run_keys. induction (db_runs db) as [|r l IH]; [done|]. rewrite fmap_cons. cbn [List.filter].
  change (key_job (run_key r)) with (rr_job_id r). destruct (bool_decide _); [|exact IH].
  rewrite !fmap_cons. cbn [foldr]. rewrite IH. reflexivity.
Qed.

Lemma max_app l x : foldr Z.max 0 (l ++ [x]) = Z.max (foldr Z.max 0 l) (Z.max x 0).
Proof. induction l as [|y l IH]; cbn; [lia|]. rewrite IH. lia. Qed.

Lemma last_sequence_more job db db' run :
  run_keys db' = run_keys db ++ [claim_key run] -> run_job_id run = job ->
  run_sequence run = last_sequence job db + 1 -> last_sequence job db' = last_sequence job db + 1.
Proof.
  intros Hk Hj Hs. pose proof (last_sequence_nonneg job db). rewrite last_sequence_keys, Hk, List.filter_app.
  cbn [List.filter]. rewrite bool_decide_true by (unfold key_job, claim_key; cbn; by rewrite Hj).
  rewrite fmap_app, list_fmap_singleton, max_app, <- last_sequence_keys. cbn. lia.
Qed.

Lemma ts_show_inj t t' : ts_ok t -> ts_ok t' -> ts_show t = ts_show t' -> t = t'.
Proof. intros Ht Ht' E. pose proof (ts_parse_show t Ht) as Hp. rewrite E, ts_parse_show in Hp by done. congruence. Qed.

(** Every claim of the job is for an earlier occurrence. *)
Definition claims_before (job : JobId) (due : UtcTimestamp) (keys : list (str * str * Z * str * list Z)) : Prop :=
  Forall (fun k => key_job k = job_id_to_string job -> exists t, ts_ok t /\ key_due k = ts_show t /\ t < due) keys.

Lemma claims_before_free job due db :
  ts_ok due -> claims_before job due (run_keys db) -> occurrence_claimed job due db = false.
Proof.
  intros Hd Hb. apply not_true_iff_false. intros (r & Hin & Hr)%existsb_exists.
  apply andb_prop in Hr as [Hj%bool_decide_eq_true Hdue%bool_decide_eq_true].
  unfold claims_before, run_keys in Hb. rewrite Forall_fmap, Forall_forall in Hb.
  destruct (Hb r) as (t & Ht & Htd & Hlt); [by apply list_elem_of_In|done|]. change (key_due (run_key r)) with (rr_scheduled_for r) in Htd.
  rewrite Hdue in Htd. apply ts_show_inj in Htd; [lia|done..].
Qed.

Lemma claims_before_later job due due' keys : due <= due' -> claims_before job due keys -> claims_before job due' keys.
Proof.
  intros Hle Hb. eapply Forall_impl; [exact Hb|]. intros k Hk Hj. destruct (Hk Hj) as (t & ? & ? & ?).
  exists t. split_and!; [done..|lia].
Qed.

(** The identifier and the token of a claim are in no key. *)
Definition unused (id : RunId) (token : list Z) (k : str * str * Z * str * list Z) : Prop :=
  key_id k <> run_id_to_string id /\ k.2 <> token.

Lemma fresh_claim_keys db id token :
  fresh_claim db id token <-> uuid_ok (run_uuid id) /\ length token = 32%nat /\ Forall (unused id token) (run_keys db).
Proof. unfold fresh_claim, run_keys. by rewrite Forall_fmap. Qed.
End Keys.

(** ** Rounds *)

Section Cycle.
Context `{Serde} `{ExecutionJson}.

(** What the two processes are told in a round: the supervisor at [rd_now],
    the monitor until [rd_finished]. *)
Record Round := mk_round {
  rd_due : DueInput;
  rd_now : UtcTimestamp;
  rd_token : list Z;
  rd_monitor : MonitorInput;
  rd_cap : Z;
  rd_finished : UtcTimestamp
}.

(** One round: the due job is executed, and the monitor that this has started
    runs to its end; the result has the run and the wake. *)
Definition execute_round (id : JobId) (r : Round) (w : World) : option (Run * option (JobId * Revision) * World) :=
  match execute_single_due_job (rd_due r) id (mk_daemon_world w []) with
  | (Ok tt, mk_daemon_world w1 [run]) =>
    match run_monitor_process (rd_monitor r) (job_id_to_string (run_job_id run)) (run_id_to_string (run_id run))
            (Ok (rd_cap r)) (Ok (rd_finished r)) (mk_monitor_world w1 []) with
    | (Ok wake, m) => Some (run, wake, mw_world m)
    | (Err _, _) => None
    end
  | _ => None
  end.

(** Each round executes the job of the wake before it. *)
Fixpoint execute_rounds (id : JobId) (rs : list Round) (w : World) : option (list Run * World) :=
  match rs with
  | [] => Some ([], w)
  | r :: rs =>
    '(run, wake, w1) ← execute_round id r w;
    '(next, _) ← wake;
    '(runs, w2) ← execute_rounds next rs w1;
    Some (run :: runs, w2)
  end.

Definition round_outcome (r : Round) : RunOutcome := monitor_outcome (with_log_cap (rd_monitor r) (rd_cap r)).
Definition after_round (job : Job) (r : Round) : Job :=
  completed_job (moved job (start_steps job) JS_Running (rd_now r)) (round_outcome r) (rd_finished r).

(** The points at which the rounds run the job. *)
Fixpoint occurrences (job : Job) (rs : list Round) : list UtcTimestamp :=
  match rs with
  | [] => []
  | r :: rs => job_next_due job :: occurrences (after_round job r) rs
  end.

(** A round that can be executed: the job is due, the clocks go forward, the
    next point is in the range of the timestamps, and the system answers. *)
Record round_ok (job : Job) (r : Round) : Prop := {
  ok_due : job_next_due job <= rd_now r;
  ok_clock : ts_ok (rd_now r) /\ job_updated_at job <= rd_now r;
  ok_finished : ts_ok (rd_finished r) /\ rd_now r <= rd_finished r;
  ok_next : ts_ok (job_next_due (after_round job r));
  ok_open : di_open (rd_due r) = Ok tt /\ di_now (rd_due r) = Ok (rd_now r);
  ok_random : di_random (rd_due r) = Ok (rd_token r) /\ length (rd_token r) = 32%nat /\ uuid_ok (run_uuid (di_run_id (rd_due r)));
  ok_spawn : di_spawn (rd_due r) = Ok tt;
  ok_answers : forall run, run_created_at run = rd_now r -> answers_ok (rd_monitor r) run
}.

Fixpoint rounds_ok (job : Job) (rs : list Round) : Prop :=
  match rs with
  | [] => True
  | r :: rs => round_ok job r /\ rounds_ok (after_round job r) rs
  end.

(** The identifiers and the tokens that the rounds draw: none is in a key,
    and no two are equal. *)
Fixpoint rounds_fresh (keys : list (str * str * Z * str * list Z)) (rs : list Round) : Prop :=
  match rs with
  | [] => True
  | r :: rs =>
    Forall (unused (di_run_id (rd_due r)) (rd_token r)) keys /\
    Forall (fun r' => run_id_to_string (di_run_id (rd_due r)) <> run_id_to_string (di_run_id (rd_due r')) /\
                      rd_token r <> rd_token r') rs /\
    rounds_fresh keys rs
  end.

Lemma rounds_fresh_more keys rs k :
  rounds_fresh keys rs -> Forall (fun r => unused (di_run_id (rd_due r)) (rd_token r) k) rs -> rounds_fresh (keys ++ [k]) rs.
Proof.
  induction rs as [|r rs IH]; [done|]. intros (Hk & Hd & Hf) [Hu Hus]%Forall_cons.
  split_and!; [apply Forall_app; by rewrite Forall_singleton|done|by apply IH].
Qed.

(** A recurring job that waits for its next occurrence, with room for [n]
    rounds. *)
Record ready (n : nat) (db : Db) (job : Job) : Prop := {
  re_tables : tables_ok db;
  re_stored : stored_job db job;
  re_id : uuid_ok (job_uuid (job_id job));
  re_recurring : is_recurring (job_schedule job) = true;
  re_state : job_state job = JS_Scheduled \/ job_state job = JS_Waiting;
  re_due : ts_ok (job_next_due job);
  re_before : claims_before (job_id job) (job_next_due job) (run_keys db);
  re_room : job_revision job + 4 * Z.of_nat n <= i64_max /\ last_sequence (job_id job) db + Z.of_nat n <= i64_max
}.

Lemma after_round_id job r : job_id (after_round job r) = job_id job.
Proof. unfold after_round. by rewrite completed_id. Qed.
Lemma after_round_schedule job r : job_schedule (after_round job r) = job_schedule job.
Proof. unfold after_round. by rewrite completed_schedule. Qed.

(** The next point is on the grid, after the end of the round. *)
Lemma after_round_due job r interval anchor :
  job_schedule job = RecurringInterval interval anchor -> duration_ok interval ->
  rd_finished r < job_next_due (after_round job r) /\ on_grid anchor interval (job_next_due (after_round job r)).
Proof.
  intros Es Hi. unfold after_round, completed_job. cbn [moved job_set_state job_schedule]. rewrite Es.
  cbn [job_set_next_due job_next_due]. split; [|by apply next_grid_on].
  destruct (Z.ltb_spec (rd_finished r) anchor) as [Hlt|Hge].
  - unfold next_grid. by rewrite (proj2 (Z.ltb_lt _ _) Hlt).
  - by destruct (next_grid_bounds anchor (rd_finished r) interval Hi Hge).
Qed.

Lemma occurrences_sorted rs : forall job interval anchor,
  job_schedule job = RecurringInterval interval anchor -> duration_ok interval -> rounds_ok job rs ->
  StronglySorted Z.lt (occurrences job rs) /\ Forall (Z.le (job_next_due job)) (occurrences job rs).
Proof.
  induction rs as [|r rs IH]; intros job interval anchor Es Hi Hok; [by repeat constructor|].
  destruct Hok as [[Hpast _ [_ Hnf] _ _ _ _ _] Hok]. destruct (after_round_due job r interval anchor Es Hi) as [Hlater _].
  destruct (IH (after_round job r) interval anchor) as [Hs Hle]; [by rewrite after_round_schedule|done..|]. cbn [occurrences].
  assert (Forall (Z.lt (job_next_due job)) (occurrences (after_round job r) rs)) as Hlt
    by (eapply Forall_impl; [exact Hle|]; intros t Ht; cbn in *; lia).
  split; constructor; try done. eapply Forall_impl; [exact Hlt|]. intros t Ht. cbn in *. lia.
Qed.

Lemma occurrences_on_grid rs : forall job interval anchor,
  job_schedule job = RecurringInterval interval anchor -> duration_ok interval ->
  on_grid anchor interval (job_next_due job) -> Forall (on_grid anchor interval) (occurrences job rs).
Proof.
  induction rs as [|r rs IH]; intros job interval anchor Es Hi Hg; [done|]. constructor; [done|].
  apply IH; [by rewrite after_round_schedule|done|]. by apply after_round_due.
Qed.

Lemma ready_interval n db job : ready n db job ->
  exists interval anchor, job_schedule job = RecurringInterval interval anchor /\ duration_ok interval.
Proof.
  intros []. destruct (stored_job_plannable _ _ re_stored0) as [_ Hp].
  destruct (job_schedule job) as [| |interval anchor]; [done..|]. by exists interval, anchor; destruct Hp.
Qed.

(** One round: its run is the next row, ends with its outcome, and leaves the
    job ready for the other rounds. *)
Lemma round_step n db job r rs :
  ready (S n) db job -> round_ok job r -> rounds_fresh (run_keys db) (r :: rs) ->
  exists run revision db' finished,
    execute_round (job_id job) r (quiet_world db) = Some (run, Some (job_id job, revision), quiet_world db') /\
    run_id run = di_run_id (rd_due r) /\ run_scheduled_for run = job_next_due job /\
    run_sequence run = last_sequence (job_id job) db + 1 /\ last_sequence (job_id job) db' = last_sequence (job_id job) db + 1 /\
    ready n db' (after_round job r) /\ one_more db db' run /\ rounds_fresh (run_keys db') rs /\
    stored_run db' finished /\ run_id finished = run_id run /\ run_outcome finished = Some (round_outcome r).
Proof.
  intros Hready [Hpast [Hn Hle] [Hf Hnf] Hnext [Eo En] (Er & Hlen & Hu) Es Ha]
    (Hunused & Hdistinct & Hfresh). pose proof Hready as [Htab Hst Hid _ Hstate Hdue Hbefore [Hroom Hseq]].
  destruct (ready_interval _ _ _ Hready) as (interval & anchor & Esch & Hint).
  destruct (after_round_due job r interval anchor Esch Hint) as [Hlater _].
  set (run := due_run db job (rd_due r) (rd_now r) (rd_token r)).
  destruct (due_job_executed db job (rd_now r) (rd_due r) (rd_token r) (rd_monitor r) (rd_cap r) (rd_finished r) [])
    as (db1 & db2 & finished & events & Hs & Hm & Htab2 & Hsj & Hsr & Hmore & Hfid & Hfo & _); try done; [| |by apply Ha|].
  { split; try done; [by apply claims_before_free|lia]. } { split; try done. by apply fresh_claim_keys. }
  pose proof Hmore as [Hkeys _].
  assert (last_sequence (job_id job) db2 = last_sequence (job_id job) db + 1) as Hlast by (by apply (last_sequence_more _ _ _ run)).
  exists run, (job_revision (after_round job r)), db2, finished. split_and!; try done.
  - unfold execute_round. rewrite Hs. cbn [app]. fold run in Hm |- *. rewrite Hm. unfold announced. 
    by rewrite completed_schedule, completed_id; cbn [moved job_set_state job_schedule job_id]; rewrite Esch.
  - fold (after_round job r) in Hsj. split; try done; rewrite ?after_round_id, ?after_round_schedule, ?Esch; try done.
    + right. unfold after_round. apply completed_waits. cbn. by rewrite Esch.
    + unfold run_keys. rewrite Hkeys. apply Forall_app. split; [eapply claims_before_later; [|exact Hbefore]; lia|].
      constructor; [|constructor]. intros _. exists (job_next_due job). split_and!; [done..|lia].
    + rewrite Hlast. split; [|lia]. unfold after_round, completed_job. cbn [moved job_set_state job_schedule]. rewrite Esch.
      unfold start_steps. cbn. case_bool_decide; lia.
  - unfold run_keys. rewrite Hkeys. apply rounds_fresh_more; [done|]. eapply Forall_impl; [exact Hdistinct|].
    intros r' [Hi Ht]. split; done.
Qed.
End Cycle.

(** ** Properties *)

(** C4 (liveness).  A recurring job repeats.  When nobody else writes the
    database, the system answers, and the clocks go forward, the supervisor and
    its monitors execute the job round after round, each round on the wake of
    the one before it.  No occurrence is run twice: the runs are for strictly
    later points of the grid, numbered in sequence; each one ends with the
    outcome that its round calls for, and no round changes a run of another
    one or an earlier run.  The job then waits for the first point of its grid
    after the last round. *)
Theorem recurring_job_repeats `{Serde} `{ExecutionJson} rs : forall db job,
  ready (length rs) db job -> rounds_ok job rs -> rounds_fresh (run_keys db) rs ->
  exists runs db',
    execute_rounds (job_id job) rs (quiet_world db) = Some (runs, quiet_world db') /\
    run_id <$> runs = (fun r => di_run_id (rd_due r)) <$> rs /\
    run_scheduled_for <$> runs = occurrences job rs /\
    StronglySorted Z.lt (occurrences job rs) /\
    (forall interval anchor, job_schedule job = RecurringInterval interval anchor ->
       on_grid anchor interval (job_next_due job) -> Forall (on_grid anchor interval) (occurrences job rs)) /\
    run_sequence <$> runs = seqZ (last_sequence (job_id job) db + 1) (Z.of_nat (length rs)) /\
    tables_ok db' /\ stored_job db' (foldl after_round job rs) /\
    run_keys db' = run_keys db ++ (claim_key <$> runs) /\
    Forall2 (fun r run => exists finished,
      stored_run db' finished /\ run_id finished = run_id run /\ run_outcome finished = Some (round_outcome r)) rs runs /\
    (forall other, stored_run db other -> stored_run db' other).
Proof.
  induction rs as [|r rs IH]; intros db job Hready Hok Hfresh.
  { exists [], db. pose proof Hready as []. rewrite app_nil_r. split_and!; try done; constructor. }
  pose proof Hok as [Hr Hrs].
  destruct (ready_interval _ _ _ Hready) as (interval & anchor & Esch & Hint).
  destruct (occurrences_sorted (r :: rs) job interval anchor Esch Hint Hok) as [Hsorted _].
  destruct (round_step (length rs) db job r rs Hready Hr Hfresh)
    as (run & revision & db1 & finished & He & Hid & Hdue & Hseq & Hlast & Hready1 & [Hkeys Hother] & Hfresh1 & Hst & Hfid & Hfo).
  destruct (IH db1 (after_round job r) Hready1 Hrs Hfresh1)
    as (runs & db' & He' & Hids & Hdues & _ & _ & Hseqs & Htab & Hj & Hk & Hall & Hother').
  rewrite !after_round_id in *. exists (run :: runs), db'. rewrite !fmap_cons. split_and!; try done.
  - cbn [execute_rounds]. rewrite He. cbn [mbind option_bind]. rewrite He'. done.
  - by rewrite Hid, Hids.
  - by rewrite Hdue, Hdues.
  - intros i a Es Hg. apply (occurrences_on_grid (r :: rs) job i a Es); [congruence|done].
  - rewrite Hseq, Hseqs, Hlast. cbn [length]. rewrite (seqZ_cons _ (Z.of_nat (S _))) by lia. do 2 f_equal; lia.
  - rewrite Hk. unfold run_keys. rewrite Hkeys, <- app_assoc. done.
  - constructor; [|done]. exists finished. split_and!; [by apply Hother'|done..].
  - intros other Ho. by apply Hother', Hother.
Qed.

(** ** Witness: two rounds of a recurring command; a signal kills the first
    one, the second one succeeds *)

Module CycleExample.
Export CompletionExample.
Definition round_of (id : RunId) (token : list Z) (now : UtcTimestamp) (status : ExitStatus) : Round :=
  mk_round (mk_due_input (Ok tt) (Ok now) id (Ok token) (Ok tt) (Ok now)) now token
    (mk_monitor_input (mi_artifacts MonitorExample.succeeded) (mi_identity MonitorExample.succeeded)
      (mi_spawn MonitorExample.succeeded) (mi_output MonitorExample.succeeded) (Ok (now + 10)) (Ok status) (Ok (now + 20))
      (Ok (now + 30)) 1024 true) 1024 (now + 40).
Definition round1 : Round := round_of run_id0 bytes0 due0 (mk_exit_status None (Some 9)).
Definition round2 : Round := round_of (mk_run_id 100) (replicate 32 1) (170 * 10 ^ 9) (mk_exit_status (Some 0) None).
Definition rounds : list Round := [round1; round2].
Definition after1 : Job := after_round job0 round1.
End CycleExample.
Import CycleExample.

Lemma round_of_answers id token now status run :
  ts_ok (now + 10) -> ts_ok (now + 20) -> ts_ok (now + 30) ->
  opt_Forall i32_ok (es_code status) -> opt_Forall i32_ok (es_signal status) -> run_created_at run = now ->
  answers_ok (rd_monitor (round_of id token now status)) run.
Proof.
  intros Ht Ht' Ht'' Hc Hs Hr. split.
  - exists (now + 10), (now + 20), (now + 30). rewrite Hr. split_and!; try done; lia.
  - intros m [= <-]. reflexivity.
  - intros c [= <-]. split; [reflexivity|by vm_compute].
  - intros out err fo fe [= <- <- _ _]. split; reflexivity.
  - by intros s [= <-].
Qed.

Lemma ready0 : ready 2 db0 job0.
Proof.
  destruct due_ok0. split; try done. constructor.
Qed.

Lemma rounds_ok0 : rounds_ok job0 rounds.
Proof.
  split; [|split; [|exact I]]; (split; [..|intros run Hrun; by apply round_of_answers]); try (split_and!; reflexivity).
  all: by vm_compute.
Qed.

Lemma rounds_fresh0 : rounds_fresh (run_keys db0) rounds.
Proof. split_and!; try constructor; try constructor; try (by vm_compute); constructor. Qed.

Lemma recurring_job_repeats_witness :
  (ready (length rounds) db0 job0 /\ rounds_ok job0 rounds /\ rounds_fresh (run_keys db0) rounds) /\
  exists runs db',
    execute_rounds (job_id job0) rounds (quiet_world db0) = Some (runs, quiet_world db') /\
    run_id <$> runs = (fun r => di_run_id (rd_due r)) <$> rounds /\
    run_scheduled_for <$> runs = occurrences job0 rounds /\
    StronglySorted Z.lt (occurrences job0 rounds) /\
    (forall interval anchor, job_schedule job0 = RecurringInterval interval anchor ->
       on_grid anchor interval (job_next_due job0) -> Forall (on_grid anchor interval) (occurrences job0 rounds)) /\
    run_sequence <$> runs = seqZ (last_sequence (job_id job0) db0 + 1) (Z.of_nat (length rounds)) /\
    tables_ok db' /\ stored_job db' (foldl after_round job0 rounds) /\
    run_keys db' = run_keys db0 ++ (claim_key <$> runs) /\
    Forall2 (fun r run => exists finished,
      stored_run db' finished /\ run_id finished = run_id run /\ run_outcome finished = Some (round_outcome r)) rounds runs /\
    (forall other, stored_run db0 other -> stored_run db' other).
Proof.
  split; [exact (conj ready0 (conj rounds_ok0 rounds_fresh0))|].
  exact (recurring_job_repeats rounds db0 job0 ready0 rounds_ok0 rounds_fresh0).
Defined.

(** The rounds, run: the first occurrence, then the first point of the grid
    after the end of the first round; the job waits for the third. *)
Example cycle_ex :
  match execute_rounds (job_id job0) rounds (quiet_world db0) with
  | Some (runs, w) =>
    run_scheduled_for <$> runs = [100 * 10 ^ 9; 160 * 10 ^ 9] /\
    rr_state <$> db_runs (w_db w) = [lit "failed"; lit "succeeded"] /\
    (fun r => (jr_state r, jr_revision r, jr_next_due r)) <$> db_jobs (w_db w) = [(lit "waiting", 8, Some (ts_show (220 * 10 ^ 9)))]
  | None => False
  end.
Proof. vm_compute. done. Qed.
