(* ===== verification/Execute.v ===== *)
(** The execution of one run on Linux: [RunMonitor::execute] of
    [run_monitor/lifecycle.rs] over its real parts, the log files of [Paths],
    the inspector of [Native], the start of the command of [Spawn], the capture
    of [Capture] and the echo of [Terminal].

    The answers of the machine are a record: what [/proc], the pipes, the
    disks, the clocks and the terminal give when they are asked. *)

From S2P Require Import Prelude Text Primitives Duration Identifier States Recurrence Execution JobAgg RunAgg.
From S2P Require Import Sqlite JobStore RunStore Reconcile Retention Progress Recovery Management Services Capture.
From S2P Require Import Process Spawn Native Terminal Paths Monitor.
Import Process.Identity.

(** ** The parts *)

(** [Display] of [PathError] and of [SpawnError]. *)
Definition path_error_text (e : PathError) : str :=
  match e with
  | PAE_MissingHome => lit "home directory is unavailable"
  | PAE_MissingRuntimeRoot => lit "secure runtime root is unavailable"
  | PAE_RelativePath => lit "path must be absolute"
  | PAE_InvalidLeafName => lit "path must be one normal relative component"
  | PAE_Insecure what => lit "insecure filesystem object: " ++ what
  | PAE_Io message => lit "filesystem operation failed: " ++ message
  | PAE_System message => lit "system call failed: " ++ message
  end.

Definition spawn_error_text (e : SpawnError) : str :=
  match e with
  | SPE_InvalidShellConfiguration => lit "invalid shell execution configuration"
  | SPE_Io message => lit "command spawn failed: " ++ message
  | SPE_ExitedBeforeInspection => lit "spawned command exited before identity inspection"
  | SPE_Inspection e => lit "spawned command identity inspection failed: " ++ process_error_text e
  | SPE_ProcessGroupSetup => lit "spawned command did not enter its dedicated process group"
  | SPE_MissingPipe => lit "spawned command output pipe is unavailable"
  | SPE_Panic => []
  end.

(** [mc_reads 0] answers the inspection of the monitor itself, the next ones
    those of the command. *)
Record Machine := mk_machine {
  mc_boot : str;
  mc_pid : Z;
  mc_reads : ProcReads;
  mc_spawn : Command -> result str Z;
  mc_stdout : Reader;
  mc_stderr : Reader;
  (** the two log files, empty, with the results of the writes to come *)
  mc_stdout_file : Writer;
  mc_stderr_file : Writer;
  mc_started : result ClockError UtcTimestamp;
  mc_status : result str ExitStatus;
  mc_finished : result ClockError UtcTimestamp;
  mc_failed : result ClockError UtcTimestamp;
  mc_tty : result str TtyFile
}.

Definition start_command (m : Machine) (e : ExecutionSpec)
  : result SpawnError (Z * ProcessIdentitySnapshot) * list SpawnEvent :=
  native_spawn (mc_boot m) (mc_spawn m) (fun n => mc_reads m (S n)) e [].

(** The answers that the steps of [execute] get. *)
Definition monitor_input (m : Machine) (state_directory : str) (cap : Z) (e : ExecutionSpec) (run : Run) (fs : Fs)
  : MonitorInput :=
  mk_monitor_input
    (map_err path_error_text
       (a ← (create_run_artifacts state_directory (run_id run) fs).1;
        Ok (ra_stdout_path a, ra_stderr_path a, mc_stdout_file m, mc_stderr_file m)))
    (map_err process_error_text (inspect (mc_boot m) (mc_reads m 0%nat) (mc_pid m)))
    (map_err spawn_error_text (x ← (start_command m e).1; Ok x.2))
    (Ok (mc_stdout m, mc_stderr m))
    (mc_started m) (mc_status m) (mc_finished m) (mc_failed m) cap (is_some (notify_tty e)).

(** What a run leaves behind. *)
Record Executed := mk_executed {
  ex_result : result MonitorError Run;
  ex_world : MonitorWorld;
  ex_fs : Fs;
  ex_processes : list SpawnEvent;
  ex_screen : Screen
}.

(** A wait on the child, whoever asks for it. *)
Definition child_event (child : Z) (e : ChildEvent) : list SpawnEvent :=
  match e with Spawned | Echoed _ => [] | Killed => [SV_Killed child] | Reaped => [SV_Waited child] end.

(** The terminal after the events: the echo reads the two logs back. *)
Definition echoed (m : Machine) (cap euid : Z) (events : list ChildEvent) (screen : Screen) : Screen :=
  let log (captured : CapturedStream) :=
    let bytes := wr_accepted (cs_writer captured) in Ok (mk_log_file true (len bytes) bytes None) in
  match capture_streams (mc_stdout m) (mc_stderr m) (mc_stdout_file m) (mc_stderr_file m) cap with
  | Ok (out, err) =>
    foldl (fun screen e =>
      match e with
      | Echoed truncated => (echo_tty (mc_tty m) euid (log out) (log err) truncated screen).2
      | _ => screen
      end) screen events
  | Err _ => screen
  end.

(** [RunMonitor::execute] *)
Definition execute `{Serde} `{ExecutionJson} (m : Machine) (state_directory : str) (cap : Z) (e : ExecutionSpec) (run : Run)
  (fs : Fs) (screen : Screen) (w : World) : Executed :=
  match check_claim run (mk_monitor_world w []) with
  | (Err error, mw) => mk_executed (Err error) mw fs [] screen
  | (Ok _, mw) =>
    let input := monitor_input m state_directory cap e run fs in
    let '(r, mw) := execute_claimed input run mw in
    let started :=
      match mi_artifacts input, mi_identity input with Ok _, Ok (Some _) => (start_command m e).2 | _, _ => [] end in
    let later :=
      match (start_command m e).1 with Ok (child, _) => concat (child_event child <$> mw_events mw) | Err _ => [] end in
    mk_executed r mw (create_run_artifacts state_directory (run_id run) fs).2 (started ++ later)
      (echoed m cap (fs_euid fs) (mw_events mw) screen)
  end.

(** ** Lemmas *)

Lemma inspected_identity boot read p i : inspect boot read p = Ok (Some i) -> identity_ok i /\ i32_ok (process_group_id i).
Proof.
  unfold inspect, inspect_platform. destruct (p =? 0); [done|]. unfold inspect_linux_process.
  destruct (read p) as [stat|error]; [|by destruct (proc_entry_vanished error)].
  destruct (parse_linux_process stat boot) as [process|] eqn:E; [|done]. intros [= <-].
  unfold parse_linux_process in E. apply bind_ok in E as (opening & _ & (closing & _ & E)%bind_ok).
  destruct (_ || _); [done|]. apply bind_ok in E as (q & _ & ([state fields] & _ & E)%bind_ok).
  destruct (negb _); [done|]. apply bind_ok in E as ([a fields1] & _ & ([group fields2] & _ & (g & Hg & E)%bind_ok)%bind_ok).
  apply bind_ok in E as ([start fields3] & _ & (token & _ & (u & Hv & [= <-])%bind_ok)%bind_ok). cbn [lp_identity process_group_id].
  split.
  - unfold identity_ok, validate_identity, validate_snapshot in *. by destruct (_ || _).
  - apply ok_or_ok in Hg. unfold parse_i32 in Hg. destruct (match group with 45 :: r => _ | _ => _ end) as [sign ds].
    destruct (_ || _); [done|]. apply checked_Some in Hg as [-> Hg]. unfold i32_ok. lia.
Qed.

(** What the spawn has started is the command that was specified. *)
Definition is_start (v : SpawnEvent) : bool := match v with SV_Started _ _ => true | _ => false end.

Lemma loop_events_no_start child n r : List.filter is_start (loop_events child n r) = [].
Proof.
  unfold loop_events. rewrite !List.filter_app. cbn [List.filter is_start app].
  replace (List.filter is_start (concat _)) with (@nil SpawnEvent); [by destruct r|].
  induction n as [|n IH]; [done|]. cbn. by rewrite <- IH.
Qed.

Lemma spawn_started spawn_child inspect_at e c p :
  In (SV_Started c p) (spawn spawn_child inspect_at e []).2 -> build_command e = Ok c /\ spawn_child c = Ok p.
Proof.
  intros Hin. assert (In (SV_Started c p) (List.filter is_start (spawn spawn_child inspect_at e []).2)) as Hf
    by (by apply List.filter_In). revert Hf. clear Hin.
  unfold spawn. unfold mbind at 1, port_bind at 1. destruct (build_command e) as [c'|]; [|done].
  unfold mbind at 1, port_bind at 1. destruct (spawn_child c') as [p'|] eqn:Es; [|done]. cbn [map_err].
  unfold mbind at 1, port_bind at 1. cbn [did app]. unfold mbind at 1, port_bind at 1.
  destruct (inspection_loop_spec inspect_at p' 0 (INSPECTION_ATTEMPTS - 1) [SV_Started c' p']) as (n & r & -> & _).
  assert (forall tail, List.filter is_start tail = [] ->
    In (SV_Started c p) (List.filter is_start (([SV_Started c' p'] ++ loop_events p' n r) ++ tail)) ->
    (Ok c' : result SpawnError Command) = Ok c /\ spawn_child c' = Ok p) as Hend.
  { intros tail Ht. rewrite !List.filter_app, loop_events_no_start, Ht. cbn. intros [[= -> ->]|[]]. split; [done|exact Es]. }
  destruct r as [identity|error].
  - case_bool_decide; cbn [negb].
    + intros Hf. destruct (Hend []) as [E1 E2]; [done|by rewrite app_nil_r|]. by split; [injection E1 as ->|injection E1 as <-].
    + intros Hf. destruct (Hend [SV_Killed p'; SV_Waited p']) as [E1 E2]; [done| |by split; [injection E1 as ->|injection E1 as <-]].
      unfold reap_failed_spawn, did, mbind, port_bind, port_fail in Hf. cbn [snd] in Hf. by rewrite <- !app_assoc in *.
  - intros Hf. destruct (Hend []) as [E1 E2]; [done|by rewrite app_nil_r|]. by split; [injection E1 as ->|injection E1 as <-].
Qed.

(** The waits of the monitor leave no process. *)
Lemma unreaped_later child more live :
  unreaped (concat (child_event child <$> more)) live = if bool_decide (Reaped ∈ more) then live ∖ {[child]} else live.
Proof.
  revert live. induction more as [|ev more IH]; intros live; [done|]. cbn [fmap list_fmap concat]. rewrite unreaped_app, IH.
  destruct ev; cbn [child_event unreaped]; repeat case_bool_decide; rewrite ?list_elem_of_cons in *; set_solver.
Qed.

Lemma later_no_start child more : List.filter is_start (concat (child_event child <$> more)) = [].
Proof. induction more as [|[] more IH]; [done|..]; cbn [fmap list_fmap concat child_event app List.filter is_start]; done. Qed.

(** The terminal shows plain text only. *)
Lemma echoed_plain m cap euid events screen :
  exists shown, sc_shown (echoed m cap euid events screen) = sc_shown screen ++ shown /\
    Forall (fun b => Terminal.plain_byte b = true) shown.
Proof.
  unfold echoed. destruct (capture_streams _ _ _ _ _) as [[out err]|]; [|exists []; by rewrite app_nil_r].
  cbv zeta. revert screen. induction events as [|ev events IH]; intros screen; [exists []; by rewrite app_nil_r|].
  cbn [foldl]. destruct (IH (match ev with
    | Echoed t => (echo_tty (mc_tty m) euid (Ok (mk_log_file true (len (wr_accepted (cs_writer out))) (wr_accepted (cs_writer out)) None))
        (Ok (mk_log_file true (len (wr_accepted (cs_writer err))) (wr_accepted (cs_writer err)) None)) t screen).2
    | _ => screen end)) as (shown & -> & Hp).
  destruct ev; try (by exists shown). destruct (echo_tty _ _ _ _ _ _) as [r s] eqn:E. cbn [snd].
  apply echo_contained in E as (before & -> & Hb & _). exists (before ++ shown). rewrite app_assoc. split; [done|].
  by apply Forall_app.
Qed.

(** The clocks go forward and the kernel gives integers of its range; nothing
    else is assumed of the machine. *)
Record machine_ok `{Serde} (m : Machine) (run : Run) : Prop := {
  mo_clocks : exists started finished failed,
    mc_started m = Ok started /\ mc_finished m = Ok finished /\ mc_failed m = Ok failed /\
    ts_ok started /\ ts_ok finished /\ ts_ok failed /\
    run_created_at run <= started <= finished /\ run_created_at run <= failed;
  mo_status : forall s, mc_status m = Ok s -> opt_Forall i32_ok (es_code s) /\ opt_Forall i32_ok (es_signal s)
}.

Lemma machine_answers `{Serde} `{ExecutionJson} m state_directory cap e run fs :
  machine_ok m run -> is_absolute state_directory = true -> uuid_ok (run_uuid (run_id run)) -> execution_ok e ->
  answers_ok (monitor_input m state_directory cap e run fs) run.
Proof.
  intros [Hclocks Hstatus] Habs Hid He. split; unfold monitor_input; cbn.
  - exact Hclocks.
  - intros i Hi. destruct (inspect _ _ _) as [o|] eqn:E; [|done]. injection Hi as ->. by apply inspected_identity in E as [? _].
  - intros i Hi. unfold start_command, native_spawn in Hi. destruct (spawn _ _ _ _) as [[[p i']|] events] eqn:E; [|done].
    injection Hi as <-. destruct (spawn_owned _ _ _ _ _ _ He E) as (c & evs & _ & _ & _ & Ho).
    destruct (mc_spawn m c) as [child|]; [|by destruct Ho]. destruct Ho as (_ & _ & _ & (n & Hn) & _).
    by eapply inspected_identity.
  - intros out err fo fe Ha. destruct (create_run_artifacts state_directory (run_id run) fs) as [[a|] fs'] eqn:E; [|done].
    injection Ha as <- <- _ _. destruct (artifacts_private _ _ _ _ _ Habs Hid E) as (_ & _ & _ & _ & Hf).
    apply List.Forall_cons_iff in Hf as [(_ & _ & _ & Hp1) Hf]. apply List.Forall_cons_iff in Hf as [(_ & _ & _ & Hp2) _]. done.
  - exact Hstatus.
Qed.

(** The logs of a run that has started its command. *)
Definition logs_private (state_directory : str) (run : Run) (fs fs' : Fs) : Prop :=
  exists a, create_run_artifacts state_directory (run_id run) fs = (Ok a, fs') /\
    Forall (fun '(file, stored) => fs_nodes fs !! file = None /\ private_file fs' file /\
              file = path_join state_directory stored)
      [(ra_stdout_file a, ra_stdout_path a); (ra_stderr_file a, ra_stderr_path a)].

(** ** Properties *)

(** C8 (liveness).  The execution of a claimed run, on any machine whose clocks
    go forward.  Whatever the disk, [/proc], the kernel, the pipes, the command
    and the terminal answer, it returns a run that is terminal, in the result
    and in the database, with the outcome that the answers call for.  No file
    of the user is replaced or changed.  Only the specified command is started,
    and only once its logs are new private files; whether it was started,
    killed or has ended, no process and no zombie is left.  The terminal of
    the submitter receives nothing but text without control sequences. *)
Theorem run_executed `{Serde} `{ExecutionJson} m state_directory cap e run fs screen db :
  run_table_ok db -> stored_run db run -> run_state run = RS_Starting -> run_started_at run = None ->
  machine_ok m run -> is_absolute state_directory = true -> uuid_ok (run_uuid (run_id run)) -> execution_ok e ->
  let x := execute m state_directory cap e run fs screen (quiet_world db) in
  exists finished db',
    ex_result x = Ok finished /\ mw_world (ex_world x) = quiet_world db' /\
    ended run (monitor_outcome (monitor_input m state_directory cap e run fs)) db db' finished /\
    extends fs (ex_fs x) /\
    (forall c p, In (SV_Started c p) (ex_processes x) ->
       command_of e c /\ mc_spawn m c = Ok p /\ logs_private state_directory run fs (ex_fs x)) /\
    unreaped (ex_processes x) ∅ = ∅ /\
    exists shown, sc_shown (ex_screen x) = sc_shown screen ++ shown /\
      Forall (fun b => Terminal.plain_byte b = true) shown.
Proof.
  intros Hok Hst Hs Hns Hm Habs Hid He x. pose proof (machine_answers m _ cap e run fs Hm Habs Hid He) as Ha.
  destruct (execute_claimed_ends _ run db [] Hok Hst Hs Hns Ha) as (finished & db' & more & Hex & Hend & Hsp & Hre).
  assert (x = mk_executed (Ok finished) (mk_monitor_world (quiet_world db') more) (create_run_artifacts state_directory (run_id run) fs).2
    (match mi_artifacts (monitor_input m state_directory cap e run fs), mi_identity (monitor_input m state_directory cap e run fs) with
     | Ok _, Ok (Some _) => (start_command m e).2 | _, _ => [] end ++
     match (start_command m e).1 with Ok (child, _) => concat (child_event child <$> more) | Err _ => [] end)
    (echoed m cap (fs_euid fs) more screen)) as Hx.
  { unfold x, execute. rewrite check_claim_quiet by done. cbv zeta. by rewrite Hex. }
  clearbody x. subst x. cbn [ex_result ex_world ex_fs ex_processes ex_screen mw_world]. exists finished, db'. split; [done|]. split; [done|]. split; [done|].
  destruct (create_run_artifacts state_directory (run_id run) fs) as [ra fs'] eqn:Er.
  split; [exact (careful_after _ _ _ _ (careful_artifacts _ _) Er)|].
  assert (In Spawned more -> Reaped ∈ more) as Hreaped by (intros; by apply list_elem_of_In, Hre).
  destruct (start_command m e) as [rc started] eqn:Ec. pose proof Ec as Eo. unfold start_command, native_spawn in Eo.
  destruct (spawn_owned _ _ _ _ _ _ He Eo) as (c & events & Hc & Hcmd & -> & Hown). cbn [app] in *.
  assert (forall c' p, In (SV_Started c' p) events -> command_of e c' /\ mc_spawn m c' = Ok p) as Hstart.
  { intros c' p Hin. assert (In (SV_Started c' p)
      (spawn (mc_spawn m) (fun n => inspect (mc_boot m) (mc_reads m (S n))) e []).2) as Hin' by (by rewrite Eo).
    apply spawn_started in Hin' as [Hb Hp]. rewrite Hc in Hb. by injection Hb as <-. }
  unfold monitor_input, command_started in *. cbn [mi_artifacts mi_identity mi_spawn] in *. rewrite Er, Ec in *. cbn [fst snd] in *.
  split; [|split; [|apply echoed_plain]].
  - intros c' p Hin. apply in_app_iff in Hin as [Hin|Hin].
    + destruct ra as [a|err]; [|done]. destruct (inspect _ _ _) as [[i|]|]; [|done..].
      cbn [mbind result_bind map_err] in Hin. destruct (Hstart _ _ Hin) as [? ?]. split; [done|]. split; [done|]. exists a. split; [done|].
      destruct (artifacts_private _ _ _ _ _ Habs Hid Er) as (_ & _ & _ & _ & Hf).
      eapply List.Forall_impl; [|exact Hf]. by intros [file stored] (? & ? & ? & _).
    + exfalso. destruct rc as [[child i]|]; [|done]. eapply (List.in_nil (A := SpawnEvent)).
      erewrite <- later_no_start. apply List.filter_In. split; [exact Hin|done].
  - rewrite unreaped_app. destruct ra as [a|err]; cbn [mbind result_bind map_err].
    2:{ destruct rc as [[child i]|]; [|done]. rewrite unreaped_later. cbn [unreaped]. case_bool_decide; set_solver. }
    destruct (inspect _ _ _) as [[i|]|]; cbn [map_err].
    2-3: (destruct rc as [[child i]|]; [|done]; rewrite unreaped_later; cbn [unreaped]; case_bool_decide; set_solver).
    destruct (mc_spawn m c) as [child|message]; [|by destruct Hown as [-> ->]]. destruct Hown as [_ Hown].
    destruct rc as [[child' j]|err]; [|by destruct Hown as [-> _]]. destruct Hown as (-> & _ & _ & ->).
    rewrite unreaped_later, bool_decide_eq_true_2; [set_solver|].
    apply Hreaped, Hsp. split; [done|]. split; [|done]. by exists i.
Qed.

(** ** Witness: a command that exits with 3 *)

Module ExecuteExample.
Export MonitorExample NativeExample.
(** The monitor is process 10, the command process 77. *)
Definition reads0 : ProcReads := fun _ p => Ok (line_of p (lit "atx") 83).
Definition machine0 : Machine :=
  mk_machine (lit "boot") 10 reads0 (fun _ => Ok 77) [Ok (lit "hello" ++ [27; 91; 50; 74; 10])] [] blank blank
    (Ok (due0 + 10)) (Ok (mk_exit_status (Some 3) None)) (Ok (due0 + 20)) (Ok (due0 + 30))
    (Ok (mk_tty_file true 1000 8592 true)).
Definition with_tty : ExecutionSpec := with_notify_tty example_direct (Some (lit "/dev/pts/1")).
Definition executed0 : Executed :=
  execute machine0 (lit "/s") 1024 with_tty MonitorExample.run0 PathsExample.fs0 (mk_screen [] []) (quiet_world claimed_db).
End ExecuteExample.
Import ExecuteExample.

Lemma with_tty_ok : execution_ok with_tty.
Proof. apply (set_notify_tty_preserves example_direct (lit "/dev/pts/1")); [exact example_direct_ok|]. vm_compute. reflexivity. Qed.

Lemma machine0_ok : machine_ok machine0 MonitorExample.run0.
Proof.
  split.
  - exists (due0 + 10), (due0 + 20), (due0 + 30). split_and!; try reflexivity; by vm_compute.
  - intros s [= <-]. split; [by vm_compute|done].
Qed.

Lemma run_executed_witness :
  exists finished db',
    ex_result executed0 = Ok finished /\ mw_world (ex_world executed0) = quiet_world db' /\
    ended MonitorExample.run0 (monitor_outcome (monitor_input machine0 (lit "/s") 1024 with_tty MonitorExample.run0 PathsExample.fs0))
      claimed_db db' finished /\
    extends PathsExample.fs0 (ex_fs executed0) /\
    (forall c p, In (SV_Started c p) (ex_processes executed0) ->
       command_of with_tty c /\ mc_spawn machine0 c = Ok p /\
       logs_private (lit "/s") MonitorExample.run0 PathsExample.fs0 (ex_fs executed0)) /\
    unreaped (ex_processes executed0) ∅ = ∅ /\
    exists shown, sc_shown (ex_screen executed0) = [] ++ shown /\ Forall (fun b => Terminal.plain_byte b = true) shown.
Proof.
  assert (is_absolute (lit "/s") = true) as H1 by reflexivity.
  assert (uuid_ok (run_uuid (run_id MonitorExample.run0))) as H2 by (split; vm_compute; discriminate).
  exact (run_executed machine0 (lit "/s") 1024 with_tty MonitorExample.run0 PathsExample.fs0 (mk_screen [] []) claimed_db
    claimed_table_ok run0_stored eq_refl eq_refl machine0_ok H1 H2 with_tty_ok).
Defined.

(** What happened: the outcome, the processes and the terminal. *)
Example executed0_ex :
  (run_outcome <$> ex_result executed0,
   map (fun v => match v with SV_Started _ p => (0, p) | SV_Inspected => (1, 0) | SV_Waited p => (2, p) | _ => (3, 0) end)
     (ex_processes executed0),
   sc_shown (ex_screen executed0)) =
  (Ok (Some (RO_Exit 3)), [(0, 77); (1, 0); (2, 77)], [10] ++ lit "hello[2J" ++ [10]).
Proof. vm_compute. reflexivity. Qed.
